(* ===== verification/_CoqProject ===== *)
-Q . S2P
Prelude.v
Text.v
BTree.v
Json.v
Domain.v
EventLog.v
Session.v
SessionFacts.v
SessionSpec.v
Workspace.v
Tools.v
ToolsFacts.v
Shell.v
Mcp.v
McpFacts.v
Permissions.v
PermissionFacts.v
Config.v
Body.v
BodyFacts.v
Provider.v
ProviderFacts.v
Transport.v
Store.v
StoreFacts.v
StoreSpec.v
Listing.v
Stream.v
Admission.v
World.v
Manager.v
Requests.v
Wire.v
Codec.v
CodecSpec.v
Supervisor.v
Delegation.v
Compaction.v
Execution.v
Worker.v
Api.v
Router.v
Startup.v
Client.v
WorldFacts.v
Views.v
StreamSpec.v
TurnFacts.v
SupervisorFacts.v
Steps.v
Workload.v
Reservations.v
Serial.v
Locks.v
ApiFacts.v
Scenario.v
ManagerSpec.v
TransportSpec.v
SupervisorSpec.v
HandlersSpec.v
ShutdownSpec.v
TurnSpec.v
WorkerSpec.v
DelegationSpec.v
ChildSpec.v
CompactionSpec.v
ApprovalSpec.v
ApiSpec.v
SerialSpec.v
StartupSpec.v
LocksSpec.v
ClientSpec.v
Frames.v
