(* ===== verification/Prelude.v ===== *)
(** Verification of piqo-server.

    * The program

    piqo-server is a local server for AI coding agents.  Clients create
    sessions and queue runs; a worker per session sends the conversation to a
    model provider, decodes the streamed answer, has the tool calls in it
    judged by permission rules and runs the allowed ones.  Everything that
    happens to a session is an event of an append-only log kept in SQLite; what
    the server knows about a session is a projection, the fold of its log.

    All five crates are modelled: [piqo-core] (events, log, projection, pure
    policy), [piqo-provider] (request bodies, decoding of responses),
    [piqo-tools] (native tools, MCP), [piqo-server] (configuration, store, run
    supervisor, HTTP API, start-up) and [piqo-cli] (the command line client).  The
    calls go downwards: a request goes through the router to a handler, which asks
    the supervisor; the supervisor reads a projection from the store, builds a body
    from the configuration and the projection, feeds response bytes to the
    decoders, appends the resulting events through the store, evaluates
    permissions and executes tools; what it appends reaches clients through the
    event hub and their streams.

    * The files

    - Prelude (this file): results and their monad, machine integers, stable
      sorting, sums over a map ([weigh]), the tactics [inv_ok], [split_ok],
      [in_list], the hint databases [piqo].
    - Text, BTree, Json: the parts of Rust's [str], [BTreeMap] and of
      [serde_json::Value] the source uses.
    - Domain: the data types of [piqo-core].
    - EventLog: [EventLog] of [piqo-core/src/event_log.rs].
    - Session: [SessionState] and [SessionProjection] of
      [piqo-core/src/session.rs], one definition per arm of [apply];
      SessionFacts: the relations [extends] (history grows) and
      [projection_wf] and their preservation, arm by arm; SessionSpec: what
      follows for replayed logs, the two state machines, the scheduling
      queries.
    - Workspace, Tools, ToolsFacts: the native tools of
      [piqo-tools/src/lib.rs] on an explicit file system; Shell: the process
      that a command becomes, with its arguments and its environment.
    - Permissions, PermissionFacts: the policy of
      [piqo-core/src/permissions.rs], the approvals table of
      [piqo-server/src/storage.rs], the agents' settings of [config.rs] and
      [evaluate_tool_permissions] of [supervisor.rs].
    - Mcp, McpFacts: the configuration, the catalog and the start, refresh and
      stop machine of the MCP servers of [piqo-tools/src/lib.rs].
    - Config: the configuration record with its defaults and checks, agents,
      body layers, limits, providers, endpoints, context budgets and
      identifiers of [piqo-server/src/config.rs].
    - Body, BodyFacts: [merge_request_bodies] of [piqo-provider/src/body.rs]
      and [build_body] of [supervisor.rs].
    - Provider, ProviderFacts: the decoders of
      [piqo-provider/src/transport.rs] and the response loop of [execute_run]
      in [supervisor.rs].
    - Transport: the requests of [ProviderTransport] in [transport.rs] and model
      discovery, on the class [Reqwest]; TransportSpec: what they carry, and how the
      other files' views of the transport follow from it ([wired]).
    - Store: sessions, events, projects and the projection cache of
      [piqo-server/src/storage.rs]; StoreFacts: what statements and
      transactions do to one session; StoreSpec: the invariant of reachable
      stores and the contracts of the operations; Listing: the pages of
      sessions and projects and their cursors.

    The run supervisor of [piqo-server/src/supervisor.rs] is a record of state
    ([World.World]) and a monad of handlers that change it ([World.M]):
    - Admission: [AdmissionController] and [EventHub].
    - World: the state of [SessionSupervisor], the monad, appending with what it
      announces, links of sessions, workers and tokens; the class [Outside] is
      everything the handlers ask of other code.
    - Requests: the JSON of run requests, permissions and agent results.
    - Supervisor: the handlers [queue_run], [resume], [retry],
      [submit_tool_result], [delete_project], restart and shutdown.
    - Delegation: [is_native_call], [evaluate_tool_permissions],
      [execute_approved_native_calls], [spawn_delegated_child] and
      [resolve_permission].
    - Compaction: [build_compacted_body], [summarize_context].
    - Execution: [execute_run]; Worker: [finish_run], [deliver_child_result],
      [process_session], [cancel], [shutdown].
    Their theorems:
    - WorldFacts: preorders that handlers keep ([keeps], [keeps_tac]); TurnFacts:
      lemmas [turn_*] on properties of whole turns, from an interface that says what
      single appends do; SupervisorFacts: the interface [KeptPrimitives] and, against it, one lemma
      [keeps_*] for every handler and worker.
    - Views: a store as a map from sessions to projections; Steps: what appending
      does to it; Reservations: the invariant [sound] and the instance of
      [KeptPrimitives] for it; Serial: another instance, that a session's history
      never has two runs running; Scenario: a concrete world for the witnesses.
    - SupervisorSpec (reachable worlds), HandlersSpec (single requests),
      ShutdownSpec, TurnSpec (turns of a run), Workload and
      WorkerSpec (workers end), DelegationSpec (approved calls),
      ChildSpec (results of child sessions), CompactionSpec, ApprovalSpec
      (durable approvals).
    What handlers do to locks while they wait is a machine of its own:
    - Locks: tasks as stacks of calls, the table of session locks and the permits of
      active runs, with every interleaving of their steps; LocksSpec: mutual
      exclusion, what a standstill looks like, and the permits that are never given
      back.

    Around the supervisor:
    - Manager: [ConfigManager] of [config.rs] (loading, Markdown agents, editing
      the TOML document, reload, discovery of models) on the file system of
      Workspace; the class [Documents] is the TOML and YAML crates.  ManagerSpec:
      its theorems.
    - Stream: the slots of open event streams and the loop of [stream_events] in
      [lib.rs] on a broadcast channel of finite capacity; StreamSpec: its
      theorems, among appends that commit and publish in separate steps.
    - Wire: the JSON views of the API and the JSON form of events.
    - Codec: serde's derives for the types of events, and the columns of rows; the
      class [JsonText] is serde_json's printer and parser; CodecSpec: round trips.
    - Api: the handlers of [lib.rs] with their errors and status codes, over the
      state [AppState]; Router: the table of routes, extractors and layers, up to
      [serve], one request from its arrival to its response.
    - ApiFacts: the interfaces [KeptStores] (what operations of the store keep) and
      [KeptSteps] (what whole steps keep) and, against them, one lemma for every
      handler, so that [api_steps] (any sequence of requests, workers, streams)
      keeps what single steps keep; ApiSpec: its theorems; SerialSpec: one run at a
      time, by the instances of Serial.
    - Startup: [runtime.rs], [connect] of [storage.rs] and the sidecar program
      [main.rs] over a [Machine] of files, locks and databases; StartupSpec.
    - Client: the command line client [piqo-cli/src/main.rs]; ClientSpec; Frames:
      the text of a stream, from [event_for_sse] of the server to the frames the
      client reads.

    * Conventions

    A fallible function returns [result E A]; a method on [&mut self] returns
    the value it leaves behind as well where an error can leave a changed one.
    Unsigned and signed integers are [Z] with the wrap-around, saturation or
    checked conversion of the source written out.  A [BTreeMap] or [HashMap]
    keyed by strings is a [gmap], iterated in key order through [btree_entries];
    [serde_json] objects are sorted association lists.  Fresh ids and clock
    readings are arguments.  What lies outside the repository is a parameter:
    [serde_json]'s text parser and printer, [reqwest]'s syntax checks, the
    process started by [bash], the text in the columns of an event row (class
    [EventCodec]).  Interleavings are explicit: a function that awaits between
    two shared accesses is cut into steps ([append_read], [append_commit],
    [append_cache] in Store).

    Handlers of the supervisor run one at a time: a handler is a function from
    the world to the world and a result, which is an error the client sees, a
    panic, a dropped future or the end of the fuel.  The n-th reading of the
    outside (a fresh id, a time, an answer of a provider) is the value of the
    corresponding function at the clock [w_ticks].  Request dumps are left out.
    The waiting that this hides, for the lock of a session and for a permit, is
    the subject of Locks.

    Fuel: resolution of symbolic links follows at most forty links, as the
    kernel does; [drain] (Provider) takes the length of the buffer, which is
    enough because every frame it removes is at least two bytes long
    ([drain_fuel] in ProviderFacts); the loop over approved calls takes the
    number of the calls ([execute_approved_ends] in DelegationSpec);
    [execute_run] and [send_loop] take the number of attempts the source
    allows.  [process_session] and [cancel] are given a bound on the rounds of
    nested workers and on the depth of the links; the theorems about them hold
    for every fuel, and a result cut short is the explicit fault [OutOfFuel];
    [workers_end] and [cancellations_end] (WorkerSpec) say how much is enough: more
    than [workload], the starts that the runs of all sessions have left.

    * What the theorems show

    - C1, C2, C5, C25: over any sequence of requests, workers, recovery and shutdown
      the store stays valid and history only grows, a session never has two runs
      running, reservations are counted exactly, bounded and belong to runs that are
      not over, links are a forest and no session delegates to itself through others.
    - C3, C4, C40: tasks that interleave work on a session one at a time; locks
      never stop them all, permits can.
    - C19 to C21: a server can be started again on whatever another one left, a
      stop leaves nothing running, one server holds a lock.
    - C7, C10, C16: starting a run through the API, submitting a tool result and
      retrying a run, on every branch.
    - C8, C9: what the end of a turn records for each result; workers end, and how
      many rounds are enough.
    - C14, C15: the loop over approved calls ends and leaves none unstarted, a
      child's result is delivered once.
    - C11, C22 to C24, C27: access by token; edits of the configuration are
      all or nothing, the active one is valid, a bad reload stops the server;
      requests to a provider carry what its configuration says.
    - C12, C13, C39: streams are complete, their text is read as the events it was
      written for, the client sees each event once.
    - C38: the client's requests are the ones the server understands.
    - C26: a body fits its budget.  C28: which later calls a durable approval
      decides, and that one for [edit] decides none.
    - C6, C17, C18, C35, C36: appends refine the append to a log, every store
      passes the validation of the next start, rows are read back as they were
      written, forks are closed prefixes, listings are complete.
    - C29, C30: replayed projections are well-formed and terminal runs are final.
    - C31 to C33: the file tools stay inside the workspace and touch one file;
      writes are all or nothing.
    - C34: a configured denial or a parent's ceiling is never exceeded.
    - C37: the cutting of a response into chunks does not change its result.
    Theorems without a number are parts of these stories that other files build
    on or that stand on their own: the in-memory event log, redelivery, the
    phase machine, the pause flag and the revision, overlapping appends and
    publications out of order ([racing_appends_lose_updates],
    [reordered_publication_loses_an_event]), the slots of streams, the chat
    transcript, the catalog that shows no secrets, the environment of tools, locks
    that stay in the table, the key that depends on the order of headers, the queue's order, [write] and [edit] on every
    branch, bounds of tool arguments and outputs, layers of a body, the panic after
    a compaction, the recorded input of a turn, the branch that would pause a run for
    its tool calls and is never taken, the end of cancellations, stranded calls, the
    catalog and the restarts of MCP servers, recovery, the event hub, counters that
    never count, unknown rules, reloads of a deleted file, edits that forget Markdown
    agents, gaps of the ceiling, flush timing, server names with a hyphen.

    * What is not modelled

    HTTP itself: axum's server, its query parser, percent decoding, the writing of
    server-sent events (class [SseText]) and the generated API document; the HTTP
    client is [reqwest]'s (class [Reqwest]), and in the supervisor's files the
    outcome of [send].  SQLite itself: statements act on the tables of Store,
    [VACUUM INTO] and the integrity checks are outcomes.  The text of TOML and
    YAML documents, the processes and the protocol of MCP servers, signals,
    tracing, request dumps, permissions of files, and clap's parser of the command
    line.  Handlers of the supervisor and of the API run one at a time;
    interleavings are modelled where they matter: tasks around locks and permits
    (C3, C4, C40), appends that overlap ([racing_appends_lose_updates]), and commits
    and publications of handlers around a stream (C12, C39). *)

From stdpp Require Export prelude strings gmap list sorting.
From Stdlib Require Export ZArith Lia ZifyBool.

#[global] Open Scope Z_scope.

(** * Fallible computations: Rust's [Result] *)

Inductive result (E A : Type) : Type :=
  | Ok (a : A)
  | Err (e : E).
Arguments Ok {E A} a.
Arguments Err {E A} e.

#[export] Instance result_mret {E} : MRet (result E) := fun A a => Ok a.
#[export] Instance result_mbind {E} : MBind (result E) := fun A B f r =>
  match r with Ok a => f a | Err e => Err e end.
#[export] Instance result_fmap {E} : FMap (result E) := fun A B f r =>
  match r with Ok a => Ok (f a) | Err e => Err e end.
#[export] Instance result_eq_dec {E A} `{EqDecision E, EqDecision A} :
  EqDecision (result E A).
Proof. solve_decision. Defined.

(** [Option::ok_or], [Result::ok], [Result::is_ok] and [Result::map_err]. *)
Definition ok_or {E A} (e : E) (o : option A) : result E A :=
  match o with Some a => Ok a | None => Err e end.
Definition ok {E A} (r : result E A) : option A :=
  match r with Ok a => Some a | Err _ => None end.
Definition is_ok {E A} (r : result E A) : bool :=
  match r with Ok _ => true | Err _ => false end.
Definition map_err {E F A} (f : E -> F) (r : result E A) : result F A :=
  match r with Ok a => Ok a | Err e => Err (f e) end.

(** [iter().map(f).collect::<Result<Vec<_>, _>>()]: the first error wins. *)
Fixpoint collect {E A B} (f : A -> result E B) (l : list A) : result E (list B) :=
  match l with
  | [] => Ok []
  | a :: l => b ← f a; bs ← collect f l; Ok (b :: bs)
  end.

(** A loop that threads a state and stops at the first error. *)
Fixpoint try_fold {E A S} (f : S -> A -> result E S) (s : S) (l : list A) : result E S :=
  match l with
  | [] => Ok s
  | a :: l => s' ← f s a; try_fold f s' l
  end.

(** [inv_ok] opens every successful bind among the hypotheses. *)
Ltac inv_ok :=
  repeat (simplify_eq/=;
    match goal with
    | H : mbind _ ?r = Ok _ |- _ => destruct r eqn:?; simpl in H; [|discriminate H]
    | H : ok_or _ ?o = Ok _ |- _ => destruct o eqn:?; simpl in H; [|discriminate H]
    | H : Ok _ = Ok _ |- _ => injection H as H
    | H : Err _ = Ok _ |- _ => discriminate H
    | H : Ok _ = Err _ |- _ => discriminate H
    | H : Some _ = None |- _ => discriminate H
    | H : None = Some _ |- _ => discriminate H
    end); simplify_eq/=.

(** [split_ok] also splits the matches and conditionals an equation
    [... = Ok _] goes through. *)
Ltac split_ok :=
  repeat (inv_ok;
    match goal with
    | H : context [match ?x with _ => _ end] |- _ =>
        match type of H with
        | _ = Ok _ => destruct x eqn:?; try discriminate H
        end
    end); inv_ok.

(** [in_list H] goes through the elements of the literal list of [H : x ∈ [..]]. *)
Ltac in_list H :=
  rewrite ?elem_of_cons, ?elem_of_nil in H;
  repeat match type of H with _ \/ _ => destruct H as [H|H] end;
  try discriminate H; try contradiction H.

Create HintDb piqo.
Create Rewrite HintDb piqo.

Section result_lemmas.
  Context {E A B S : Type}.

Lemma ok_or_Ok (e : E) (o : option A) (a : A) : ok_or e o = Ok a <-> o = Some a.
Proof. destruct o; simpl; split; congruence. Qed.

Lemma try_fold_app (f : S -> A -> result E S) s l1 l2 :
    try_fold f s (l1 ++ l2) = (s' ← try_fold f s l1; try_fold f s' l2).
Proof.
    revert s. induction l1 as [|a l1 IH]; intros s; simpl; [done|].
    destruct (f s a) as [s'|e]; simpl; [apply IH | done].
Qed.

(** An invariant of every step is an invariant of the loop. *)
Lemma try_fold_inv (P : S -> Prop) (f : S -> A -> result E S) l :
    (forall s a s', a ∈ l -> P s -> f s a = Ok s' -> P s') ->
    forall s s', P s -> try_fold f s l = Ok s' -> P s'.
Proof.
    induction l as [|a l IH]; intros Hf s s' HP H; simpl in H; inv_ok; [done|].
    eapply IH; [|eapply Hf; [left| |]; eauto|eauto].
    intros s1 a1 s2 Hin. apply Hf. by right.
Qed.

Lemma collect_length (f : A -> result E B) l bs :
    collect f l = Ok bs -> length bs = length l.
Proof.
    revert bs. induction l as [|a l IH]; intros bs H; simpl in H; inv_ok; [done|].
    simpl. f_equal. by apply IH.
Qed.

Lemma collect_Forall2 (f : A -> result E B) l bs :
    collect f l = Ok bs <-> Forall2 (fun a b => f a = Ok b) l bs.
Proof.
    revert bs. induction l as [|a l IH]; intros bs; simpl; split; intros H.
    - inv_ok. constructor.
    - by inversion H.
    - inv_ok. constructor; [done|]. by apply IH.
    - inversion H as [|? b ? bs' Hf Hr]; subst. rewrite Hf; simpl.
      apply IH in Hr. by rewrite Hr.
Qed.

Lemma is_ok_Ok (r : result E A) : is_ok r = true -> exists a, r = Ok a.
Proof. destruct r; [by eexists|done]. Qed.
End result_lemmas.

(** * Machine integers *)

Definition u8_max : Z := 2 ^ 8 - 1.
Definition u16_max : Z := 2 ^ 16 - 1.
Definition u32_max : Z := 2 ^ 32 - 1.
Definition u64_max : Z := 2 ^ 64 - 1.
Definition i64_max : Z := 2 ^ 63 - 1.
(** [usize] of the 64-bit targets the server is built for. *)
Definition usize_max : Z := u64_max.

(** Rust's [+] on [u64] and [u32] in a release build wraps around. *)
Definition u64_add (x y : Z) : Z := (x + y) mod 2 ^ 64.
Definition u32_add (x y : Z) : Z := (x + y) mod 2 ^ 32.
(** [saturating_add], [saturating_mul] and [saturating_sub] on [u64]. *)
Definition u64_sat_add (x y : Z) : Z := Z.min u64_max (x + y).
Definition u64_sat_mul (x y : Z) : Z := Z.min u64_max (x * y).
Definition u64_sat_sub (x y : Z) : Z := Z.max 0 (x - y).
(** [i64::try_from] on an unsigned value, and [u64::try_from] on a signed one. *)
Definition i64_of_u64 (x : Z) : option Z := if x <=? i64_max then Some x else None.
Definition u64_of_i64 (x : Z) : option Z := if 0 <=? x then Some x else None.

Lemma i64_of_u64_in x : x <= i64_max -> i64_of_u64 x = Some x.
Proof. intros H. unfold i64_of_u64. by rewrite (proj2 (Z.leb_le _ _) H). Qed.
Lemma i64_of_u64_out x : i64_max < x -> i64_of_u64 x = None.
Proof. intros H. unfold i64_of_u64. by rewrite (proj2 (Z.leb_gt _ _) H). Qed.

Lemma u64_add_small x y : 0 <= x + y <= u64_max -> u64_add x y = x + y.
Proof. unfold u64_add, u64_max. intros H. apply Z.mod_small. lia. Qed.
Lemma u64_add_range x y : 0 <= u64_add x y <= u64_max.
Proof. unfold u64_add, u64_max. pose proof (Z.mod_pos_bound (x + y) (2 ^ 64)). lia. Qed.

(** * Stable sorting: Rust's [sort_by] and SQL's [ORDER BY] *)

Section sort_by.
  Context {A : Type} (leb : A -> A -> bool).

Fixpoint insert_by (x : A) (l : list A) : list A :=
    match l with
    | [] => [x]
    | y :: l' => if leb x y then x :: l else y :: insert_by x l'
    end.

Fixpoint sort_by (l : list A) : list A :=
    match l with
    | [] => []
    | x :: l => insert_by x (sort_by l)
    end.

Lemma insert_by_perm x l : insert_by x l ≡ₚ x :: l.
Proof.
    induction l as [|y l IH]; simpl; [done|].
    destruct (leb x y); [done|]. rewrite IH. apply Permutation_swap.
Qed.

Lemma sort_by_perm l : sort_by l ≡ₚ l.
Proof.
    induction l as [|x l IH]; simpl; [done|]. by rewrite insert_by_perm, IH.
Qed.

Lemma elem_of_sort_by x l : x ∈ sort_by l <-> x ∈ l.
Proof. by rewrite sort_by_perm. Qed.

Lemma length_sort_by l : length (sort_by l) = length l.
Proof. by rewrite sort_by_perm. Qed.

Lemma insert_by_Forall P x l : P x -> Forall P l -> Forall P (insert_by x l).
Proof. intros. rewrite insert_by_perm. by constructor. Qed.

(** The result is sorted whenever the comparison is a total preorder. *)
Lemma sort_by_sorted l :
    (forall x y, leb x y || leb y x) ->
    (forall x y z, leb x y -> leb y z -> leb x z) ->
    StronglySorted leb (sort_by l).
Proof.
    intros Htot Htr. induction l as [|x l IH]; simpl; [constructor|].
    generalize dependent (sort_by l). clear l. intros l.
    induction l as [|y l IHl]; intros Hs; simpl; [repeat constructor|].
    apply StronglySorted_inv in Hs as [Hs Hy]. destruct (leb x y) eqn:Hxy.
    - constructor; [by constructor|]. constructor; [by rewrite Hxy|].
      eapply Forall_impl; [exact Hy|]. intros z Hz. eapply Htr; [|exact Hz]. by rewrite Hxy.
    - constructor; [by apply IHl|]. apply insert_by_Forall; [|done].
      specialize (Htot x y). rewrite Hxy in Htot. by destruct (leb y x).
Qed.

(** Sorting keeps an already sorted list as it is (stability). *)
Lemma sort_by_id l : StronglySorted leb l -> sort_by l = l.
Proof.
    induction 1 as [|x l Hs IH Hx]; simpl; [done|].
    rewrite IH. destruct l as [|y l]; [done|].
    apply Forall_cons in Hx as [Hx _]. simpl. by destruct (leb x y).
Qed.
End sort_by.

(** * Sums over the entries of a map *)

Section weigh.
  Context `{Countable K} {V : Type} (f : V -> nat).
  Implicit Types (k : K) (m : gmap K V).

Definition weigh (m : gmap K V) : nat := map_fold (fun _ v n => (f v + n)%nat) 0%nat m.

Lemma weigh_fresh k v m :
  m !! k = None -> weigh (<[k := v]> m) = (f v + weigh m)%nat.
Proof. intros Hk. unfold weigh. rewrite map_fold_insert_L; [done|intros; lia|done]. Qed.

Lemma weigh_delete k v m :
  m !! k = Some v -> weigh m = (f v + weigh (delete k m))%nat.
Proof.
  intros Hk. rewrite <- (insert_id m k v) at 1 by done. rewrite <- insert_delete_eq.
  apply weigh_fresh, lookup_delete_eq.
Qed.

(** A map whose entries weigh at most as much as those of another. *)
Lemma weigh_le m m' :
  (forall k v', m' !! k = Some v' -> exists v, m !! k = Some v /\ (f v' <= f v)%nat) -> (weigh m' <= weigh m)%nat.
Proof.
  revert m. induction m' as [|k v' m' Hk IH] using map_ind; intros m Hm; [unfold weigh at 1; rewrite map_fold_empty; lia|].
  destruct (Hm k v') as (v & Hv & Hle); [by rewrite lookup_insert_eq|].
  rewrite weigh_fresh, (weigh_delete k v m) by done.
  assert (weigh m' <= weigh (delete k m))%nat; [|lia]. apply IH. intros j x Hx.
  assert (j <> k) by (intros ->; congruence). rewrite lookup_delete_ne by done.
  apply Hm. by rewrite lookup_insert_ne.
Qed.

End weigh.
