(* ===== verification/Text.v ===== *)
(** Byte strings: the part of Rust's [str] the server uses.

    A Rust [String] is a sequence of UTF-8 bytes, modelled by [string] (one
    [ascii] per byte); [blen] is [str::len].  Ordering is byte-wise, as [Ord]
    for [str].  Every function here is a standard-library function named in
    its comment. *)

From S2P Require Export Prelude.
From Stdlib Require Export Ascii.

#[global] Open Scope string_scope.
#[global] Open Scope list_scope.
#[global] Open Scope Z_scope.

Notation "s1 ++s s2" := (String.append s1 s2) (at level 60, right associativity) : list_scope.

Definition blen (s : string) : Z := Z.of_nat (String.length s).
Definition is_empty (s : string) : bool := match s with "" => true | _ => false end.
Definition byte (c : ascii) : Z := Z.of_nat (nat_of_ascii c).

Definition nl : ascii := "010"%char.
Definition cr : ascii := "013"%char.
Definition space : ascii := "032"%char.
Definition NL : string := String nl "".
Definition CR : string := String cr "".
Definition DQ : string := String "034"%char "".

(** ** Prefixes, suffixes, searching *)

Fixpoint strip_prefix (p s : string) : option string :=
  match p, s with
  | "", _ => Some s
  | String c p, String d s => if (c =? d)%char then strip_prefix p s else None
  | String _ _, "" => None
  end.
Definition starts_with (p s : string) : bool := bool_decide (is_Some (strip_prefix p s)).

Fixpoint str_rev_app (s acc : string) : string :=
  match s with "" => acc | String c s => str_rev_app s (String c acc) end.
Definition str_rev (s : string) : string := str_rev_app s "".

Definition strip_suffix (p s : string) : option string :=
  str_rev <$> strip_prefix (str_rev p) (str_rev s).
Definition ends_with (p s : string) : bool := bool_decide (is_Some (strip_suffix p s)).

(** [trim_start_matches(c)] and [trim_end_matches(c)] for one character. *)
Fixpoint trim_start_char (c : ascii) (s : string) : string :=
  match s with
  | String d s' => if (c =? d)%char then trim_start_char c s' else s
  | "" => ""
  end.
Definition trim_end_char (c : ascii) (s : string) : string :=
  str_rev (trim_start_char c (str_rev s)).

Fixpoint contains_byte (c : ascii) (s : string) : bool :=
  match s with "" => false | String d s => (c =? d)%char || contains_byte c s end.

Fixpoint str_forallb (p : ascii -> bool) (s : string) : bool :=
  match s with "" => true | String c s => p c && str_forallb p s end.

(** [split_once(c)]. *)
Fixpoint split_once (c : ascii) (s : string) : option (string * string) :=
  match s with
  | "" => None
  | String d s =>
      if (c =? d)%char then Some ("", s)
      else '(l, r) ← split_once c s; Some (String d l, r)
  end.

(** [u8::is_ascii_alphanumeric]. *)
Definition is_ascii_alphanumeric (c : ascii) : bool :=
  let b := byte c in
  ((48 <=? b) && (b <=? 57)) || ((65 <=? b) && (b <=? 90)) || ((97 <=? b) && (b <=? 122)).

(** ** White space

    [str::trim] removes the characters with the Unicode property
    [White_Space]; [ws_len] is the byte length of such a character at the
    front of the bytes, 0 when there is none.  [ws_len_rev] does the same for
    a character whose bytes come in reverse order. *)
Definition bytes3 (a b c : Z) : bool :=
  ((a =? 225) && (b =? 154) && (c =? 128))
  || ((a =? 226) && (b =? 128)
      && (((128 <=? c) && (c <=? 138)) || (c =? 168) || (c =? 169) || (c =? 175)))
  || ((a =? 226) && (b =? 129) && (c =? 159))
  || ((a =? 227) && (b =? 128) && (c =? 128)).
Definition bytes2 (a b : Z) : bool := (a =? 194) && ((b =? 133) || (b =? 160)).
Definition bytes1 (a : Z) : bool := ((9 <=? a) && (a <=? 13)) || (a =? 32).

Fixpoint trim_start_fuel (three : Z -> Z -> Z -> bool) (two : Z -> Z -> bool)
    (fuel : nat) (s : string) : string :=
  match fuel with
  | O => s
  | S fuel =>
      match s with
      | "" => ""
      | String a s1 =>
          if bytes1 (byte a) then trim_start_fuel three two fuel s1
          else match s1 with
          | "" => s
          | String b s2 =>
              if two (byte a) (byte b) then trim_start_fuel three two fuel s2
              else match s2 with
              | "" => s
              | String c s3 =>
                  if three (byte a) (byte b) (byte c)
                  then trim_start_fuel three two fuel s3 else s
              end
          end
      end
  end.

(** Each round removes a byte, so the length of the string is enough fuel. *)
Definition trim_start (s : string) : string :=
  trim_start_fuel bytes3 bytes2 (String.length s) s.
Definition trim_end (s : string) : string :=
  let r := str_rev s in
  str_rev (trim_start_fuel (fun c b a => bytes3 a b c) (fun b a => bytes2 a b)
             (String.length r) r).
Definition trim (s : string) : string := trim_end (trim_start s).

(** ** Lines *)

(** [split_inclusive('\n')]. *)
Fixpoint split_inclusive (s : string) : list string :=
  match s with
  | "" => []
  | String c s =>
      if (c =? nl)%char then NL :: split_inclusive s
      else match split_inclusive s with
      | [] => [String c ""]
      | l :: ls => String c l :: ls
      end
  end.

Definition strip_line_ending (l : string) : string :=
  match strip_suffix NL l with
  | None => l
  | Some l1 => match strip_suffix CR l1 with None => l1 | Some l2 => l2 end
  end.

(** [str::lines]: a carriage return is only removed before a line feed. *)
Definition lines (s : string) : list string := strip_line_ending <$> split_inclusive s.

(** [slice::join] and [collect::<String>]. *)
Fixpoint join (sep : string) (l : list string) : string :=
  match l with
  | [] => ""
  | [s] => s
  | s :: l => s ++s sep ++s join sep l
  end.
Definition str_concat (l : list string) : string := foldr String.append "" l.

(** ** UTF-8 *)

(** [str::is_char_boundary] at a byte that is inside the string: the byte is
    not a continuation byte. *)
Definition is_continuation (c : ascii) : bool := (128 <=? byte c) && (byte c <? 192).

Definition cont (b : Z) : bool := (128 <=? b) && (b <? 192).

(** [str::from_utf8]'s validity test (RFC 3629: no overlong forms, no
    surrogates, nothing above U+10FFFF). *)
Fixpoint utf8_valid_fuel (fuel : nat) (s : string) : bool :=
  match fuel with
  | O => match s with "" => true | _ => false end
  | S fuel =>
      match s with
      | "" => true
      | String a s1 =>
          let x := byte a in
          if x <? 128 then utf8_valid_fuel fuel s1
          else if (194 <=? x) && (x <=? 223) then
            match s1 with
            | String b s2 => cont (byte b) && utf8_valid_fuel fuel s2
            | _ => false
            end
          else if (224 <=? x) && (x <=? 239) then
            match s1 with
            | String b (String c s3) =>
                cont (byte b) && cont (byte c)
                && (if x =? 224 then 160 <=? byte b else true)
                && (if x =? 237 then byte b <=? 159 else true)
                && utf8_valid_fuel fuel s3
            | _ => false
            end
          else if (240 <=? x) && (x <=? 244) then
            match s1 with
            | String b (String c (String d s4)) =>
                cont (byte b) && cont (byte c) && cont (byte d)
                && (if x =? 240 then 144 <=? byte b else true)
                && (if x =? 244 then byte b <=? 143 else true)
                && utf8_valid_fuel fuel s4
            | _ => false
            end
          else false
      end
  end.
Definition utf8_valid (s : string) : bool := utf8_valid_fuel (String.length s) s.

(** ** Decimal printing, as [format!] prints an unsigned integer *)
Fixpoint show_fuel (fuel : nat) (n : Z) (acc : string) : string :=
  match fuel with
  | O => acc
  | S fuel =>
      let acc := String (ascii_of_nat (48 + Z.to_nat (n mod 10))) acc in
      if n <? 10 then acc else show_fuel fuel (n / 10) acc
  end.
(** Twenty digits are enough for every [u64]. *)
Definition show_u64 (n : Z) : string := show_fuel 20 n "".

(** ** Searching and replacing: [matches], [contains], [replace], [replacen] *)

Definition str_drop (n : nat) (s : string) : string := String.substring n (String.length s - n) s.
Definition str_take (n : nat) (s : string) : string := String.substring 0 n s.

(** [match_indices(pat).count()] for a non-empty [pat]: occurrences from left to
    right that do not overlap; [skip] bytes still belong to the last one. *)
Fixpoint count_from (pat : string) (skip : nat) (s : string) : Z :=
  match s with
  | "" => 0
  | String _ s' =>
      match skip with
      | S skip => count_from pat skip s'
      | O => if starts_with pat s then 1 + count_from pat (String.length pat - 1) s'
             else count_from pat 0 s'
      end
  end.
Definition str_count (pat s : string) : Z := count_from pat 0 s.
Definition contains_str (pat s : string) : bool := 0 <? str_count pat s.

(** [replacen(pat, new, n)] for a non-empty [pat]; [None] stands for no limit. *)
Fixpoint replace_from (pat new : string) (n : option nat) (skip : nat) (s : string) : string :=
  match s with
  | "" => ""
  | String c s' =>
      match skip with
      | S skip => replace_from pat new n skip s'
      | O =>
          if starts_with pat s && negb (bool_decide (n = Some O))
          then new ++s replace_from pat new (pred <$> n) (String.length pat - 1) s'
          else String c (replace_from pat new n 0 s')
      end
  end.
Definition str_replace (pat new s : string) : string := replace_from pat new None 0 s.
Definition str_replacen (pat new : string) (n : nat) (s : string) : string :=
  replace_from pat new (Some n) 0 s.

Example count_overlap : str_count "aa" "aaaa" = 2. Proof. reflexivity. Qed.
Example replacen_once : str_replacen "b" "xy" 1 "abab" = "axyab". Proof. reflexivity. Qed.

(** ** [String::from_utf8_lossy]

    [utf8_step] looks at the front of the bytes: the length of a character, or
    the length of the ill-formed part that one replacement character stands for. *)
Definition utf8_step (s : string) : bool * nat :=
  match s with
  | "" => (true, O)
  | String a s1 =>
      let x := byte a in
      let second := match s1 with String b _ => byte b | _ => 0 end in
      let third := match s1 with String _ (String c _) => cont (byte c) | _ => false end in
      let fourth := match s1 with String _ (String _ (String d _)) => cont (byte d) | _ => false end in
      if x <? 128 then (true, 1%nat)
      else if (194 <=? x) && (x <=? 223) then
        if cont second then (true, 2%nat) else (false, 1%nat)
      else if (224 <=? x) && (x <=? 239) then
        if cont second && (if x =? 224 then 160 <=? second else true)
           && (if x =? 237 then second <=? 159 else true)
        then if third then (true, 3%nat) else (false, 2%nat)
        else (false, 1%nat)
      else if (240 <=? x) && (x <=? 244) then
        if cont second && (if x =? 240 then 144 <=? second else true)
           && (if x =? 244 then second <=? 143 else true)
        then if third then if fourth then (true, 4%nat) else (false, 3%nat) else (false, 2%nat)
        else (false, 1%nat)
      else (false, 1%nat)
  end.

Definition REPLACEMENT : string :=
  String (ascii_of_nat 239) (String (ascii_of_nat 191) (String (ascii_of_nat 189) "")).

Fixpoint lossy_fuel (fuel : nat) (s : string) : string :=
  match fuel with
  | O => ""
  | S fuel =>
      match s with
      | "" => ""
      | _ => let '(valid, n) := utf8_step s in
             (if valid then str_take n s else REPLACEMENT) ++s lossy_fuel fuel (str_drop n s)
      end
  end.
(** Each round consumes at least one byte. *)
Definition from_utf8_lossy (s : string) : string := lossy_fuel (S (String.length s)) s.

(** ** Laws *)

Lemma append_cons c a b : String c a ++s b = String c (a ++s b).
Proof. reflexivity. Qed.

Lemma append_assoc a b c : (a ++s b) ++s c = a ++s b ++s c.
Proof. induction a as [|x a IH]; [done|]. rewrite !append_cons. by f_equal. Qed.

Lemma append_nil_r a : a ++s "" = a.
Proof. induction a as [|x a IH]; [done|]. rewrite append_cons. by f_equal. Qed.

Lemma length_append a b : String.length (a ++s b) = (String.length a + String.length b)%nat.
Proof. induction a as [|x a IH]; [done|]. rewrite append_cons. simpl. by f_equal. Qed.

Lemma strip_prefix_Some p s r : strip_prefix p s = Some r <-> s = p ++s r.
Proof.
  revert s. induction p as [|c p IH]; intros s.
  - simpl. change ("" ++s r) with r. split; congruence.
  - rewrite append_cons. destruct s as [|d s]; simpl; [done|].
    destruct (Ascii.eqb_spec c d) as [->|Hne]; [rewrite IH; split; congruence|].
    split; [done|congruence].
Qed.

Lemma starts_with_spec p s : starts_with p s = true <-> exists r, s = p ++s r.
Proof.
  unfold starts_with. rewrite bool_decide_eq_true. unfold is_Some.
  by setoid_rewrite strip_prefix_Some.
Qed.

Lemma append_inj_l a b c : a ++s b = a ++s c -> b = c.
Proof. induction a as [|x a IH]; [done|]. rewrite !append_cons. intros [= H]. auto. Qed.

(** An occurrence that is counted can be exhibited, and [replacen] with limit
    one replaces exactly that occurrence. *)
Lemma replace_skip pat new n p s :
  replace_from pat new n (String.length p) (p ++s s) = replace_from pat new n 0 s.
Proof. induction p as [|c p IH]; [done|]. by rewrite append_cons. Qed.

Lemma replace_zero pat new skip s :
  skip = O -> replace_from pat new (Some O) skip s = s.
Proof.
  revert skip. induction s as [|c s IH]; intros skip ->; simpl; [done|].
  rewrite andb_false_r. by rewrite IH.
Qed.

Lemma count_from_nonneg pat skip s : 0 <= count_from pat skip s.
Proof.
  revert skip. induction s as [|c s IH]; intros [|skip]; simpl; try lia; try apply IH.
  pose proof (IH O). pose proof (IH (String.length pat - 1)%nat).
  destruct (starts_with pat (String c s)); lia.
Qed.

Lemma replacen_first pat new s :
  0 < str_count pat s -> pat <> "" ->
  exists a b, s = a ++s pat ++s b /\ str_replacen pat new 1 s = a ++s new ++s b.
Proof.
  intros Hc Hp. unfold str_replacen, str_count in *. induction s as [|c s IH]; [simpl in Hc; lia|].
  simpl in Hc. destruct (starts_with pat (String c s)) eqn:Hs.
  - pose proof Hs as (b & Hb)%starts_with_spec. exists "", b.
    split; [done|]. simpl. rewrite Hs. simpl.
    destruct pat as [|d pat]; [done|]. rewrite append_cons in Hb. injection Hb as -> ->.
    simpl. rewrite Nat.sub_0_r, replace_skip. by rewrite replace_zero.
  - destruct (IH Hc) as (a & b & -> & Hr). exists (String c a), b.
    rewrite !append_cons. split; [done|]. simpl. rewrite Hs. simpl. by rewrite Hr.
Qed.

Lemma replace_absent pat new n s : str_count pat s = 0 -> replace_from pat new n 0 s = s.
Proof.
  unfold str_count. induction s as [|c s IH]; simpl; [done|].
  pose proof (count_from_nonneg pat (String.length pat - 1) s).
  destruct (starts_with pat (String c s)); [lia|]. intros H'. simpl. by rewrite IH.
Qed.

Lemma starts_with_cons c p d s :
  starts_with (String c p) (String d s) = (c =? d)%char && starts_with p s.
Proof. unfold starts_with. simpl. by destruct (c =? d)%char. Qed.

Lemma starts_with_empty s : starts_with "" s = true.
Proof. done. Qed.

Lemma replace_nl_nl s : str_replace NL NL s = s.
Proof.
  unfold str_replace. induction s as [|c s IH]; [done|]. cbn [replace_from].
  unfold NL at 1. rewrite starts_with_cons, starts_with_empty, andb_true_r.
  destruct (Ascii.eqb_spec nl c) as [<-|Hne]; simpl; [|by rewrite IH].
  unfold NL at 1. rewrite append_cons. change ("" ++s ?x) with x. by rewrite IH.
Qed.

Lemma count_crlf_absent s : contains_byte cr s = false -> str_count (CR ++s NL) s = 0.
Proof.
  unfold str_count. induction s as [|c s IH]; [done|]. cbn [contains_byte count_from].
  intros [Hc Hs]%orb_false_iff. change (CR ++s NL) with (String cr NL).
  rewrite starts_with_cons, Hc. simpl. by apply IH.
Qed.

Lemma str_take_cons n c s : str_take (S n) (String c s) = String c (str_take n s).
Proof. reflexivity. Qed.
Lemma str_take_0 s : str_take 0 s = "".
Proof. by destruct s. Qed.

Lemma str_take_ge n s : (String.length s <= n)%nat -> str_take n s = s.
Proof.
  revert n. induction s as [|c s IH]; intros [|n] H; simpl in H; try done; try lia.
  rewrite str_take_cons. f_equal. apply IH. lia.
Qed.

Lemma str_take_app n a b :
  str_take n (a ++s b) = str_take n a ++s str_take (n - String.length a) b.
Proof.
  revert n. induction a as [|c a IH]; intros n.
  - simpl. rewrite Nat.sub_0_r. by destruct n.
  - rewrite append_cons. destruct n as [|n]; [by rewrite !str_take_0|].
    rewrite !str_take_cons, append_cons. simpl. f_equal. apply IH.
Qed.

Lemma length_str_take n s : String.length (str_take n s) = Nat.min n (String.length s).
Proof.
  revert n. induction s as [|c s IH]; intros [|n]; try done. rewrite str_take_cons. simpl. by rewrite IH.
Qed.

Lemma blen_append a b : blen (a ++s b) = blen a + blen b.
Proof. unfold blen. rewrite length_append. lia. Qed.

Lemma str_concat_app l1 l2 : str_concat (l1 ++ l2) = str_concat l1 ++s str_concat l2.
Proof.
  unfold str_concat. induction l1 as [|x l IH]; [done|]. simpl. by rewrite IH, append_assoc.
Qed.
