(* ===== verification/BTree.v ===== *)
(** [std::collections::BTreeMap<String, V>].

    The contents are a [gmap]; what distinguishes a [BTreeMap] is that its
    iterators ([values], [keys], [into_iter]) run in ascending key order, and
    that is [btree_entries]. *)

From S2P Require Export Text.

(** ** Byte-wise order on strings *)

Lemma ascii_compare_trans_lt a b c :
  Ascii.compare a b = Lt -> Ascii.compare b c = Lt -> Ascii.compare a c = Lt.
Proof. unfold Ascii.compare. rewrite !N.compare_lt_iff. lia. Qed.

Lemma ascii_compare_eq a b : Ascii.compare a b = Eq -> a = b.
Proof.
  unfold Ascii.compare. rewrite N.compare_eq_iff. intros H.
  by rewrite <- (ascii_N_embedding a), <- (ascii_N_embedding b), H.
Qed.

Lemma string_compare_refl s : String.compare s s = Eq.
Proof.
  induction s as [|c s IH]; simpl; [done|].
  unfold Ascii.compare. by rewrite N.compare_refl.
Qed.

Lemma string_compare_lt_trans s1 s2 s3 :
  String.compare s1 s2 = Lt -> String.compare s2 s3 = Lt -> String.compare s1 s3 = Lt.
Proof.
  revert s2 s3. induction s1 as [|a s1 IH]; intros [|b s2] [|c s3]; simpl; try done.
  destruct (Ascii.compare a b) eqn:Hab; [apply ascii_compare_eq in Hab as ->| |done].
  - destruct (Ascii.compare b c) eqn:?; [apply IH|done..].
  - destruct (Ascii.compare b c) eqn:Hbc; [apply ascii_compare_eq in Hbc as ->| |done].
    + by rewrite Hab.
    + by rewrite (ascii_compare_trans_lt a b c).
Qed.

Definition string_lt (s1 s2 : string) : Prop := String.compare s1 s2 = Lt.

Lemma string_leb_spec s1 s2 : String.leb s1 s2 <-> s1 = s2 \/ string_lt s1 s2.
Proof.
  unfold String.leb, string_lt. destruct (String.compare s1 s2) eqn:H; simpl.
  - apply String.compare_eq_iff in H as ->. split; [by left | done].
  - split; [by right | done].
  - split; [done|]. intros [-> | ?]; [|done]. by rewrite string_compare_refl in H.
Qed.

Lemma string_leb_total' s1 s2 : String.leb s1 s2 || String.leb s2 s1.
Proof. destruct (String.leb_total s1 s2) as [-> | ->]; by destruct (String.leb _ _). Qed.

Lemma string_leb_trans s1 s2 s3 : String.leb s1 s2 -> String.leb s2 s3 -> String.leb s1 s3.
Proof.
  rewrite !string_leb_spec. intros [-> | H1] [-> | H2]; auto.
  right. eapply string_compare_lt_trans; eauto.
Qed.

(** ** Ordered iteration *)

Definition key_leb {V} (p q : string * V) : bool := String.leb p.1 q.1.
Definition btree_entries {V} (m : gmap string V) : list (string * V) :=
  sort_by key_leb (map_to_list m).
Definition btree_keys {V} (m : gmap string V) : list string := (btree_entries m).*1.
Definition btree_values {V} (m : gmap string V) : list V := (btree_entries m).*2.

Section btree.
  Context {V : Type}.
  Implicit Types m : gmap string V.

Lemma elem_of_btree_entries m k v : (k, v) ∈ btree_entries m <-> m !! k = Some v.
Proof. unfold btree_entries. by rewrite elem_of_sort_by, elem_of_map_to_list. Qed.

Lemma elem_of_btree_values m v : v ∈ btree_values m <-> exists k, m !! k = Some v.
Proof.
    unfold btree_values. rewrite list_elem_of_fmap. split.
    - intros ([k v'] & -> & H). exists k. by apply elem_of_btree_entries.
    - intros [k H]. exists (k, v). by rewrite elem_of_btree_entries.
Qed.

Lemma elem_of_btree_keys m k : k ∈ btree_keys m <-> is_Some (m !! k).
Proof.
    unfold btree_keys. rewrite list_elem_of_fmap. split.
    - intros ([k' v] & -> & H). exists v. by apply elem_of_btree_entries.
    - intros [v H]. exists (k, v). by rewrite elem_of_btree_entries.
Qed.

Lemma btree_keys_NoDup m : NoDup (btree_keys m).
Proof.
    unfold btree_keys, btree_entries. rewrite (sort_by_perm key_leb).
    apply NoDup_fst_map_to_list.
Qed.

Lemma btree_entries_sorted m : StronglySorted key_leb (btree_entries m).
Proof.
    apply sort_by_sorted.
    - intros p q. apply string_leb_total'.
    - intros p q r. apply string_leb_trans.
Qed.

Lemma btree_keys_sorted m : StronglySorted String.leb (btree_keys m).
Proof.
    unfold btree_keys. induction (btree_entries_sorted m) as [|p l Hs IH Hp]; simpl;
      constructor; [done|]. by apply Forall_fmap.
Qed.

Lemma length_btree_values m : length (btree_values m) = size m.
Proof.
    unfold btree_values, btree_entries. rewrite length_fmap, length_sort_by.
    by rewrite length_map_to_list.
Qed.
End btree.

(** Mapping the values keeps the order of iteration. *)
Lemma btree_entries_fmap {V W} (f : V -> W) (m : gmap string V) :
  btree_entries (f <$> m) = prod_map id f <$> btree_entries m.
Proof.
  assert (Hi : forall x l, insert_by key_leb (prod_map id f x) (prod_map id f <$> l)
                           = prod_map id f <$> insert_by key_leb x l).
  { intros x l. induction l as [|y l IH]; simpl; [done|].
    change (key_leb (prod_map id f x) (prod_map id f y)) with (key_leb x y).
    destruct (key_leb x y); [done|]. rewrite fmap_cons. f_equal. exact IH. }
  unfold btree_entries. rewrite map_to_list_fmap. induction (map_to_list m) as [|x l IH]; [done|].
  rewrite fmap_cons. cbn [sort_by]. by rewrite IH, Hi.
Qed.

Lemma btree_keys_fmap {V W} (f : V -> W) (m : gmap string V) : btree_keys (f <$> m) = btree_keys m.
Proof.
  unfold btree_keys. rewrite btree_entries_fmap. induction (btree_entries m) as [|e l IH]; [done|].
  rewrite !fmap_cons. f_equal. exact IH.
Qed.

(** [iter().find(p)] and its relation to membership. *)
Lemma find_Some_elem {A} (p : A -> bool) l x :
  List.find p l = Some x -> x ∈ l /\ p x = true.
Proof. intros H%List.find_some. by rewrite list_elem_of_In. Qed.

Lemma find_None_elem {A} (p : A -> bool) l :
  List.find p l = None <-> (forall x, x ∈ l -> p x = false).
Proof.
  split.
  - intros H x Hx%list_elem_of_In. by eapply List.find_none.
  - induction l as [|a l IH]; simpl; intros H; [done|].
    rewrite (H a) by left. apply IH. intros x Hx. apply H. by right.
Qed.

Lemma forallb_elem {A} (p : A -> bool) l :
  forallb p l = true <-> (forall x, x ∈ l -> p x = true).
Proof.
  rewrite List.forallb_forall. split; intros H x Hx; apply H; by apply list_elem_of_In.
Qed.

Lemma existsb_elem {A} (p : A -> bool) l :
  existsb p l = true <-> (exists x, x ∈ l /\ p x = true).
Proof.
  rewrite List.existsb_exists. by setoid_rewrite list_elem_of_In.
Qed.

#[export] Hint Resolve btree_keys_NoDup btree_entries_sorted : piqo.
#[export] Hint Rewrite @elem_of_btree_values @elem_of_btree_keys @elem_of_btree_entries : piqo.

Lemma filter_all' {A} (p : A -> bool) l : (forall x, p x = true) -> List.filter p l = l.
Proof. intros H. induction l as [|x l IH]; simpl; [done|]. by rewrite H, IH. Qed.
