(* ===== verification/Json.v ===== *)
(** [serde_json::Value], the untyped JSON the harness carries around.

    A number is one of serde_json's three representations; a JSON float is a
    finite binary64 value, given as the mantissa (odd, or zero) and exponent
    of [m * 2^e].  [serde_json::Map] is, without the [preserve_order] feature,
    a [BTreeMap]: an object is its association list in ascending key order,
    kept so by [map_insert].  Parsing and printing text are serde_json's own
    and stay parameters of the components that use them. *)

From S2P Require Export BTree.

Inductive number : Type :=
  | PosInt (n : Z)
  | NegInt (n : Z)
  | Float (mantissa exponent : Z).

Unset Elimination Schemes.
Inductive json : Type :=
  | JNull
  | JBool (b : bool)
  | JNumber (n : number)
  | JString (s : string)
  | JArray (l : list json)
  | JObject (o : list (string * json)).
Set Elimination Schemes.

(** Induction that reaches into arrays and objects. *)
Definition json_ind (P : json -> Prop)
    (Hnull : P JNull) (Hbool : forall b, P (JBool b)) (Hnum : forall n, P (JNumber n))
    (Hstr : forall s, P (JString s))
    (Harr : forall l, Forall P l -> P (JArray l))
    (Hobj : forall o, Forall (fun p => P p.2) o -> P (JObject o)) : forall v, P v :=
  fix go v :=
    match v with
    | JNull => Hnull
    | JBool b => Hbool b
    | JNumber n => Hnum n
    | JString s => Hstr s
    | JArray l =>
        Harr l ((fix go_list l : Forall P l :=
          match l with
          | [] => Forall_nil_2 _
          | v :: l => Forall_cons_2 _ _ _ (go v) (go_list l)
          end) l)
    | JObject o =>
        Hobj o ((fix go_obj o : Forall (fun p => P p.2) o :=
          match o with
          | [] => Forall_nil_2 _
          | p :: o => Forall_cons_2 (fun p => P p.2) p _ (go p.2) (go_obj o)
          end) o)
    end.

#[export] Instance number_eq_dec : EqDecision number.
Proof. solve_decision. Defined.

(** [==] on values. *)
Fixpoint json_eqb (v w : json) : bool :=
  match v, w with
  | JNull, JNull => true
  | JBool a, JBool b => Bool.eqb a b
  | JNumber a, JNumber b => bool_decide (a = b)
  | JString a, JString b => String.eqb a b
  | JArray a, JArray b =>
      (fix go a b := match a, b with
        | [], [] => true
        | v :: a, w :: b => json_eqb v w && go a b
        | _, _ => false
        end) a b
  | JObject a, JObject b =>
      (fix go a b := match a, b with
        | [], [] => true
        | (s, v) :: a, (t, w) :: b => String.eqb s t && json_eqb v w && go a b
        | _, _ => false
        end) a b
  | _, _ => false
  end.

Lemma json_eqb_eq v w : json_eqb v w = true <-> v = w.
Proof.
  revert w. induction v as [|b|n|s|l IH|o IH] using json_ind; intros [ | | | | k|k];
    simpl; try (split; congruence).
  - destruct b, b0; simpl; split; congruence.
  - rewrite bool_decide_eq_true. split; congruence.
  - rewrite String.eqb_eq. split; congruence.
  - revert k. induction IH as [|v l Hv _ IHl]; intros [|w k]; try (split; congruence).
    rewrite andb_true_iff, Hv, IHl. split; [intros [? ?]|intros ?]; naive_solver.
  - revert k. induction IH as [|[s v] l Hv _ IHl]; intros [|[t w] k]; try (split; congruence).
    simpl in Hv. rewrite !andb_true_iff, String.eqb_eq, Hv, IHl. naive_solver.
Qed.

#[export] Instance json_eq_dec : EqDecision json.
Proof.
  intros v w. destruct (json_eqb v w) eqn:H.
  - left. by apply json_eqb_eq.
  - right. intros Heq%json_eqb_eq. congruence.
Defined.

(** ** Objects *)

Fixpoint map_get (k : string) (o : list (string * json)) : option json :=
  match o with
  | [] => None
  | (k', v) :: o => if decide (k = k') then Some v else map_get k o
  end.

Fixpoint map_insert (k : string) (v : json) (o : list (string * json)) : list (string * json) :=
  match o with
  | [] => [(k, v)]
  | (k', v') :: o' =>
      match String.compare k k' with
      | Lt => (k, v) :: o
      | Eq => (k, v) :: o'
      | Gt => (k', v') :: map_insert k v o'
      end
  end.

(** [object.entry(k).or_insert(v)]. *)
Definition map_or_insert (k : string) (v : json) (o : list (string * json)) :
    list (string * json) :=
  match map_get k o with Some _ => o | None => map_insert k v o end.

(** [json!({k: v, ...})]: keys are inserted in the order written. *)
Definition jobject (l : list (string * json)) : json :=
  JObject (foldl (fun o p => map_insert p.1 p.2 o) [] l).

(** Keys in strictly ascending order: what a [BTreeMap] guarantees. *)
Definition map_wf (o : list (string * json)) : Prop := StronglySorted string_lt o.*1.

(** ** Accessors *)

Definition get (k : string) (v : json) : option json :=
  match v with JObject o => map_get k o | _ => None end.
Definition as_object (v : json) : option (list (string * json)) :=
  match v with JObject o => Some o | _ => None end.
Definition as_array (v : json) : option (list json) :=
  match v with JArray l => Some l | _ => None end.
Definition as_str (v : json) : option string :=
  match v with JString s => Some s | _ => None end.
Definition as_bool (v : json) : option bool :=
  match v with JBool b => Some b | _ => None end.
Definition as_u64 (v : json) : option Z :=
  match v with JNumber (PosInt n) => Some n | _ => None end.
Definition is_null (v : json) : bool := match v with JNull => true | _ => false end.
Definition is_object (v : json) : bool := match v with JObject _ => true | _ => false end.

(** ** Laws of the object operations *)

Section objects.
  Implicit Types (o : list (string * json)) (k : string) (v : json).

Lemma map_get_insert k v o : map_get k (map_insert k v o) = Some v.
Proof.
    induction o as [|[k' v'] o IH]; simpl; [by case_decide|].
    destruct (String.compare k k') eqn:H; simpl; [by case_decide..|].
    case_decide as Hk; [|done]. subst. by rewrite string_compare_refl in H.
Qed.

Lemma map_get_insert_ne k k1 v o :
    k <> k1 -> map_get k1 (map_insert k v o) = map_get k1 o.
Proof.
    intros Hne. induction o as [|[k' v'] o IH]; simpl; [by case_decide|].
    destruct (String.compare k k') eqn:H; simpl.
    - apply String.compare_eq_iff in H as ->. by case_decide.
    - by case_decide.
    - case_decide; [done|apply IH].
Qed.

Lemma map_get_or_insert k k1 v o :
    map_get k1 (map_or_insert k v o) =
      match map_get k1 o with
      | Some w => Some w
      | None => if decide (k = k1) then Some v else None
      end.
Proof.
    unfold map_or_insert. destruct (map_get k o) eqn:Hk; case_decide as Hd; subst.
    - by rewrite Hk.
    - by destruct (map_get k1 o).
    - by rewrite Hk, map_get_insert.
    - rewrite map_get_insert_ne by done. by destruct (map_get k1 o).
Qed.

(** An entry the caller already supplied survives [or_insert]. *)
Lemma map_or_insert_preserves k k1 v w o :
    map_get k1 o = Some w -> map_get k1 (map_or_insert k v o) = Some w.
Proof. intros H. by rewrite map_get_or_insert, H. Qed.

Lemma map_insert_keys k v o k1 :
    k1 ∈ (map_insert k v o).*1 -> k1 = k \/ k1 ∈ o.*1.
Proof.
    induction o as [|[k' v'] o IH]; simpl; [set_solver|].
    destruct (String.compare k k') eqn:H; simpl; set_solver.
Qed.

Lemma map_insert_wf k v o : map_wf o -> map_wf (map_insert k v o).
Proof.
    unfold map_wf. induction o as [|[k' v'] o IH]; simpl; intros H; [repeat constructor|].
    pose proof H as Hall. apply StronglySorted_inv in H as [Hs Hk'].
    destruct (String.compare k k') eqn:Hc; simpl.
    - apply String.compare_eq_iff in Hc as ->. done.
    - constructor; [done|]. constructor; [done|].
      eapply Forall_impl; [exact Hk'|]. intros k2 Hk2. by eapply string_compare_lt_trans.
    - constructor; [by apply IH|]. apply Forall_forall. intros k2 Hk2.
      apply map_insert_keys in Hk2 as [-> | Hk2].
      + unfold string_lt. rewrite String.compare_antisym, Hc. done.
      + rewrite Forall_forall in Hk'. by apply Hk'.
Qed.

Lemma map_or_insert_wf k v o : map_wf o -> map_wf (map_or_insert k v o).
Proof. unfold map_or_insert. intros H. destruct (map_get k o); [done|by apply map_insert_wf]. Qed.
End objects.

#[export] Hint Resolve map_or_insert_preserves map_insert_wf map_or_insert_wf : piqo.
