(* ===== verification/Domain.v ===== *)
(** The domain types of [piqo-core]: [context.rs], [orchestration.rs],
    [permissions.rs] (decisions, scopes, sources), [session.rs] (phases,
    projections) and [event_log.rs] (semantic events, recorded events).

    Field names carry a short prefix per record.  [u64], [u32], [u16], [u8]
    and [i64] fields are [Z]; a [BTreeMap<String, V>] is a [gmap string V]
    (see BTree for its iteration order). *)

From S2P Require Export Json.

Definition EventId : Type := Z.

(** ** context.rs *)

Definition CONTEXT_ESTIMATOR_VERSION : string := "utf8_bytes_v1".

Inductive CompactionStrategy := Deterministic | Llm.

Record ContextFact := mkFact { fact_id : string; fact_value : string }.

Record ToolCorrelation := mkCorrelation {
  tcor_call_id : string; tcor_tool_name : string; tcor_run_id : string }.

Record ContextArtifact := mkArtifact {
  ca_artifact_id : string;
  ca_supersedes_artifact_id : option string;
  ca_strategy : CompactionStrategy;
  ca_strategy_version : Z;
  ca_source_start_event_id : EventId;
  ca_source_end_event_id : EventId;
  ca_context_window_tokens : Z;
  ca_output_reserve_tokens : Z;
  ca_estimated_input_tokens : Z;
  ca_target_input_tokens : Z;
  ca_estimator_version : string;
  ca_summary : string;
  ca_tool_correlations : list ToolCorrelation }.

Record ContextProjection := mkContext {
  cp_durable_facts : list ContextFact;
  cp_active_artifact : option ContextArtifact;
  cp_last_failure : option string;
  cp_last_bypass_reason : option string }.

Definition context_default : ContextProjection := mkContext [] None None None.

(** [usize] values always fit [u64] on the 64-bit targets, so [try_from] never
    takes its fallback. *)
Definition estimate_tokens (serialized_bytes transcript_items tool_definitions : Z) : Z :=
  u64_sat_add (u64_sat_add serialized_bytes 2 / 3)
    (u64_sat_mul (u64_sat_add transcript_items tool_definitions) 8).

(** ** orchestration.rs *)

Record AgentBudget := mkBudget {
  max_model_turns : Z;
  max_duration_seconds : Z;
  max_tree_duration_seconds : Z;
  max_tree_tokens : Z;
  max_context_bytes : Z;
  max_result_bytes : Z }.

Record AgentLink := mkLink {
  al_instance_id : string;
  al_profile_id : string;
  al_parent_session_id : string;
  al_parent_run_id : string;
  al_parent_call_id : string;
  al_child_session_id : string;
  al_child_run_id : string;
  al_depth : Z;
  al_budget : AgentBudget;
  al_permission_ceiling : json }.

Inductive AgentTerminalStatus := ATCompleted | ATFailed | ATCancelled | ATInterrupted.

Record AgentResult := mkAgentResult {
  ar_instance_id : string;
  ar_profile_id : string;
  ar_child_session_id : string;
  ar_child_run_id : string;
  ar_status : AgentTerminalStatus;
  ar_output : option json;
  ar_output_truncated : bool;
  ar_usage : option json;
  ar_error : option string }.

Record DelegatedContextRef := mkContextRef {
  cr_source_session_id : string; cr_message_id : string; cr_last_event_id : Z }.

(** ** permissions.rs: the vocabulary of decisions *)

Inductive PermissionDecision := Allow | Ask | Deny.
Inductive PermissionScope := ScopeOnce | ScopeSession | ScopeProject | ScopeConfiguration.
Inductive PermissionDecisionSource :=
  | SourceDefault | SourceConfiguration | SourceInteractiveConfiguration
  | SourceProjectRule | SourceSessionRule | SourceRequestApproval.

(** ** session.rs: phases, messages, runs *)

Inductive AgentPhase := APCreated | APRunning | APWaitingForPermission | APFinished | APFailed.
Inductive SessionPhase := Created | Running | Interrupted | Finished | Failed.
Inductive MessageRole := System | User | Assistant | Tool.
Inductive MessageAuthor := AuthorSystem | AuthorUser | AuthorAgent (a : string) | AuthorTool (a : string).
Inductive ContentBlock := Text (s : string) | JsonBlock (v : json).
Inductive RunStatus :=
  | RQueued | RRunning | RRequiresAction | RCompleted | RFailed | RCancelled | RInterrupted.

Record SessionState := mkState {
  ss_session_id : string;
  ss_phase : SessionPhase;
  ss_revision : Z;
  ss_last_event_id : option Z }.

Record MessageProjection := mkMessage {
  mp_message_id : string;
  mp_role : MessageRole;
  mp_agent_id : option string;
  mp_author : MessageAuthor;
  mp_blocks : list ContentBlock;
  mp_completed : bool;
  mp_interrupted : bool;
  mp_first_event_id : Z;
  mp_last_event_id : Z }.

Record ToolCallProjection := mkToolCall {
  tc_call_id : string;
  tc_assistant_message_id : string;
  tc_agent_id : string;
  tc_tool_name : string;
  tc_arguments : json;
  tc_raw_arguments : string;
  tc_native : bool;
  tc_execution_id : option string;
  tc_result : option json }.

Record RunProjection := mkRun {
  rp_run_id : string;
  rp_retry_of : option string;
  rp_provider : string;
  rp_model : string;
  rp_request : json;
  rp_status : RunStatus;
  rp_attempt_id : option string;
  rp_attempts : Z;
  rp_error : option string;
  rp_usage : option json;
  rp_queue_priority : Z;
  rp_tool_calls : gmap string ToolCallProjection }.

Record PermissionProjection := mkPermission {
  pp_request_id : string;
  pp_run_id : string;
  pp_call_id : option string;
  pp_agent_id : string;
  pp_tool_name : string;
  pp_arguments : json;
  pp_decision : option PermissionDecision }.

Record AgentProjection := mkAgent {
  ap_agent_id : string;
  ap_parent_id : option string;
  ap_link : option AgentLink;
  ap_config_revision : option Z;
  ap_context : list DelegatedContextRef;
  ap_result : option AgentResult }.

Record SessionProjection := mkProjection {
  sp_state : SessionState;
  sp_messages : list MessageProjection;
  sp_agents : gmap string AgentPhase;
  sp_agent_instances : gmap string AgentProjection;
  sp_pending_permissions : gmap string PermissionProjection;
  sp_runs : gmap string RunProjection;
  sp_queue_paused : bool;
  sp_context : ContextProjection }.

(** ** event_log.rs: what the durable history is made of *)

Inductive SemanticEvent : Type :=
  | SessionCreated (title : option string)
  | SessionPhaseChanged (from to : SessionPhase) (reason : option string)
  | SessionInterrupted (reason : string)
  | SessionForked (parent_session_id : string) (at_event_id : EventId)
  | MessageStarted (message_id agent_id : string) (role : MessageRole) (author : MessageAuthor)
  | MessageContentAppended (message_id : string) (block : ContentBlock)
  | MessageCompleted (message_id : string)
  | MessageInterrupted (message_id : string)
  | RunQueued (run_id : string) (retry_of : option string) (provider model : string)
      (request : json)
  | RunStarted (run_id attempt_id : string) (attempt : Z)
  | RunAttemptStarted (run_id attempt_id : string) (attempt : Z)
  | RunAttemptFailed (run_id attempt_id error : string) (retryable : bool)
  | RunCompleted (run_id : string) (usage : option json)
  | RunFailed (run_id error : string)
  | RunCancelled (run_id : string) (reason : option string)
  | RunInterrupted (run_id reason : string)
  | RunRequiresAction (run_id : string) (call_ids : list string)
  | QueuePaused
  | QueueResumed
  | ToolCallEmitted (run_id assistant_message_id call_id agent_id tool_name : string)
      (arguments : json) (raw_arguments : string) (native : bool)
  | ToolExecutionStarted (run_id call_id execution_id : string)
  | ToolResult (run_id call_id agent_id tool_name : string) (res : json)
  | AgentPhaseChanged (agent_id : string) (phase : AgentPhase)
  | PermissionRequested (request_id run_id : string) (call_id : option string)
      (agent_id tool_name : string) (arguments : json)
  | PermissionResolved (request_id : string) (decision : PermissionDecision)
      (source : option PermissionDecisionSource) (scope : option PermissionScope)
      (rule_id reason : option string)
  | AgentSpawned (agent_id : string) (parent_id : option string) (link : option AgentLink)
      (config_revision : option Z)
  | AgentFinished (agent_id : string) (res : option AgentResult)
  | AgentContextCaptured (agent_id : string) (references : list DelegatedContextRef)
  | AgentResultDelivered (agent_id parent_run_id parent_call_id : string) (res : AgentResult)
  | ContextFactRecorded (fact : ContextFact)
  | ContextCompactionStarted (run_id artifact_id : string) (strategy : CompactionStrategy)
      (source_start_event_id source_end_event_id : EventId)
  | ContextCompacted (run_id : string) (artifact : ContextArtifact)
  | ContextCompactionFailed (run_id artifact_id code : string)
  | ContextCompactionBypassed (run_id reason : string).

Record RecordedEvent := mkRecorded {
  re_id : EventId;
  re_session_id : string;
  re_schema_version : Z;
  re_occurred_at : string;
  re_event : SemanticEvent;
  re_raw_data : option json }.

(** ** Decidable equality: the [==] the code uses on these types *)

#[export] Instance CompactionStrategy_eq_dec : EqDecision CompactionStrategy.
Proof. solve_decision. Defined.
#[export] Instance AgentTerminalStatus_eq_dec : EqDecision AgentTerminalStatus.
Proof. solve_decision. Defined.
#[export] Instance AgentResult_eq_dec : EqDecision AgentResult.
Proof. solve_decision. Defined.
#[export] Instance DelegatedContextRef_eq_dec : EqDecision DelegatedContextRef.
Proof. solve_decision. Defined.
#[export] Instance PermissionDecision_eq_dec : EqDecision PermissionDecision.
Proof. solve_decision. Defined.
#[export] Instance PermissionScope_eq_dec : EqDecision PermissionScope.
Proof. solve_decision. Defined.
#[export] Instance PermissionDecisionSource_eq_dec : EqDecision PermissionDecisionSource.
Proof. solve_decision. Defined.
#[export] Instance AgentPhase_eq_dec : EqDecision AgentPhase.
Proof. solve_decision. Defined.
#[export] Instance SessionPhase_eq_dec : EqDecision SessionPhase.
Proof. solve_decision. Defined.
#[export] Instance MessageRole_eq_dec : EqDecision MessageRole.
Proof. solve_decision. Defined.
#[export] Instance RunStatus_eq_dec : EqDecision RunStatus.
Proof. solve_decision. Defined.
#[export] Instance SessionState_eq_dec : EqDecision SessionState.
Proof. solve_decision. Defined.

(** The three final results of a run. *)
Definition terminal (s : RunStatus) : bool :=
  match s with
  | RCompleted | RFailed | RCancelled | RInterrupted => true
  | RQueued | RRunning | RRequiresAction => false
  end.

(** The token estimate never overflows and grows with the body. *)
Lemma estimate_tokens_range b i d :
  0 <= b -> 0 <= i -> 0 <= d -> 0 <= estimate_tokens b i d <= u64_max.
Proof.
  intros Hb Hi Hd. unfold estimate_tokens, u64_sat_add, u64_sat_mul, u64_max.
  pose proof (Z.div_pos (Z.min (2 ^ 64 - 1) (b + 2)) 3). lia.
Qed.
