(* ===== verification/EventLog.v ===== *)
(** [EventLog] of [piqo-core/src/event_log.rs]: the append-only log, its
    replay from a checkpoint and its forks.

    The well-formedness invariant [log_wf] is what the rest of the server
    relies on: the ids are 1, 2, ..., n without a gap.  It is established by
    [new] and kept by [append], [append_for_session] and [fork_at]; under it
    [replay_from] is [drop] and [fork_at] is [take]. *)

From S2P Require Export Domain.

Record EventLog := mkLog { events : list RecordedEvent }.

Inductive EventLogError := UnknownEvent (event_id : EventId).

Definition new : EventLog := mkLog [].

Definition last_id (log : EventLog) : option EventId := re_id <$> last (events log).

Definition next_id (log : EventLog) : EventId :=
  match last_id log with Some l => u64_add l 1 | None => 1 end.

Definition append (event : SemanticEvent) (log : EventLog) : EventId * EventLog :=
  let id := next_id log in
  (id, mkLog (events log ++ [mkRecorded id "" 1 "" event None])).

Definition append_for_session (session_id occurred_at : string) (event : SemanticEvent)
    (log : EventLog) : EventId * EventLog :=
  let id := next_id log in
  (id, mkLog (events log ++ [mkRecorded id session_id 1 occurred_at event None])).

Definition replay_from (after : EventId) (log : EventLog) : list RecordedEvent :=
  List.filter (fun e => after <? re_id e) (events log).

Definition fork_at (event_id : EventId) (log : EventLog) : result EventLogError EventLog :=
  if negb (existsb (fun e => re_id e =? event_id) (events log))
  then Err (UnknownEvent event_id)
  else Ok (mkLog (List.filter (fun e => re_id e <=? event_id) (events log))).

(** ** Contiguous ids *)

(** [contiguous n l]: the ids of [l] are [n+1], [n+2], ... *)
Fixpoint contiguous (n : Z) (l : list RecordedEvent) : Prop :=
  match l with
  | [] => True
  | e :: l => re_id e = n + 1 /\ contiguous (n + 1) l
  end.

Definition log_wf (log : EventLog) : Prop := contiguous 0 (events log).

Lemma contiguous_app n l1 l2 :
  contiguous n (l1 ++ l2) <-> contiguous n l1 /\ contiguous (n + Z.of_nat (length l1)) l2.
Proof.
  revert n. induction l1 as [|e l1 IH]; intros n; simpl.
  - rewrite Z.add_0_r. tauto.
  - rewrite IH. replace (n + 1 + Z.of_nat (length l1)) with (n + Z.of_nat (S (length l1))) by lia.
    tauto.
Qed.

Lemma contiguous_lookup n l i e : contiguous n l -> l !! i = Some e -> re_id e = n + 1 + Z.of_nat i.
Proof.
  revert n i. induction l as [|e' l IH]; intros n i; simpl; [done|].
  intros [Hid Hl] Hi. destruct i as [|i]; simplify_eq/=; [lia|].
  apply (IH _ _ Hl) in Hi. lia.
Qed.

Lemma contiguous_range n l e :
  contiguous n l -> e ∈ l -> n < re_id e <= n + Z.of_nat (length l).
Proof.
  intros Hl [i Hi]%list_elem_of_lookup. pose proof (lookup_lt_Some _ _ _ Hi).
  apply (contiguous_lookup n) in Hi; [lia|done].
Qed.

Lemma contiguous_last n l e :
  contiguous n l -> last l = Some e -> re_id e = n + Z.of_nat (length l).
Proof.
  intros Hl He. rewrite last_lookup in He. pose proof (lookup_lt_Some _ _ _ He).
  apply (contiguous_lookup n) in He; [lia|done].
Qed.

Lemma filter_all {A} (p : A -> bool) l :
  (forall x, x ∈ l -> p x = true) -> List.filter p l = l.
Proof.
  induction l as [|x l IH]; simpl; intros H; [done|].
  rewrite (H x) by left. f_equal. apply IH. intros y Hy. apply H. by right.
Qed.

Lemma filter_none {A} (p : A -> bool) l :
  (forall x, x ∈ l -> p x = false) -> List.filter p l = [].
Proof.
  induction l as [|x l IH]; simpl; intros H; [done|].
  rewrite (H x) by left. apply IH. intros y Hy. apply H. by right.
Qed.

(** On contiguous ids a comparison with an id splits the list by position. *)
Lemma contiguous_split n l k :
  contiguous n l -> n <= k -> let i := Z.to_nat (k - n) in
  List.filter (fun e => re_id e <=? k) l = take i l /\
  List.filter (fun e => k <? re_id e) l = drop i l.
Proof.
  revert n. induction l as [|e l IH]; intros n; simpl; [by rewrite take_nil, drop_nil|].
  intros [Hid Hl] Hk. destruct (decide (n = k)) as [->|Hne].
  - replace (Z.to_nat (k - k)) with 0%nat by lia. rewrite take_0, drop_0.
    assert (Hr : forall x, x ∈ l -> k + 1 < re_id x) by (intros x Hx; by apply (contiguous_range (k + 1) l)).
   
    rewrite filter_none, filter_all; [|intros x Hx; apply Hr in Hx; lia..].
    split; [destruct (Z.leb_spec (re_id e) k)|destruct (Z.ltb_spec k (re_id e))]; try lia; done.
  - replace (Z.to_nat (k - n)) with (S (Z.to_nat (k - (n + 1)))) by lia.
    destruct (IH (n + 1) Hl ltac:(lia)) as [-> ->]. simpl.
    destruct (Z.leb_spec (re_id e) k); [|lia]. destruct (Z.ltb_spec k (re_id e)); [lia|done].
Qed.

Lemma last_id_wf log :
  log_wf log -> last_id log = match events log with [] => None
                              | _ => Some (Z.of_nat (length (events log))) end.
Proof.
  intros Hwf. unfold last_id. destruct (events log) as [|e l] eqn:He; [done|].
  destruct (last (e :: l)) as [x|] eqn:Hl; [|by apply last_None in Hl].
  unfold log_wf in Hwf. rewrite He in Hwf. cbn [fmap option_fmap option_map].
  by rewrite (contiguous_last _ _ _ Hwf Hl), Z.add_0_l.
Qed.

Lemma next_id_wf log :
  log_wf log -> Z.of_nat (length (events log)) < u64_max ->
  next_id log = Z.of_nat (length (events log)) + 1.
Proof.
  intros Hwf Hlen. unfold next_id. rewrite last_id_wf by done.
  destruct (events log) as [|e l] eqn:He; [done|].
  rewrite u64_add_small; simpl in *; lia.
Qed.

Lemma append_at_end event log : events (append event log).2 = events log ++
  [mkRecorded (append event log).1 "" 1 "" event None].
Proof. done. Qed.

(** The common part of the two appends. *)
Lemma push_wf log e :
  log_wf log -> Z.of_nat (length (events log)) < u64_max -> re_id e = next_id log ->
  log_wf (mkLog (events log ++ [e])).
Proof.
  intros Hwf Hlen He. apply contiguous_app. split; [done|]. simpl.
  rewrite He, next_id_wf by done. lia.
Qed.

#[export] Hint Resolve push_wf : piqo.

(** ** Properties *)

(** Appending hands out the next id of the gap-free sequence 1, 2, ...:
    on a well-formed log of n events (n below the u64 range) the new event gets
    id n+1, is placed last, nothing before it changes and the log stays
    well-formed. *)
Theorem append_next_id (event : SemanticEvent) (log : EventLog) :
  log_wf log -> Z.of_nat (length (events log)) < u64_max ->
  let '(id, log') := append event log in
  id = Z.of_nat (length (events log)) + 1
  /\ log_wf log'
  /\ exists e, events log' = events log ++ [e] /\ re_id e = id /\ re_event e = event.
Proof.
  intros Hwf Hlen. simpl. split; [by apply next_id_wf|].
  split; [by apply push_wf|]. by eexists.
Qed.

(** Replay after a checkpoint is exactly the suffix the client has not
    seen: on a well-formed log, what was read up to [after] followed by
    [replay_from after] is the whole log, with nothing lost or repeated. *)
Theorem replay_from_resumes (after : EventId) (log : EventLog) :
  log_wf log -> 0 <= after ->
  take (Z.to_nat after) (events log) ++ replay_from after log = events log
  /\ replay_from after log = drop (Z.to_nat after) (events log).
Proof.
  intros Hwf Ha. destruct (contiguous_split 0 (events log) after) as [_ Hd]; [done..|].
  rewrite Z.sub_0_r in Hd. unfold replay_from. rewrite Hd. by rewrite take_drop.
Qed.

(** A fork exists exactly at the events of the log, holds exactly the
    history up to that event, and is itself a well-formed log whose next event
    follows the fork point. *)
Theorem fork_at_prefix (event_id : EventId) (log : EventLog) :
  log_wf log ->
  match fork_at event_id log with
  | Ok branch =>
      1 <= event_id <= Z.of_nat (length (events log))
      /\ events branch = take (Z.to_nat event_id) (events log)
      /\ log_wf branch /\ last_id branch = Some event_id
  | Err e => e = UnknownEvent event_id /\ ~ (exists r, r ∈ events log /\ re_id r = event_id)
  end.
Proof.
  intros Hwf. unfold fork_at. destruct (existsb _ (events log)) eqn:Hex; simpl.
  - apply existsb_elem in Hex as (r & Hr & Hid%Z.eqb_eq).
    pose proof (contiguous_range _ _ _ Hwf Hr) as Hrange.
    destruct (contiguous_split 0 (events log) event_id) as [Ht _]; [done|lia|].
    rewrite Z.sub_0_r in Ht. rewrite Ht.
    assert (Hbr : log_wf (mkLog (take (Z.to_nat event_id) (events log)))).
    { unfold log_wf in *. rewrite <- (take_drop (Z.to_nat event_id) (events log)) in Hwf.
      by apply contiguous_app in Hwf as [? _]. }
    split; [lia|]. split; [done|]. split; [done|].
    rewrite last_id_wf by done. simpl.
    pose proof (length_take_le (events log) (Z.to_nat event_id) ltac:(lia)) as Hl.
    destruct (take _ _) eqn:Htk; [simpl in Hl; lia|]. rewrite Hl. f_equal. lia.
  - split; [done|]. intros (r & Hr & Hid).
    assert (existsb (fun e => re_id e =? event_id) (events log) = true); [|congruence].
    apply existsb_elem. exists r. split; [done|]. by apply Z.eqb_eq.
Qed.

(** Two appended events: the concrete log of the witnesses. *)
Definition example_log : EventLog :=
  (append QueuePaused (append (SessionCreated None) new).2).2.

Lemma append_next_id_witness :
  let '(id, log') := append QueueResumed example_log in
  id = 3 /\ log_wf log' /\
  exists e, events log' = events example_log ++ [e] /\ re_id e = id /\ re_event e = QueueResumed.
Proof. apply (append_next_id QueueResumed example_log); [repeat split | reflexivity]. Defined.

Lemma replay_from_resumes_witness :
  take (Z.to_nat 1) (events example_log) ++ replay_from 1 example_log = events example_log
  /\ replay_from 1 example_log = drop (Z.to_nat 1) (events example_log).
Proof. apply (replay_from_resumes 1 example_log); [repeat split | lia]. Defined.

Lemma fork_at_prefix_witness :
  match fork_at 1 example_log with
  | Ok branch =>
      1 <= 1 <= Z.of_nat (length (events example_log))
      /\ events branch = take (Z.to_nat 1) (events example_log)
      /\ log_wf branch /\ last_id branch = Some 1
  | Err e => e = UnknownEvent 1 /\ ~ (exists r, r ∈ events example_log /\ re_id r = 1)
  end.
Proof. apply (fork_at_prefix 1 example_log). repeat split. Defined.
