(* ===== verification/Session.v ===== *)
(** [SessionState] and [SessionProjection] of [piqo-core/src/session.rs]: the
    session state machine and the fold that turns a session's events into
    what the server knows about it.

    A Rust method on [&mut self] returning [Result<(), E>] is a function from
    the old value to a pair: the value left behind and the error, if any.
    [apply] can fail after it has already changed the projection (a duplicate
    [AgentSpawned] overwrites the agent's phase first, the state's last event id
    moves before the event is looked at), so the value left behind matters;
    [try_apply] is the view of the callers, who drop a projection whose [apply]
    failed.  One definition models one arm of the source's [match]. *)

From S2P Require Export Domain.

Record SessionTransitionError := mkTransitionError { te_from : SessionPhase; te_to : SessionPhase }.

Inductive ProjectionError :=
  | DuplicateCreation
  | InvalidTransition (e : SessionTransitionError)
  | DuplicateMessage (id : string)
  | UnknownMessage (id : string)
  | DuplicateToolCall (id : string)
  | UnknownToolCall (id : string)
  | DuplicatePermissionRequest (id : string)
  | UnknownPermissionRequest (id : string)
  | ConflictingPermissionResolution (id : string)
  | ConflictingToolResult (id : string)
  | ExternalToolExecution (id : string)
  | ConflictingToolExecution (id : string)
  | MessageAlreadyClosed (id : string)
  | DuplicateAgent (id : string)
  | UnknownAgent (id : string)
  | ConflictingAgentResult (id : string)
  | ConflictingAgentContext (id : string)
  | DuplicateRun (id : string)
  | UnknownRun (id : string)
  | InvalidRunTransition (run_id : string) (from to : RunStatus).

(** ** Session state machine *)

Module SessionState.

Definition new (session_id : string) : SessionState := mkState session_id Created 0 None.

Definition transition (next : SessionPhase) (allowed_from : list SessionPhase)
    (s : SessionState) : result SessionTransitionError SessionState :=
  if negb (bool_decide (ss_phase s ∈ allowed_from))
  then Err (mkTransitionError (ss_phase s) next)
  else Ok (mkState (ss_session_id s) next (u64_add (ss_revision s) 1) (ss_last_event_id s)).

Definition start (s : SessionState) : result SessionTransitionError SessionState :=
  transition Running [Created; Finished; Interrupted; Failed] s.
Definition finish (s : SessionState) : result SessionTransitionError SessionState :=
  transition Finished [Running] s.
Definition interrupt (s : SessionState) : result SessionTransitionError SessionState :=
  transition Interrupted [Running] s.
Definition resume (s : SessionState) : result SessionTransitionError SessionState := start s.
Definition fail (s : SessionState) : result SessionTransitionError SessionState :=
  transition Failed [Created; Running; Interrupted] s.

Definition allowed_sources (next : SessionPhase) : list SessionPhase :=
  match next with
  | Created => []
  | Running => [Created; Finished; Interrupted; Failed]
  | Interrupted => [Running]
  | Finished => [Running]
  | Failed => [Created; Running; Interrupted]
  end.

(** No arm changes the state before it fails, so an error leaves [s]. *)
Definition apply (event_id : Z) (event : SemanticEvent) (s : SessionState) :
    result ProjectionError SessionState :=
  s' ← match event with
       | SessionCreated _ =>
           if negb (ss_revision s =? 0) || bool_decide (is_Some (ss_last_event_id s))
           then Err DuplicateCreation else Ok s
       | SessionPhaseChanged from to _ =>
           if negb (bool_decide (ss_phase s = from))
           then Err (InvalidTransition (mkTransitionError (ss_phase s) to))
           else map_err InvalidTransition (transition to (allowed_sources to) s)
       | SessionInterrupted _ => map_err InvalidTransition (interrupt s)
       | SessionForked _ _ =>
           Ok (mkState (ss_session_id s) Interrupted (u64_add (ss_revision s) 1)
                 (ss_last_event_id s))
       | _ => Ok s
       end;
  Ok (mkState (ss_session_id s') (ss_phase s') (ss_revision s') (Some event_id)).

End SessionState.

(** ** Field updates *)

Definition set_state (s : SessionState) (p : SessionProjection) : SessionProjection :=
  mkProjection s (sp_messages p) (sp_agents p) (sp_agent_instances p)
    (sp_pending_permissions p) (sp_runs p) (sp_queue_paused p) (sp_context p).
Definition set_messages (l : list MessageProjection) (p : SessionProjection) : SessionProjection :=
  mkProjection (sp_state p) l (sp_agents p) (sp_agent_instances p)
    (sp_pending_permissions p) (sp_runs p) (sp_queue_paused p) (sp_context p).
Definition set_agents (m : gmap string AgentPhase) (p : SessionProjection) : SessionProjection :=
  mkProjection (sp_state p) (sp_messages p) m (sp_agent_instances p)
    (sp_pending_permissions p) (sp_runs p) (sp_queue_paused p) (sp_context p).
Definition set_agent_instances (m : gmap string AgentProjection) (p : SessionProjection) :
    SessionProjection :=
  mkProjection (sp_state p) (sp_messages p) (sp_agents p) m
    (sp_pending_permissions p) (sp_runs p) (sp_queue_paused p) (sp_context p).
Definition set_pending_permissions (m : gmap string PermissionProjection)
    (p : SessionProjection) : SessionProjection :=
  mkProjection (sp_state p) (sp_messages p) (sp_agents p) (sp_agent_instances p)
    m (sp_runs p) (sp_queue_paused p) (sp_context p).
Definition set_runs (m : gmap string RunProjection) (p : SessionProjection) : SessionProjection :=
  mkProjection (sp_state p) (sp_messages p) (sp_agents p) (sp_agent_instances p)
    (sp_pending_permissions p) m (sp_queue_paused p) (sp_context p).
Definition set_queue_paused (b : bool) (p : SessionProjection) : SessionProjection :=
  mkProjection (sp_state p) (sp_messages p) (sp_agents p) (sp_agent_instances p)
    (sp_pending_permissions p) (sp_runs p) b (sp_context p).
Definition set_context (c : ContextProjection) (p : SessionProjection) : SessionProjection :=
  mkProjection (sp_state p) (sp_messages p) (sp_agents p) (sp_agent_instances p)
    (sp_pending_permissions p) (sp_runs p) (sp_queue_paused p) c.

Definition set_status (s : RunStatus) (r : RunProjection) : RunProjection :=
  mkRun (rp_run_id r) (rp_retry_of r) (rp_provider r) (rp_model r) (rp_request r) s
    (rp_attempt_id r) (rp_attempts r) (rp_error r) (rp_usage r) (rp_queue_priority r)
    (rp_tool_calls r).
Definition set_attempt (id : string) (n : Z) (r : RunProjection) : RunProjection :=
  mkRun (rp_run_id r) (rp_retry_of r) (rp_provider r) (rp_model r) (rp_request r) (rp_status r)
    (Some id) n (rp_error r) (rp_usage r) (rp_queue_priority r) (rp_tool_calls r).
Definition set_error (e : option string) (r : RunProjection) : RunProjection :=
  mkRun (rp_run_id r) (rp_retry_of r) (rp_provider r) (rp_model r) (rp_request r) (rp_status r)
    (rp_attempt_id r) (rp_attempts r) e (rp_usage r) (rp_queue_priority r) (rp_tool_calls r).
Definition set_usage (u : option json) (r : RunProjection) : RunProjection :=
  mkRun (rp_run_id r) (rp_retry_of r) (rp_provider r) (rp_model r) (rp_request r) (rp_status r)
    (rp_attempt_id r) (rp_attempts r) (rp_error r) u (rp_queue_priority r) (rp_tool_calls r).
Definition set_tool_calls (m : gmap string ToolCallProjection) (r : RunProjection) :
    RunProjection :=
  mkRun (rp_run_id r) (rp_retry_of r) (rp_provider r) (rp_model r) (rp_request r) (rp_status r)
    (rp_attempt_id r) (rp_attempts r) (rp_error r) (rp_usage r) (rp_queue_priority r) m.

Definition set_execution_id (e : option string) (c : ToolCallProjection) : ToolCallProjection :=
  mkToolCall (tc_call_id c) (tc_assistant_message_id c) (tc_agent_id c) (tc_tool_name c)
    (tc_arguments c) (tc_raw_arguments c) (tc_native c) e (tc_result c).
Definition set_result (v : option json) (c : ToolCallProjection) : ToolCallProjection :=
  mkToolCall (tc_call_id c) (tc_assistant_message_id c) (tc_agent_id c) (tc_tool_name c)
    (tc_arguments c) (tc_raw_arguments c) (tc_native c) (tc_execution_id c) v.

Definition push_block (b : ContentBlock) (m : MessageProjection) : MessageProjection :=
  mkMessage (mp_message_id m) (mp_role m) (mp_agent_id m) (mp_author m) (mp_blocks m ++ [b])
    (mp_completed m) (mp_interrupted m) (mp_first_event_id m) (mp_last_event_id m).
Definition mark_completed (m : MessageProjection) : MessageProjection :=
  mkMessage (mp_message_id m) (mp_role m) (mp_agent_id m) (mp_author m) (mp_blocks m)
    true (mp_interrupted m) (mp_first_event_id m) (mp_last_event_id m).
Definition mark_interrupted (m : MessageProjection) : MessageProjection :=
  mkMessage (mp_message_id m) (mp_role m) (mp_agent_id m) (mp_author m) (mp_blocks m)
    (mp_completed m) true (mp_first_event_id m) (mp_last_event_id m).
Definition touch (event_id : Z) (m : MessageProjection) : MessageProjection :=
  mkMessage (mp_message_id m) (mp_role m) (mp_agent_id m) (mp_author m) (mp_blocks m)
    (mp_completed m) (mp_interrupted m) (mp_first_event_id m) event_id.

Definition set_decision (d : PermissionDecision) (q : PermissionProjection) : PermissionProjection :=
  mkPermission (pp_request_id q) (pp_run_id q) (pp_call_id q) (pp_agent_id q) (pp_tool_name q)
    (pp_arguments q) (Some d).
Definition set_agent_result (r : option AgentResult) (a : AgentProjection) : AgentProjection :=
  mkAgent (ap_agent_id a) (ap_parent_id a) (ap_link a) (ap_config_revision a) (ap_context a) r.
Definition set_agent_context (l : list DelegatedContextRef) (a : AgentProjection) :
    AgentProjection :=
  mkAgent (ap_agent_id a) (ap_parent_id a) (ap_link a) (ap_config_revision a) l (ap_result a).

(** ** Finding the entry an event is about *)

(** [iter_mut().find(p)] followed by a change of the element found. *)
Fixpoint update_first {E A} (p : A -> bool) (none : E) (f : A -> result E A) (l : list A) :
    result E (list A) :=
  match l with
  | [] => Err none
  | x :: l =>
      if p x then x' ← f x; Ok (x' :: l)
      else l' ← update_first p none f l; Ok (x :: l')
  end.

(** [map.get_mut(key).ok_or_else(..)?] followed by a change of the value. *)
Definition update_entry {E V} (key : string) (none : E) (f : V -> result E V)
    (m : gmap string V) : result E (gmap string V) :=
  v ← ok_or none (m !! key); v' ← f v; Ok (<[key := v']> m).

Definition update_message (id : string) (f : MessageProjection -> result ProjectionError MessageProjection)
    (p : SessionProjection) : result ProjectionError SessionProjection :=
  l ← update_first (fun m => String.eqb (mp_message_id m) id) (UnknownMessage id) f (sp_messages p);
  Ok (set_messages l p).
Definition update_run (id : string) (f : RunProjection -> result ProjectionError RunProjection)
    (p : SessionProjection) : result ProjectionError SessionProjection :=
  m ← update_entry id (UnknownRun id) f (sp_runs p); Ok (set_runs m p).
Definition update_call (run_id call_id : string)
    (f : ToolCallProjection -> result ProjectionError ToolCallProjection)
    (p : SessionProjection) : result ProjectionError SessionProjection :=
  update_run run_id (fun r =>
    m ← update_entry call_id (UnknownToolCall call_id) f (rp_tool_calls r);
    Ok (set_tool_calls m r)) p.
Definition update_instance (id : string)
    (f : AgentProjection -> result ProjectionError AgentProjection)
    (p : SessionProjection) : result ProjectionError SessionProjection :=
  m ← update_entry id (UnknownAgent id) f (sp_agent_instances p); Ok (set_agent_instances m p).

(** ** The arms of [SessionProjection::apply] *)

Definition open_message (id : string) (m : MessageProjection) : result ProjectionError () :=
  if mp_completed m || mp_interrupted m then Err (MessageAlreadyClosed id) else Ok ().

Definition projected_author (author : MessageAuthor) (role : MessageRole) (agent_id : string) :
    MessageAuthor :=
  match author, role, is_empty agent_id with
  | AuthorSystem, User, _ => AuthorUser
  | AuthorSystem, Assistant, false => AuthorAgent agent_id
  | AuthorSystem, Tool, false => AuthorTool agent_id
  | _, _, _ => author
  end.

Definition message_started (event_id : Z) (message_id agent_id : string) (role : MessageRole)
    (author : MessageAuthor) (p : SessionProjection) : result ProjectionError SessionProjection :=
  if existsb (fun m => String.eqb (mp_message_id m) message_id) (sp_messages p)
  then Err (DuplicateMessage message_id)
  else Ok (set_messages (sp_messages p ++
         [mkMessage message_id role (if is_empty agent_id then None else Some agent_id)
            (projected_author author role agent_id) [] false false event_id event_id]) p).

Definition message_content_appended (event_id : Z) (message_id : string) (block : ContentBlock)
    (p : SessionProjection) : result ProjectionError SessionProjection :=
  update_message message_id (fun m =>
    _ ← open_message message_id m; Ok (touch event_id (push_block block m))) p.

Definition message_completed (event_id : Z) (message_id : string) (p : SessionProjection) :
    result ProjectionError SessionProjection :=
  update_message message_id (fun m =>
    _ ← open_message message_id m; Ok (touch event_id (mark_completed m))) p.

Definition message_interrupted (event_id : Z) (message_id : string) (p : SessionProjection) :
    result ProjectionError SessionProjection :=
  update_message message_id (fun m =>
    _ ← open_message message_id m; Ok (touch event_id (mark_interrupted m))) p.

(** The value left behind by a method that changes nothing before it fails. *)
Definition leave {E S} (s : S) (r : result E S) : S * option E :=
  match r with Ok s' => (s', None) | Err e => (s, Some e) end.

Definition agent_spawned (agent_id : string) (parent_id : option string)
    (link : option AgentLink) (config_revision : option Z) (p : SessionProjection) :
    SessionProjection * option ProjectionError :=
  let p1 := set_agents (<[agent_id := APCreated]> (sp_agents p)) p in
  leave p1
    (if bool_decide (is_Some (sp_agents p !! agent_id)) then Err (DuplicateAgent agent_id)
     else Ok (set_agent_instances
       (<[agent_id := mkAgent agent_id parent_id link config_revision [] None]>
          (sp_agent_instances p1)) p1)).

Definition agent_phase_changed (agent_id : string) (phase : AgentPhase) (p : SessionProjection) :
    SessionProjection :=
  set_agents (<[agent_id := phase]> (sp_agents p)) p.

Definition agent_finished (agent_id : string) (res : option AgentResult) (p : SessionProjection) :
    SessionProjection * option ProjectionError :=
  let p1 := set_agents (<[agent_id := APFinished]> (sp_agents p)) p in
  leave p1 (update_instance agent_id (fun a =>
    match ap_result a, res with
    | None, r => Ok (set_agent_result r a)
    | Some existing, Some r =>
        if decide (existing = r) then Ok a else Err (ConflictingAgentResult agent_id)
    | Some _, None => Ok a
    end) p1).

Definition agent_context_captured (agent_id : string) (references : list DelegatedContextRef)
    (p : SessionProjection) : result ProjectionError SessionProjection :=
  update_instance agent_id (fun a =>
    if negb (bool_decide (ap_context a = [])) && negb (bool_decide (ap_context a = references))
    then Err (ConflictingAgentContext agent_id)
    else Ok (set_agent_context references a)) p.

Definition agent_result_delivered (agent_id : string) (res : AgentResult)
    (p : SessionProjection) : result ProjectionError SessionProjection :=
  update_instance agent_id (fun a =>
    match ap_result a with
    | None => Ok (set_agent_result (Some res) a)
    | Some existing =>
        if decide (existing = res) then Ok a else Err (ConflictingAgentResult agent_id)
    end) p.

Definition permission_requested (request_id run_id : string) (call_id : option string)
    (agent_id tool_name : string) (arguments : json) (p : SessionProjection) :
    result ProjectionError SessionProjection :=
  if bool_decide (is_Some (sp_pending_permissions p !! request_id))
  then Err (DuplicatePermissionRequest request_id)
  else Ok (set_pending_permissions
    (<[request_id := mkPermission request_id run_id call_id agent_id tool_name arguments None]>
       (sp_pending_permissions p)) p).

Definition permission_resolved (request_id : string) (decision : PermissionDecision)
    (p : SessionProjection) : result ProjectionError SessionProjection :=
  m ← update_entry request_id (UnknownPermissionRequest request_id) (fun q =>
    match pp_decision q with
    | None => Ok (set_decision decision q)
    | Some existing =>
        if decide (existing = decision) then Ok q
        else Err (ConflictingPermissionResolution request_id)
    end) (sp_pending_permissions p);
  Ok (set_pending_permissions m p).

Definition run_queued (run_id : string) (retry_of : option string) (provider model : string)
    (request : json) (p : SessionProjection) : result ProjectionError SessionProjection :=
  if bool_decide (is_Some (sp_runs p !! run_id)) then Err (DuplicateRun run_id)
  else Ok (set_runs
    (<[run_id := mkRun run_id retry_of provider model request RQueued None 0 None None
                   (if retry_of then -1 else 0) ∅]> (sp_runs p)) p).

Definition run_started (run_id attempt_id : string) (attempt : Z) (p : SessionProjection) :
    result ProjectionError SessionProjection :=
  p1 ← update_run run_id (fun r =>
    if negb (bool_decide (rp_status r ∈ [RQueued; RRequiresAction]))
    then Err (InvalidRunTransition run_id (rp_status r) RRunning)
    else Ok (set_attempt attempt_id attempt (set_status RRunning r))) p;
  Ok (set_queue_paused false p1).

Definition run_attempt_started (run_id attempt_id : string) (attempt : Z)
    (p : SessionProjection) : result ProjectionError SessionProjection :=
  update_run run_id (fun r =>
    if negb (bool_decide (rp_status r = RRunning))
    then Err (InvalidRunTransition run_id (rp_status r) RRunning)
    else Ok (set_attempt attempt_id attempt r)) p.

Definition set_run_terminal (run_id : string) (status : RunStatus) (error : option string)
    (p : SessionProjection) : result ProjectionError SessionProjection :=
  update_run run_id (fun r =>
    if negb (bool_decide (rp_status r ∈ [RQueued; RRunning; RRequiresAction]))
    then Err (InvalidRunTransition run_id (rp_status r) status)
    else Ok (set_error error (set_status status r))) p.

Definition run_completed (run_id : string) (usage : option json) (p : SessionProjection) :
    result ProjectionError SessionProjection :=
  p1 ← set_run_terminal run_id RCompleted None p;
  update_run run_id (fun r => Ok (set_usage usage r)) p1.

Definition run_failed (run_id error : string) (p : SessionProjection) :
    result ProjectionError SessionProjection :=
  p1 ← set_run_terminal run_id RFailed (Some error) p; Ok (set_queue_paused true p1).

Definition run_cancelled (run_id : string) (p : SessionProjection) :
    result ProjectionError SessionProjection :=
  p1 ← set_run_terminal run_id RCancelled None p; Ok (set_queue_paused true p1).

Definition run_interrupted (run_id reason : string) (p : SessionProjection) :
    result ProjectionError SessionProjection :=
  p1 ← set_run_terminal run_id RInterrupted (Some reason) p; Ok (set_queue_paused true p1).

Definition run_requires_action (run_id : string) (p : SessionProjection) :
    result ProjectionError SessionProjection :=
  p1 ← update_run run_id (fun r =>
    if negb (bool_decide (rp_status r = RRunning))
    then Err (InvalidRunTransition run_id (rp_status r) RRequiresAction)
    else Ok (set_status RRequiresAction r)) p;
  Ok (set_queue_paused true p1).

Definition tool_call_emitted (run_id assistant_message_id call_id agent_id tool_name : string)
    (arguments : json) (raw_arguments : string) (native : bool) (p : SessionProjection) :
    result ProjectionError SessionProjection :=
  update_run run_id (fun r =>
    if bool_decide (is_Some (rp_tool_calls r !! call_id)) then Err (DuplicateToolCall call_id)
    else Ok (set_tool_calls
      (<[call_id := mkToolCall call_id assistant_message_id agent_id tool_name arguments
                      raw_arguments native None None]> (rp_tool_calls r)) r)) p.

Definition tool_execution_started (run_id call_id execution_id : string)
    (p : SessionProjection) : result ProjectionError SessionProjection :=
  update_call run_id call_id (fun c =>
    if negb (tc_native c) then Err (ExternalToolExecution call_id)
    else match tc_execution_id c with
    | None => Ok (set_execution_id (Some execution_id) c)
    | Some existing =>
        if decide (existing = execution_id) then Ok c else Err (ConflictingToolExecution call_id)
    end) p.

Definition tool_result (run_id call_id : string) (res : json) (p : SessionProjection) :
    result ProjectionError SessionProjection :=
  update_call run_id call_id (fun c =>
    match tc_result c with
    | None => Ok (set_result (Some res) c)
    | Some existing =>
        if decide (existing = res) then Ok c else Err (ConflictingToolResult call_id)
    end) p.

Definition run_attempt_failed (run_id error : string) (p : SessionProjection) :
    result ProjectionError SessionProjection :=
  update_run run_id (fun r => Ok (set_error (Some error) r)) p.

Definition context_fact_recorded (fact : ContextFact) (p : SessionProjection) : SessionProjection :=
  let c := sp_context p in
  if existsb (fun f => String.eqb (fact_id f) (fact_id fact)) (cp_durable_facts c) then p
  else set_context (mkContext (cp_durable_facts c ++ [fact]) (cp_active_artifact c)
                      (cp_last_failure c) (cp_last_bypass_reason c)) p.

Definition context_compacted (artifact : ContextArtifact) (p : SessionProjection) :
    SessionProjection :=
  set_context (mkContext (cp_durable_facts (sp_context p)) (Some artifact) None None) p.

Definition context_compaction_failed (code : string) (p : SessionProjection) : SessionProjection :=
  let c := sp_context p in
  set_context (mkContext (cp_durable_facts c) (cp_active_artifact c) (Some code)
                 (cp_last_bypass_reason c)) p.

Definition context_compaction_bypassed (reason : string) (p : SessionProjection) :
    SessionProjection :=
  let c := sp_context p in
  set_context (mkContext (cp_durable_facts c) (cp_active_artifact c) (cp_last_failure c)
                 (Some reason)) p.

(** ** The projection *)

Module SessionProjection.

Definition new (session_id : string) : SessionProjection :=
  mkProjection (SessionState.new session_id) [] ∅ ∅ ∅ ∅ false context_default.

(** The [match] of [apply], after [self.state.apply] has succeeded. *)
Definition project_event (event_id : Z) (event : SemanticEvent) (p : SessionProjection) :
    SessionProjection * option ProjectionError :=
  match event with
  | MessageStarted id agent role author =>
      leave p (message_started event_id id agent role author p)
  | MessageContentAppended id block => leave p (message_content_appended event_id id block p)
  | MessageCompleted id => leave p (message_completed event_id id p)
  | MessageInterrupted id => leave p (message_interrupted event_id id p)
  | AgentSpawned agent parent link rev => agent_spawned agent parent link rev p
  | AgentPhaseChanged agent phase => (agent_phase_changed agent phase p, None)
  | AgentFinished agent res => agent_finished agent res p
  | AgentContextCaptured agent refs => leave p (agent_context_captured agent refs p)
  | AgentResultDelivered agent _ _ res => leave p (agent_result_delivered agent res p)
  | PermissionRequested req run call agent tool args =>
      leave p (permission_requested req run call agent tool args p)
  | PermissionResolved req decision _ _ _ _ => leave p (permission_resolved req decision p)
  | RunQueued run retry_of provider model request =>
      leave p (run_queued run retry_of provider model request p)
  | RunStarted run id n => leave p (run_started run id n p)
  | RunCompleted run usage => leave p (run_completed run usage p)
  | RunAttemptStarted run id n => leave p (run_attempt_started run id n p)
  | RunFailed run error => leave p (run_failed run error p)
  | RunCancelled run _ => leave p (run_cancelled run p)
  | RunInterrupted run reason => leave p (run_interrupted run reason p)
  | RunRequiresAction run _ => leave p (run_requires_action run p)
  | ToolCallEmitted run msg call agent tool args raw native =>
      leave p (tool_call_emitted run msg call agent tool args raw native p)
  | ToolExecutionStarted run call exec => leave p (tool_execution_started run call exec p)
  | ToolResult run call _ _ res => leave p (tool_result run call res p)
  | RunAttemptFailed run _ error _ => leave p (run_attempt_failed run error p)
  | QueuePaused => (set_queue_paused true p, None)
  | QueueResumed => (set_queue_paused false p, None)
  | SessionForked _ _ => (set_queue_paused true p, None)
  | ContextFactRecorded fact => (context_fact_recorded fact p, None)
  | ContextCompacted _ artifact => (context_compacted artifact p, None)
  | ContextCompactionFailed _ _ code => (context_compaction_failed code p, None)
  | ContextCompactionBypassed _ reason => (context_compaction_bypassed reason p, None)
  | SessionCreated _ | SessionPhaseChanged _ _ _ | SessionInterrupted _
  | ContextCompactionStarted _ _ _ _ _ => (p, None)
  end.

Definition apply (event_id : Z) (event : SemanticEvent) (p : SessionProjection) :
    SessionProjection * option ProjectionError :=
  match SessionState.apply event_id event (sp_state p) with
  | Err e => (p, Some e)
  | Ok s => project_event event_id event (set_state s p)
  end.

(** [apply(..)?] by a caller that drops the projection when it fails. *)
Definition try_apply (event_id : Z) (event : SemanticEvent) (p : SessionProjection) :
    result ProjectionError SessionProjection :=
  match apply event_id event p with
  | (p', None) => Ok p'
  | (_, Some e) => Err e
  end.

Definition active_run (p : SessionProjection) : option RunProjection :=
  List.find (fun r => bool_decide (rp_status r = RRunning)) (btree_values (sp_runs p)).

Definition queue_leb (l r : RunProjection) : bool :=
  (rp_queue_priority l <? rp_queue_priority r)
  || ((rp_queue_priority l =? rp_queue_priority r) && String.leb (rp_run_id l) (rp_run_id r)).

Definition queued_runs (p : SessionProjection) : list RunProjection :=
  sort_by queue_leb
    (List.filter (fun r => bool_decide (rp_status r = RQueued)) (btree_values (sp_runs p))).

Definition ready_action_run (p : SessionProjection) : option RunProjection :=
  List.find (fun r =>
      bool_decide (rp_status r = RRequiresAction)
      && negb (bool_decide (rp_tool_calls r = ∅))
      && forallb (fun c => bool_decide (is_Some (tc_result c))) (btree_values (rp_tool_calls r)))
    (btree_values (sp_runs p)).

End SessionProjection.
