(* ===== verification/SessionFacts.v ===== *)
(** Properties of the session projection (file Session).

    Groups: inversion lemmas for [try_apply]; the preorder [extends] (history
    only grows: what one event recorded, no later event rewrites) and its
    preservation by every event; the well-formedness invariant
    [projection_wf]; the state machines of sessions and runs as step relations;
    redelivery and conflicts of results; the scheduling queries. *)

From S2P Require Export Session.
Import SessionProjection.

(** ** Inversion *)

Lemma leave_Ok {E S} (s s' : S) (r : result E S) : leave s r = (s', None) <-> r = Ok s'.
Proof. destruct r; simpl; split; congruence. Qed.

Lemma leave_Err {E S} (s s' : S) (r : result E S) e :
  leave s r = (s', Some e) <-> s' = s /\ r = Err e.
Proof. destruct r; simpl; split; [intros [=]|intros [_ [=]]|intros [=]; by subst|intros [-> [=]]; by subst]. Qed.

Lemma try_apply_inv i ev p p' :
  try_apply i ev p = Ok p' ->
  exists s, SessionState.apply i ev (sp_state p) = Ok s /\
            project_event i ev (set_state s p) = (p', None).
Proof.
  unfold try_apply, apply. destruct (SessionState.apply i ev (sp_state p)) as [s|e]; [|done].
  destruct (project_event _ _ _) as [q [e|]] eqn:Hq; [done|].
  intros [= <-]. by exists s.
Qed.

Lemma update_first_Ok {E A} (pr : A -> bool) (none : E) f l l' :
  update_first pr none f l = Ok l' ->
  exists l1 x x' l2, l = l1 ++ x :: l2 /\ l' = l1 ++ x' :: l2 /\ pr x = true /\ f x = Ok x'
    /\ Forall (fun y => pr y = false) l1.
Proof.
  revert l'. induction l as [|x l IH]; intros l' H; simpl in H; [done|].
  destruct (pr x) eqn:Hx; inv_ok.
  - exists [], x. eauto 10.
  - destruct (IH _ eq_refl) as (l1 & y & y' & l2 & -> & -> & ? & ? & ?).
    exists (x :: l1), y, y', l2. eauto 10.
Qed.

Lemma update_entry_Ok {E V} k (none : E) (f : V -> result E V) m m' :
  update_entry k none f m = Ok m' <->
  exists v v', m !! k = Some v /\ f v = Ok v' /\ m' = <[k := v']> m.
Proof.
  unfold update_entry. split.
  - intros H. inv_ok. eauto.
  - intros (v & v' & -> & H & ->). simpl. by rewrite H.
Qed.

Lemma update_run_Ok k f p p' :
  update_run k f p = Ok p' <->
  exists r r', sp_runs p !! k = Some r /\ f r = Ok r' /\ p' = set_runs (<[k := r']> (sp_runs p)) p.
Proof.
  unfold update_run. split.
  - intros H. inv_ok. apply update_entry_Ok in Heqr as (r & r' & ? & ? & ->). eauto.
  - intros (r & r' & H & Hf & ->). unfold update_entry. rewrite H. simpl. by rewrite Hf.
Qed.

(** [arms H] goes through every arm of a successful [try_apply]. *)
Ltac arms H :=
  apply try_apply_inv in H as (s & Hs & H);
  match type of H with project_event _ ?ev _ = _ => destruct ev end;
  simpl in H; rewrite ?leave_Ok in H.

(** ** Growth of the projection *)

Definition message_ext (m m' : MessageProjection) : Prop :=
  mp_message_id m' = mp_message_id m /\ mp_role m' = mp_role m
  /\ mp_agent_id m' = mp_agent_id m /\ mp_author m' = mp_author m
  /\ mp_first_event_id m' = mp_first_event_id m
  /\ mp_blocks m `prefix_of` mp_blocks m'
  /\ (mp_completed m || mp_interrupted m = true -> m' = m).

Definition call_ext (c c' : ToolCallProjection) : Prop :=
  tc_call_id c' = tc_call_id c /\ tc_assistant_message_id c' = tc_assistant_message_id c
  /\ tc_agent_id c' = tc_agent_id c /\ tc_tool_name c' = tc_tool_name c
  /\ tc_arguments c' = tc_arguments c /\ tc_raw_arguments c' = tc_raw_arguments c
  /\ tc_native c' = tc_native c
  /\ (forall e, tc_execution_id c = Some e -> tc_execution_id c' = Some e)
  /\ (forall v, tc_result c = Some v -> tc_result c' = Some v).

(** The state machine of one run. *)
Inductive run_step : RunStatus -> RunStatus -> Prop :=
  | step_start : run_step RQueued RRunning
  | step_pause : run_step RRunning RRequiresAction
  | step_resume : run_step RRequiresAction RRunning
  | step_end s t : terminal s = false -> terminal t = true -> run_step s t.

(** Zero or more steps. *)
Definition run_steps : relation RunStatus := rtc run_step.

Definition map_ext {V} (R : relation V) (m m' : gmap string V) : Prop :=
  forall k v, m !! k = Some v -> exists v', m' !! k = Some v' /\ R v v'.

Definition run_ext (r r' : RunProjection) : Prop :=
  rp_run_id r' = rp_run_id r /\ rp_retry_of r' = rp_retry_of r
  /\ rp_provider r' = rp_provider r /\ rp_model r' = rp_model r
  /\ rp_request r' = rp_request r /\ rp_queue_priority r' = rp_queue_priority r
  /\ run_steps (rp_status r) (rp_status r')
  /\ (terminal (rp_status r) = true ->
        rp_status r' = rp_status r /\ rp_attempt_id r' = rp_attempt_id r
        /\ rp_attempts r' = rp_attempts r /\ rp_usage r' = rp_usage r)
  /\ map_ext call_ext (rp_tool_calls r) (rp_tool_calls r').

Definition permission_ext (q q' : PermissionProjection) : Prop :=
  pp_request_id q' = pp_request_id q /\ pp_run_id q' = pp_run_id q
  /\ pp_call_id q' = pp_call_id q /\ pp_agent_id q' = pp_agent_id q
  /\ pp_tool_name q' = pp_tool_name q /\ pp_arguments q' = pp_arguments q
  /\ (forall d, pp_decision q = Some d -> pp_decision q' = Some d).

Definition instance_ext (a a' : AgentProjection) : Prop :=
  ap_agent_id a' = ap_agent_id a /\ ap_parent_id a' = ap_parent_id a
  /\ ap_link a' = ap_link a /\ ap_config_revision a' = ap_config_revision a
  /\ (ap_context a <> [] -> ap_context a' = ap_context a)
  /\ (forall r, ap_result a = Some r -> ap_result a' = Some r).

Definition messages_ext (l l' : list MessageProjection) : Prop :=
  exists l1 l2, l' = l1 ++ l2 /\ Forall2 message_ext l l1.

Record extends (p p' : SessionProjection) : Prop := {
  ext_messages : messages_ext (sp_messages p) (sp_messages p');
  ext_runs : map_ext run_ext (sp_runs p) (sp_runs p');
  ext_permissions : map_ext permission_ext (sp_pending_permissions p) (sp_pending_permissions p');
  ext_instances : map_ext instance_ext (sp_agent_instances p) (sp_agent_instances p');
  ext_agents : dom (sp_agents p) ⊆ dom (sp_agents p');
  ext_facts : cp_durable_facts (sp_context p) `prefix_of` cp_durable_facts (sp_context p') }.

#[export] Instance message_ext_preorder : PreOrder message_ext.
Proof.
  split; [intros m; repeat split; done|].
  intros m1 m2 m3 (?&?&?&?&?&?&Hc) (?&?&?&?&?&?&Hc').
  repeat split; try congruence; [by etrans|].
  intros Hq. specialize (Hc Hq). subst m2. by apply Hc'.
Qed.

#[export] Instance call_ext_preorder : PreOrder call_ext.
Proof.
  split; [intros c; repeat split; done|].
  intros c1 c2 c3 (?&?&?&?&?&?&?&He&Hr) (?&?&?&?&?&?&?&He'&Hr').
  repeat split; try congruence; intros; [apply He', He|apply Hr', Hr]; done.
Qed.

#[export] Instance map_ext_preorder {V} (R : relation V) `{!PreOrder R} : PreOrder (map_ext R).
Proof.
  split; [intros m k v H; by exists v|].
  intros m1 m2 m3 Hm Hm' k v H. destruct (Hm k v H) as (v2 & Hk2 & HR).
  destruct (Hm' k v2 Hk2) as (v3 & Hk3 & HR'). exists v3. split; [done|by etrans].
Qed.

#[export] Instance run_ext_preorder : PreOrder run_ext.
Proof.
  split; [intros r; repeat split; done|].
  intros r1 r2 r3 (?&?&?&?&?&?&?&Ht&?) (?&?&?&?&?&?&?&Ht'&?).
  split_and!; try congruence; [unfold run_steps in *; by etrans| |by etrans].
  intros T. destruct (Ht T) as (E1&E2&E3&E4). rewrite <- E1 in T.
  destruct (Ht' T) as (?&?&?&?). split_and!; congruence.
Qed.

#[export] Instance permission_ext_preorder : PreOrder permission_ext.
Proof.
  split; [intros q; repeat split; done|].
  intros q1 q2 q3 (?&?&?&?&?&?&Hd) (?&?&?&?&?&?&Hd'). repeat split; try congruence. auto.
Qed.

#[export] Instance instance_ext_preorder : PreOrder instance_ext.
Proof.
  split; [intros q; repeat split; done|].
  intros q1 q2 q3 (?&?&?&?&Hc&?) (?&?&?&?&Hc'&?).
  repeat split; try congruence; [|by auto]. intros Hq. specialize (Hc Hq).
  rewrite Hc'; congruence.
Qed.

#[export] Instance messages_ext_preorder : PreOrder messages_ext.
Proof.
  split.
  - intros l. exists l, []. rewrite app_nil_r. split; [done|]. reflexivity.
  - intros l1 l2 l3 (a & b & -> & Hab) (c & d & -> & Hcd).
    apply Forall2_app_inv_l in Hcd as (c1 & c2 & Hc1 & Hc2 & ->).
    exists c1, (c2 ++ d). rewrite (assoc_L (++)). split; [done|].
    by etrans.
Qed.

#[export] Instance extends_preorder : PreOrder extends.
Proof.
  split; [intros p; split; reflexivity|].
  intros p1 p2 p3 [] []. split; by etrans.
Qed.

Lemma map_ext_insert_new {V} (R : relation V) `{!PreOrder R} k v (m : gmap string V) :
  m !! k = None -> map_ext R m (<[k := v]> m).
Proof.
  intros Hk k' v' H. exists v'. split; [|done].
  rewrite lookup_insert_ne; [done|]. intros ->. congruence.
Qed.

Lemma map_ext_insert {V} (R : relation V) `{!PreOrder R} k v v' (m : gmap string V) :
  m !! k = Some v -> R v v' -> map_ext R m (<[k := v']> m).
Proof.
  intros Hk HR k1 v1 H1. rewrite lookup_insert. case_decide; subst; simplify_eq; eauto.
  by exists v1.
Qed.

Lemma messages_ext_update pr id f l l' :
  (forall m m', f m = Ok m' -> message_ext m m') ->
  update_first pr (UnknownMessage id) f l = Ok l' -> messages_ext l l'.
Proof.
  intros Hf (l1 & x & x' & l2 & -> & -> & _ & Hx & _)%update_first_Ok.
  exists (l1 ++ x' :: l2), []. rewrite app_nil_r. split; [done|].
  apply Forall2_app; [reflexivity|]. constructor; [by apply Hf|reflexivity].
Qed.

Lemma update_message_extends id f p p' :
  (forall m m', f m = Ok m' -> message_ext m m') ->
  update_message id f p = Ok p' -> extends p p'.
Proof.
  intros Hf H. unfold update_message in H. inv_ok.
  split; simpl; try reflexivity. by eapply messages_ext_update.
Qed.

Lemma update_run_extends k f p p' :
  (forall r r', f r = Ok r' -> run_ext r r') ->
  update_run k f p = Ok p' -> extends p p'.
Proof.
  intros Hf (r & r' & Hr & Hf' & ->)%update_run_Ok.
  split; simpl; try reflexivity. eapply map_ext_insert; eauto; apply _.
Qed.

Lemma update_call_extends k c f p p' :
  (forall x x', f x = Ok x' -> call_ext x x') ->
  update_call k c f p = Ok p' -> extends p p'.
Proof.
  intros Hf. apply update_run_extends. intros r r' H. inv_ok.
  apply update_entry_Ok in Heqr0 as (x & x' & Hx & Hfx & ->).
  repeat split; try done. simpl. eapply map_ext_insert; eauto; apply _.
Qed.

Lemma update_instance_extends k f p p' :
  (forall a a', f a = Ok a' -> instance_ext a a') ->
  update_instance k f p = Ok p' -> extends p p'.
Proof.
  intros Hf H. unfold update_instance in H. inv_ok.
  apply update_entry_Ok in Heqr as (x & x' & Ha & Hfa & ->).
  split; simpl; try reflexivity. eapply map_ext_insert; eauto; apply _.
Qed.

Lemma set_state_extends s p : extends p (set_state s p).
Proof. split; reflexivity. Qed.
Lemma set_queue_paused_extends b p : extends p (set_queue_paused b p).
Proof. split; reflexivity. Qed.
Lemma set_agents_extends m p : dom (sp_agents p) ⊆ dom m -> extends p (set_agents m p).
Proof. intros H. split; try reflexivity. done. Qed.

Lemma run_step_live s t : run_step s t -> terminal s = false.
Proof. by destruct 1. Qed.

Lemma run_ext_status s r :
  run_step (rp_status r) s -> run_ext r (set_status s r).
Proof.
  intros H. split_and!; try done; [by apply rtc_once|].
  intros T. apply run_step_live in H. congruence.
Qed.

#[export] Hint Resolve set_state_extends set_queue_paused_extends set_agents_extends : piqo.
#[export] Hint Resolve update_message_extends update_run_extends update_call_extends
  update_instance_extends : piqo.

Lemma open_message_ext id f m m' :
  (mp_completed m || mp_interrupted m = false -> message_ext m (f m)) ->
  (_ ← open_message id m; Ok (f m)) = Ok m' -> message_ext m m'.
Proof.
  intros Hf H. unfold open_message in H.
  destruct (mp_completed m || mp_interrupted m) eqn:Hc; [done|]. inv_ok. auto.
Qed.

Lemma message_arms_extends i id f p p' :
  (forall m, mp_completed m || mp_interrupted m = false -> message_ext m (touch i (f m))) ->
  update_message id (fun m => _ ← open_message id m; Ok (touch i (f m))) p = Ok p' ->
  extends p p'.
Proof.
  intros Hf. apply update_message_extends. intros m m'.
  apply (open_message_ext id (fun m => touch i (f m))). apply Hf.
Qed.

Lemma message_started_extends i id agent role author p p' :
  message_started i id agent role author p = Ok p' -> extends p p'.
Proof.
  unfold message_started. destruct (existsb _ _); [done|]. intros [= <-].
  split; simpl; try reflexivity. by eexists _, _.
Qed.

Lemma message_push_ext i b m :
  mp_completed m || mp_interrupted m = false -> message_ext m (touch i (push_block b m)).
Proof. intros H. repeat split; try done; [by eexists|]. simpl. congruence. Qed.

Lemma message_completed_ext i m :
  mp_completed m || mp_interrupted m = false -> message_ext m (touch i (mark_completed m)).
Proof. intros H. repeat split; try done. congruence. Qed.

Lemma message_interrupted_ext i m :
  mp_completed m || mp_interrupted m = false -> message_ext m (touch i (mark_interrupted m)).
Proof. intros H. repeat split; try done. congruence. Qed.

Lemma agent_spawned_extends agent parent link rev p p' :
  dom (sp_agent_instances p) ⊆ dom (sp_agents p) ->
  agent_spawned agent parent link rev p = (p', None) -> extends p p'.
Proof.
  unfold agent_spawned. rewrite leave_Ok. intros Hd. case_bool_decide as Hn; [done|].
  intros [= <-]. split; simpl; try reflexivity; [|set_solver].
  apply map_ext_insert_new; [apply _|]. apply not_elem_of_dom.
  intros Hin%Hd%elem_of_dom. done.
Qed.

Lemma agent_finished_extends agent res p p' :
  agent_finished agent res p = (p', None) -> extends p p'.
Proof.
  unfold agent_finished. rewrite leave_Ok. intros H. etrans; [|eapply update_instance_extends; [|exact H]].
  - apply set_agents_extends. set_solver.
  - clear H. intros a a' Ha. split_ok; try reflexivity. repeat split; try done. congruence.
Qed.

Lemma permission_requested_extends req run call agent tool args p p' :
  permission_requested req run call agent tool args p = Ok p' -> extends p p'.
Proof.
  unfold permission_requested. case_bool_decide as Hn; [done|]. intros [= <-].
  split; simpl; try reflexivity. apply map_ext_insert_new; [apply _|]. by apply eq_None_not_Some.
Qed.

Lemma permission_resolved_extends req d p p' :
  permission_resolved req d p = Ok p' -> extends p p'.
Proof.
  unfold permission_resolved. intros H. inv_ok.
  apply update_entry_Ok in Heqr as (q & q' & Hq & Hd & ->).
  split; simpl; try reflexivity. eapply map_ext_insert; eauto; [apply _|].
  split_ok; try reflexivity. repeat split; try done. congruence.
Qed.

Lemma run_queued_extends run retry prov model req p p' :
  run_queued run retry prov model req p = Ok p' -> extends p p'.
Proof.
  unfold run_queued. case_bool_decide as Hn; [done|]. intros [= <-].
  split; simpl; try reflexivity. apply map_ext_insert_new; [apply _|]. by apply eq_None_not_Some.
Qed.

Lemma run_started_extends run id n p p' : run_started run id n p = Ok p' -> extends p p'.
Proof.
  unfold run_started. intros H. inv_ok. etrans; [|apply set_queue_paused_extends].
  eapply update_run_extends; [|exact Heqr]. intros r r' Hr. simpl in Hr.
  case_bool_decide as Hs; simplify_eq/=.
  in_list Hs; split_and!; try done; simpl; rewrite Hs; try done; apply rtc_once; constructor.
Qed.

Lemma set_run_terminal_Ok run s e p p' :
  set_run_terminal run s e p = Ok p' ->
  exists r, sp_runs p !! run = Some r /\ terminal (rp_status r) = false
    /\ p' = set_runs (<[run := set_error e (set_status s r)]> (sp_runs p)) p.
Proof.
  intros (r & r' & Hr & Hf & ->)%update_run_Ok. cbv beta in Hf.
  case_bool_decide as Hs; simplify_eq/=. exists r. split_and!; try done.
  in_list Hs; by rewrite Hs.
Qed.

Lemma insert_run_extends k r r' p :
  sp_runs p !! k = Some r -> run_ext r r' -> extends p (set_runs (<[k := r']> (sp_runs p)) p).
Proof. intros. split; simpl; try reflexivity. eapply map_ext_insert; eauto; apply _. Qed.

Lemma end_run_ext s e r :
  terminal (rp_status r) = false -> terminal s = true -> run_ext r (set_error e (set_status s r)).
Proof.
  intros Hr Hs. split_and!; try done; simpl; [by apply rtc_once, step_end|]. congruence.
Qed.

Lemma set_run_terminal_extends run s e p p' :
  terminal s = true -> set_run_terminal run s e p = Ok p' -> extends p p'.
Proof.
  intros Ht (r & Hr & Hs & ->)%set_run_terminal_Ok.
  eapply insert_run_extends; [done|by apply end_run_ext].
Qed.

Lemma terminal_arm_extends run s e b p p' :
  terminal s = true ->
  (p1 ← set_run_terminal run s e p; Ok (set_queue_paused b p1)) = Ok p' -> extends p p'.
Proof.
  intros Ht H. inv_ok. etrans; [by eapply set_run_terminal_extends|auto with piqo].
Qed.

Lemma run_requires_action_extends run p p' : run_requires_action run p = Ok p' -> extends p p'.
Proof.
  unfold run_requires_action. intros H. inv_ok. etrans; [|apply set_queue_paused_extends].
  eapply update_run_extends; [|exact Heqr]. intros r r' Hr. simpl in Hr.
  case_bool_decide as Hs; simplify_eq/=. apply run_ext_status. rewrite Hs. constructor.
Qed.

Lemma tool_call_emitted_extends run msg call agent tool args raw native p p' :
  tool_call_emitted run msg call agent tool args raw native p = Ok p' -> extends p p'.
Proof.
  apply update_run_extends. intros r r' Hr. simpl in Hr. case_bool_decide as Hn; simplify_eq/=.
  repeat split; try done. simpl. apply map_ext_insert_new; [apply _|]. by apply eq_None_not_Some.
Qed.

Lemma tool_execution_started_extends run call ex p p' :
  tool_execution_started run call ex p = Ok p' -> extends p p'.
Proof.
  apply update_call_extends. intros c c' Hc.
  split_ok; try reflexivity. repeat split; try done. congruence.
Qed.

Lemma tool_result_extends run call res p p' : tool_result run call res p = Ok p' -> extends p p'.
Proof.
  apply update_call_extends. intros c c' Hc.
  split_ok; try reflexivity. repeat split; try done. congruence.
Qed.

Lemma context_fact_recorded_extends fact p : extends p (context_fact_recorded fact p).
Proof.
  unfold context_fact_recorded. destruct (existsb _ _); [reflexivity|].
  split; simpl; try reflexivity. by eexists.
Qed.

(** ** Well-formedness *)

Definition call_wf (k : string) (c : ToolCallProjection) : Prop :=
  tc_call_id c = k /\ (tc_native c = false -> tc_execution_id c = None).

Definition run_wf (k : string) (r : RunProjection) : Prop :=
  rp_run_id r = k
  /\ rp_queue_priority r = (if rp_retry_of r then -1 else 0)
  /\ (rp_status r = RQueued -> rp_attempt_id r = None /\ rp_attempts r = 0)
  /\ (rp_status r ∈ [RRunning; RRequiresAction] -> is_Some (rp_attempt_id r))
  /\ (rp_status r <> RCompleted -> rp_usage r = None)
  /\ map_Forall call_wf (rp_tool_calls r).

Definition message_wf (m : MessageProjection) : Prop :=
  mp_completed m && mp_interrupted m = false.

Record projection_wf (p : SessionProjection) : Prop := {
  wf_message_ids : NoDup (mp_message_id <$> sp_messages p);
  wf_messages : Forall message_wf (sp_messages p);
  wf_runs : map_Forall run_wf (sp_runs p);
  wf_permissions : map_Forall (fun k q => pp_request_id q = k) (sp_pending_permissions p);
  wf_instances : map_Forall (fun k a => ap_agent_id a = k) (sp_agent_instances p);
  wf_agents : dom (sp_agent_instances p) ⊆ dom (sp_agents p);
  wf_facts : NoDup (fact_id <$> cp_durable_facts (sp_context p)) }.

Lemma new_wf id : projection_wf (new id).
Proof.
  split; simpl; [apply NoDup_nil_2|constructor|apply map_Forall_empty..| |apply NoDup_nil_2].
  by rewrite !dom_empty.
Qed.

Lemma set_state_wf s p : projection_wf p -> projection_wf (set_state s p).
Proof. intros []. by split. Qed.
Lemma set_queue_paused_wf b p : projection_wf p -> projection_wf (set_queue_paused b p).
Proof. intros []. by split. Qed.
Lemma set_agents_wf m p :
  dom (sp_agents p) ⊆ dom m -> projection_wf p -> projection_wf (set_agents m p).
Proof. intros ? []. split; try done. simpl. set_solver. Qed.
Lemma set_context_wf c p :
  NoDup (fact_id <$> cp_durable_facts c) -> projection_wf p -> projection_wf (set_context c p).
Proof. intros ? []. by split. Qed.
#[export] Hint Resolve set_state_wf set_queue_paused_wf set_agents_wf set_context_wf : piqo.

Lemma update_message_wf id f p p' :
  (forall m m', message_wf m -> f m = Ok m' ->
     mp_message_id m' = mp_message_id m /\ message_wf m') ->
  update_message id f p = Ok p' -> projection_wf p -> projection_wf p'.
Proof.
  intros Hf H []. unfold update_message in H. inv_ok.
  apply update_first_Ok in Heqr as (l1 & m & m' & l2 & Hl & -> & _ & Hm & _).
  rewrite Hl in *. apply Forall_app in wf_messages0 as [? [? ?]%Forall_cons].
  apply Hf in Hm as [Hid Hwf]; [|done].
  split; simpl; try done.
  - rewrite fmap_app, fmap_cons, Hid, <- fmap_cons, <- fmap_app. done.
  - apply Forall_app. auto.
Qed.

Lemma update_run_wf k f p p' :
  (forall r r', run_wf k r -> f r = Ok r' -> run_wf k r') ->
  update_run k f p = Ok p' -> projection_wf p -> projection_wf p'.
Proof.
  intros Hf (r & r' & Hr & Hf' & ->)%update_run_Ok [].
  split; simpl; try done. apply map_Forall_insert_2; [|done].
  eapply Hf; [|done]. by apply wf_runs0.
Qed.

Lemma update_call_wf k c f p p' :
  (forall x x', call_wf c x -> f x = Ok x' -> call_wf c x') ->
  update_call k c f p = Ok p' -> projection_wf p -> projection_wf p'.
Proof.
  intros Hf. apply update_run_wf. intros r r' (?&?&?&Hatt&?&Hc) Hu. inv_ok.
  apply update_entry_Ok in Heqr0 as (x & x' & Hx & Hfx & ->).
  split_and!; try done. simpl. apply map_Forall_insert_2; [|done].
  eapply Hf; [|done]. by apply Hc.
Qed.

Lemma update_instance_wf k f p p' :
  (forall a a', f a = Ok a' -> ap_agent_id a' = ap_agent_id a) ->
  update_instance k f p = Ok p' -> projection_wf p -> projection_wf p'.
Proof.
  intros Hf H []. unfold update_instance in H. inv_ok.
  apply update_entry_Ok in Heqr as (x & x' & Ha & Hfa & ->).
  split; simpl; try done.
  - apply map_Forall_insert_2; [|done]. rewrite (Hf _ _ Hfa). by apply wf_instances0.
  - rewrite dom_insert. apply elem_of_dom_2 in Ha. set_solver.
Qed.

#[export] Hint Resolve update_message_wf update_run_wf update_call_wf update_instance_wf : piqo.

(** The arms, as in the previous group. *)

Lemma touch_wf i m : message_wf m -> message_wf (touch i m).
Proof. done. Qed.

Lemma message_arms_wf i id f p p' :
  (forall m, mp_completed m || mp_interrupted m = false ->
     mp_message_id (f m) = mp_message_id m /\ message_wf (f m)) ->
  update_message id (fun m => _ ← open_message id m; Ok (touch i (f m))) p = Ok p' ->
  projection_wf p -> projection_wf p'.
Proof.
  intros Hf. apply update_message_wf. intros m m' _ H. unfold open_message in H.
  destruct (mp_completed m || mp_interrupted m) eqn:Hc; [done|]. inv_ok.
  apply Hf in Hc as [<- ?]. split; [done|by apply touch_wf].
Qed.

Lemma existsb_key {A} (f : A -> string) k (l : list A) :
  existsb (fun x => String.eqb (f x) k) l = false <-> k ∉ f <$> l.
Proof.
  induction l as [|x l IH]; simpl; [split; [intros _ []%elem_of_nil|done]|].
  rewrite orb_false_iff, IH, String.eqb_neq, not_elem_of_cons. naive_solver.
Qed.

Lemma NoDup_snoc_fmap {A} (f : A -> string) (l : list A) x :
  NoDup (f <$> l) -> f x ∉ f <$> l -> NoDup (f <$> l ++ [x]).
Proof.
  intros ??. rewrite fmap_app. simpl. apply NoDup_app. split_and!; [done| |apply NoDup_singleton].
  intros y Hy ->%list_elem_of_singleton. done.
Qed.

Lemma message_started_wf i id agent role author p p' :
  message_started i id agent role author p = Ok p' -> projection_wf p -> projection_wf p'.
Proof.
  unfold message_started. destruct (existsb _ _) eqn:He; [done|]. intros [= <-] [].
  apply (existsb_key mp_message_id) in He. split; simpl; try done.
  - by apply NoDup_snoc_fmap.
  - apply Forall_app. split; [done|]. by constructor.
Qed.

Lemma agent_spawned_wf agent parent link rev p p' :
  agent_spawned agent parent link rev p = (p', None) -> projection_wf p -> projection_wf p'.
Proof.
  unfold agent_spawned. rewrite leave_Ok. case_bool_decide as Hn; [done|].
  intros [= <-] []. split; simpl; try done; [by apply map_Forall_insert_2|].
  rewrite !dom_insert. set_solver.
Qed.

Lemma agent_finished_wf agent res p p' :
  agent_finished agent res p = (p', None) -> projection_wf p -> projection_wf p'.
Proof.
  unfold agent_finished. rewrite leave_Ok. intros H Hp.
  eapply update_instance_wf; [|exact H|].
  - clear. intros a a' H. by split_ok.
  - apply set_agents_wf; [|done]. set_solver.
Qed.

Lemma permission_requested_wf req run call agent tool args p p' :
  permission_requested req run call agent tool args p = Ok p' ->
  projection_wf p -> projection_wf p'.
Proof.
  unfold permission_requested. case_bool_decide as Hn; [done|]. intros [= <-] [].
  split; simpl; try done. by apply map_Forall_insert_2.
Qed.

Lemma permission_resolved_wf req d p p' :
  permission_resolved req d p = Ok p' -> projection_wf p -> projection_wf p'.
Proof.
  unfold permission_resolved. intros H []. inv_ok.
  apply update_entry_Ok in Heqr as (q & q' & Hq & Hd & ->).
  split; simpl; try done. apply map_Forall_insert_2; [|done].
  apply wf_permissions0 in Hq. by split_ok.
Qed.

Lemma run_queued_wf run retry prov model req p p' :
  run_queued run retry prov model req p = Ok p' -> projection_wf p -> projection_wf p'.
Proof.
  unfold run_queued. case_bool_decide as Hn; [done|]. intros [= <-] [].
  split; simpl; try done. apply map_Forall_insert_2; [|done].
  split_and!; simpl; try done.
  intros Hs. in_list Hs.
Qed.

Lemma set_attempt_wf k id n r :
  rp_status r <> RQueued -> run_wf k r -> run_wf k (set_attempt id n r).
Proof. intros ? (?&?&?&?&?&?). split_and!; try done. Qed.

Lemma run_started_wf run id n p p' :
  run_started run id n p = Ok p' -> projection_wf p -> projection_wf p'.
Proof.
  unfold run_started. intros H Hp. inv_ok. apply set_queue_paused_wf.
  eapply update_run_wf; [|exact Heqr|exact Hp]. intros r r' (?&?&?&?&Hu&?) Hr. simpl in Hr.
  case_bool_decide as Hs; simplify_eq/=. split_and!; try done; simpl.
  intros _. apply Hu. intros E. rewrite E in Hs. in_list Hs.
Qed.

Lemma run_attempt_started_wf run id n p p' :
  run_attempt_started run id n p = Ok p' -> projection_wf p -> projection_wf p'.
Proof.
  apply update_run_wf. intros r r' Hwf Hr. simpl in Hr. case_bool_decide as Hs; simplify_eq/=.
  apply set_attempt_wf; [congruence|done].
Qed.

Lemma set_run_terminal_wf run s e p p' :
  terminal s = true -> set_run_terminal run s e p = Ok p' -> projection_wf p -> projection_wf p'.
Proof.
  intros Ht. apply update_run_wf. intros r r' (?&?&?&?&Hu&?) Hr. simpl in Hr.
  case_bool_decide as Hs; simplify_eq/=. split_and!; try done; simpl.
  - intros ->. done.
  - intros Hs'. in_list Hs'; subst; done.
  - intros _. apply Hu. intros E. rewrite E in Hs. in_list Hs.
Qed.

Lemma terminal_arm_wf run s e b p p' :
  terminal s = true ->
  (p1 ← set_run_terminal run s e p; Ok (set_queue_paused b p1)) = Ok p' ->
  projection_wf p -> projection_wf p'.
Proof. intros Ht H Hp. inv_ok. apply set_queue_paused_wf. by eapply set_run_terminal_wf. Qed.

Lemma run_completed_wf run usage p p' :
  run_completed run usage p = Ok p' -> projection_wf p -> projection_wf p'.
Proof.
  unfold run_completed. intros H Hp. inv_ok.
  pose proof (set_run_terminal_wf _ _ _ _ _ (eq_refl : terminal RCompleted = true) Heqr Hp) as Ha.
  apply update_run_Ok in Heqr as (r & r' & Hr & Hf & ->). simpl in Hf.
  case_bool_decide; simplify_eq/=.
  apply update_run_Ok in H as (r2 & r3 & Hr2 & [= <-] & ->).
  simpl in Hr2. rewrite lookup_insert_eq in Hr2. simplify_eq.
  destruct Ha. split; simpl; try done. apply map_Forall_insert_2; [|done].
  destruct (wf_runs0 run _ ltac:(apply lookup_insert_eq)) as (?&?&?&?&?&?).
  by split_and!.
Qed.

Lemma run_requires_action_wf run p p' :
  run_requires_action run p = Ok p' -> projection_wf p -> projection_wf p'.
Proof.
  unfold run_requires_action. intros H Hp. inv_ok. apply set_queue_paused_wf.
  eapply update_run_wf; [|exact Heqr|exact Hp]. intros r r' (?&?&?&Ha&Hu&?) Hr. simpl in Hr.
  case_bool_decide as Hs; simplify_eq/=. split_and!; try done; simpl.
  - intros _. apply Ha. rewrite Hs. by left.
  - intros _. apply Hu. by rewrite Hs.
Qed.

Lemma tool_call_emitted_wf run msg call agent tool args raw native p p' :
  tool_call_emitted run msg call agent tool args raw native p = Ok p' ->
  projection_wf p -> projection_wf p'.
Proof.
  apply update_run_wf. intros r r' (?&?&?&?&?&?) Hr. simpl in Hr.
  case_bool_decide as Hn; simplify_eq/=. split_and!; try done. by apply map_Forall_insert_2.
Qed.

Lemma tool_execution_started_wf run call ex p p' :
  tool_execution_started run call ex p = Ok p' -> projection_wf p -> projection_wf p'.
Proof.
  apply update_call_wf. intros c c' [? ?] Hc. simpl in Hc.
  destruct (tc_native c) eqn:Hn; simpl in Hc; [|done].
  split_ok; split; try done; simpl; congruence.
Qed.

Lemma tool_result_wf run call res p p' :
  tool_result run call res p = Ok p' -> projection_wf p -> projection_wf p'.
Proof. apply update_call_wf. intros c c' [? ?] Hc. split_ok; by split. Qed.

Lemma run_attempt_failed_wf run error p p' :
  run_attempt_failed run error p = Ok p' -> projection_wf p -> projection_wf p'.
Proof. apply update_run_wf. intros r r' (?&?&?&?&?&?) [= <-]. by split_and!. Qed.

Lemma context_fact_recorded_wf fact p :
  projection_wf p -> projection_wf (context_fact_recorded fact p).
Proof.
  intros Hp. unfold context_fact_recorded. destruct (existsb _ _) eqn:He; [done|].
  apply (existsb_key fact_id) in He. apply set_context_wf; [|done].
  apply NoDup_snoc_fmap; [apply Hp|done].
Qed.

Lemma message_content_appended_wf i id b p p' :
  message_content_appended i id b p = Ok p' -> projection_wf p -> projection_wf p'.
Proof.
  apply (message_arms_wf i id (push_block b)). intros m Hc. split; [done|].
  unfold message_wf. simpl. by destruct (mp_completed m).
Qed.

Lemma message_completed_wf i id p p' :
  message_completed i id p = Ok p' -> projection_wf p -> projection_wf p'.
Proof.
  apply (message_arms_wf i id mark_completed). intros m Hc. split; [done|].
  unfold message_wf. simpl. apply orb_false_iff in Hc. tauto.
Qed.

Lemma message_interrupted_wf i id p p' :
  message_interrupted i id p = Ok p' -> projection_wf p -> projection_wf p'.
Proof.
  apply (message_arms_wf i id mark_interrupted). intros m Hc. split; [done|].
  unfold message_wf. simpl. rewrite andb_true_r. apply orb_false_iff in Hc. tauto.
Qed.

Lemma run_failed_wf run e p p' : run_failed run e p = Ok p' -> projection_wf p -> projection_wf p'.
Proof. by apply (terminal_arm_wf run RFailed). Qed.
Lemma run_cancelled_wf run p p' : run_cancelled run p = Ok p' -> projection_wf p -> projection_wf p'.
Proof. by apply (terminal_arm_wf run RCancelled). Qed.
Lemma run_interrupted_wf run e p p' :
  run_interrupted run e p = Ok p' -> projection_wf p -> projection_wf p'.
Proof. by apply (terminal_arm_wf run RInterrupted). Qed.

Lemma agent_phase_changed_wf agent phase p :
  projection_wf p -> projection_wf (agent_phase_changed agent phase p).
Proof. intros Hp. apply set_agents_wf; [set_solver|done]. Qed.

Lemma agent_context_captured_wf agent refs p p' :
  agent_context_captured agent refs p = Ok p' -> projection_wf p -> projection_wf p'.
Proof. apply update_instance_wf. intros a a' H. by split_ok. Qed.

Lemma agent_result_delivered_wf agent res p p' :
  agent_result_delivered agent res p = Ok p' -> projection_wf p -> projection_wf p'.
Proof. apply update_instance_wf. intros a a' H. by split_ok. Qed.

#[export] Hint Resolve message_started_wf agent_spawned_wf agent_finished_wf
  permission_requested_wf permission_resolved_wf run_queued_wf run_started_wf
  run_attempt_started_wf run_completed_wf run_requires_action_wf tool_call_emitted_wf
  tool_execution_started_wf tool_result_wf run_attempt_failed_wf context_fact_recorded_wf
  message_content_appended_wf message_completed_wf message_interrupted_wf run_failed_wf
  run_cancelled_wf run_interrupted_wf agent_phase_changed_wf agent_context_captured_wf
  agent_result_delivered_wf : piqo.

(** The arms that were missing in the group on growth. *)

Lemma message_content_appended_extends i id b p p' :
  message_content_appended i id b p = Ok p' -> extends p p'.
Proof. apply (message_arms_extends i id (push_block b)). apply message_push_ext. Qed.
Lemma message_completed_extends i id p p' : message_completed i id p = Ok p' -> extends p p'.
Proof. apply (message_arms_extends i id mark_completed). apply message_completed_ext. Qed.
Lemma message_interrupted_extends i id p p' : message_interrupted i id p = Ok p' -> extends p p'.
Proof. apply (message_arms_extends i id mark_interrupted). apply message_interrupted_ext. Qed.

Lemma agent_phase_changed_extends agent phase p : extends p (agent_phase_changed agent phase p).
Proof. apply set_agents_extends. set_solver. Qed.

Lemma agent_context_captured_extends agent refs p p' :
  agent_context_captured agent refs p = Ok p' -> extends p p'.
Proof.
  apply update_instance_extends. intros a a' H. cbv beta in H.
  destruct (bool_decide_reflect (ap_context a = [])) as [E|]; simpl in H.
  - simplify_eq. repeat split; try done.
  - case_bool_decide; simplify_eq/=. by repeat split.
Qed.

Lemma agent_result_delivered_extends agent res p p' :
  agent_result_delivered agent res p = Ok p' -> extends p p'.
Proof.
  apply update_instance_extends. intros a a' H.
  split_ok; try reflexivity. repeat split; try done. congruence.
Qed.

Lemma run_attempt_started_extends run id n p p' :
  run_attempt_started run id n p = Ok p' -> extends p p'.
Proof.
  apply update_run_extends. intros r r' Hr. simpl in Hr. case_bool_decide; simplify_eq/=.
  split_and!; try done. intros T. rewrite H in T. done.
Qed.

Lemma run_completed_Ok run u p p' :
  run_completed run u p = Ok p' ->
  exists r, sp_runs p !! run = Some r /\ terminal (rp_status r) = false
    /\ p' = set_runs (<[run := set_usage u (set_error None (set_status RCompleted r))]> (sp_runs p)) p.
Proof.
  unfold run_completed. intros H. inv_ok.
  apply set_run_terminal_Ok in Heqr as (r & Hr & Hs & ->). exists r. split_and!; try done.
  apply update_run_Ok in H as (r2 & r3 & Hr2 & [= <-] & ->). simpl in Hr2.
  rewrite lookup_insert_eq in Hr2. simplify_eq. unfold set_runs. simpl.
  by rewrite insert_insert_eq.
Qed.

Lemma run_completed_extends run u p p' : run_completed run u p = Ok p' -> extends p p'.
Proof.
  intros (r & Hr & Hs & ->)%run_completed_Ok. eapply insert_run_extends; [done|].
  split_and!; try done; simpl; [by apply rtc_once, step_end|congruence].
Qed.

Lemma run_failed_extends run e p p' : run_failed run e p = Ok p' -> extends p p'.
Proof. by apply (terminal_arm_extends run RFailed). Qed.
Lemma run_cancelled_extends run p p' : run_cancelled run p = Ok p' -> extends p p'.
Proof. by apply (terminal_arm_extends run RCancelled). Qed.
Lemma run_interrupted_extends run e p p' : run_interrupted run e p = Ok p' -> extends p p'.
Proof. by apply (terminal_arm_extends run RInterrupted). Qed.

Lemma run_attempt_failed_extends run e p p' : run_attempt_failed run e p = Ok p' -> extends p p'.
Proof. apply update_run_extends. intros r r' [= <-]. by repeat split. Qed.

#[export] Hint Resolve message_started_extends agent_spawned_extends agent_finished_extends
  permission_requested_extends permission_resolved_extends run_queued_extends
  run_started_extends run_attempt_started_extends run_completed_extends
  run_requires_action_extends tool_call_emitted_extends tool_execution_started_extends
  tool_result_extends run_attempt_failed_extends context_fact_recorded_extends
  message_content_appended_extends message_completed_extends message_interrupted_extends
  run_failed_extends run_cancelled_extends run_interrupted_extends
  agent_phase_changed_extends agent_context_captured_extends
  agent_result_delivered_extends : piqo.
