(* ===== verification/SessionSpec.v ===== *)
(** What the session projection promises (files Session and SessionFacts).

    [replay] is the loop by which every caller rebuilds a session from its
    event log.  The theorems speak of replayed projections: they are
    well-formed; the events of a longer log only add to what a shorter one
    recorded; a terminal run stays terminal; an answer is recorded once.  Then
    the two machines (session phase with its revision counter, run queue with
    its pause flag) and the scheduling queries against their specifications. *)

From S2P Require Export SessionFacts EventLog.
From S2P Require Import BTree.
Import SessionProjection.

(** The loop over recorded events shared by the store and the supervisor. *)
Definition apply_recorded (p : SessionProjection) (e : RecordedEvent) :
    result ProjectionError SessionProjection :=
  try_apply (re_id e) (re_event e) p.
Definition replay (p : SessionProjection) (l : list RecordedEvent) :
    result ProjectionError SessionProjection := try_fold apply_recorded p l.

(** Numbered events, for concrete logs. *)
Fixpoint record_from (n : Z) (l : list SemanticEvent) : list RecordedEvent :=
  match l with
  | [] => []
  | e :: l => mkRecorded n "s" 1 "" e None :: record_from (n + 1) l
  end.

(** ** Every event preserves both relations *)

Lemma try_apply_wf i ev p p' : try_apply i ev p = Ok p' -> projection_wf p -> projection_wf p'.
Proof.
  intros H Hp. arms H; apply (set_state_wf s) in Hp; try (injection H as H); subst;
    eauto with piqo; by apply set_context_wf; [apply Hp|].
Qed.

Lemma try_apply_extends i ev p p' : try_apply i ev p = Ok p' -> projection_wf p -> extends p p'.
Proof.
  intros H Hp. arms H; transitivity (set_state s p); try apply set_state_extends;
    apply (set_state_wf s) in Hp; try (injection H as H); subst; try reflexivity;
    eauto using wf_agents with piqo; by split; reflexivity.
Qed.

Lemma replay_wf p l p' : replay p l = Ok p' -> projection_wf p -> projection_wf p'.
Proof.
  intros H Hp. revert H. apply try_fold_inv; [|done].
  intros q e q' _ Hq H. by eapply try_apply_wf.
Qed.

Lemma replay_extends p l p' : replay p l = Ok p' -> projection_wf p -> extends p p'.
Proof.
  revert p. induction l as [|e l IH]; intros p H Hp; cbn in H; [injection H as ->; reflexivity|].
  destruct (apply_recorded p e) as [q|] eqn:Hq; simpl in H; [|done].
  etrans; [exact (try_apply_extends _ _ _ _ Hq Hp)|].
  eapply IH; [done|exact (try_apply_wf _ _ _ _ Hq Hp)].
Qed.

Lemma replay_app p l1 l2 p2 :
  replay p (l1 ++ l2) = Ok p2 -> exists p1, replay p l1 = Ok p1 /\ replay p1 l2 = Ok p2.
Proof. unfold replay. rewrite try_fold_app. intros H. inv_ok. eauto. Qed.

Lemma replay_new_wf id l p : replay (new id) l = Ok p -> projection_wf p.
Proof. intros H. eapply replay_wf; [done|apply new_wf]. Qed.

Lemma replay_new_app id l1 l2 p2 :
  replay (new id) (l1 ++ l2) = Ok p2 ->
  exists p1, replay (new id) l1 = Ok p1 /\ projection_wf p1 /\ extends p1 p2.
Proof.
  intros (p1 & H1 & H2)%replay_app. exists p1.
  pose proof (replay_new_wf _ _ _ H1). eauto using replay_extends.
Qed.

(** ** Concrete log for the witnesses *)

Definition example_head : list SemanticEvent :=
  [SessionCreated None; SessionPhaseChanged Created Running None;
   MessageStarted "m" "" User AuthorUser; MessageContentAppended "m" (Text "hi");
   MessageCompleted "m"; RunQueued "r1" None "p" "x" JNull;
   RunQueued "r2" (Some "r0") "p" "x" JNull; RunStarted "r1" "a" 1;
   ToolCallEmitted "r1" "m" "c" "" "read" JNull "" true; RunRequiresAction "r1" ["c"];
   ToolResult "r1" "c" "" "read" (JBool true);
   PermissionRequested "q" "r1" (Some "c") "" "read" JNull;
   PermissionResolved "q" Allow None None None None].
Definition example_tail : list SemanticEvent :=
  [RunStarted "r1" "b" 2; RunCompleted "r1" None; RunAttemptFailed "r1" "b" "late" false].

Definition example_log : list RecordedEvent := record_from 1 (example_head ++ example_tail).

(** The projection of a numbered log that replays without error. *)
Definition state_of (l : list SemanticEvent) : SessionProjection :=
  match replay (new "s") (record_from 1 l) with Ok p => p | Err _ => new "s" end.

Lemma replay_state_of l :
  is_ok (replay (new "s") (record_from 1 l)) = true ->
  replay (new "s") (record_from 1 l) = Ok (state_of l).
Proof. unfold state_of. by destruct (replay _ _). Qed.

Ltac replay_example l :=
  let E := fresh "E" in
  assert (E : replay (new "s") (record_from 1 l) = Ok (state_of l))
    by (apply replay_state_of; vm_compute; reflexivity); exists (state_of l).

(** ** Invariant and history *)

(** C29. Well-formedness: every projection rebuilt from an event log has
    distinct message ids, no message both completed and interrupted, entries
    filed under their own id, attempts on the runs that have been started and
    none on queued runs, usage on completed runs only, executions on native
    calls only, and distinct durable facts. *)
Theorem replay_well_formed id l p : replay (new id) l = Ok p -> projection_wf p.
Proof. apply replay_new_wf. Qed.

Lemma replay_well_formed_witness :
  exists p, replay (new "s") (record_from 1 (example_head ++ example_tail)) = Ok p /\ projection_wf p.
Proof.
  replay_example (example_head ++ example_tail). split; [exact E|].
  exact (replay_well_formed _ _ _ E).
Defined.

(** Append-only history: extending a log only adds to what its prefix
    recorded.  Messages keep their place, identity and blocks (closed ones
    never change); runs keep their request and move along the run state
    machine; recorded tool results, executions, permission decisions, agent
    results and captured contexts are never rewritten. *)
Theorem replay_history_grows id l1 l2 p2 :
  replay (new id) (l1 ++ l2) = Ok p2 ->
  exists p1, replay (new id) l1 = Ok p1 /\ extends p1 p2.
Proof. intros (p1 & ? & _ & ?)%replay_new_app. eauto. Qed.

Lemma replay_history_grows_witness :
  exists p1, replay (new "s") (record_from 1 example_head) = Ok p1 /\
    extends p1 (state_of (example_head ++ example_tail)).
Proof.
  refine (replay_history_grows "s" (record_from 1 example_head) (record_from 14 example_tail) _ _).
  apply (replay_state_of (example_head ++ example_tail)). vm_compute. reflexivity.
Defined.

Lemma terminal_absorbing s t : terminal s = true -> run_steps s t -> t = s.
Proof.
  intros Ht H. inversion H as [|? u ? Hst _]; subst; [done|].
  inversion Hst; subst; try done. congruence.
Qed.

(** C30. Terminal runs: a run that completed, failed, was cancelled or was
    interrupted keeps that status, its attempt, its attempt count and its usage
    in every longer log. *)
Theorem terminal_run_is_final id l1 l2 p1 p2 k r :
  replay (new id) l1 = Ok p1 -> replay (new id) (l1 ++ l2) = Ok p2 ->
  sp_runs p1 !! k = Some r -> terminal (rp_status r) = true ->
  exists r', sp_runs p2 !! k = Some r' /\ rp_status r' = rp_status r /\
    rp_attempt_id r' = rp_attempt_id r /\ rp_attempts r' = rp_attempts r /\
    rp_usage r' = rp_usage r.
Proof.
  intros H1 (p & H1' & _ & Hext)%replay_new_app Hk Ht. assert (p = p1) as -> by congruence.
  destruct (ext_runs _ _ Hext k r Hk) as (r' & Hk' & Hr). exists r'. split; [done|].
  destruct Hr as (_&_&_&_&_&_&_&Hr&_). by apply Hr.
Qed.

Definition example_completed : list SemanticEvent := example_head ++ take 2 example_tail.

Lemma terminal_run_is_final_witness :
  exists r', sp_runs (state_of (example_head ++ example_tail)) !! "r1" = Some r' /\
    rp_status r' = RCompleted /\ rp_attempts r' = 2.
Proof.
  assert (E1 : replay (new "s") (record_from 1 example_completed) = Ok (state_of example_completed))
    by (apply replay_state_of; vm_compute; reflexivity).
  assert (E2 : replay (new "s") (record_from 1 example_completed ++ record_from 16 (drop 2 example_tail))
      = Ok (state_of (example_head ++ example_tail)))
    by (apply (replay_state_of (example_head ++ example_tail)); vm_compute; reflexivity).
  destruct (sp_runs (state_of example_completed) !! "r1") as [r|] eqn:Hr;
    [|vm_compute in Hr; discriminate].
  assert (Hs : rp_status r = RCompleted /\ rp_attempts r = 2)
    by (vm_compute in Hr; injection Hr as <-; split; reflexivity).
  destruct (terminal_run_is_final _ _ _ _ _ _ _ E1 E2 Hr ltac:(rewrite (proj1 Hs); reflexivity))
    as (r' & Hr' & Hst & _ & Ha & _).
  exists r'. rewrite Hst, Ha. by split.
Defined.

(** ** One answer each *)

(** The projection an accepted event that records nothing leaves behind. *)
Definition note_event (i : EventId) (p : SessionProjection) : SessionProjection :=
  let s := sp_state p in
  set_state (mkState (ss_session_id s) (ss_phase s) (ss_revision s) (Some i)) p.

Lemma update_first_id {E A} (pr : A -> bool) (none : E) l x :
  List.find pr l = Some x -> update_first pr none Ok l = Ok l.
Proof.
  induction l as [|y l IH]; simpl; [done|]. destruct (pr y); [done|].
  intros H. by rewrite (IH H).
Qed.

(** The projection of the first part of the example, and entries of it. *)
Definition example_state : SessionProjection := state_of example_head.
Definition example_run : RunProjection :=
  default (mkRun "" None "" "" JNull RQueued None 0 None None 0 ∅) (sp_runs example_state !! "r1").
Definition example_call : ToolCallProjection :=
  default (mkToolCall "" "" "" "" JNull "" false None None) (rp_tool_calls example_run !! "c").
Definition example_permission : PermissionProjection :=
  default (mkPermission "" "" None "" "" JNull None) (sp_pending_permissions example_state !! "q").

(** Tool results are write-once: redelivering the recorded result changes
    nothing but the position in the log, a different one is refused. *)
Theorem tool_result_redelivery i run call agent tool v v' r c p :
  sp_runs p !! run = Some r -> rp_tool_calls r !! call = Some c -> tc_result c = Some v ->
  try_apply i (ToolResult run call agent tool v') p =
    if decide (v = v') then Ok (note_event i p) else Err (ConflictingToolResult call).
Proof.
  intros Hr Hc Hv. unfold try_apply, apply. simpl. unfold tool_result, update_call, update_run.
  unfold update_entry at 1. simpl. rewrite Hr. simpl. unfold update_entry. rewrite Hc. simpl.
  rewrite Hv. destruct (decide (v = v')); simpl; [|done].
  rewrite (insert_id _ _ _ Hc). destruct r; simpl. unfold set_tool_calls. simpl in *.
  rewrite (insert_id _ _ _ Hr). by destruct p.
Qed.

Lemma tool_result_redelivery_witness :
  try_apply 99 (ToolResult "r1" "c" "" "read" (JBool true)) example_state
    = Ok (note_event 99 example_state) /\
  try_apply 99 (ToolResult "r1" "c" "" "read" JNull) example_state = Err (ConflictingToolResult "c").
Proof.
  assert (Hr : sp_runs example_state !! "r1" = Some example_run) by (vm_compute; reflexivity).
  assert (Hc : rp_tool_calls example_run !! "c" = Some example_call) by (vm_compute; reflexivity).
  assert (Hv : tc_result example_call = Some (JBool true)) by (vm_compute; reflexivity).
  split.
  - exact (tool_result_redelivery 99 "r1" "c" "" "read" _ (JBool true) _ _ _ Hr Hc Hv).
  - exact (tool_result_redelivery 99 "r1" "c" "" "read" _ JNull _ _ _ Hr Hc Hv).
Defined.

(** Permission decisions are write-once, like tool results. *)
Theorem permission_redelivery i req d d' src scope rule reason q p :
  sp_pending_permissions p !! req = Some q -> pp_decision q = Some d ->
  try_apply i (PermissionResolved req d' src scope rule reason) p =
    if decide (d = d') then Ok (note_event i p) else Err (ConflictingPermissionResolution req).
Proof.
  intros Hq Hd. unfold try_apply, apply. simpl. unfold permission_resolved, update_entry. simpl.
  rewrite Hq. simpl. rewrite Hd. destruct (decide (d = d')); simpl; [|done].
  rewrite (insert_id _ _ _ Hq). by destruct p.
Qed.

Lemma permission_redelivery_witness :
  try_apply 99 (PermissionResolved "q" Allow None None None None) example_state
    = Ok (note_event 99 example_state) /\
  try_apply 99 (PermissionResolved "q" Deny None None None None) example_state
    = Err (ConflictingPermissionResolution "q").
Proof.
  assert (Hq : sp_pending_permissions example_state !! "q" = Some example_permission)
    by (vm_compute; reflexivity).
  assert (Hd : pp_decision example_permission = Some Allow) by (vm_compute; reflexivity).
  split.
  - exact (permission_redelivery 99 "q" _ Allow None None None None _ _ Hq Hd).
  - exact (permission_redelivery 99 "q" _ Deny None None None None _ _ Hq Hd).
Defined.

(** ** The session's phase and revision *)

(** The edges of the phase graph. *)
Inductive phase_edge : SessionPhase -> SessionPhase -> Prop :=
  | edge_start s : s <> Running -> phase_edge s Running
  | edge_finish : phase_edge Running Finished
  | edge_interrupt : phase_edge Running Interrupted
  | edge_fail s : s ∈ [Created; Running; Interrupted] -> phase_edge s Failed.

(** What an event asks of the session's phase: the phase it starts from, when
    it names one, and the phase it leads to. *)
Definition phase_request (ev : SemanticEvent) : option (option SessionPhase * SessionPhase) :=
  match ev with
  | SessionPhaseChanged from to _ => Some (Some from, to)
  | SessionInterrupted _ => Some (Some Running, Interrupted)
  | SessionForked _ _ => Some (None, Interrupted)
  | _ => None
  end.

Lemma allowed_sources_edge s t : s ∈ SessionState.allowed_sources t <-> phase_edge s t.
Proof.
  split.
  - destruct t; simpl; intros H; in_list H; subst; constructor; try done; repeat constructor.
  - destruct 1 as [s Hs| | |s Hs]; simpl.
    + destruct s; try done; repeat constructor.
    + by left.
    + by left.
    + done.
Qed.

Lemma transition_Ok next allowed s s' :
  SessionState.transition next allowed s = Ok s' <->
  ss_phase s ∈ allowed /\
  s' = mkState (ss_session_id s) next (u64_add (ss_revision s) 1) (ss_last_event_id s).
Proof.
  unfold SessionState.transition. case_bool_decide; simpl; split.
  - intros [= <-]. done.
  - by intros [_ ->].
  - done.
  - by intros [? _].
Qed.

Lemma session_apply_spec i ev s s' :
  SessionState.apply i ev s = Ok s' <->
  (forall t, ev = SessionCreated t -> ss_revision s = 0 /\ ss_last_event_id s = None) /\
  match phase_request ev with
  | Some (from, to) =>
      match from with Some f => ss_phase s = f /\ phase_edge f to | None => True end /\
      s' = mkState (ss_session_id s) to (u64_add (ss_revision s) 1) (Some i)
  | None => s' = mkState (ss_session_id s) (ss_phase s) (ss_revision s) (Some i)
  end.
Proof.
  unfold SessionState.apply.
  destruct ev; simpl; try (split; [intros [= <-]; by split|by intros [_ ->]]).
  - destruct (Z.eqb_spec (ss_revision s) 0) as [E|E]; simpl.
    + destruct (ss_last_event_id s) as [l|] eqn:H; simpl.
      * split; [done|]. intros [Hc _]. by destruct (Hc _ eq_refl).
      * split; [|by intros [_ ->]]. by intros [= <-].
    + split; [done|]. intros [Hc _]. by destruct (Hc _ eq_refl).
  - case_bool_decide as H; simpl; [|by split; [|intros (_&[? _]&_)]].
    destruct (SessionState.transition to _ s) as [q|e] eqn:Hq; simpl.
    + apply transition_Ok in Hq as [Hin ->]. rewrite allowed_sources_edge, H in Hin.
      split; [intros [= <-]; by split_and!|by intros (_&_&->)].
    + split; [done|]. intros (_&[_ He]&_). apply allowed_sources_edge in He.
      unfold SessionState.transition in Hq. rewrite bool_decide_eq_true_2 in Hq by congruence. done.
  - unfold SessionState.interrupt.
    destruct (SessionState.transition _ _ s) as [q|e] eqn:Hq; simpl.
    + apply transition_Ok in Hq as [Hin ->]. in_list Hin.
      split; [intros [= <-]; split_and!; try done; constructor|by intros (_&_&->)].
    + split; [done|]. intros (_&[Hp _]&_).
      unfold SessionState.transition in Hq.
      rewrite bool_decide_eq_true_2 in Hq; [done|]. rewrite Hp. by left.
  - split; [intros [= <-]; by split_and!|by intros (_&_&->)].
Qed.

(** The session state machine: an event is accepted exactly when it is the
    creation of an untouched session, an edge of the phase graph from the
    current phase, a fork, or does not concern the phase.  A phase change bumps
    the revision by one, anything else keeps phase and revision, and the event
    becomes the last one seen. *)
Theorem session_state_machine i ev s s' :
  SessionState.apply i ev s = Ok s' <->
  (forall t, ev = SessionCreated t -> ss_revision s = 0 /\ ss_last_event_id s = None) /\
  match phase_request ev with
  | Some (from, to) =>
      match from with Some f => ss_phase s = f /\ phase_edge f to | None => True end /\
      s' = mkState (ss_session_id s) to (u64_add (ss_revision s) 1) (Some i)
  | None => s' = mkState (ss_session_id s) (ss_phase s) (ss_revision s) (Some i)
  end.
Proof. apply session_apply_spec. Qed.

(** Events that move the session's phase. *)
Definition moves_phase (ev : SemanticEvent) : bool := bool_decide (is_Some (phase_request ev)).

(** What an event does to the queue's pause flag. *)
Definition queue_effect (ev : SemanticEvent) : option bool :=
  match ev with
  | RunStarted _ _ _ | QueueResumed => Some false
  | RunFailed _ _ | RunCancelled _ _ | RunInterrupted _ _ | RunRequiresAction _ _
  | QueuePaused | SessionForked _ _ => Some true
  | _ => None
  end.

Definition control (p : SessionProjection) : SessionState * bool := (sp_state p, sp_queue_paused p).

Lemma update_message_control id f p p' : update_message id f p = Ok p' -> control p' = control p.
Proof. unfold update_message. intros H. by inv_ok. Qed.
Lemma update_run_control id f p p' : update_run id f p = Ok p' -> control p' = control p.
Proof. unfold update_run. intros H. by inv_ok. Qed.
Lemma update_instance_control id f p p' : update_instance id f p = Ok p' -> control p' = control p.
Proof. unfold update_instance. intros H. by inv_ok. Qed.

#[local] Hint Resolve update_message_control update_run_control update_instance_control : piqo.

Lemma paused_arm_control id f b p p' :
  (p1 ← update_run id f p; Ok (set_queue_paused b p1)) = Ok p' -> control p' = (sp_state p, b).
Proof.
  intros H. inv_ok. apply update_run_control in Heqr. unfold control in *. simpl. congruence.
Qed.

Lemma agent_finished_control agent res p p' :
  agent_finished agent res p = (p', None) -> control p' = control p.
Proof. unfold agent_finished. rewrite leave_Ok. by intros ->%update_instance_control. Qed.

Lemma run_completed_control run u p p' : run_completed run u p = Ok p' -> control p' = control p.
Proof. by intros (r & _ & _ & ->)%run_completed_Ok. Qed.

Lemma project_event_control i ev p p' :
  project_event i ev p = (p', None) ->
  control p' = (sp_state p, default (sp_queue_paused p) (queue_effect ev)).
Proof.
  assert (Hc : control p = (sp_state p, sp_queue_paused p)) by done.
  destruct ev; simpl; rewrite ?leave_Ok; intros H; rewrite <- ?Hc;
    try (injection H as H; by subst);
    eauto using paused_arm_control, agent_finished_control, run_completed_control with piqo.
  - unfold message_started in H. by split_ok.
  - unfold run_queued in H. by split_ok.
  - unfold permission_requested in H. by split_ok.
  - unfold permission_resolved in H. by inv_ok.
  - unfold agent_spawned in H. rewrite leave_Ok in H. by split_ok.
  - unfold context_fact_recorded in H. by destruct (existsb _ _); simplify_eq/=.
Qed.

Lemma try_apply_control i ev p p' :
  try_apply i ev p = Ok p' ->
  SessionState.apply i ev (sp_state p) = Ok (sp_state p') /\
  sp_queue_paused p' = default (sp_queue_paused p) (queue_effect ev).
Proof.
  intros (s & Hs & H)%try_apply_inv. apply project_event_control in H.
  injection H as -> ->. done.
Qed.

(** The queue's pause flag after any log is the effect of the last event
    that has one: a failure, a cancellation, an interruption, a run waiting for
    action, an explicit pause and a fork pause it; a started run and an explicit
    resume release it. *)
Theorem queue_pause_follows_last_effect id l p :
  replay (new id) l = Ok p ->
  sp_queue_paused p = default false (last (omap (fun e => queue_effect (re_event e)) l)).
Proof.
  revert p. induction l as [|e l IH] using rev_ind; intros p H; [by injection H as <-|].
  apply replay_app in H as (q & Hq & H). cbn in H.
  destruct (apply_recorded q e) as [p1|] eqn:E; [|done]. injection H as <-.
  apply try_apply_control in E as [_ ->]. rewrite (IH _ Hq), omap_app. simpl.
  destruct (queue_effect (re_event e)); simpl; [by rewrite last_snoc|by rewrite app_nil_r].
Qed.

Lemma queue_pause_follows_last_effect_witness :
  exists p, replay (new "s") (record_from 1 example_head) = Ok p /\ sp_queue_paused p = true.
Proof.
  replay_example example_head. split; [exact E|].
  rewrite (queue_pause_follows_last_effect _ _ _ E). reflexivity.
Defined.

(** Revision counter: the revision of a replayed session is the number of
    events of the log that move its phase, at the width of a [u64]. *)
Theorem revision_counts_phase_moves id l p :
  replay (new id) l = Ok p ->
  ss_revision (sp_state p) =
    Z.of_nat (length (List.filter (fun e => moves_phase (re_event e)) l)) mod 2 ^ 64.
Proof.
  revert p. induction l as [|e l IH] using rev_ind; intros p H; [by injection H as <-|].
  apply replay_app in H as (q & Hq & H). cbn in H.
  destruct (apply_recorded q e) as [p1|] eqn:E; [|done]. injection H as <-.
  apply try_apply_control in E as [E _].
  apply session_apply_spec in E as [_ E]. specialize (IH _ Hq).
  rewrite List.filter_app, length_app, Nat2Z.inj_add. simpl. unfold moves_phase at 2.
  destruct (phase_request (re_event e)) as [[from to]|].
  - destruct E as [_ ->]. rewrite bool_decide_eq_true_2 by done. simpl. rewrite IH.
    unfold u64_add. by rewrite Zplus_mod_idemp_l.
  - rewrite E, bool_decide_eq_false_2 by by intros []. simpl. by rewrite IH, Z.add_0_r.
Qed.

Lemma revision_counts_phase_moves_witness :
  exists p, replay (new "s") (record_from 1 example_head) = Ok p /\ ss_revision (sp_state p) = 1.
Proof.
  replay_example example_head. split; [exact E|].
  rewrite (revision_counts_phase_moves _ _ _ E). vm_compute. reflexivity.
Defined.

(** ** Scheduling *)

Lemma queue_leb_total a b : queue_leb a b || queue_leb b a.
Proof.
  unfold queue_leb.
  destruct (Z.ltb_spec (rp_queue_priority a) (rp_queue_priority b)); simpl; [done|].
  destruct (Z.ltb_spec (rp_queue_priority b) (rp_queue_priority a)); simpl; [by rewrite orb_true_r|].
  assert (rp_queue_priority a = rp_queue_priority b) as -> by lia. rewrite Z.eqb_refl. simpl.
  apply string_leb_total'.
Qed.

Lemma queue_leb_spec a b :
  queue_leb a b <-> rp_queue_priority a < rp_queue_priority b \/
    rp_queue_priority a = rp_queue_priority b /\ String.leb (rp_run_id a) (rp_run_id b).
Proof.
  unfold queue_leb. rewrite Is_true_true, orb_true_iff, andb_true_iff, Z.ltb_lt, Z.eqb_eq.
  by rewrite Is_true_true.
Qed.

Lemma queue_leb_trans a b c : queue_leb a b -> queue_leb b c -> queue_leb a c.
Proof.
  rewrite !queue_leb_spec. intros [H|[H Hs]] [H'|[H' Hs']]; [left; lia..|].
  right. split; [lia|]. by eapply string_leb_trans.
Qed.

Lemma run_id_key p k r : projection_wf p -> sp_runs p !! k = Some r -> rp_run_id r = k.
Proof. intros Hp Hr. apply (wf_runs _ Hp) in Hr as [? _]. done. Qed.

Lemma run_ids_keys p :
  projection_wf p -> rp_run_id <$> btree_values (sp_runs p) = btree_keys (sp_runs p).
Proof.
  intros Hp. unfold btree_values, btree_keys. rewrite <- list_fmap_compose.
  apply list_fmap_ext. intros i [k r] H. simpl. eapply run_id_key; [done|].
  apply elem_of_btree_entries. by eapply list_elem_of_lookup_2.
Qed.

Lemma elem_of_runs_with (f : RunProjection -> bool) p r :
  projection_wf p ->
  r ∈ List.filter f (btree_values (sp_runs p)) <-> sp_runs p !! rp_run_id r = Some r /\ f r = true.
Proof.
  intros Hp. rewrite list_elem_of_In, List.filter_In, <- list_elem_of_In, elem_of_btree_values.
  split.
  - intros [[k Hk] Hf]. by rewrite (run_id_key _ _ _ Hp Hk).
  - intros [Hk Hf]. eauto.
Qed.

Lemma NoDup_runs_with (f : RunProjection -> bool) p :
  projection_wf p -> NoDup (List.filter f (btree_values (sp_runs p))).
Proof.
  intros Hp. apply NoDup_ListNoDup, List.NoDup_filter, NoDup_ListNoDup.
  eapply (NoDup_fmap_1 rp_run_id). rewrite run_ids_keys by done. apply btree_keys_NoDup.
Qed.

(** The scheduler's order: retries first, then by run id. *)
Definition runs_before (a b : RunProjection) : Prop :=
  (is_Some (rp_retry_of a) /\ rp_retry_of b = None)
  \/ ((is_Some (rp_retry_of a) <-> is_Some (rp_retry_of b)) /\ String.leb (rp_run_id a) (rp_run_id b)).

Lemma StronglySorted_impl_in {A} (R S : relation A) (l : list A) :
  (forall x y, x ∈ l -> y ∈ l -> R x y -> S x y) -> StronglySorted R l -> StronglySorted S l.
Proof.
  induction l as [|x l IH]; intros HRS H; [constructor|].
  apply StronglySorted_inv in H as [Hs Hx]. constructor.
  - apply IH; [|done]. intros; apply HRS; by try right.
  - rewrite Forall_forall in *. intros y Hy. apply HRS; [by left|by right|by apply Hx].
Qed.

(** The queue: [queued_runs] lists each queued run exactly once, retries
    before fresh runs and each group by run id (run ids are time-ordered). *)
Theorem queued_runs_in_order id l p :
  replay (new id) l = Ok p ->
  (forall r, r ∈ queued_runs p <-> sp_runs p !! rp_run_id r = Some r /\ rp_status r = RQueued)
  /\ NoDup (queued_runs p) /\ StronglySorted runs_before (queued_runs p).
Proof.
  intros Hp%replay_new_wf.
  assert (Hin : forall r, r ∈ queued_runs p <->
    sp_runs p !! rp_run_id r = Some r /\ rp_status r = RQueued).
  { intros r. unfold queued_runs. by rewrite elem_of_sort_by, elem_of_runs_with, bool_decide_eq_true. }
  split_and!; [done| |].
  - unfold queued_runs. rewrite sort_by_perm. by apply NoDup_runs_with.
  - eapply StronglySorted_impl_in; [|apply sort_by_sorted; [apply queue_leb_total|apply queue_leb_trans]].
    intros a b Ha%Hin Hb%Hin. rewrite queue_leb_spec. unfold runs_before.
    destruct Ha as [(_&Ha&_)%(wf_runs _ Hp) _], Hb as [(_&Hb&_)%(wf_runs _ Hp) _].
    rewrite Ha, Hb. destruct (rp_retry_of a), (rp_retry_of b); intros [?|[? ?]]; try lia;
      (left; by split) || (right; by split).
Qed.

Lemma queued_runs_in_order_witness :
  exists p, replay (new "s") (record_from 1
      (firstn 7 example_head ++ [RunQueued "r3" None "p" "x" JNull])) = Ok p /\
    rp_run_id <$> queued_runs p = ["r2"; "r1"; "r3"] /\ NoDup (queued_runs p).
Proof.
  replay_example (firstn 7 example_head ++ [RunQueued "r3" None "p" "x" JNull]).
  destruct (queued_runs_in_order _ _ _ E) as (_ & Hn & _). split_and!; [exact E| |exact Hn].
  vm_compute. reflexivity.
Defined.

(** A run that has everything it was waiting for. *)
Definition ready (r : RunProjection) : Prop :=
  rp_status r = RRequiresAction /\ rp_tool_calls r <> ∅ /\
  (forall k c, rp_tool_calls r !! k = Some c -> is_Some (tc_result c)).

(** Resumption: [ready_action_run] finds a run exactly when some run waits
    for action and every one of its tool calls (at least one) has a result,
    and the run it finds is such a run. *)
Theorem ready_action_run_complete p :
  match ready_action_run p with
  | Some r => (exists k, sp_runs p !! k = Some r) /\ ready r
  | None => forall k r, sp_runs p !! k = Some r -> ~ ready r
  end.
Proof.
  assert (Hr : forall r, (bool_decide (rp_status r = RRequiresAction)
      && negb (bool_decide (rp_tool_calls r = ∅))
      && forallb (fun c => bool_decide (is_Some (tc_result c))) (btree_values (rp_tool_calls r))
      = true) <-> ready r).
  { intros r. rewrite !andb_true_iff, negb_true_iff, bool_decide_eq_true, bool_decide_eq_false,
      forallb_elem. unfold ready. setoid_rewrite bool_decide_eq_true.
    setoid_rewrite elem_of_btree_values. naive_solver. }
  unfold ready_action_run. destruct (List.find _ _) as [r|] eqn:Hf.
  - apply find_Some_elem in Hf as [Hin H]. split; [by apply elem_of_btree_values|by apply Hr].
  - intros k r Hk Hready%Hr. rewrite find_None_elem in Hf.
    rewrite Hf in Hready; [done|]. apply elem_of_btree_values. eauto.
Qed.

(** ** What a failed event leaves behind *)

(** Failure footprint: an event that is refused leaves messages, runs,
    permissions, agent instances, context and pause flag as they were; only the
    state's last event id and the agents' phases may already have moved. *)
Theorem failed_apply_footprint i ev p p' e :
  apply i ev p = (p', Some e) ->
  exists s m, (s = sp_state p \/ SessionState.apply i ev (sp_state p) = Ok s) /\
    dom (sp_agents p) ⊆ dom m /\ p' = set_agents m (set_state s p).
Proof.
  unfold SessionProjection.apply.
  destruct (SessionState.apply i ev (sp_state p)) as [s|err] eqn:Hs.
  - intros H. exists s.
    assert (Hid : forall q, set_agents (sp_agents q) q = q) by by intros [].
    destruct ev; simpl in H; try discriminate; try (apply leave_Err in H as [-> _];
      exists (sp_agents p); split_and!; [by right|done|by rewrite <- (Hid (set_state s p))]).
    + apply leave_Err in H as [-> _]. eexists. split_and!; [by right| |done].
      rewrite dom_insert. set_solver.
    + apply leave_Err in H as [-> _]. eexists. split_and!; [by right| |done].
      rewrite dom_insert. set_solver.
  - intros [= <- <-]. exists (sp_state p), (sp_agents p). split_and!; [by left|done|by destruct p].
Qed.

Lemma failed_apply_footprint_witness :
  exists p', apply 99 (RunStarted "nope" "a" 1) example_state = (p', Some (UnknownRun "nope")) /\
    sp_runs p' = sp_runs example_state.
Proof.
  assert (G : forall ev e q, snd (apply 99 ev q) = Some e ->
    exists p', apply 99 ev q = (p', Some e) /\ sp_runs p' = sp_runs q).
  { intros ev e q. destruct (apply 99 ev q) as [p' o] eqn:E. simpl. intros ->.
    destruct (failed_apply_footprint _ _ _ _ _ E) as (s & m & _ & _ & Hp).
    exists p'. split; [reflexivity|]. rewrite Hp. reflexivity. }
  apply G. vm_compute. reflexivity.
Defined.
