(* ===== verification/Workspace.v ===== *)
(** The file-system side of the native tools: [NativeExecutor::resolve],
    [atomic_write], [map_io] and [NativeToolError] of [piqo-tools/src/lib.rs].

    The operating system is modelled as the calls of [std::fs] the source makes
    on a tree of directories, regular files, symbolic links and other nodes:
    an absolute path is the list of its components, a file system maps such
    paths to nodes, and a symbolic link holds the absolute path it points to.
    Resolution follows links as the kernel does, at most forty of them.
    Other processes do not move the tree between two calls, and writes do not
    run out of space. *)

From S2P Require Export Json.

Inductive NativeToolError :=
  | InvalidArguments | OutsideWorkspace | SymlinkNotAllowed | NotFound | NotRegularFile
  | NotDirectory | BinaryContent | AlreadyExists | Conflict | TooLarge | Unavailable
  | SpawnFailed | Io.
#[export] Instance NativeToolError_eq_dec : EqDecision NativeToolError.
Proof. solve_decision. Defined.

Definition code (e : NativeToolError) : string :=
  match e with
  | InvalidArguments => "invalid_arguments"
  | OutsideWorkspace => "outside_workspace"
  | SymlinkNotAllowed => "symlink_not_allowed"
  | NotFound => "not_found"
  | NotRegularFile => "not_regular_file"
  | NotDirectory => "not_directory"
  | BinaryContent => "binary_content"
  | AlreadyExists => "already_exists"
  | Conflict => "conflict"
  | TooLarge => "too_large"
  | Unavailable => "unavailable"
  | SpawnFailed => "spawn_failed"
  | Io => "io_failure"
  end.
Definition error_result (e : NativeToolError) : json :=
  jobject [("error", jobject [("code", JString (code e))])].

(** ** [std::path]: components *)

Inductive component := RootDir | CurDir | ParentDir | Normal (part : string).
#[export] Instance component_eq_dec : EqDecision component.
Proof. solve_decision. Defined.

Definition slash : ascii := "/"%char.

(** [split('/')]. *)
Fixpoint split_slash (s : string) : list string :=
  match s with
  | "" => [""]
  | String c s =>
      if (c =? slash)%char then "" :: split_slash s
      else match split_slash s with
      | [] => [String c ""]
      | l :: ls => String c l :: ls
      end
  end.

(** A part of the body of a path: empty parts and [.] disappear. *)
Definition body_component (part : string) : list component :=
  if String.eqb part "" || String.eqb part "." then []
  else if String.eqb part ".." then [ParentDir] else [Normal part].

Definition path_is_absolute (s : string) : bool := starts_with "/" s.

(** [Path::components]: a leading [.] of a relative path is kept. *)
Definition components (s : string) : list component :=
  let body := concat (body_component <$> split_slash s) in
  if path_is_absolute s then RootDir :: body
  else match split_slash s with
  | part :: _ => if String.eqb part "." then CurDir :: body else body
  | [] => body
  end.

(** [Path::strip_prefix], on components. *)
Fixpoint strip_components (p l : list component) : option (list component) :=
  match p, l with
  | [], _ => Some l
  | c :: p, d :: l => if decide (c = d) then strip_components p l else None
  | _ :: _, [] => None
  end.

(** ** [std::fs] *)

(** An absolute path without [.] and [..]. *)
Notation path := (list string).

Inductive node :=
  | Dir
  | File (content : string)
  | Symlink (target : path)
  | Special.

Notation file_system := (gmap path node).

Inductive io_error := IoNotFound | IoAlreadyExists | IoOther.

Definition node_at (fs : file_system) (p : path) : option node :=
  match p with [] => Some Dir | _ => fs !! p end.

Inductive walked :=
  | Reached (p : path)
  | Follow (p : path)
  | Missing (e : io_error).

(** Walk down from the directory [dir] until a link is met. *)
Fixpoint walk (fs : file_system) (dir todo : path) : walked :=
  match todo with
  | [] => Reached dir
  | c :: todo =>
      match node_at fs (dir ++ [c]) with
      | None => Missing IoNotFound
      | Some (Symlink target) => Follow (target ++ todo)
      | Some Dir => walk fs (dir ++ [c]) todo
      | Some _ => match todo with [] => Reached (dir ++ [c]) | _ => Missing IoOther end
      end
  end.

Fixpoint realpath_fuel (links : nat) (fs : file_system) (p : path) : result io_error path :=
  match walk fs [] p with
  | Reached q => Ok q
  | Missing e => Err e
  | Follow q => match links with O => Err IoOther | S links => realpath_fuel links fs q end
  end.
(** Linux follows forty links before it gives up with [ELOOP]. *)
Definition realpath (fs : file_system) (p : path) : result io_error path := realpath_fuel 40 fs p.

(** [fs::metadata]: the node a path leads to. *)
Definition metadata (fs : file_system) (p : path) : result io_error node :=
  q ← realpath fs p; ok_or IoNotFound (node_at fs q).

(** [fs::symlink_metadata]: as [metadata], but a link at the end is not followed. *)
Definition symlink_metadata (fs : file_system) (p : path) : result io_error node :=
  match p with
  | [] => Ok Dir
  | c :: l =>
      let dir := removelast p in
      q ← realpath fs dir;
      match node_at fs q with
      | Some Dir => ok_or IoNotFound (node_at fs (q ++ [List.last p ""]))
      | _ => Err IoOther
      end
  end.

Definition path_exists (fs : file_system) (p : path) : bool := is_ok (metadata fs p).
Definition path_is_dir (fs : file_system) (p : path) : bool :=
  match metadata fs p with Ok Dir => true | _ => false end.

(** [fs::read] and [File::open] followed by reading to the end. *)
Definition read_file (fs : file_system) (p : path) : result io_error string :=
  n ← metadata fs p; match n with File content => Ok content | _ => Err IoOther end.

Definition map_io (e : io_error) : NativeToolError :=
  match e with IoNotFound => NotFound | _ => Io end.

(** ** [NativeExecutor::resolve] *)

Section resolve.
  Context (fs : file_system) (workspace : path).

Fixpoint resolve_loop (allow_missing_leaf : bool) (resolved : path) (l : list component) :
    result NativeToolError path :=
  match l with
  | [] => Ok resolved
  | CurDir :: l => resolve_loop allow_missing_leaf resolved l
  | Normal part :: l =>
      let resolved := resolved ++ [part] in
      match symlink_metadata fs resolved with
      | Ok (Symlink _) => Err SymlinkNotAllowed
      | Ok n =>
          if bool_decide (l <> []) && negb (match n with Dir => true | _ => false end)
          then Err NotDirectory else resolve_loop allow_missing_leaf resolved l
      | Err IoNotFound =>
          if allow_missing_leaf && bool_decide (l = [])
          then resolve_loop allow_missing_leaf resolved l else Err NotFound
      | Err _ => Err Io
      end
  | (ParentDir | RootDir) :: _ => Err OutsideWorkspace
  end.

Definition relative_components (input : string) : result NativeToolError (list component) :=
  if path_is_absolute input
  then ok_or OutsideWorkspace
         (strip_components (RootDir :: (Normal <$> workspace)) (components input))
  else Ok (components input).

Definition resolve (input : string) (allow_missing_leaf : bool) : result NativeToolError path :=
  relative ← relative_components input;
  if bool_decide (relative = []) then Err InvalidArguments
  else resolve_loop allow_missing_leaf workspace relative.

End resolve.

(** ** [atomic_write] *)

(** [fs::remove_file], [fs::hard_link] (which does not follow [from]) and
    [fs::rename] within one directory; the parent directory is real. *)
Definition remove_file (fs : file_system) (p : path) : file_system := delete p fs.
Definition hard_link (fs : file_system) (from to : path) : result io_error file_system :=
  match node_at fs from, node_at fs to with
  | Some n, None => Ok (<[to := n]> fs)
  | _, Some _ => Err IoAlreadyExists
  | None, _ => Err IoNotFound
  end.
Definition rename (fs : file_system) (from to : path) : result io_error file_system :=
  match node_at fs from, node_at fs to with
  | None, _ => Err IoNotFound
  | Some _, Some Dir => Err IoOther
  | Some n, _ => Ok (<[to := n]> (delete from fs))
  end.

(** [temporary_name] is the [.piqo-<uuid>.tmp] of this call.  The result is the
    file system left behind, on success and on failure. *)
Definition atomic_write (fs : file_system) (temporary_name : string) (p : path)
    (content : string) (create_only : bool) : file_system * result NativeToolError () :=
  if bool_decide (p = []) then (fs, Err NotDirectory)
  else
    let parent := removelast p in
    if negb (path_is_dir fs parent) then (fs, Err NotDirectory)
    else
      let temporary := parent ++ [temporary_name] in
      let '(fs', r) :=
        match node_at fs temporary with
        | Some _ => (fs, Err Io)
        | None =>
            let fs1 := <[temporary := File content]> fs in
            if create_only then
              match hard_link fs1 temporary p with
              | Err IoAlreadyExists => (fs1, Err AlreadyExists)
              | Err _ => (fs1, Err Io)
              | Ok fs2 => (remove_file fs2 temporary, Ok ())
              end
            else
              match rename fs1 temporary p with
              | Err _ => (fs1, Err Io)
              | Ok fs2 => (fs2, Ok ())
              end
        end in
      (if path_exists fs' temporary then remove_file fs' temporary else fs', r).

(** ** Facts about resolution *)

(** A path reached without following any link; a directory reached so. *)
Definition real (fs : file_system) (p : path) : Prop := walk fs [] p = Reached p.
Definition real_dir (fs : file_system) (p : path) : Prop :=
  real fs p /\ node_at fs p = Some Dir.

Lemma walk_Reached fs d l q : walk fs d l = Reached q -> q = d ++ l.
Proof.
  revert d. induction l as [|c l IH]; intros d H; cbn in H.
  - injection H as <-. by rewrite app_nil_r.
  - destruct (node_at fs (d ++ [c])) as [[| | |]|]; try done.
    + rewrite (IH _ H). by rewrite <- (assoc_L (++)).
    + destruct l; [by injection H as <-|done].
    + destruct l; [by injection H as <-|done].
Qed.

Lemma walk_app fs d l1 l2 q :
  walk fs d l1 = Reached q -> node_at fs q = Some Dir -> walk fs d (l1 ++ l2) = walk fs q l2.
Proof.
  revert d. induction l1 as [|c l1 IH]; intros d H Hq; cbn in H |- *.
  - by injection H as <-.
  - destruct (node_at fs (d ++ [c])) as [[| | |]|] eqn:Hn; try done; [by apply IH|..];
      destruct l1; try done; injection H as <-; congruence.
Qed.

Lemma node_at_snoc fs d c : node_at fs (d ++ [c]) = fs !! (d ++ [c]).
Proof. unfold node_at. by destruct (d ++ [c]) eqn:E; [destruct d|]. Qed.

Lemma real_dir_child fs d c :
  real_dir fs d ->
  walk fs [] (d ++ [c]) =
    match node_at fs (d ++ [c]) with
    | None => Missing IoNotFound
    | Some (Symlink target) => Follow (target ++ [])
    | Some _ => Reached (d ++ [c])
    end.
Proof.
  intros [Hd Hn]. rewrite (walk_app _ _ _ _ _ Hd Hn). cbn. by destruct (node_at fs (d ++ [c])) as [[]|].
Qed.

Lemma real_realpath fs p : real fs p -> realpath fs p = Ok p.
Proof. unfold real, realpath. intros H. cbn. by rewrite H. Qed.

Lemma real_node fs p : real fs p -> is_Some (node_at fs p).
Proof.
  destruct p as [|c p] using rev_ind; [by eexists|]. intros H. clear IHp.
  unfold real in H.
  assert (forall d l, walk fs d (l ++ [c]) = Reached (d ++ l ++ [c]) ->
    is_Some (node_at fs (d ++ l ++ [c]))) as G; [|exact (G [] p H)].
  clear H. intros d l. revert d. induction l as [|x l IH]; intros d H; cbn in *.
  - by destruct (node_at fs (d ++ [c])).
  - specialize (IH (d ++ [x])). rewrite <- (assoc_L (++)) in IH. cbn in IH.
    destruct (node_at fs (d ++ [x])) as [[]|]; try done; [by apply IH|by destruct l..].
Qed.

Lemma symlink_metadata_child fs d c :
  real_dir fs d -> symlink_metadata fs (d ++ [c]) = ok_or IoNotFound (node_at fs (d ++ [c])).
Proof.
  intros [Hd Hn]. unfold symlink_metadata. destruct (d ++ [c]) eqn:E; [by destruct d|].
  rewrite <- E, removelast_last, List.last_last, (real_realpath _ _ Hd). cbn.
  by rewrite Hn.
Qed.

Definition new_leaf (fs : file_system) (p : path) : Prop :=
  node_at fs p = None /\ exists d c, p = d ++ [c] /\ real_dir fs d.

Lemma resolve_loop_real fs b d l p :
  real_dir fs d -> resolve_loop fs b d l = Ok p ->
  d `prefix_of` p /\ (real fs p \/ b = true /\ new_leaf fs p).
Proof.
  revert d. induction l as [|[| | |c] l IH]; intros d Hd H; cbn in H; try done.
  - injection H as <-. split; [done|]. left. apply Hd.
  - by apply IH.
  - rewrite symlink_metadata_child in H by done.
    assert (Hp : d `prefix_of` d ++ [c]) by by eexists.
    pose proof (real_dir_child fs d c Hd) as Hw.
    destruct (node_at fs (d ++ [c])) as [n|] eqn:Hn; cbn in H.
    + destruct n as [|content|t|]; [| |done|].
      * rewrite andb_false_r in H. destruct (IH (d ++ [c])) as [Hpre Hr]; [by split|done|].
        split; [by etrans|done].
      * case_bool_decide as Hl; [done|]. subst l. cbn in H.
        injection H as <-. split; [done|by left].
      * case_bool_decide as Hl; [done|]. subst l. cbn in H.
        injection H as <-. split; [done|by left].
    + destruct b; [|done]. case_bool_decide as Hl; [|done]. subst l. cbn in H.
      injection H as <-. split; [done|]. right. split; [done|]. split; [done|]. by exists d, c.
Qed.

Lemma resolve_Ok fs ws input b p :
  resolve fs ws input b = Ok p <->
  exists rel, relative_components ws input = Ok rel /\ rel <> [] /\
    resolve_loop fs b ws rel = Ok p.
Proof.
  unfold resolve. destruct (relative_components ws input) as [rel|]; simpl.
  - case_bool_decide; split; [done| |by eauto|]; by intros (? & [= ->] & ? & ?).
  - split; [done|]. by intros (? & ? & _).
Qed.

Lemma resolve_real fs ws input b p :
  real_dir fs ws -> resolve fs ws input b = Ok p ->
  ws `prefix_of` p /\ (real fs p \/ b = true /\ new_leaf fs p).
Proof. intros Hws (rel & _ & _ & H)%resolve_Ok. by eapply resolve_loop_real. Qed.

Lemma real_metadata fs p : real fs p -> metadata fs p = ok_or IoNotFound (node_at fs p).
Proof. intros H. unfold metadata. by rewrite (real_realpath _ _ H). Qed.

Lemma new_leaf_metadata fs p : new_leaf fs p -> metadata fs p = Err IoNotFound.
Proof.
  intros (Hn & d & c & -> & Hd). unfold metadata, realpath. cbn.
  by rewrite (real_dir_child _ _ _ Hd), Hn.
Qed.

(** For a resolved path the file-system calls see exactly the node stored there. *)
Lemma resolved_metadata fs ws input b p :
  real_dir fs ws -> resolve fs ws input b = Ok p ->
  metadata fs p = ok_or IoNotFound (node_at fs p).
Proof.
  intros Hws [_ [Hr|[_ Hl]]]%resolve_real; [by apply real_metadata| |done].
  rewrite new_leaf_metadata by done. by destruct Hl as [-> _].
Qed.

(** C31. Confinement: a path a native tool resolves lies under the workspace
    and names the very node it will open, for no symbolic link is met on the
    way.  Only a write may name a missing node, and then in a real directory. *)
Theorem resolve_confined fs ws input b p :
  real_dir fs ws -> resolve fs ws input b = Ok p ->
  ws `prefix_of` p /\
  (realpath fs p = Ok p /\ is_Some (node_at fs p) \/
   b = true /\ node_at fs p = None /\
   exists d c, p = d ++ [c] /\ realpath fs d = Ok d /\ node_at fs d = Some Dir).
Proof.
  intros Hws H. destruct (resolve_real _ _ _ _ _ Hws H) as [Hp Hr]. split; [done|].
  destruct Hr as [Hr|(Hb & Hn & d & c & -> & Hd & Hdn)].
  - left. auto using real_realpath, real_node.
  - right. split_and!; [done..|]. exists d, c. auto using real_realpath.
Qed.

Definition example_fs : file_system :=
  list_to_map [(["w"], Dir); (["w"; "a"], Dir); (["w"; "a"; "f"], File "hello");
               (["w"; "out"], Symlink ["etc"]); (["etc"], Dir); (["etc"; "passwd"], File "root")].

Lemma resolve_confined_witness :
  resolve example_fs ["w"] "out/passwd" false = Err SymlinkNotAllowed /\
  resolve example_fs ["w"] "a/../../etc/passwd" false = Err OutsideWorkspace /\
  resolve example_fs ["w"] "/etc/passwd" false = Err OutsideWorkspace /\
  realpath example_fs ["w"; "a"; "f"] = Ok ["w"; "a"; "f"].
Proof.
  assert (Hw : real_dir example_fs ["w"]) by (split; vm_compute; reflexivity).
  assert (H : resolve example_fs ["w"] "/w/a/./f" false = Ok ["w"; "a"; "f"])
    by (vm_compute; reflexivity).
  destruct (resolve_confined _ _ _ _ _ Hw H) as [_ [[Hr _]|[Hb _]]]; [|discriminate Hb].
  split_and!; [vm_compute; reflexivity..|exact Hr].
Defined.

(** ** Facts about [atomic_write] *)

Lemma walk_insert fs d l t n q :
  (length t > length (d ++ l))%nat -> walk fs d l = Reached q ->
  walk (<[t := n]> fs) d l = Reached q.
Proof.
  revert d. induction l as [|c l IH]; intros d Hlen H; cbn in *; [done|].
  assert (Hne : t <> d ++ [c]) by (intros ->; rewrite !length_app in Hlen; cbn in Hlen; lia).
  rewrite node_at_snoc, lookup_insert_ne, <- node_at_snoc by done.
  destruct (node_at fs (d ++ [c])) as [[]|]; try done; apply IH; [|done].
  rewrite <- (assoc_L (++)). done.
Qed.

Lemma real_dir_insert fs d c n : real_dir fs d -> real_dir (<[d ++ [c] := n]> fs) d.
Proof.
  intros [Hd Hn]. split.
  - apply walk_insert; [rewrite length_app; cbn; lia|done].
  - destruct d as [|x d]; [done|]. cbn in *. rewrite lookup_insert_ne; [done|].
    intros E. apply (f_equal length) in E. rewrite length_cons, length_app in E. cbn in E. lia.
Qed.

Lemma temporary_exists fs d c s : real_dir fs d -> path_exists (<[d ++ [c] := File s]> fs) (d ++ [c]) = true.
Proof.
  intros Hd. unfold path_exists, metadata. pose proof (real_dir_insert fs d c (File s) Hd) as Hd'.
  assert (Hn : node_at (<[d ++ [c] := File s]> fs) (d ++ [c]) = Some (File s))
    by by rewrite node_at_snoc, lookup_insert_eq.
  rewrite real_realpath; [|unfold real; by rewrite (real_dir_child _ _ _ Hd'), Hn].
  cbn. by rewrite Hn.
Qed.

Lemma parent_is_dir fs d : real_dir fs d -> path_is_dir fs d = true.
Proof. intros [Hd Hn]. unfold path_is_dir. rewrite (real_metadata _ _ Hd). by rewrite Hn. Qed.

Lemma atomic_write_spec fs d leaf tmp content create_only :
  real_dir fs d -> tmp <> leaf -> node_at fs (d ++ [tmp]) = None ->
  atomic_write fs tmp (d ++ [leaf]) content create_only =
    match create_only, node_at fs (d ++ [leaf]) with
    | true, Some _ => (fs, Err AlreadyExists)
    | false, Some Dir => (fs, Err Io)
    | _, _ => (<[d ++ [leaf] := File content]> fs, Ok ())
    end.
Proof.
  intros Hd Hne Htmp. unfold atomic_write.
  rewrite bool_decide_eq_false_2 by by destruct d.
  rewrite removelast_last, (parent_is_dir _ _ Hd). cbn [negb]. rewrite Htmp.
  set (t := d ++ [tmp]) in *. set (p := d ++ [leaf]) in *.
  assert (Hpt : p <> t) by (intros E; apply app_inj_2 in E as [_ [= ?]]; congruence || done).
  set (fs1 := <[t := File content]> fs).
  assert (H1 : node_at fs1 t = Some (File content))
    by (unfold t; by rewrite node_at_snoc; apply lookup_insert_eq).
  assert (H2 : node_at fs1 p = node_at fs p)
    by (unfold p; rewrite !node_at_snoc; by apply lookup_insert_ne).
  assert (Hex : path_exists fs1 t = true) by by apply temporary_exists.
  assert (Hfs : fs !! t = None) by by rewrite <- Htmp; unfold t; rewrite node_at_snoc.
  assert (Hback : remove_file fs1 t = fs) by by apply delete_insert_id.
  assert (Hdone : forall g, g !! t = None -> (if path_exists g t then remove_file g t else g) = g).
  { intros g Hg. destruct (path_exists g t); [|done]. by apply delete_id. }
  destruct create_only; unfold hard_link, rename; rewrite H1, H2.
  - destruct (node_at fs p) eqn:Hn; [by rewrite Hex, Hback|].
    assert (E : remove_file (<[p := File content]> fs1) t = <[p := File content]> fs)
      by (unfold remove_file; rewrite delete_insert_ne by done; by f_equal).
    rewrite E, Hdone; [done|]. by rewrite lookup_insert_ne.
  - assert (E : <[p := File content]> (delete t fs1) = <[p := File content]> fs) by by f_equal.
    destruct (node_at fs p) as [[]|] eqn:Hn; cbv beta iota;
      rewrite ?Hex, ?Hback, ?E, ?Hdone; try done; by rewrite lookup_insert_ne.
Qed.



(** ** The target of a write *)

Lemma real_parent fs d c : real fs (d ++ [c]) -> real_dir fs d.
Proof.
  unfold real_dir, real.
  assert (forall e l, walk fs e (l ++ [c]) = Reached (e ++ l ++ [c]) -> node_at fs e = Some Dir ->
    walk fs e l = Reached (e ++ l) /\ node_at fs (e ++ l) = Some Dir) as G; [|by intros H; apply (G [] d)].
  intros e l. revert e. induction l as [|x l IH]; intros e H He; cbn in *; [by rewrite app_nil_r|].
  specialize (IH (e ++ [x])). rewrite <- !(assoc_L (++)) in IH. cbn in IH.
  destruct (node_at fs (e ++ [x])) as [[]|]; try done; [by apply IH|by destruct l..].
Qed.

(** A resolved path that is not the file-system root has a real parent directory. *)
Lemma resolved_parent fs ws input b p :
  real_dir fs ws -> resolve fs ws input b = Ok p -> p <> [] ->
  exists d c, p = d ++ [c] /\ real_dir fs d.
Proof.
  intros Hws [_ [Hr|[_ (_ & d & c & -> & Hd)]]]%resolve_real Hp; [|by exists d, c|done].
  destruct p as [|c p _] using rev_ind; [done|]. exists p, c. eauto using real_parent.
Qed.

(** No node of the tree carries the name of the temporary file. *)
Definition fresh_name (fs : file_system) (tmp : string) : Prop := forall d, fs !! (d ++ [tmp]) = None.

(** The test of [fresh_name], for concrete trees. *)
Lemma fresh_name_test fs tmp :
  forallb (fun kn => negb (bool_decide (last kn.1 = Some tmp))) (map_to_list fs) = true ->
  fresh_name fs tmp.
Proof.
  intros H d. apply eq_None_not_Some. intros [n Hn].
  rewrite List.forallb_forall in H. apply elem_of_map_to_list, list_elem_of_In in Hn.
  apply H in Hn. simpl in Hn. rewrite last_snoc, bool_decide_eq_true_2 in Hn; done.
Qed.

(** The outcomes of [atomic_write] on a resolved path. *)
Lemma atomic_write_resolved fs ws input b p tmp content create_only :
  real_dir fs ws -> fresh_name fs tmp -> resolve fs ws input b = Ok p ->
  let '(fs', r) := atomic_write fs tmp p content create_only in
  (fs' = fs /\ (r = Ok () -> create_only = false /\ node_at fs p = None)) \/
  (fs' = <[p := File content]> fs /\ r = Ok () /\ node_at fs p <> Some Dir /\ p <> []).
Proof.
  intros Hws Hf Hp. destruct (decide (p = [])) as [->|Hne]; [left; by split|].
  destruct (resolved_parent _ _ _ _ _ Hws Hp Hne) as (d & c & -> & Hd).
  assert (Htmp : node_at fs (d ++ [tmp]) = None) by (rewrite node_at_snoc; apply Hf).
  destruct (decide (tmp = c)) as [->|Hc].
  - unfold atomic_write. rewrite bool_decide_eq_false_2 by done.
    rewrite removelast_last, (parent_is_dir _ _ Hd). cbn [negb]. rewrite Htmp.
    assert (H1 : forall s, node_at (<[d ++ [c] := File s]> fs) (d ++ [c]) = Some (File s))
      by (intros s; by rewrite node_at_snoc; apply lookup_insert_eq).
    assert (Hback : forall s, remove_file (<[d ++ [c] := File s]> fs) (d ++ [c]) = fs)
      by (intros s; apply delete_insert_id, Hf).
    unfold hard_link, rename. rewrite H1.
    destruct create_only; cbv beta iota; left;
      rewrite ?insert_delete_eq, ?insert_insert_eq, temporary_exists by done;
      rewrite Hback; by split.
  - rewrite (atomic_write_spec _ _ _ _ _ _ Hd Hc Htmp).
    destruct create_only, (node_at fs (d ++ [c])) as [[]|] eqn:Hn; try (left; by split); right;
      split_and!; congruence || done.
Qed.

(** ** Resolving again after the write *)

Lemma real_dir_insert_longer fs d t n :
  (length t > length d)%nat -> real_dir fs d -> real_dir (<[t := n]> fs) d.
Proof.
  intros Hlen [Hd Hn]. split; [by apply walk_insert|].
  destruct d as [|x d]; [done|]. cbn in *. rewrite lookup_insert_ne; [done|]. intros ->. cbn in Hlen. lia.
Qed.

Lemma resolve_loop_insert fs b d l p s :
  real_dir fs d -> resolve_loop fs b d l = Ok p -> node_at fs p <> Some Dir ->
  resolve_loop (<[p := File s]> fs) false d l = Ok p.
Proof.
  remember (<[p := File s]> fs) as fs' eqn:Efs. revert d. induction l as [|[| | |c] l IH]; intros d Hd H Hp;
    cbn [resolve_loop] in H |- *; try discriminate H.
  - injection H as <-. by destruct Hd.
  - by apply IH.
  - rewrite symlink_metadata_child in H by done.
    assert (Hdc : (d ++ [c]) `prefix_of` p).
    { destruct (node_at fs (d ++ [c])) as [n|] eqn:Hn; cbn in H.
      - destruct n; try discriminate H; case_bool_decide; try discriminate H; subst; cbn in H;
          try (by injection H as <-).
        eapply resolve_loop_real in H as [? _]; [done|].
        split; [unfold real; by rewrite (real_dir_child _ _ _ Hd), Hn|done].
      - destruct b; [|done]. case_bool_decide; [|done]. subst l. by injection H as <-. }
    apply prefix_length in Hdc as Hlen. rewrite length_app in Hlen. cbn in Hlen.
    assert (Hd' : real_dir fs' d)
      by (rewrite Efs; apply real_dir_insert_longer; [unfold gt; lia|done]).
    rewrite (symlink_metadata_child _ _ _ Hd').
    destruct (decide (p = d ++ [c])) as [->|Hne].
    + assert (Hn' : node_at fs' (d ++ [c]) = Some (File s))
        by by rewrite node_at_snoc, Efs, lookup_insert_eq.
      assert (Hl : l = []).
      { destruct (node_at fs (d ++ [c])) as [n|] eqn:Hn; cbn in H.
        - destruct n; [by destruct Hp|..|]; try discriminate H;
            (destruct (decide (l = [])) as [|Hl]; [done|]);
            rewrite bool_decide_eq_true_2 in H by done; discriminate H.
        - destruct b; [|discriminate H]. case_bool_decide; [done|discriminate H]. }
      rewrite Hn', Hl. reflexivity.
    + assert (Hn' : node_at fs' (d ++ [c]) = node_at fs (d ++ [c]))
        by by rewrite !node_at_snoc, Efs, lookup_insert_ne.
      rewrite Hn'.
      destruct (node_at fs (d ++ [c])) as [n|] eqn:Hn; cbn in H; cbn [ok_or].
      * destruct n; try discriminate H; case_bool_decide; try discriminate H; cbn in H;
          cbn [andb negb]; try (subst l; exact H).
        -- apply IH; [|exact H|exact Hp].
           split; [unfold real; by rewrite (real_dir_child _ _ _ Hd), Hn|exact Hn].
      * destruct b; [|discriminate H]. case_bool_decide; [|discriminate H]. subst l.
        cbn in H. by injection H as <-.
Qed.

Lemma resolve_insert fs ws input b p s :
  real_dir fs ws -> resolve fs ws input b = Ok p -> node_at fs p <> Some Dir ->
  resolve (<[p := File s]> fs) ws input false = Ok p.
Proof.
  intros Hws (rel & Hrel & Hne & H)%resolve_Ok Hp. apply resolve_Ok.
  exists rel. split_and!; [exact Hrel|exact Hne|].
  exact (resolve_loop_insert fs b ws rel p s Hws H Hp).
Qed.
