(* ===== verification/Tools.v ===== *)
(** The native tools of [piqo-tools/src/lib.rs]: [NativeTool],
    [NativeArguments::parse], [NativeExecutor::{read, write, edit, bash,
    execute}] and [read_limited], on the file system of Workspace.

    Each tool returns a JSON value; a refused call returns the error's code.
    The process that [bash] starts is outside the program: [spawn] gives the
    file system it leaves, how it ended and the chunks its two pipes delivered,
    or nothing when it could not be started. *)

From S2P Require Export Text Workspace.

Inductive NativeTool := Read | Write | Edit | Bash.
#[export] Instance NativeTool_eq_dec : EqDecision NativeTool.
Proof. solve_decision. Defined.

Module NativeTool.

Definition parse (name : string) : option NativeTool :=
  if String.eqb name "read" then Some Read
  else if String.eqb name "write" then Some Write
  else if String.eqb name "edit" then Some Edit
  else if String.eqb name "bash" then Some Bash
  else None.

Definition name (t : NativeTool) : string :=
  match t with Read => "read" | Write => "write" | Edit => "edit" | Bash => "bash" end.

Definition permission_name (t : NativeTool) : string :=
  match t with Read => "read" | Write | Edit => "write" | Bash => "bash" end.

End NativeTool.

(** Durations are only handed to timers and do not appear. *)
Record NativeToolLimits := mkLimits {
  max_read_bytes : Z;
  max_read_lines : Z;
  max_write_bytes : Z;
  max_tool_result_bytes : Z;
  max_result_lines : Z }.

Definition default_limits : NativeToolLimits :=
  mkLimits (50 * 1024) 2000 (1024 * 1024) (50 * 1024) 2000.

(** ** Arguments *)

Inductive WriteMode := Create | Overwrite.
#[export] Instance WriteMode_eq_dec : EqDecision WriteMode.
Proof. solve_decision. Defined.

Inductive NativeArguments :=
  | ReadArgs (file_path : string) (offset limit : Z)
  | WriteArgs (file_path content : string) (mode : WriteMode)
  | EditArgs (file_path old_string new_string : string) (replace_all : bool)
  | BashArgs (command : string) (cwd : option string).

Section parse.
  Context (limits : NativeToolLimits) (object : list (string * json)).

Definition string_arg (name : string) : result NativeToolError string :=
  ok_or InvalidArguments (v ← map_get name object; as_str v).

Definition positive_arg (name : string) (default : Z) : result NativeToolError Z :=
  match map_get name object with
  | None => Ok default
  | Some v =>
      ok_or InvalidArguments (n ← as_u64 v; if 0 <? n then Some n else None)
  end.

Definition parse_object (tool : NativeTool) : result NativeToolError NativeArguments :=
  match tool with
  | Read =>
      file_path ← string_arg "filePath";
      offset ← positive_arg "offset" 1;
      limit ← positive_arg "limit" (max_read_lines limits);
      Ok (ReadArgs file_path offset (Z.min limit (max_read_lines limits)))
  | Write =>
      content ← string_arg "content";
      if max_write_bytes limits <? blen content then Err TooLarge
      else
        mode ← string_arg "mode";
        mode ← (if String.eqb mode "create" then Ok Create
                else if String.eqb mode "overwrite" then Ok Overwrite
                else Err InvalidArguments);
        file_path ← string_arg "filePath";
        Ok (WriteArgs file_path content mode)
  | Edit =>
      old_string ← string_arg "oldString";
      new_string ← string_arg "newString";
      if is_empty old_string || String.eqb old_string new_string
         || (max_write_bytes limits <? blen old_string + blen new_string)
      then Err InvalidArguments
      else
        file_path ← string_arg "filePath";
        Ok (EditArgs file_path old_string new_string
              (default false (v ← map_get "replaceAll" object; as_bool v)))
  | Bash =>
      command ← string_arg "command";
      if max_write_bytes limits <? blen command then Err TooLarge
      else
        cwd ← match map_get "cwd" object with
              | None => Ok None
              | Some v => s ← ok_or InvalidArguments (as_str v); Ok (Some s)
              end;
        Ok (BashArgs command cwd)
  end.

End parse.

Definition parse_arguments (tool : NativeTool) (value : json) (limits : NativeToolLimits) :
    result NativeToolError NativeArguments :=
  object ← ok_or InvalidArguments (as_object value);
  parse_object limits object tool.

(** ** [read], [write], [edit] *)

Definition jnum (n : Z) : json := JNumber (PosInt n).
Definition NUL : ascii := "000"%char.

Definition read (limits : NativeToolLimits) (workspace : path) (fs : file_system)
    (file_path : string) (offset limit : Z) : result NativeToolError json :=
  p ← resolve fs workspace file_path false;
  n ← map_err map_io (metadata fs p);
  match n with
  | File content =>
      let capped_by_bytes := max_read_bytes limits <? blen content in
      let bytes := str_take (Z.to_nat (max_read_bytes limits)) content in
      if contains_byte NUL bytes || negb (utf8_valid bytes) then Err BinaryContent
      else
        let all_lines := lines bytes in
        let start := u64_sat_sub offset 1 in
        let selected := take (Z.to_nat limit) (drop (Z.to_nat start) all_lines) in
        let count := Z.of_nat (length selected) in
        let more_lines := u64_sat_add start count <? Z.of_nat (length all_lines) in
        Ok (jobject [("path", JString file_path);
                     ("text", JString (join NL selected));
                     ("line_start", jnum offset);
                     ("line_end", jnum (u64_sat_sub (u64_sat_add offset count) 1));
                     ("total_lines", jnum (Z.of_nat (length all_lines)));
                     ("truncated", JBool (capped_by_bytes || more_lines))])
  | _ => Err NotRegularFile
  end.

(** A step that may fail after it touched the file system: on an error the
    file system left behind goes with the error. *)
Definition with_path {A : Type} (fs : file_system) (r : result NativeToolError path)
    (f : path -> file_system * result NativeToolError A) : file_system * result NativeToolError A :=
  match r with Ok p => f p | Err e => (fs, Err e) end.

Definition write (limits : NativeToolLimits) (workspace : path) (tmp : string) (fs : file_system)
    (file_path content : string) (mode : WriteMode) : file_system * result NativeToolError json :=
  with_path fs (resolve fs workspace file_path true) (fun p =>
    match mode, path_exists fs p with
    | Create, true => (fs, Err AlreadyExists)
    | Overwrite, false => (fs, Err NotFound)
    | _, _ =>
        let '(fs', r) := atomic_write fs tmp p content (bool_decide (mode = Create)) in
        (fs', _ ← r;
              Ok (jobject [("path", JString file_path);
                           ("mode", JString match mode with Create => "create" | Overwrite => "overwrite" end);
                           ("bytes_written", jnum (blen content))]))
    end).

Definition CRLF : string := CR ++s NL.

(** The text of [edit] after its preconditions: what is written back. *)
Definition edit_text (source old_string new_string : string) (replace_all : bool) : string :=
  let ending := if contains_str CRLF source then CRLF else NL in
  let old := str_replace NL ending (str_replace CRLF NL old_string) in
  let new := str_replace NL ending (str_replace CRLF NL new_string) in
  if replace_all then str_replace old new source else str_replacen old new 1 source.

Definition edit (limits : NativeToolLimits) (workspace : path) (tmp : string) (fs : file_system)
    (file_path old_string new_string : string) (replace_all : bool) :
    file_system * result NativeToolError json :=
  with_path fs (resolve fs workspace file_path false) (fun p =>
    match map_err map_io (read_file fs p) with
    | Err e => (fs, Err e)
    | Ok source =>
        let matches := str_count old_string source in
        let next := edit_text source old_string new_string replace_all in
        if contains_byte NUL source || negb (utf8_valid source) then (fs, Err BinaryContent)
        else if (matches =? 0) || (negb replace_all && negb (matches =? 1)) then (fs, Err Conflict)
        else if max_write_bytes limits <? blen next then (fs, Err TooLarge)
        else
          let '(fs', r) := atomic_write fs tmp p next false in
          (fs', _ ← r;
                Ok (jobject [("path", JString file_path);
                             ("replacements", jnum (if replace_all then matches else 1));
                             ("bytes_written", jnum (blen next))]))
    end).

(** ** [bash] *)

Record LimitedOutput := mkOutput { out_text : string; out_truncated : bool }.

(** One iteration of [read_limited]'s loop, on the bytes one read returned. *)
Definition push_chunk (max_bytes : Z) (acc : string * bool) (chunk : string) : string * bool :=
  let '(bytes, truncated) := acc in
  let remaining := u64_sat_sub max_bytes (blen bytes) in
  let '(bytes, truncated) :=
    if remaining <? blen chunk then (bytes ++s str_take (Z.to_nat remaining) chunk, true)
    else (bytes ++s chunk, truncated) in
  (bytes, truncated || (max_bytes <=? blen bytes)).

Definition read_limited (max_bytes max_lines : Z) (chunks : list string) : LimitedOutput :=
  let '(bytes, truncated) := foldl (push_chunk max_bytes) ("", false) chunks in
  let text := from_utf8_lossy bytes in
  let kept := take (Z.to_nat max_lines) (lines text) in
  mkOutput (join NL kept) (truncated || (length kept <? length (lines text))%nat).

Inductive Outcome := Exited (exit_code : option Z) (success : bool) | Cancelled | TimedOut.

Definition outcome_result (o : Outcome) (stdout stderr : LimitedOutput) : json :=
  let streams :=
    [("stdout", JString (out_text stdout)); ("stderr", JString (out_text stderr));
     ("stdout_truncated", JBool (out_truncated stdout));
     ("stderr_truncated", JBool (out_truncated stderr))] in
  jobject (match o with
    | Exited exit_code success =>
        [("status", JString "exited");
         ("exit_code", match exit_code with
            | Some n => JNumber (if 0 <=? n then PosInt n else NegInt n)
            | None => JNull
            end);
         ("success", JBool success)]
    | Cancelled => [("error", jobject [("code", JString "cancelled")])]
    | TimedOut => [("error", jobject [("code", JString "timed_out")])]
    end ++ streams).

Section execute.
  Context (limits : NativeToolLimits) (workspace : path)
    (spawn : file_system -> path -> string ->
       option (file_system * Outcome * list string * list string)).

Definition bash (fs : file_system) (command : string) (cwd : option string) : file_system * json :=
  let cwd := match cwd with
             | Some cwd => resolve fs workspace cwd false
             | None => Ok workspace
             end in
  match cwd with
  | Err e => (fs, error_result e)
  | Ok p =>
      if negb (path_is_dir fs p) then (fs, error_result NotDirectory)
      else match spawn fs p command with
      | None => (fs, error_result SpawnFailed)
      | Some (fs', outcome, stdout, stderr) =>
          let limited := read_limited (max_tool_result_bytes limits) (max_result_lines limits) in
          (fs', outcome_result outcome (limited stdout) (limited stderr))
      end
  end.

Definition render (r : result NativeToolError json) : json :=
  match r with Ok v => v | Err e => error_result e end.

Definition execute (tmp : string) (fs : file_system) (tool : NativeTool) (arguments : json) :
    file_system * json :=
  match parse_arguments tool arguments limits with
  | Err e => (fs, error_result e)
  | Ok (ReadArgs file_path offset limit) =>
      (fs, render (read limits workspace fs file_path offset limit))
  | Ok (WriteArgs file_path content mode) =>
      let '(fs', r) := write limits workspace tmp fs file_path content mode in (fs', render r)
  | Ok (EditArgs file_path old_string new_string replace_all) =>
      let '(fs', r) := edit limits workspace tmp fs file_path old_string new_string replace_all in
      (fs', render r)
  | Ok (BashArgs command cwd) => bash fs command cwd
  end.

End execute.
