(* ===== verification/ToolsFacts.v ===== *)
(** Properties of the native tools (files Workspace and Tools).

    Bounds on what the model may ask for and on what a command may return;
    the footprint of the file tools; the exact effect of [write] and [edit];
    what was written can be read back. *)

From S2P Require Export Tools.

(** ** Bounds *)

Definition arguments_bounded (limits : NativeToolLimits) (a : NativeArguments) : Prop :=
  match a with
  | ReadArgs _ offset limit =>
      1 <= offset /\ limit <= max_read_lines limits /\ (1 <= max_read_lines limits -> 1 <= limit)
  | WriteArgs _ content _ => blen content <= max_write_bytes limits
  | EditArgs _ old new _ =>
      old <> "" /\ old <> new /\ blen old + blen new <= max_write_bytes limits
  | BashArgs command _ => blen command <= max_write_bytes limits
  end.

Definition tool_of (a : NativeArguments) : NativeTool :=
  match a with
  | ReadArgs _ _ _ => Read | WriteArgs _ _ _ => Write | EditArgs _ _ _ _ => Edit | BashArgs _ _ => Bash
  end.

Lemma positive_arg_Ok object name d n :
  1 <= d -> positive_arg object name d = Ok n -> 1 <= n.
Proof.
  unfold positive_arg. intros Hd H. destruct (map_get name object) as [v|]; [|inv_ok; lia].
  apply ok_or_Ok in H. destruct (as_u64 v) as [m|]; simpl in H; [|done].
  destruct (Z.ltb_spec 0 m); simplify_eq. lia.
Qed.

(** Bounded arguments: whatever JSON the model sends, arguments that are
    accepted are those of the tool called and respect the server's limits: line
    numbers start at 1, a read asks for at most the configured lines, written
    text, edits and commands fit, and an edit changes something. *)
Theorem parsed_arguments_bounded tool value limits a :
  parse_arguments tool value limits = Ok a -> tool_of a = tool /\ arguments_bounded limits a.
Proof.
  unfold parse_arguments. intros H. inv_ok. destruct tool; simpl in H; inv_ok.
  - split; [done|]. simpl. split_and!; [by eapply positive_arg_Ok|lia|].
    intros Hm. apply (positive_arg_Ok _ _ _ _ Hm) in Heqr1. lia.
  - destruct (Z.ltb_spec (max_write_bytes limits) (blen a1)); [done|]. inv_ok. by split.
  - destruct (is_empty a1) eqn:He; [done|]. destruct (String.eqb_spec a1 a2); [done|].
    destruct (Z.ltb_spec (max_write_bytes limits) (blen a1 + blen a2)); [done|].
    simpl in H. inv_ok. split; [done|]. simpl. split_and!; [|done|lia]. by destruct a1.
  - destruct (Z.ltb_spec (max_write_bytes limits) (blen a1)); [done|]. inv_ok. by split.
Qed.

Lemma parsed_arguments_bounded_witness :
  exists a, parse_arguments Read
      (jobject [("filePath", JString "x"); ("limit", jnum 99999)]) default_limits = Ok a
    /\ arguments_bounded default_limits a.
Proof.
  exists (ReadArgs "x" 1 2000).
  assert (E : parse_arguments Read (jobject [("filePath", JString "x"); ("limit", jnum 99999)])
    default_limits = Ok (ReadArgs "x" 1 2000)) by (vm_compute; reflexivity).
  split; [exact E|]. exact (proj2 (parsed_arguments_bounded _ _ _ _ E)).
Defined.

(** ** Bounded output *)

Lemma blen_nonneg s : 0 <= blen s.
Proof. unfold blen. lia. Qed.

Lemma push_chunk_prefix max_bytes s b chunk :
  0 < max_bytes -> b = (max_bytes <=? blen s) ->
  push_chunk max_bytes (str_take (Z.to_nat max_bytes) s, b) chunk =
    (str_take (Z.to_nat max_bytes) (s ++s chunk), max_bytes <=? blen (s ++s chunk)).
Proof.
  intros Hm ->. unfold push_chunk. rewrite str_take_app, blen_append.
  set (n := Z.to_nat max_bytes).
  assert (Hl : blen (str_take n s) = Z.min max_bytes (blen s))
    by (unfold blen; rewrite length_str_take; unfold n; lia).
  rewrite Hl. unfold u64_sat_sub.
  pose proof (blen_nonneg chunk) as Hc. pose proof (blen_nonneg s) as Hs0.
  assert (Hn : (n - String.length s)%nat = Z.to_nat (Z.max 0 (max_bytes - Z.min max_bytes (blen s))))
    by (unfold n, blen; lia).
  rewrite Hn. set (rem := Z.max 0 (max_bytes - Z.min max_bytes (blen s))).
  destruct (Z.ltb_spec rem (blen chunk)).
  - simpl. f_equal. symmetry. apply Z.leb_le. lia.
  - rewrite (str_take_ge (Z.to_nat rem) chunk) by (unfold blen in *; lia). f_equal.
    rewrite blen_append, Hl.
    destruct (Z.leb_spec max_bytes (blen s)), (Z.leb_spec max_bytes (blen s + blen chunk)); simpl; lia.
Qed.

Lemma read_chunks_prefix max_bytes chunks :
  0 < max_bytes ->
  foldl (push_chunk max_bytes) ("", false) chunks =
    (str_take (Z.to_nat max_bytes) (str_concat chunks), max_bytes <=? blen (str_concat chunks)).
Proof.
  intros Hm. induction chunks as [|c l IH] using rev_ind.
  - simpl. f_equal; [by destruct (Z.to_nat max_bytes)|]. symmetry. apply Z.leb_gt. done.
  - rewrite foldl_app, IH. cbn [foldl]. rewrite push_chunk_prefix by done.
    rewrite str_concat_app. change (str_concat [c]) with (c ++s ""). by rewrite append_nil_r.
Qed.

(** Bounded output: whatever the pipe delivers and however it is cut into
    chunks, a command's output is the text of its first [max_bytes] bytes cut to
    [max_lines] lines.  It is flagged as truncated exactly when [max_bytes] bytes
    or more arrived (also when nothing was cut off) or lines were dropped. *)
Theorem read_limited_exact max_bytes max_lines chunks :
  0 < max_bytes ->
  let all := str_concat chunks in
  let text := lines (from_utf8_lossy (str_take (Z.to_nat max_bytes) all)) in
  read_limited max_bytes max_lines chunks =
    mkOutput (join NL (take (Z.to_nat max_lines) text))
      ((max_bytes <=? blen all) || (Z.to_nat max_lines <? length text)%nat).
Proof.
  intros Hm all text. unfold read_limited. rewrite read_chunks_prefix by done.
  fold all. fold text. f_equal. f_equal.
  rewrite length_take. apply eq_bool_prop_intro. rewrite !Is_true_true, !Nat.ltb_lt. lia.
Qed.

Lemma read_limited_exact_witness :
  read_limited 4 10 ["ab"; "cd"] = mkOutput "abcd" true /\
  read_limited 5 10 ["ab"; "cd"] = mkOutput "abcd" false.
Proof.
  split.
  - rewrite (read_limited_exact 4 10 ["ab"; "cd"]) by reflexivity. vm_compute. reflexivity.
  - rewrite (read_limited_exact 5 10 ["ab"; "cd"]) by reflexivity. vm_compute. reflexivity.
Defined.

(** ** The file tools *)

Lemma resolved_exists fs ws input b p :
  real_dir fs ws -> resolve fs ws input b = Ok p ->
  path_exists fs p = bool_decide (is_Some (node_at fs p)).
Proof.
  intros Hws H. unfold path_exists. rewrite (resolved_metadata _ _ _ _ _ Hws H).
  by destruct (node_at fs p).
Qed.

(** [write] on every branch: [create] makes the file exactly when nothing
    is there, [overwrite] replaces exactly an existing non-directory, everything
    else is refused with its own error and changes nothing. *)
Theorem write_outcomes limits ws tmp fs file_path content mode d leaf :
  let p := d ++ [leaf] in
  let done_ := (<[p := File content]> fs,
    Ok (jobject [("path", JString file_path);
                 ("mode", JString match mode with Create => "create" | Overwrite => "overwrite" end);
                 ("bytes_written", jnum (blen content))])) in
  real_dir fs ws -> fresh_name fs tmp -> tmp <> leaf ->
  resolve fs ws file_path true = Ok p ->
  write limits ws tmp fs file_path content mode =
    match mode, node_at fs p with
    | Create, None => done_
    | Create, Some _ => (fs, Err AlreadyExists)
    | Overwrite, None => (fs, Err NotFound)
    | Overwrite, Some Dir => (fs, Err Io)
    | Overwrite, Some _ => done_
    end.
Proof.
  intros p done_ Hws Hf Hne Hp. unfold write. rewrite Hp. cbn [with_path].
  rewrite (resolved_exists _ _ _ _ _ Hws Hp).
  destruct (resolved_parent _ _ _ _ _ Hws Hp) as (d' & c' & E & Hd); [by destruct d|].
  apply app_inj_2 in E as [<- [= <-]]; [|done].
  pose proof (atomic_write_spec fs d leaf tmp content) as Hw. fold p in Hw.
  destruct mode; destruct (node_at fs p) as [n|] eqn:Hn; cbn [is_Some];
    rewrite ?bool_decide_eq_true_2 by (done || by eexists);
    rewrite ?bool_decide_eq_false_2 by (done || by intros []);
    rewrite ?Hw by (done || rewrite node_at_snoc; apply Hf); try reflexivity.
  by destruct n.
Qed.

Lemma write_outcomes_witness :
  fst (write default_limits ["w"] "t" example_fs "a/g" "new" Create)
    = <[["w"; "a"; "g"] := File "new"]> example_fs.
Proof.
  assert (Hw : real_dir example_fs ["w"]) by (split; vm_compute; reflexivity).
  assert (Hf : fresh_name example_fs "t") by (apply fresh_name_test; vm_compute; reflexivity).
  rewrite (write_outcomes default_limits ["w"] "t" example_fs "a/g" "new" Create ["w"; "a"] "g"
    Hw Hf ltac:(discriminate) ltac:(vm_compute; reflexivity)).
  reflexivity.
Defined.

(** Reading a regular file whose text fits the limits. *)
Lemma read_whole limits ws fs file_path content limit p :
  resolve fs ws file_path false = Ok p -> metadata fs p = Ok (File content) ->
  utf8_valid content = true -> contains_byte NUL content = false ->
  blen content <= max_read_bytes limits -> Z.of_nat (length (lines content)) <= limit ->
  Z.of_nat (length (lines content)) < u64_max ->
  read limits ws fs file_path 1 limit =
    Ok (jobject [("path", JString file_path); ("text", JString (join NL (lines content)));
                 ("line_start", jnum 1); ("line_end", jnum (Z.of_nat (length (lines content))));
                 ("total_lines", jnum (Z.of_nat (length (lines content))));
                 ("truncated", JBool false)]).
Proof.
  intros Hp Hm Hu Hn Hlen Hlim Hmax. unfold read. rewrite Hp. cbn [mbind result_mbind].
  rewrite Hm. cbn [map_err mbind result_mbind].
  rewrite str_take_ge by (unfold blen in Hlen; lia). rewrite Hn, Hu. cbn [orb negb].
  change (u64_sat_sub 1 1) with 0. change (Z.to_nat 0) with O. rewrite drop_0.
  rewrite take_ge by lia. set (n := Z.of_nat (length (lines content))) in *.
  assert (0 <= n) by (unfold n; lia).
  replace (max_read_bytes limits <? blen content) with false by (symmetry; apply Z.ltb_ge; lia).
  unfold u64_sat_sub, u64_sat_add, u64_max in *. rewrite (Z.min_r _ (0 + n)), Z.ltb_irrefl by lia.
  replace (Z.max 0 (Z.min (2 ^ 64 - 1) (1 + n) - 1)) with n by lia. reflexivity.
Qed.

(** Round trip: after [write] has answered without error, reading the same
    path from line 1 shows exactly the lines written, complete and untruncated,
    when they are text within the read limits. *)
Theorem write_then_read limits ws tmp fs fs' file_path content mode v limit :
  real_dir fs ws -> fresh_name fs tmp ->
  write limits ws tmp fs file_path content mode = (fs', Ok v) ->
  utf8_valid content = true -> contains_byte NUL content = false ->
  blen content <= max_read_bytes limits -> Z.of_nat (length (lines content)) <= limit ->
  Z.of_nat (length (lines content)) < u64_max ->
  exists w, read limits ws fs' file_path 1 limit = Ok w /\
    get "text" w = Some (JString (join NL (lines content))) /\
    get "truncated" w = Some (JBool false) /\
    get "total_lines" w = Some (jnum (Z.of_nat (length (lines content)))).
Proof.
  intros Hws Hf H Hu Hn Hlen Hlim Hmax. unfold write in H.
  destruct (resolve fs ws file_path true) as [p|] eqn:Hp; cbn [with_path] in H; [|discriminate H].
  rewrite (resolved_exists _ _ _ _ _ Hws Hp) in H.
  pose proof (atomic_write_resolved fs ws file_path true p tmp content (bool_decide (mode = Create))
    Hws Hf Hp) as Ha.
  destruct (atomic_write _ _ _ _ _) as [g r].
  assert (E : g = fs' /\ r = Ok () /\ (mode = Overwrite -> is_Some (node_at fs p))).
  { clear Ha. destruct mode, (bool_decide_reflect (is_Some (node_at fs p))); try discriminate H;
      injection H as -> H; destruct r as [[]|]; try discriminate H; by split_and!. }
  destruct E as (-> & -> & Hex). clear H.
  destruct Ha as [[-> Ha]|(-> & _ & Hnd & _)].
  - destruct (Ha eq_refl) as [Hc Hnone]. destruct mode; [discriminate Hc|].
    destruct (Hex eq_refl) as [n Hsome]. congruence.
  - pose proof (resolve_insert _ _ _ _ _ content Hws Hp Hnd) as Hp'.
    assert (Hws' : real_dir (<[p := File content]> fs) ws).
    { destruct (resolve_real _ _ _ _ _ Hws Hp) as [[l ->] _].
      destruct l as [|x l]; [rewrite app_nil_r in Hnd; by destruct Hws|].
      apply real_dir_insert_longer; [rewrite length_app; cbn [length]; unfold gt; lia|exact Hws]. }
    assert (Hm : metadata (<[p := File content]> fs) p = Ok (File content)).
    { rewrite (resolved_metadata _ _ _ _ _ Hws' Hp').
      destruct p as [|x p _] using rev_ind; [by destruct Hnd|].
      by rewrite node_at_snoc, lookup_insert_eq. }
    eexists. split; [exact (read_whole _ _ _ _ _ _ _ Hp' Hm Hu Hn Hlen Hlim Hmax)|].
    split_and!; reflexivity.
Qed.

Lemma write_then_read_witness :
  exists fs' v w,
    write default_limits ["w"] "t" example_fs "a/f" "one" Overwrite = (fs', Ok v) /\
    read default_limits ["w"] fs' "a/f" 1 2000 = Ok w /\ get "text" w = Some (JString "one").
Proof.
  assert (Hw : real_dir example_fs ["w"]) by (split; vm_compute; reflexivity).
  assert (Hf : fresh_name example_fs "t") by (apply fresh_name_test; vm_compute; reflexivity).
  assert (G : forall r : file_system * result NativeToolError json, is_ok (snd r) = true ->
    exists fs' v, r = (fs', Ok v)) by (intros [g [v|e]] E; [by exists g, v|discriminate E]).
  destruct (G (write default_limits ["w"] "t" example_fs "a/f" "one" Overwrite)
    ltac:(vm_compute; reflexivity)) as (fs' & v & E).
  destruct (write_then_read default_limits _ _ _ _ _ _ _ _ 2000 Hw Hf E) as (w & Hr & Ht & _);
    [vm_compute; congruence..|].
  exists fs', v, w. split; [exact E|]. split; [exact Hr|exact Ht].
Defined.

Lemma read_resolved_file fs ws input b p source :
  real_dir fs ws -> resolve fs ws input b = Ok p -> node_at fs p = Some (File source) ->
  read_file fs p = Ok source.
Proof.
  intros Hws Hp Hn. unfold read_file. rewrite (resolved_metadata _ _ _ _ _ Hws Hp), Hn. reflexivity.
Qed.

Lemma normalise_lf s : contains_byte cr s = false -> str_replace NL NL (str_replace CRLF NL s) = s.
Proof.
  intros H. rewrite replace_nl_nl. unfold str_replace. apply replace_absent.
  by apply count_crlf_absent.
Qed.

Lemma edit_text_lf source old new :
  contains_byte cr source = false -> contains_byte cr old = false -> contains_byte cr new = false ->
  edit_text source old new false = str_replacen old new 1 source.
Proof.
  intros Hs Ho Hn. unfold edit_text, contains_str.
  assert (Hc : str_count CRLF source = 0) by by apply count_crlf_absent.
  rewrite Hc. change (0 <? 0) with false. cbv beta iota zeta.
  by rewrite (normalise_lf _ Ho), (normalise_lf _ Hn).
Qed.

(** [edit] of one occurrence, on text with line feeds only: it is refused
    unless the old text occurs exactly once; then exactly that occurrence is
    replaced, provided the result fits the limit, and nothing else changes. *)
Theorem edit_replaces_the_occurrence limits ws tmp fs file_path old new source d leaf :
  let p := d ++ [leaf] in
  real_dir fs ws -> fresh_name fs tmp -> tmp <> leaf ->
  resolve fs ws file_path false = Ok p -> node_at fs p = Some (File source) ->
  contains_byte cr source = false -> contains_byte cr old = false -> contains_byte cr new = false ->
  utf8_valid source = true -> contains_byte NUL source = false -> old <> "" ->
  if str_count old source =? 1 then
    exists a b, source = a ++s old ++s b /\
      edit limits ws tmp fs file_path old new false =
        let next := a ++s new ++s b in
        if max_write_bytes limits <? blen next then (fs, Err TooLarge)
        else (<[p := File next]> fs,
              Ok (jobject [("path", JString file_path); ("replacements", jnum 1);
                           ("bytes_written", jnum (blen next))]))
  else edit limits ws tmp fs file_path old new false = (fs, Err Conflict).
Proof.
  intros p Hws Hf Hne Hp Hn Hs Ho Hnw Hu Hnul Hold.
  unfold edit. rewrite Hp. cbn [with_path]. rewrite (read_resolved_file _ _ _ _ _ _ Hws Hp Hn).
  cbn [map_err]. rewrite Hnul, Hu, (edit_text_lf _ _ _ Hs Ho Hnw). cbn [orb negb andb].
  destruct (Z.eqb_spec (str_count old source) 1) as [Hc|Hc].
  - destruct (replacen_first old new source) as (a & b & Hsrc & Hrep); [lia|done|].
    exists a, b. split; [done|]. rewrite Hrep, Hc. change (1 =? 0) with false. cbn [orb negb].
    destruct (resolved_parent _ _ _ _ _ Hws Hp) as (d' & c' & E & Hd); [by destruct d|].
    apply app_inj_2 in E as [<- [= <-]]; [|done]. cbv zeta.
    destruct (max_write_bytes limits <? blen (a ++s new ++s b)); [done|].
    unfold p. rewrite (atomic_write_spec _ _ _ _ _ _ Hd Hne)
      by (rewrite node_at_snoc; apply Hf).
    fold p. rewrite Hn. reflexivity.
  - by rewrite orb_true_r.
Qed.

Lemma edit_replaces_the_occurrence_witness :
  exists a b, "hello" = a ++s "ell" ++s b /\
    edit default_limits ["w"] "t" example_fs "a/f" "ell" "ipp" false =
      (<[["w"; "a"; "f"] := File (a ++s "ipp" ++s b)]> example_fs,
       Ok (jobject [("path", JString "a/f"); ("replacements", jnum 1);
                    ("bytes_written", jnum (blen (a ++s "ipp" ++s b)))])).
Proof.
  assert (Hw : real_dir example_fs ["w"]) by (split; vm_compute; reflexivity).
  assert (Hf : fresh_name example_fs "t") by (apply fresh_name_test; vm_compute; reflexivity).
  destruct (edit_replaces_the_occurrence default_limits ["w"] "t" example_fs "a/f" "ell" "ipp"
    "hello" ["w"; "a"] "f" Hw Hf ltac:(discriminate) ltac:(vm_compute; reflexivity)
    ltac:(vm_compute; reflexivity) eq_refl eq_refl eq_refl eq_refl eq_refl ltac:(discriminate))
    as (a & b & Hs & He).
  exists a, b. split; [exact Hs|]. rewrite He.
  assert (Hl : String.length (a ++s "ipp" ++s b) = 5%nat).
  { apply (f_equal String.length) in Hs. rewrite !length_append in *. exact (eq_sym Hs). }
  unfold blen. rewrite Hl. reflexivity.
Defined.

Definition mixed_source : string := "a" ++s CRLF ++s "b" ++s NL ++s "c".
Definition mixed_fs : file_system := list_to_map [(["w"], Dir); (["w"; "f"], File mixed_source)].

(** An edit of a file with mixed line endings: the old text is found, the
    answer counts one replacement, and the file is as it was. *)
Theorem edit_reports_unmade_replacement :
  edit default_limits ["w"] "t" mixed_fs "f" ("b" ++s NL ++s "c") "x" false =
    (mixed_fs, Ok (jobject [("path", JString "f"); ("replacements", jnum 1);
                            ("bytes_written", jnum (blen mixed_source))])).
Proof. vm_compute. reflexivity. Qed.

(** ** The footprint of a call *)

(** C32. Footprint: a [read], [write] or [edit] call leaves the file system as it
    was, or has given one non-directory path strictly under the workspace a new
    content.  A call that answers with an error code changes nothing. *)
Theorem file_tools_confined limits ws spawn tmp fs tool arguments :
  tool <> Bash -> real_dir fs ws -> fresh_name fs tmp ->
  let '(fs', v) := execute limits ws spawn tmp fs tool arguments in
  fs' = fs \/
  (get "error" v = None /\
   exists p content, ws `prefix_of` p /\ node_at fs p <> Some Dir /\
     fs' = <[p := File content]> fs).
Proof.
  intros Ht Hws Hf. unfold execute.
  destruct (parse_arguments tool arguments limits) as [[f o l|f c m|f o n a|c w]|e] eqn:Ha; try by left.
  - unfold write. destruct (resolve fs ws f true) as [p|] eqn:Hp; cbn [with_path]; [|by left].
    pose proof (atomic_write_resolved fs ws f true p tmp c (bool_decide (m = Create)) Hws Hf Hp) as Hw.
    destruct m, (path_exists fs p); try by left.
    + destruct (atomic_write _ _ _ _ _) as [g r]. destruct Hw as [[-> _]|(-> & -> & Hn & _)]; [by left|].
      right. split; [done|]. exists p, c. split_and!; [|done..]. by eapply resolve_real.
    + destruct (atomic_write _ _ _ _ _) as [g r]. destruct Hw as [[-> _]|(-> & -> & Hn & _)]; [by left|].
      right. split; [done|]. exists p, c. split_and!; [|done..]. by eapply resolve_real.
  - unfold edit. destruct (resolve fs ws f false) as [p|] eqn:Hp; cbn [with_path]; [|by left].
    destruct (map_err map_io (read_file fs p)) as [source|]; [|by left].
    destruct (_ || negb (utf8_valid source)); [by left|].
    destruct (_ || (negb a && _)); [by left|].
    destruct (max_write_bytes limits <? _); [by left|].
    set (next := edit_text source o n a).
    pose proof (atomic_write_resolved fs ws f false p tmp next false Hws Hf Hp) as Hw.
    destruct (atomic_write _ _ _ _ _) as [g r]. destruct Hw as [[-> _]|(-> & -> & Hn & _)]; [by left|].
    right. split; [done|]. exists p, next. split_and!; [|done..]. by eapply resolve_real.
  - exfalso. apply Ht. unfold parse_arguments in Ha. inv_ok. destruct tool; simpl in Ha; try done;
      split_ok.
Qed.

Definition example_arguments : json :=
  jobject [("filePath", JString "a/f"); ("content", JString "x"); ("mode", JString "overwrite")].

Lemma file_tools_confined_witness :
  let r := execute default_limits ["w"] (fun _ _ _ => None) "t" example_fs Write example_arguments in
  get "mode" (snd r) = Some (JString "overwrite") /\
  (fst r = example_fs \/ exists p content, ["w"] `prefix_of` p /\ fst r = <[p := File content]> example_fs).
Proof.
  assert (Hw : real_dir example_fs ["w"]) by (split; vm_compute; reflexivity).
  assert (Hf : fresh_name example_fs "t") by (apply fresh_name_test; vm_compute; reflexivity).
  pose proof (file_tools_confined default_limits ["w"] (fun _ _ _ => None) "t" example_fs Write
    example_arguments ltac:(discriminate) Hw Hf) as H.
  intros r. split; [vm_compute; reflexivity|]. unfold r. clear r.
  destruct (execute default_limits ["w"] _ "t" example_fs Write example_arguments) as [fs' v].
  destruct H as [H|(_ & p & content & Hp & _ & H)]; [by left|right; by exists p, content].
Defined.
