(* ===== verification/Shell.v ===== *)
(** The process that [NativeExecutor::bash] of [piqo-tools/src/lib.rs] starts: its
    program, arguments, directory and environment, on Unix.

    File Tools gives a command to [spawn]; here is what [spawn] is given in turn. *)

From S2P Require Export Tools.

(** [Path::file_stem]: the name without its extension. *)
Definition file_name (p : string) : option string :=
  match last (components p) with Some (Normal name) => Some name | _ => None end.
Definition file_stem (p : string) : option string :=
  name ← file_name p;
  match split_once "." (str_rev name) with
  | Some (_, before) => Some (if is_empty before then name else str_rev before)
  | None => Some name
  end.

Definition to_lower (c : ascii) : ascii :=
  if (65 <=? byte c) && (byte c <=? 90) then ascii_of_nat (nat_of_ascii c + 32) else c.
Fixpoint to_ascii_lowercase (s : string) : string :=
  match s with "" => "" | String c s => String (to_lower c) (to_ascii_lowercase s) end.

(** [ShellProgram::display_name]; [to_str] is [None] for a name that is not UTF-8. *)
Definition display_name (program : string) : string :=
  to_ascii_lowercase
    (default "shell" (stem ← file_stem program; if utf8_valid stem then Some stem else None)).

(** [ShellProgram::arguments]. *)
Definition arguments (program command : string) : list string :=
  let name := display_name program in
  if String.eqb name "cmd" then ["/c"; command]
  else if String.eqb name "powershell" || String.eqb name "pwsh" then ["-NoProfile"; "-Command"; command]
  else ["-c"; command].

(** [controlled_environment]: an empty environment with five variables of the server. *)
Definition CONTROLLED : list string := ["PATH"; "HOME"; "TMPDIR"; "LANG"; "LC_ALL"].
Definition controlled_environment (env : string -> option string) : gmap string string :=
  foldl (fun m name => match env name with Some v => <[name := v]> m | None => m end) ∅ CONTROLLED.

Record Command := mkCommand {
  cm_program : string;
  cm_args : list string;
  cm_current_dir : path;
  cm_env : gmap string string }.

(** The command of [bash]. *)
Definition shell_command (env : string -> option string) (program : string) (cwd : path) (command : string) : Command :=
  mkCommand program (arguments program command) cwd (controlled_environment env).

(** ** Facts *)

Lemma arguments_end_with_command program command : exists flags, arguments program command = flags ++ [command].
Proof.
  unfold arguments. destruct (String.eqb _ "cmd"); [by exists ["/c"]|].
  destruct (_ || _); [by exists ["-NoProfile"; "-Command"]|by exists ["-c"]].
Qed.

(** A variable the process has is one of the five. *)
Lemma controlled_lookup env name :
  controlled_environment env !! name = if decide (name ∈ CONTROLLED) then env name else None.
Proof.
  assert (Hf : forall (l : list string) (m : gmap string string), foldl (fun m name => match env name with Some v => <[name := v]> m | None => m end) m l !! name
    = match (if decide (name ∈ l) then env name else None) with Some v => Some v | None => m !! name end).
  { induction l as [|x l IH]; intros m; simpl.
    - destruct (decide (name ∈ [])) as [[]%elem_of_nil|]; done.
    - rewrite IH. destruct (decide (name ∈ l)) as [Hl|Hl].
      + rewrite decide_True by (by right). destruct (env name) as [v|] eqn:Hv; [done|].
        destruct (env x) as [w|] eqn:Hw; [|done]. apply lookup_insert_ne. congruence.
      + destruct (decide (name = x)) as [->|Hne].
        * rewrite decide_True by (by left). destruct (env x); [apply lookup_insert_eq|done].
        * rewrite decide_False by (by intros [?|?]%elem_of_cons). destruct (env x); [by apply lookup_insert_ne|done]. }
  unfold controlled_environment. rewrite Hf. destruct (decide _); [|done]. by destruct (env name).
Qed.

(** The API keys and the token in the server's environment are not a tool's: what
    any tool does, whatever the commands do with their environment, is the same on
    servers that agree on the five variables. *)
Lemma tools_see_five_variables env env' program run limits workspace tmp fs tool args :
  (forall name, name ∈ CONTROLLED -> env name = env' name) ->
  execute limits workspace (fun fs cwd command => run fs (shell_command env program cwd command)) tmp fs tool args
  = execute limits workspace (fun fs cwd command => run fs (shell_command env' program cwd command)) tmp fs tool args.
Proof.
  intros He. assert (E : controlled_environment env = controlled_environment env').
  { apply map_eq. intros name. rewrite !controlled_lookup. destruct (decide _); [by apply He|done]. }
  unfold execute, shell_command. by rewrite E.
Qed.

Example shell_names :
  (display_name "/bin/zsh", display_name "/opt/Tools/PwSh.exe", display_name "/bin/.sh", arguments "/bin/bash" "ls -l")
  = ("zsh", "pwsh", ".sh", ["-c"; "ls -l"]).
Proof. vm_compute. reflexivity. Qed.
