(* ===== verification/Mcp.v ===== *)
(** MCP servers: [McpServerConfig], [compile_catalog] and [McpManager] of
    [piqo-tools/src/lib.rs].

    A server is a child process that speaks MCP over its standard streams.  What
    the process does is a parameter: [Launch] says how a start went, a refresh
    or a call has an outcome argument.  The locks of an entry are not modelled:
    an operation runs without another one in between, so [try_read] succeeds.
    [schema_ok] and [conforms] are the [jsonschema] validator, [to_vec_len]
    the length of [serde_json]'s text. *)

From S2P Require Export Tools Json BTree.

(** ** Configuration *)

Record McpServerConfig := mkMcpServer {
  ms_command : string;
  ms_args : list string;
  ms_cwd : option string;
  ms_enabled : bool;
  ms_environment : gmap string string;
  ms_startup_timeout_seconds : Z;
  ms_call_timeout_seconds : Z;
  ms_max_result_bytes : Z;
  ms_termination_grace_millis : Z;
  ms_max_restart_attempts : Z }.

Inductive McpError :=
  | McpInvalidConfiguration
  | McpUnavailable
  | McpToolNotFound
  | McpInvalidArguments
  | McpResultTooLarge
  | McpUncertain.

Module McpServerConfig.

Definition new (command : string) (args : list string) : McpServerConfig :=
  mkMcpServer command args None true ∅ 10 30 (50 * 1024) 1000 3.

Definition bad_variable (name : string) : bool := is_empty name || contains_byte "=" name.

Definition validate (c : McpServerConfig) : result McpError () :=
  if is_empty (trim (ms_command c))
     || (ms_startup_timeout_seconds c =? 0)
     || (ms_call_timeout_seconds c =? 0)
     || (ms_max_result_bytes c =? 0)
     || (ms_termination_grace_millis c =? 0)
     || match ms_cwd c with Some path => negb (path_is_absolute path) | None => false end
     || existsb (fun e => bad_variable e.1 || bad_variable e.2) (btree_entries (ms_environment c))
  then Err McpInvalidConfiguration else Ok ().

End McpServerConfig.

(** ** Catalogs *)

Record McpToolDefinition := mkMcpTool {
  mt_name : string;
  mt_server_id : string;
  mt_server_tool_name : string;
  mt_description : option string;
  mt_input_schema : json }.

(** [rmcp::model::Tool]: the part that is read. *)
Record DiscoveredTool := mkDiscovered {
  dt_name : string;
  dt_description : option string;
  dt_input_schema : list (string * json) }.

Definition valid_public_name (name : string) : bool :=
  (blen name <=? 64)
  && str_forallb (fun c => is_ascii_alphanumeric c || (c =? "_")%char) name.

(** [counts[&tool.name] == 1]. *)
Definition occurrences (name : string) (tools : list McpToolDefinition) : nat :=
  length (List.filter (fun t => String.eqb (mt_name t) name) tools).
Definition unambiguous (tools : list McpToolDefinition) : list McpToolDefinition :=
  List.filter (fun t => (occurrences (mt_name t) tools =? 1)%nat) tools.

Section catalog.
  Context (schema_ok : json -> bool).

Definition public_tool (server_id : string) (tool : DiscoveredTool) : option McpToolDefinition :=
  let public_name := "mcp__" ++s server_id ++s "__" ++s dt_name tool in
  let schema := JObject (dt_input_schema tool) in
  if negb (valid_public_name public_name) then None
  else if negb (schema_ok schema) then None
  else Some (mkMcpTool public_name server_id (dt_name tool) (dt_description tool) schema).

Definition compile_catalog (server_id : string) (tools : list DiscoveredTool) : list McpToolDefinition :=
  unambiguous (omap (public_tool server_id) tools).

End catalog.

(** ** Entries *)

Inductive McpServerState := McpStarting | McpHealthy | McpFailed | McpStopped.
#[export] Instance McpServerState_eq_dec : EqDecision McpServerState.
Proof. solve_decision. Defined.

Record McpEntry := mkEntry {
  me_config : McpServerConfig;
  me_state : McpServerState;
  me_tools : list McpToolDefinition;
  me_last_error : option string;
  me_restart_attempts : Z;
  me_connected : bool;
  me_catalog_dirty : bool }.

Definition new_entry (config : McpServerConfig) : McpEntry :=
  mkEntry config McpStopped [] None 0 false false.

(** A start: the process could not be spawned, the handshake failed or took too
    long, the list of tools could not be read, or the server runs. *)
Inductive Launch :=
  | SpawnFailed
  | HandshakeFailed
  | DiscoveryFailed
  | Launched (tools : list DiscoveredTool).

(** What the process of a server does when an operation needs it: how a start
    goes and what a catalog refresh of a running server returns. *)
Record Behaviour := mkBehaviour {
  bh_launch : Launch; bh_refresh : option (list DiscoveredTool) }.

Definition u8_sat_add (x y : Z) : Z := Z.min u8_max (x + y).

Definition STARTUP_ERROR : string := "MCP server startup, handshake, or discovery failed".

Definition fail_entry (e : McpEntry) : McpEntry :=
  mkEntry (me_config e) McpFailed (me_tools e) (Some STARTUP_ERROR)
    (u8_sat_add (me_restart_attempts e) 1) (me_connected e) (me_catalog_dirty e).

Definition stop_entry (e : McpEntry) : McpEntry :=
  mkEntry (me_config e) McpStopped (me_tools e) (me_last_error e) (me_restart_attempts e) false
    (me_catalog_dirty e).

(** The notification handler of a running server. *)
Definition on_tool_list_changed (e : McpEntry) : McpEntry :=
  mkEntry (me_config e) (me_state e) (me_tools e) (me_last_error e) (me_restart_attempts e)
    (me_connected e) true.

(** [McpServerDiagnostics]. *)
Record McpServerDiagnostics := mkDiagnostics {
  dg_id : string; dg_enabled : bool; dg_state : McpServerState;
  dg_tools : list McpToolDefinition; dg_last_error : option string; dg_restart_attempts : Z }.

Notation McpManager := (gmap string McpEntry).

Inductive CallOutcome :=
  | CallCancelled
  | CallFailed
  | CallIncomplete
  | CallCompleted (value : json).

Section manager.
  Context (schema_ok : json -> bool) (conforms : json -> json -> bool) (to_vec_len : json -> Z).

Definition refresh_catalog (id : string) (discovered : option (list DiscoveredTool)) (e : McpEntry) :
    McpEntry * result McpError () :=
  match discovered with
  | None => (e, Err McpUnavailable)
  | Some tools =>
      (mkEntry (me_config e) (me_state e) (compile_catalog schema_ok id tools) (me_last_error e)
         (me_restart_attempts e) (me_connected e) (me_catalog_dirty e), Ok ())
  end.

Definition set_dirty (b : bool) (e : McpEntry) : McpEntry :=
  mkEntry (me_config e) (me_state e) (me_tools e) (me_last_error e) (me_restart_attempts e)
    (me_connected e) b.
Definition set_starting (e : McpEntry) : McpEntry :=
  mkEntry (me_config e) McpStarting (me_tools e) (me_last_error e) (me_restart_attempts e)
    (me_connected e) (me_catalog_dirty e).

(** The restart budget of an entry is used up. *)
Definition exhausted (e : McpEntry) : bool :=
  (ms_max_restart_attempts (me_config e) <=? me_restart_attempts e)
  && negb (me_restart_attempts e =? 0).

Definition ensure_entry (b : Behaviour) (id : string) (e : McpEntry) : McpEntry * result McpError () :=
  if negb (ms_enabled (me_config e)) then (e, Err McpUnavailable)
  else if me_connected e then
    if me_catalog_dirty e then refresh_catalog id (bh_refresh b) (set_dirty false e) else (e, Ok ())
  else if exhausted e then (e, Err McpUnavailable)
  else
    let e := set_starting e in
    match bh_launch b with
    | SpawnFailed | HandshakeFailed | DiscoveryFailed => (fail_entry e, Err McpUnavailable)
    | Launched tools =>
        (mkEntry (me_config e) McpHealthy (compile_catalog schema_ok id tools) None 0 true
           (me_catalog_dirty e), Ok ())
    end.

(** ** The manager *)

Definition new_manager (configs : gmap string McpServerConfig) : result McpError McpManager :=
  _ ← collect McpServerConfig.validate (btree_values configs); Ok (new_entry <$> configs).

(** [behave id] is what the process of server [id] does during the operation. *)
Definition start_enabled (behave : string -> Behaviour) (m : McpManager) : McpManager :=
  map_imap (fun id e => Some (if ms_enabled (me_config e) then fst (ensure_entry (behave id) id e) else e)) m.

(** The old processes are stopped and dropped, the new table starts from scratch. *)
Definition reconcile (behave : string -> Behaviour) (configs : gmap string McpServerConfig)
    (m : McpManager) : McpManager * result McpError () :=
  match new_manager configs with
  | Err e => (m, Err e)
  | Ok replacement => (start_enabled behave replacement, Ok ())
  end.

Definition shutdown_manager (m : McpManager) : McpManager := stop_entry <$> m.

Definition diagnostics (m : McpManager) : list McpServerDiagnostics :=
  (fun p => mkDiagnostics p.1 (ms_enabled (me_config p.2)) (me_state p.2) (me_tools p.2)
              (me_last_error p.2) (me_restart_attempts p.2)) <$> btree_entries m.

Definition tool_leb (a b : McpToolDefinition) : bool := String.leb (mt_name a) (mt_name b).

Definition all_tools (m : McpManager) : list McpToolDefinition :=
  concat ((fun e => me_tools e) <$> btree_values m).

Definition catalog (behave : string -> Behaviour) (m : McpManager) : McpManager * list McpToolDefinition :=
  let m := start_enabled behave m in
  (m, sort_by tool_leb (unambiguous (all_tools m))).

(** [entries.values().find_map(..)]: the first server, in the order of ids, that
    has a tool of that name. *)
Fixpoint find_tool (public_name : string) (entries : list (string * McpEntry)) :
    option (string * McpEntry * McpToolDefinition) :=
  match entries with
  | [] => None
  | (id, e) :: entries =>
      match List.find (fun t => String.eqb (mt_name t) public_name) (me_tools e) with
      | Some t => Some (id, e, t)
      | None => find_tool public_name entries
      end
  end.

Definition call (b : Behaviour) (outcome : CallOutcome) (public_name : string) (arguments : json)
    (m : McpManager) : McpManager * result McpError json :=
  match find_tool public_name (btree_entries m) with
  | None => (m, Err McpToolNotFound)
  | Some (id, e, definition) =>
      match ensure_entry b id e with
      | (e, Err err) => (<[id := e]> m, Err err)
      | (e, Ok _) =>
          if negb (schema_ok (mt_input_schema definition))
             || negb (conforms (mt_input_schema definition) arguments) || negb (is_object arguments)
          then (<[id := e]> m, Err McpInvalidArguments)
          else match outcome with
          | CallCancelled | CallFailed | CallIncomplete => (<[id := stop_entry e]> m, Err McpUncertain)
          | CallCompleted value =>
              if ms_max_result_bytes (me_config e) <? to_vec_len value
              then (<[id := e]> m, Err McpResultTooLarge)
              else (<[id := e]> m, Ok value)
          end
      end
  end.

End manager.
