(* ===== verification/McpFacts.v ===== *)
(** Properties of MCP servers (file Mcp): the invariant of every table of
    servers the operations build, the restart budget, the catalog, and a gap
    between configuration checks and tool names. *)

From S2P Require Export Mcp.

(** ** Strings *)

Lemma str_forallb_app p a b : str_forallb p (a ++s b) = str_forallb p a && str_forallb p b.
Proof. induction a as [|c a IH]; [done|]. rewrite append_cons. simpl. rewrite IH. apply andb_assoc. Qed.

Lemma contains_not_forallb p c s : p c = false -> contains_byte c s = true -> str_forallb p s = false.
Proof.
  intros Hp. induction s as [|x s IH]; simpl; [done|].
  destruct (Ascii.eqb_spec c x) as [->|Hne].
  - intros _. by rewrite Hp.
  - destruct (Ascii.eqb_spec x c) as [->|]; [by rewrite Hp|]. simpl. intros H.
    rewrite IH by done. apply andb_false_r.
Qed.

(** ** Unambiguous names *)

Lemma elem_of_filter_bool {A} (p : A -> bool) (l : list A) x :
  x ∈ List.filter p l <-> x ∈ l /\ p x = true.
Proof. rewrite !list_elem_of_In. apply filter_In. Qed.

Lemma filter_length_none {A} (p : A -> bool) l : length (List.filter p l) = 0%nat -> forall x, x ∈ l -> p x = false.
Proof.
  intros H x Hx. destruct (p x) eqn:E; [|done].
  assert (x ∈ List.filter p l) as Hf by by apply elem_of_filter_bool.
  destruct (List.filter p l); [by apply not_elem_of_nil in Hf|done].
Qed.

Lemma occurrences_names name tools :
  occurrences name tools = length (List.filter (fun n => String.eqb n name) (mt_name <$> tools)).
Proof.
  unfold occurrences. induction tools as [|t l IH]; [done|]. simpl.
  destruct (String.eqb _ _); simpl; by rewrite IH.
Qed.

(** Names that occur once are pairwise different. *)
Lemma filter_once_NoDup (names : list string) :
  NoDup (List.filter (fun n => (length (List.filter (fun m => String.eqb m n) names) =? 1)%nat) names).
Proof.
  assert (Hcount : forall n l, n ∈ l -> (1 <= length (List.filter (fun m => String.eqb m n) l))%nat).
  { intros n l Hn. assert (n ∈ List.filter (fun m => String.eqb m n) l) as Hf
      by (apply elem_of_filter_bool; split; [done|apply String.eqb_refl]).
    destruct (List.filter _ l); [by apply not_elem_of_nil in Hf|simpl; lia]. }
  enough (H : forall pre l,
    NoDup (List.filter (fun n => (length (List.filter (fun m => String.eqb m n) (pre ++ l)) =? 1)%nat) l))
    by exact (H [] names).
  intros pre l. revert pre. induction l as [|x l IH]; intros pre; [constructor|]. simpl.
  assert (Hsplit : forall n, List.filter (fun m => String.eqb m n) (pre ++ x :: l)
      = List.filter (fun m => String.eqb m n) ((pre ++ [x]) ++ l)) by (intros; by rewrite <- app_assoc).
  destruct (_ =? 1)%nat eqn:E.
  - constructor.
    + rewrite elem_of_filter_bool. intros [Hx _]. apply Nat.eqb_eq in E.
      rewrite List.filter_app in E. simpl in E. rewrite String.eqb_refl, length_app in E. simpl in E.
      specialize (Hcount _ _ Hx). lia.
    + erewrite List.filter_ext; [apply (IH (pre ++ [x]))|]. intros n. simpl. by rewrite Hsplit.
  - erewrite List.filter_ext; [apply (IH (pre ++ [x]))|]. intros n. simpl. by rewrite Hsplit.
Qed.

Lemma unambiguous_NoDup tools : NoDup (mt_name <$> unambiguous tools).
Proof.
  replace (mt_name <$> unambiguous tools) with
    (List.filter (fun n => (length (List.filter (fun m => String.eqb m n) (mt_name <$> tools)) =? 1)%nat)
       (mt_name <$> tools)); [apply filter_once_NoDup|].
  unfold unambiguous.
  enough (H : forall l all,
    List.filter (fun n => (length (List.filter (fun m => String.eqb m n) (mt_name <$> all)) =? 1)%nat) (mt_name <$> l)
    = mt_name <$> List.filter (fun t => (occurrences (mt_name t) all =? 1)%nat) l) by apply H.
  intros l all. induction l as [|t l IH]; [done|]. rewrite fmap_cons. cbn [List.filter].
  rewrite occurrences_names. destruct (_ =? 1)%nat; [rewrite fmap_cons; f_equal|]; exact IH.
Qed.

Lemma elem_of_unambiguous t tools :
  t ∈ unambiguous tools <-> t ∈ tools /\ occurrences (mt_name t) tools = 1%nat.
Proof. unfold unambiguous. by rewrite elem_of_filter_bool, Nat.eqb_eq. Qed.

(** ** The invariant *)

Section invariant.
  Context (schema_ok : json -> bool) (conforms : json -> json -> bool) (to_vec_len : json -> Z).

(** A tool the model may be offered: its name is the one the API accepts, says
    which server it belongs to, and its schema is a schema. *)
Definition tool_wf (id : string) (t : McpToolDefinition) : Prop :=
  mt_server_id t = id
  /\ mt_name t = "mcp__" ++s id ++s "__" ++s mt_server_tool_name t
  /\ valid_public_name (mt_name t) = true
  /\ schema_ok (mt_input_schema t) = true.

Definition restart_limit (c : McpServerConfig) : Z := Z.max 1 (ms_max_restart_attempts c).

Record entry_wf (id : string) (e : McpEntry) : Prop := {
  ew_config : McpServerConfig.validate (me_config e) = Ok ();
  ew_tools : Forall (tool_wf id) (me_tools e);
  ew_names : NoDup (mt_name <$> me_tools e);
  ew_connected : me_connected e = true -> me_state e = McpHealthy /\ me_restart_attempts e = 0;
  ew_disabled : ms_enabled (me_config e) = false -> me_connected e = false /\ me_tools e = [];
  ew_attempts : 0 <= me_restart_attempts e <= restart_limit (me_config e) }.

Definition manager_wf (m : McpManager) : Prop := map_Forall entry_wf m.

Lemma compile_catalog_wf id tools : Forall (tool_wf id) (compile_catalog schema_ok id tools).
Proof.
  apply Forall_forall. intros t [Ht _]%elem_of_unambiguous.
  apply list_elem_of_omap in Ht as (d & _ & Hd). unfold public_tool in Hd.
  destruct (valid_public_name _) eqn:Hv; [|done]. destruct (schema_ok _) eqn:Hs; [|done].
  simpl in Hd. injection Hd as <-. by split_and!.
Qed.

Lemma compile_catalog_NoDup id tools : NoDup (mt_name <$> compile_catalog schema_ok id tools).
Proof. apply unambiguous_NoDup. Qed.

Hint Resolve compile_catalog_wf compile_catalog_NoDup : piqo.

Lemma new_entry_wf id c : McpServerConfig.validate c = Ok () -> entry_wf id (new_entry c).
Proof. intros Hc. split; simpl; try done; [constructor..|]. unfold restart_limit. lia. Qed.

Lemma stop_entry_wf id e : entry_wf id e -> entry_wf id (stop_entry e).
Proof. intros []. split; simpl; try done. intros Hd. by destruct (ew_disabled0 Hd). Qed.

Lemma dirty_wf id e b : entry_wf id e -> entry_wf id (set_dirty b e).
Proof. by intros []. Qed.

Lemma exhausted_spec e :
  exhausted e = false <-> me_restart_attempts e < ms_max_restart_attempts (me_config e) \/ me_restart_attempts e = 0.
Proof. unfold exhausted. lia. Qed.

Lemma ensure_entry_wf b id e : ms_max_restart_attempts (me_config e) <= u8_max ->
  entry_wf id e -> entry_wf id (fst (ensure_entry schema_ok b id e)).
Proof.
  intros Hmax Hwf. unfold ensure_entry. destruct (ms_enabled _) eqn:Hen; [|done]. simpl.
  destruct (me_connected e) eqn:Hc.
  - destruct (me_catalog_dirty e); [|done]. destruct Hwf. destruct (bh_refresh b); simpl; [|by split].
    split; simpl; auto with piqo; congruence.
  - destruct (exhausted e) eqn:Hx; [done|]. apply exhausted_spec in Hx. destruct Hwf.
    assert (Hf : entry_wf id (fail_entry (set_starting e))).
    { split; simpl; try done; [congruence|]. unfold restart_limit, u8_sat_add, u8_max in *. lia. }
    destruct (bh_launch b); simpl; try done.
    split; simpl; auto with piqo; [congruence|]. unfold restart_limit. lia.
Qed.

(** The operations of a manager and the notifications of its servers. *)
Inductive manager_step : McpManager -> McpManager -> Prop :=
  | step_reconcile behave configs m :
      map_Forall (fun _ c => ms_max_restart_attempts c <= u8_max) configs ->
      manager_step m (fst (reconcile schema_ok behave configs m))
  | step_start behave m : manager_step m (start_enabled schema_ok behave m)
  | step_catalog behave m : manager_step m (fst (catalog schema_ok behave m))
  | step_call b outcome name arguments m :
      manager_step m (fst (call schema_ok conforms to_vec_len b outcome name arguments m))
  | step_notify id e m : m !! id = Some e -> manager_step m (<[id := on_tool_list_changed e]> m)
  | step_shutdown m : manager_step m (shutdown_manager m).

(** What a manager is used for starts with an empty table ([Default]). *)
Definition manager_reachable (m : McpManager) : Prop := rtc manager_step ∅ m.

Definition limits_wf (m : McpManager) : Prop :=
  map_Forall (fun _ e => ms_max_restart_attempts (me_config e) <= u8_max) m.

Lemma ensure_entry_config b id e : me_config (fst (ensure_entry schema_ok b id e)) = me_config e.
Proof.
  unfold ensure_entry. repeat (case_match; simplify_eq/=; try done); unfold refresh_catalog; by destruct (bh_refresh b).
Qed.

Lemma start_enabled_wf behave m :
  limits_wf m -> manager_wf m -> limits_wf (start_enabled schema_ok behave m) /\ manager_wf (start_enabled schema_ok behave m).
Proof.
  intros Hl Hm. assert (H : forall id e, start_enabled schema_ok behave m !! id = Some e -> exists e0,
    m !! id = Some e0 /\ (e = e0 \/ e = fst (ensure_entry schema_ok (behave id) id e0))).
  { intros id e. unfold start_enabled. rewrite map_lookup_imap.
    destruct (m !! id) as [e0|] eqn:E; simpl; [|done]. intros [= <-]. exists e0. destruct (ms_enabled _); auto. }
  split; intros id e (e0 & He0 & [->| ->])%H; try exact (Hl _ _ He0); try exact (Hm _ _ He0).
  - rewrite ensure_entry_config. exact (Hl _ _ He0).
  - apply ensure_entry_wf; [exact (Hl _ _ He0)|exact (Hm _ _ He0)].
Qed.

Lemma collect_ok_unit {A} (f : A -> result McpError ()) l r x :
  collect f l = Ok r -> x ∈ l -> f x = Ok ().
Proof.
  intros H%collect_Forall2 Hx. apply list_elem_of_lookup in Hx as [i Hi].
  destruct (Forall2_lookup_l _ _ _ _ _ H Hi) as ([] & _ & Hf). done.
Qed.

Lemma new_manager_wf configs m : new_manager configs = Ok m ->
  map_Forall (fun _ c => ms_max_restart_attempts c <= u8_max) configs -> limits_wf m /\ manager_wf m.
Proof.
  unfold new_manager. intros H Hmax. inv_ok.
  split; intros id e He; apply lookup_fmap_Some in He as (c & <- & Hc); [exact (Hmax _ _ Hc)|].
  apply new_entry_wf. eapply collect_ok_unit; [done|]. apply elem_of_btree_values. by exists id.
Qed.

Lemma find_tool_Some name l id e t :
  find_tool name l = Some (id, e, t) -> (id, e) ∈ l /\ t ∈ me_tools e /\ mt_name t = name.
Proof.
  induction l as [|[id0 e0] l IH]; simpl; [done|].
  destruct (List.find _ _) as [t0|] eqn:Hf.
  - intros [= -> -> ->]. apply find_Some_elem in Hf as [Hin Hn]. split_and!; [left|done|by apply String.eqb_eq].
  - intros H. destruct (IH H) as (?&?&?). split_and!; [by right|done..].
Qed.

Lemma call_wf b outcome name arguments m :
  limits_wf m -> manager_wf m ->
  let m' := fst (call schema_ok conforms to_vec_len b outcome name arguments m) in
  limits_wf m' /\ manager_wf m'.
Proof.
  intros Hl Hm. unfold call. destruct (find_tool _ _) as [[[id e] t]|] eqn:Hf; [|done].
  apply find_tool_Some in Hf as (Hin & _ & _). apply elem_of_btree_entries in Hin.
  pose proof (ensure_entry_wf b id e (Hl _ _ Hin) (Hm _ _ Hin)) as Hw.
  pose proof (ensure_entry_config b id e) as Hc.
  destruct (ensure_entry _ _ _ _) as [e' r]. simpl in Hw, Hc.
  assert (Hput : forall e1, me_config e1 = me_config e -> entry_wf id e1 ->
    limits_wf (<[id := e1]> m) /\ manager_wf (<[id := e1]> m)).
  { intros e1 Hc1 Hw1. split; apply map_Forall_insert_2; try done. by rewrite Hc1; apply (Hl _ _ Hin). }
  destruct r; [|by apply Hput].
  repeat case_match; apply Hput; try done; by apply stop_entry_wf.
Qed.

Lemma manager_step_wf m m' : manager_step m m' -> limits_wf m /\ manager_wf m -> limits_wf m' /\ manager_wf m'.
Proof.
  intros Hs [Hl Hm]. destruct Hs as [behave configs m Hmax|behave m|behave m|b o n a m|id e m He|m].
  - unfold reconcile. destruct (new_manager configs) eqn:E; [|done]. simpl.
    apply new_manager_wf in E as [??]; [|done]. by apply start_enabled_wf.
  - by apply start_enabled_wf.
  - by apply start_enabled_wf.
  - by apply call_wf.
  - split; apply map_Forall_insert_2; try done; [exact (Hl _ _ He)|]. apply (dirty_wf _ _ true), (Hm _ _ He).
  - split; intros id e He; apply lookup_fmap_Some in He as (e0 & <- & He0); [exact (Hl _ _ He0)|].
    apply stop_entry_wf, (Hm _ _ He0).
Qed.

Lemma all_tools_spec m t : t ∈ all_tools m <-> exists id e, m !! id = Some e /\ t ∈ me_tools e.
Proof.
  unfold all_tools. rewrite list_elem_of_In, in_concat. split.
  - intros (l & Hl%list_elem_of_In & Ht%list_elem_of_In). apply list_elem_of_fmap in Hl as (e & -> & He).
    apply elem_of_btree_values in He as [id He]. eauto.
  - intros (id & e & He & Ht). exists (me_tools e). rewrite <- !list_elem_of_In. split; [|done].
    apply list_elem_of_fmap. exists e. split; [done|]. apply elem_of_btree_values. eauto.
Qed.

(** Two tools of one name make that name occur twice. *)
Lemma occurrences_unique name tools t1 t2 :
  occurrences name tools = 1%nat -> t1 ∈ tools -> t2 ∈ tools -> mt_name t1 = name -> mt_name t2 = name -> t1 = t2.
Proof.
  intros Ho H1 H2 E1 E2.
  assert (Hin : forall t, t ∈ tools -> mt_name t = name -> t ∈ List.filter (fun t => String.eqb (mt_name t) name) tools).
  { intros t Ht E. apply elem_of_filter_bool. split; [done|]. by apply String.eqb_eq. }
  apply Hin in H1, H2; [|done..]. unfold occurrences in Ho.
  destruct (List.filter _ tools) as [|x [|]]; [done| |done].
  apply list_elem_of_singleton in H1, H2. congruence.
Qed.

Lemma find_tool_complete name l id e t :
  (id, e) ∈ l -> t ∈ me_tools e -> mt_name t = name -> exists r, find_tool name l = Some r.
Proof.
  intros Hin Ht Hn. induction l as [|[id0 e0] l IH]; [by apply not_elem_of_nil in Hin|]. simpl.
  destruct (List.find _ _) eqn:Hf; [eauto|].
  apply elem_of_cons in Hin as [[= -> ->]|Hin]; [|by apply IH].
  exfalso. apply (proj1 (find_None_elem _ _) Hf) in Ht. rewrite Hn, String.eqb_refl in Ht. done.
Qed.

Lemma manager_reachable_wf m : manager_reachable m -> limits_wf m /\ manager_wf m.
Proof.
  intros Hr. assert (H0 : limits_wf ∅ /\ manager_wf ∅) by (split; apply map_Forall_empty).
  revert H0. induction Hr as [|m1 m2 m3 Hs _ IH]; [done|]. intros H. apply IH. by eapply manager_step_wf.
Qed.

(** What the model is offered is what can be called: the catalog of a
    manager that was used in any way lists tools of enabled servers with
    pairwise different, valid public names, in order, and calling one of these
    names finds that very tool. *)
Theorem mcp_catalog_is_callable behave m :
  manager_reachable m ->
  let '(m', tools) := catalog schema_ok behave m in
  manager_reachable m'
  /\ NoDup (mt_name <$> tools)
  /\ StronglySorted tool_leb tools
  /\ forall t, t ∈ tools -> exists e,
       m' !! mt_server_id t = Some e /\ ms_enabled (me_config e) = true
       /\ tool_wf (mt_server_id t) t
       /\ find_tool (mt_name t) (btree_entries m') = Some (mt_server_id t, e, t).
Proof.
  intros Hr. assert (Hr' : manager_reachable (start_enabled schema_ok behave m)).
  { eapply rtc_r; [exact Hr|apply step_start]. }
  destruct (manager_reachable_wf _ Hr') as [_ Hwf]. unfold catalog.
  set (m' := start_enabled schema_ok behave m) in *. split_and!; [done| | |].
  - rewrite sort_by_perm. apply unambiguous_NoDup.
  - apply sort_by_sorted; intros; [apply string_leb_total'|by eapply string_leb_trans].
  - intros t Ht. apply elem_of_sort_by, elem_of_unambiguous in Ht as [Ht Ho].
    pose proof Ht as (id & e & He & Hte)%all_tools_spec.
    destruct (Hwf _ _ He) as [_ Htools _ _ Hdis _]. rewrite Forall_forall in Htools.
    pose proof (Htools _ Hte) as Htw. assert (mt_server_id t = id) as Hid by apply Htw. rewrite Hid.
    exists e. split_and!; [done| |done|].
    + destruct (ms_enabled _) eqn:E; [done|]. destruct (Hdis eq_refl) as [_ Hnil]. rewrite Hnil in Hte.
      by apply not_elem_of_nil in Hte.
    + assert ((id, e) ∈ btree_entries m') as Hin by by apply elem_of_btree_entries.
      destruct (find_tool_complete _ _ _ _ _ Hin Hte eq_refl) as [[[id' e'] t'] Hf]. rewrite Hf.
      apply find_tool_Some in Hf as (Hin' & Ht' & En). apply elem_of_btree_entries in Hin'.
      assert (t' = t) as -> by (eapply occurrences_unique; [exact Ho| |exact Ht|done|done];
        apply all_tools_spec; eauto).
      destruct (Hwf _ _ Hin') as [_ Htools' _ _ _ _]. rewrite Forall_forall in Htools'.
      assert (mt_server_id t = id') as Hid' by apply (Htools' _ Ht').
      assert (id' = id) as -> by congruence. congruence.
Qed.

(** ** The restart budget *)

(** Running an entry through a series of demands; the number of processes
    started. *)
Definition starts (e : McpEntry) : bool :=
  ms_enabled (me_config e) && negb (me_connected e) && negb (exhausted e).

Fixpoint demand (id : string) (bs : list Behaviour) (e : McpEntry) : McpEntry * nat :=
  match bs with
  | [] => (e, 0%nat)
  | b :: bs =>
      let '(e', n) := demand id bs (fst (ensure_entry schema_ok b id e)) in
      (e', ((if starts e then 1 else 0) + n)%nat)
  end.

Definition fails (b : Behaviour) : Prop := match bh_launch b with Launched _ => False | _ => True end.

Lemma ensure_entry_fails b id e : fails b -> me_connected e = false ->
  let e' := fst (ensure_entry schema_ok b id e) in
  me_connected e' = false /\ me_config e' = me_config e
  /\ me_restart_attempts e' = (if starts e then u8_sat_add (me_restart_attempts e) 1 else me_restart_attempts e).
Proof.
  intros Hf Hc. unfold ensure_entry, starts. rewrite Hc. destruct (ms_enabled _); [|done]. simpl.
  destruct (exhausted e); [done|]. unfold fails in Hf. by destruct (bh_launch b).
Qed.

(** Restarts are bounded: however often tools of a server that cannot be
    started are asked for, its process is started at most
    [max_restart_attempts] times (once if that is zero). *)
Theorem failing_server_starts_bounded id bs e :
  entry_wf id e -> ms_max_restart_attempts (me_config e) <= u8_max -> me_connected e = false ->
  Forall fails bs ->
  Z.of_nat (snd (demand id bs e)) + me_restart_attempts e <= restart_limit (me_config e).
Proof.
  intros Hwf Hmax Hc Hf. apply ew_attempts in Hwf. revert e Hwf Hmax Hc.
  induction Hf as [|b bs Hb _ IH]; intros e Ha Hmax Hc; simpl; [lia|].
  destruct (ensure_entry_fails b id e Hb Hc) as (Hc' & Hcfg & Ha').
  set (e' := fst (ensure_entry schema_ok b id e)) in *.
  assert (Hst : starts e = true -> me_restart_attempts e' = me_restart_attempts e + 1
    /\ me_restart_attempts e + 1 <= restart_limit (me_config e)).
  { intros Hs. rewrite Hs in Ha'. unfold starts in Hs.
    apply andb_prop in Hs as [_ Hx]. apply negb_true_iff, exhausted_spec in Hx.
    unfold restart_limit, u8_sat_add, u8_max in *. lia. }
  specialize (IH e'). rewrite Hcfg in IH. destruct (demand id bs e') as [e2 n]. simpl in IH |- *.
  destruct (starts e); [destruct (Hst eq_refl) as [E ?]|]; 
    (enough (Z.of_nat n + me_restart_attempts e' <= restart_limit (me_config e)) by lia; apply IH; [lia|done..]).
Qed.

End invariant.

(** ** Witnesses *)

Definition example_server : McpServerConfig := McpServerConfig.new "server" [].
Definition example_tools : list DiscoveredTool :=
  [mkDiscovered "find" None []; mkDiscovered "two" None []; mkDiscovered "two" None []].
Definition example_behaviour : Behaviour := mkBehaviour (Launched example_tools) None.
Definition broken_behaviour : Behaviour := mkBehaviour SpawnFailed None.
Definition accept_schema (_ : json) : bool := true.

Lemma mcp_catalog_is_callable_witness :
  let m := fst (reconcile accept_schema (fun _ => broken_behaviour) {["files" := example_server]} ∅) in
  (mt_name <$> snd (catalog accept_schema (fun _ => example_behaviour) m)) = ["mcp__files__find"]
  /\ NoDup (mt_name <$> snd (catalog accept_schema (fun _ => example_behaviour) m)).
Proof.
  intros m. split; [vm_compute; reflexivity|].
  apply (mcp_catalog_is_callable accept_schema (fun _ _ => true) (fun _ => 0) (fun _ => example_behaviour) m).
  eapply rtc_once, (step_reconcile accept_schema (fun _ _ => true) (fun _ => 0)).
  apply map_Forall_singleton. vm_compute. discriminate.
Defined.

Lemma failing_server_starts_bounded_witness :
  let e := new_entry example_server in
  snd (demand accept_schema "files" (replicate 10 broken_behaviour) e) = 3%nat
  /\ Z.of_nat (snd (demand accept_schema "files" (replicate 10 broken_behaviour) e)) + 0 <= 3.
Proof.
  intros e. split; [vm_compute; reflexivity|].
  apply (failing_server_starts_bounded accept_schema "files" (replicate 10 broken_behaviour) e).
  - apply new_entry_wf. vm_compute. reflexivity.
  - vm_compute. discriminate.
  - reflexivity.
  - repeat constructor.
Defined.

(** ** A configuration that passes the checks and offers no tools *)

(** The identifier check of the configuration allows hyphens, the check of
    public tool names does not: no tool of a server with a hyphen in its id is
    ever offered. *)
Theorem hyphenated_server_offers_nothing schema_ok id tools :
  contains_byte "-" id = true -> compile_catalog schema_ok id tools = [].
Proof.
  intros Hid. unfold compile_catalog. enough (omap (public_tool schema_ok id) tools = []) as -> by done.
  induction tools as [|t l IH]; [done|]. simpl. unfold public_tool at 1, valid_public_name.
  rewrite !str_forallb_app, (contains_not_forallb _ "-" id) by done.
  rewrite andb_false_l, !andb_false_r. exact IH.
Qed.

Lemma hyphenated_server_offers_nothing_witness :
  compile_catalog accept_schema "my-files" example_tools = [].
Proof. by apply (hyphenated_server_offers_nothing accept_schema "my-files" example_tools). Defined.
