(* ===== verification/Permissions.v ===== *)
(** Permission decisions: [piqo-core/src/permissions.rs] (the ordered policy),
    the durable approvals of [piqo-server/src/storage.rs], the agents'
    settings of [config.rs] and [evaluate_tool_permissions] of
    [supervisor.rs], which combines them for every unanswered tool call of a
    run.

    [permission_rules] is a table: the list of its rows.  [ORDER BY] is the
    stable sort of the prelude; rows that tie keep their table order (SQL leaves
    that order open).  Fresh request ids are given by a function of the call id. *)

From S2P Require Export Session Tools BTree.

(** ** The ordered policy *)

Record PermissionEvaluation := mkEvaluation {
  pe_decision : PermissionDecision;
  pe_source : PermissionDecisionSource;
  pe_matching_rule : option string }.

Record ToolRequest := mkToolRequest {
  tr_agent_id : string; tr_tool_name : string; tr_arguments : json }.

Record PermissionRule := mkRule {
  pr_agent_id : option string; pr_tool_name : string; pr_decision : PermissionDecision }.

Definition matches (rule : PermissionRule) (request : ToolRequest) : bool :=
  String.eqb (pr_tool_name rule) (tr_tool_name request)
  && match pr_agent_id rule with
     | None => true
     | Some agent_id => String.eqb agent_id (tr_agent_id request)
     end.

Record PermissionPolicy := mkPolicy {
  po_rules : list PermissionRule; po_default_decision : PermissionDecision }.

Module PermissionPolicy.

Definition new (default_decision : PermissionDecision) : PermissionPolicy :=
  mkPolicy [] default_decision.

Definition add_rule (rule : PermissionRule) (p : PermissionPolicy) : PermissionPolicy :=
  mkPolicy (po_rules p ++ [rule]) (po_default_decision p).

Definition evaluate_explained (p : PermissionPolicy) (request : ToolRequest) :
    PermissionEvaluation :=
  match List.find (fun rule => matches rule request) (po_rules p) with
  | None => mkEvaluation (po_default_decision p) SourceDefault None
  | Some rule =>
      mkEvaluation (pr_decision rule) SourceConfiguration
        (Some (default "*" (pr_agent_id rule) ++s ":" ++s pr_tool_name rule))
  end.

Definition evaluate (p : PermissionPolicy) (request : ToolRequest) : PermissionDecision :=
  pe_decision (evaluate_explained p request).

End PermissionPolicy.

(** [ToolRuntime::authorize] of [piqo-tools]. *)
Definition authorize (policy : PermissionPolicy) (request : ToolRequest) : PermissionDecision :=
  PermissionPolicy.evaluate policy request.

(** ** Agent settings *)

Inductive PermissionSetting := SAllow | SAsk | SDeny.
#[export] Instance PermissionSetting_eq_dec : EqDecision PermissionSetting.
Proof. solve_decision. Defined.

Record AgentPermissions := mkAgentPermissions {
  perm_read : option PermissionSetting;
  perm_write : option PermissionSetting;
  perm_bash : option PermissionSetting;
  perm_mcp : option PermissionSetting;
  perm_tools : gmap string PermissionSetting }.

Definition or_else {A : Type} (o o' : option A) : option A :=
  match o with Some _ => o | None => o' end.

Definition permission_setting (permissions : AgentPermissions) (tool_name : string) :
    option PermissionSetting :=
  if String.eqb tool_name "read" then perm_read permissions
  else if String.eqb tool_name "write" || String.eqb tool_name "edit" then perm_write permissions
  else if String.eqb tool_name "bash" then perm_bash permissions
  else or_else (perm_tools permissions !! tool_name) (perm_mcp permissions).

Definition most_restrictive_permission (left right : PermissionSetting) : PermissionSetting :=
  match left, right with
  | SDeny, _ | _, SDeny => SDeny
  | SAsk, _ | _, SAsk => SAsk
  | SAllow, SAllow => SAllow
  end.

Definition merge_permissions (target : AgentPermissions)
    (override_permissions : option AgentPermissions) : AgentPermissions :=
  match override_permissions with
  | None => target
  | Some o =>
      mkAgentPermissions (or_else (perm_read o) (perm_read target))
        (or_else (perm_write o) (perm_write target)) (or_else (perm_bash o) (perm_bash target))
        (or_else (perm_mcp o) (perm_mcp target)) (perm_tools o ∪ perm_tools target)
  end.

(** ** Durable approvals *)

Record PermissionRuleRecord := mkRuleRecord {
  rr_id : string;
  rr_scope : PermissionScope;
  rr_session_id : option string;
  rr_project_id : option string;
  rr_agent_id : string;
  rr_tool_name : string;
  rr_created_at : string }.

(** [a = ?] in SQL is not true when either side is NULL. *)
Definition sql_eq (a b : option string) : bool :=
  match a, b with Some a, Some b => String.eqb a b | _, _ => false end.

Definition rule_applies (session_id : string) (project_id : option string)
    (agent_id tool_name : string) (r : PermissionRuleRecord) : bool :=
  String.eqb (rr_agent_id r) agent_id && String.eqb (rr_tool_name r) tool_name
  && match rr_scope r with
     | ScopeSession => sql_eq (rr_session_id r) (Some session_id)
     | ScopeProject => sql_eq (rr_project_id r) project_id
     | ScopeConfiguration => true
     | ScopeOnce => false
     end.

Definition scope_rank (s : PermissionScope) : Z :=
  match s with ScopeSession => 3 | ScopeProject => 2 | _ => 1 end.

(** [ORDER BY rank DESC, created_at DESC]. *)
Definition rule_leb (a b : PermissionRuleRecord) : bool :=
  (scope_rank (rr_scope b) <? scope_rank (rr_scope a))
  || ((scope_rank (rr_scope a) =? scope_rank (rr_scope b))
      && String.leb (rr_created_at b) (rr_created_at a)).

Definition matching_permission_rule (rows : list PermissionRuleRecord) (session_id : string)
    (project_id : option string) (agent_id tool_name : string) : option PermissionRuleRecord :=
  head (sort_by rule_leb
    (List.filter (rule_applies session_id project_id agent_id tool_name) rows)).

(** [ORDER BY created_at DESC, id DESC]. *)
Definition rule_list_leb (a b : PermissionRuleRecord) : bool :=
  (negb (String.leb (rr_created_at a) (rr_created_at b)))
  || (String.eqb (rr_created_at a) (rr_created_at b) && String.leb (rr_id b) (rr_id a)).
Definition permission_rules (rows : list PermissionRuleRecord) : list PermissionRuleRecord :=
  sort_by rule_list_leb rows.

Inductive RuleError := InvalidPermissionScope | PermissionRuleNotFound (id : string).

Definition create_permission_rule (id now : string) (scope : PermissionScope)
    (session_id project_id : option string) (agent_id tool_name : string)
    (rows : list PermissionRuleRecord) :
    result RuleError (PermissionRuleRecord * list PermissionRuleRecord) :=
  match scope with
  | ScopeOnce => Err InvalidPermissionScope
  | _ =>
      let record := mkRuleRecord id scope session_id project_id agent_id tool_name now in
      Ok (record, rows ++ [record])
  end.

Definition delete_permission_rule (id : string) (rows : list PermissionRuleRecord) :
    result RuleError (list PermissionRuleRecord) :=
  if existsb (fun r => String.eqb (rr_id r) id) rows
  then Ok (List.filter (fun r => negb (String.eqb (rr_id r) id)) rows)
  else Err (PermissionRuleNotFound id).

(** ** [evaluate_tool_permissions] *)

Section evaluate.
  Context (rows : list PermissionRuleRecord) (session_id : string) (project_id : option string)
    (agent_id : string) (configured parent_ceiling : option AgentPermissions).

(** The configured setting after the parent's ceiling, and the ceiling itself. *)
Definition parent_decision (tool_name : string) : option PermissionSetting :=
  p ← parent_ceiling; permission_setting p tool_name.
Definition configured_decision (tool_name : string) : option PermissionSetting :=
  let own := p ← configured; permission_setting p tool_name in
  match parent_decision tool_name with
  | None => own
  | Some parent => Some (most_restrictive_permission (default SDeny own) parent)
  end.

Definition parent_allows_interactive (tool_name : string) : bool :=
  match parent_decision tool_name with None => true | Some d => bool_decide (d = SAllow) end.

Definition rule_source (scope : PermissionScope) : PermissionDecisionSource :=
  match scope with
  | ScopeSession => SourceSessionRule
  | ScopeProject => SourceProjectRule
  | ScopeConfiguration => SourceInteractiveConfiguration
  | ScopeOnce => SourceRequestApproval
  end.

Definition call_rule (tool_name : string) : option PermissionRuleRecord :=
  if parent_allows_interactive tool_name then
    matching_permission_rule rows session_id project_id agent_id
      (default tool_name (NativeTool.permission_name <$> NativeTool.parse tool_name))
  else None.

Definition decide_call (tool_name : string) :
    PermissionDecision * PermissionDecisionSource * option string :=
  if bool_decide (configured_decision tool_name = Some SDeny) then (Deny, SourceConfiguration, None)
  else match call_rule tool_name with
  | Some rule => (Allow, rule_source (rr_scope rule), Some (rr_id rule))
  | None =>
      match configured_decision tool_name with
      | Some SAllow => (Allow, SourceConfiguration, None)
      | Some SAsk => (Ask, SourceConfiguration, None)
      | _ => (Deny, SourceDefault, None)
      end
  end.

Definition permission_denied : json :=
  jobject [("error", jobject [("code", JString "permission_denied");
    ("message", JString "tool invocation was denied by permission policy")])].

Definition call_events (new_id : string -> string) (run_id : string) (call : ToolCallProjection) :
    list SemanticEvent :=
  let '(decision, source, rule_id) := decide_call (tc_tool_name call) in
  let request_id := new_id (tc_call_id call) in
  PermissionRequested request_id run_id (Some (tc_call_id call)) agent_id (tc_tool_name call)
    (tc_arguments call) ::
  match decision with
  | Ask => []
  | Allow => [PermissionResolved request_id decision (Some source) None rule_id None]
  | Deny =>
      [PermissionResolved request_id decision (Some source) None rule_id None;
       ToolResult run_id (tc_call_id call) (tc_agent_id call) (tc_tool_name call) permission_denied]
  end.

(** The events appended in one go, and whether an approval is pending (when none
    is, the approved native calls are executed next). *)
Definition unanswered (run : RunProjection) : list ToolCallProjection :=
  List.filter (fun c => negb (bool_decide (is_Some (tc_result c)))) (btree_values (rp_tool_calls run)).

Definition evaluate_tool_permissions (new_id : string -> string) (run : RunProjection) :
    list SemanticEvent * bool :=
  (concat (call_events new_id (rp_run_id run) <$> unanswered run),
   existsb (fun c => bool_decide ((decide_call (tc_tool_name c)).1.1 = Ask)) (unanswered run)).

End evaluate.
