(* ===== verification/PermissionFacts.v ===== *)
(** Properties of permission decisions (file Permissions): first match of the
    ordered policy, the choice among durable approvals, and the bounds that
    configured denials and a parent's ceiling put on a tool call. *)

From S2P Require Export Permissions SessionFacts.

(** ** The ordered policy *)

Lemma find_app {A} (f : A -> bool) l1 l2 :
  List.find f (l1 ++ l2) = or_else (List.find f l1) (List.find f l2).
Proof. induction l1 as [|x l1 IH]; simpl; [done|]. by destruct (f x). Qed.

(** The first matching rule wins: in a policy whose earlier rules do not
    match, a matching rule decides whatever follows it; rules added later never
    change a decided request, and without a match the default decides. *)
Theorem first_matching_rule_wins default_decision before rule after request :
  (forall r, r ∈ before -> matches r request = false) ->
  let policy rules := foldl (fun p r => PermissionPolicy.add_rule r p)
                        (PermissionPolicy.new default_decision) rules in
  PermissionPolicy.evaluate (policy (before ++ rule :: after)) request =
    (if matches rule request then pr_decision rule
     else PermissionPolicy.evaluate (policy after) request) /\
  PermissionPolicy.evaluate (policy before) request = default_decision.
Proof.
  intros Hb policy.
  assert (Hrules : forall rules, policy rules = mkPolicy rules default_decision).
  { intros rules. unfold policy. induction rules as [|r l IH] using rev_ind; [done|].
    by rewrite foldl_app, IH. }
  assert (Hf : List.find (fun r => matches r request) before = None)
    by by apply find_None_elem.
  rewrite !Hrules. unfold PermissionPolicy.evaluate, PermissionPolicy.evaluate_explained. simpl.
  rewrite find_app, Hf. simpl. split; [|done]. by destruct (matches rule request).
Qed.

Definition example_rules : list PermissionRule :=
  [mkRule (Some "other") "bash" Allow; mkRule None "bash" Ask].

Lemma first_matching_rule_wins_witness :
  let policy rules := foldl (fun p r => PermissionPolicy.add_rule r p) (PermissionPolicy.new Deny) rules in
  PermissionPolicy.evaluate (policy (example_rules ++ [mkRule None "bash" Allow]))
    (mkToolRequest "me" "bash" JNull) = Ask.
Proof.
  exact (proj1 (first_matching_rule_wins Deny [mkRule (Some "other") "bash" Allow]
    (mkRule None "bash" Ask) [mkRule None "bash" Allow] (mkToolRequest "me" "bash" JNull)
    ltac:(intros r Hr; apply list_elem_of_singleton in Hr; subst r; reflexivity))).
Defined.

(** ** Durable approvals *)

Lemma rule_leb_total a b : rule_leb a b || rule_leb b a.
Proof.
  unfold rule_leb.
  destruct (Z.ltb_spec (scope_rank (rr_scope b)) (scope_rank (rr_scope a))); simpl; [done|].
  destruct (Z.ltb_spec (scope_rank (rr_scope a)) (scope_rank (rr_scope b))); simpl;
    [by rewrite orb_true_r|].
  assert (scope_rank (rr_scope a) = scope_rank (rr_scope b)) as -> by lia.
  rewrite Z.eqb_refl. simpl. apply string_leb_total'.
Qed.

Lemma rule_leb_spec a b :
  rule_leb a b <-> scope_rank (rr_scope b) < scope_rank (rr_scope a) \/
    scope_rank (rr_scope a) = scope_rank (rr_scope b) /\ String.leb (rr_created_at b) (rr_created_at a).
Proof.
  unfold rule_leb. rewrite Is_true_true, orb_true_iff, andb_true_iff, Z.ltb_lt, Z.eqb_eq.
  by rewrite Is_true_true.
Qed.

Lemma rule_leb_trans a b c : rule_leb a b -> rule_leb b c -> rule_leb a c.
Proof.
  rewrite !rule_leb_spec. intros [H|[H Hs]] [H'|[H' Hs']]; [left; lia..|].
  right. split; [lia|]. by eapply string_leb_trans.
Qed.

Lemma elem_of_filter_b {A} (f : A -> bool) (l : list A) x :
  x ∈ List.filter f l <-> x ∈ l /\ f x = true.
Proof. by rewrite !list_elem_of_In, List.filter_In. Qed.

(** The approval that applies: a rule is found exactly when some durable
    approval covers this agent, capability and session (or its project, or any),
    and the one found outranks every other: session before project before
    configuration, and the newest within a scope. *)
Theorem matching_rule_is_best rows session_id project_id agent_id tool_name :
  match matching_permission_rule rows session_id project_id agent_id tool_name with
  | Some r =>
      r ∈ rows /\ rule_applies session_id project_id agent_id tool_name r = true /\
      (forall r', r' ∈ rows -> rule_applies session_id project_id agent_id tool_name r' = true ->
         scope_rank (rr_scope r') < scope_rank (rr_scope r) \/
         scope_rank (rr_scope r') = scope_rank (rr_scope r) /\
         String.leb (rr_created_at r') (rr_created_at r))
  | None =>
      forall r', r' ∈ rows -> rule_applies session_id project_id agent_id tool_name r' = false
  end.
Proof.
  unfold matching_permission_rule. set (f := rule_applies _ _ _ _).
  pose proof (elem_of_sort_by rule_leb) as Hin.
  pose proof (sort_by_sorted rule_leb (List.filter f rows) rule_leb_total rule_leb_trans) as Hs.
  destruct (sort_by rule_leb (List.filter f rows)) as [|r l] eqn:E; simpl.
  - intros r' Hr'. destruct (f r') eqn:Hf; [|done].
    assert (r' ∈ sort_by rule_leb (List.filter f rows)) as H
      by by apply Hin, elem_of_filter_b.
    rewrite E in H. by apply elem_of_nil in H.
  - assert (r ∈ sort_by rule_leb (List.filter f rows)) as H by (rewrite E; by left).
    apply Hin, elem_of_filter_b in H as [Hr Hf]. split_and!; [done..|].
    intros r' Hr' Hf'.
    assert (r' ∈ sort_by rule_leb (List.filter f rows)) as H by by apply Hin, elem_of_filter_b.
    rewrite E in H. apply StronglySorted_inv in Hs as [_ Hs].
    apply elem_of_cons in H as [->|H].
    + right. split; [done|]. apply string_leb_spec. by left.
    + rewrite Forall_forall in Hs. apply Hs, rule_leb_spec in H as [?|[? ?]]; [by left|by right].
Qed.

(** ** The decision on a tool call *)

Definition setting_rank (s : PermissionSetting) : Z :=
  match s with SDeny => 0 | SAsk => 1 | SAllow => 2 end.
Definition decision_rank (d : PermissionDecision) : Z :=
  match d with Deny => 0 | Ask => 1 | Allow => 2 end.

Section decisions.
  Context (rows : list PermissionRuleRecord) (session_id : string) (project_id : option string)
    (agent_id : string).

Definition decision (configured ceiling : option AgentPermissions) (tool_name : string) :
    PermissionDecision :=
  (decide_call rows session_id project_id agent_id configured ceiling tool_name).1.1.

Lemma most_restrictive_min a b :
  setting_rank (most_restrictive_permission a b) = Z.min (setting_rank a) (setting_rank b).
Proof. by destruct a, b. Qed.

(** C34. Configured denials are absolute and a delegated agent never exceeds a
    setting of its parent: whatever approvals are stored, a tool the agent's
    configuration denies is denied, and the decision is never above the parent's
    setting for that tool. *)
Theorem decision_respects_settings configured ceiling tool_name :
  (forall c, configured = Some c -> permission_setting c tool_name = Some SDeny ->
     decision configured ceiling tool_name = Deny) /\
  (forall c s, ceiling = Some c -> permission_setting c tool_name = Some s ->
     decision_rank (decision configured ceiling tool_name) <= setting_rank s).
Proof.
  unfold decision, decide_call. split.
  - intros c -> Hc. rewrite bool_decide_eq_true_2; [done|]. unfold configured_decision. simpl.
    rewrite Hc. by destruct (parent_decision ceiling tool_name) as [[]|].
  - intros c s -> Hc.
    assert (Hp : parent_decision (Some c) tool_name = Some s) by done.
    unfold call_rule, parent_allows_interactive, configured_decision. rewrite Hp.
    set (own := default SDeny _).
    pose proof (most_restrictive_min own s) as Hm.
    destruct (most_restrictive_permission own s) eqn:E; simpl in Hm |- *;
      destruct s; simpl in Hm |- *; destruct own; simpl in *; try lia;
      repeat case_match; simpl; lia.
Qed.

(** Nothing is allowed by accident: a call is allowed only when the
    effective configuration allows it or a stored approval for this agent and
    capability applies to this session, and a denial of the configuration beats
    both; with neither setting nor approval the call is denied. *)
Theorem allow_has_a_reason configured ceiling tool_name :
  decision configured ceiling tool_name = Allow <->
  configured_decision configured ceiling tool_name <> Some SDeny /\
  (configured_decision configured ceiling tool_name = Some SAllow \/
   parent_allows_interactive ceiling tool_name = true /\
   exists r, r ∈ rows /\
     rule_applies session_id project_id agent_id
       (default tool_name (NativeTool.permission_name <$> NativeTool.parse tool_name)) r = true).
Proof.
  unfold decision, decide_call. case_bool_decide as Hd; simpl; [split; [done|by intros [? _]]|].
  unfold call_rule. set (cap := default tool_name _).
  assert (Hm : is_Some (matching_permission_rule rows session_id project_id agent_id cap) <->
    exists r, r ∈ rows /\ rule_applies session_id project_id agent_id cap r = true).
  { unfold matching_permission_rule. set (f := rule_applies _ _ _ _).
    destruct (sort_by rule_leb (List.filter f rows)) as [|r l] eqn:E; simpl.
    - split; [by intros []|]. intros (r & Hr & Hf). exfalso.
      apply (elem_of_nil r). rewrite <- E. apply elem_of_sort_by, elem_of_filter_b. by split.
    - split; [|by eexists]. intros _. exists r. apply elem_of_filter_b, (elem_of_sort_by rule_leb).
      rewrite E. by left. }
  destruct (parent_allows_interactive ceiling tool_name).
  - destruct (matching_permission_rule _ _ _ _ _) as [r|].
    + simpl. split; [|done]. intros _. split; [done|]. right. split; [done|]. apply Hm. by eexists.
    + assert (Hn : ~ exists r, r ∈ rows /\ rule_applies session_id project_id agent_id cap r = true)
        by (intros H%Hm; by destruct H).
      destruct (configured_decision configured ceiling tool_name) as [[]|]; simpl; naive_solver.
  - destruct (configured_decision configured ceiling tool_name) as [[]|]; simpl; naive_solver.
Qed.

(** A gap of the ceiling: a parent that has no setting for a tool, and is
    therefore denied it by default, does not restrict its child: the child is
    decided exactly as without a ceiling. *)
Theorem unset_ceiling_does_not_restrict configured c tool_name :
  permission_setting c tool_name = None ->
  decision configured (Some c) tool_name = decision configured None tool_name.
Proof.
  intros Hc. unfold decision, decide_call, call_rule, parent_allows_interactive,
    configured_decision, parent_decision. simpl. by rewrite Hc.
Qed.

End decisions.

Definition no_permissions : AgentPermissions := mkAgentPermissions None None None None ∅.
Definition bash_allowed : AgentPermissions := mkAgentPermissions None None (Some SAllow) None ∅.

Lemma unset_ceiling_does_not_restrict_witness :
  decision [] "s" None "parent" (Some no_permissions) None "bash" = Deny /\
  decision [] "s" None "child" (Some bash_allowed) (Some no_permissions) "bash" = Allow.
Proof.
  split; [reflexivity|].
  rewrite (unset_ceiling_does_not_restrict [] "s" None "child" (Some bash_allowed) no_permissions
    "bash" eq_refl).
  reflexivity.
Defined.

Definition bash_denied : AgentPermissions := mkAgentPermissions None None (Some SDeny) None ∅.
Definition any_bash_rule : PermissionRuleRecord :=
  mkRuleRecord "rule" ScopeConfiguration None None "child" "bash" "".

Lemma decision_respects_settings_witness :
  decision [any_bash_rule] "s" None "child" (Some bash_denied) None "bash" = Deny /\
  decision_rank (decision [any_bash_rule] "s" None "child" (Some bash_allowed) (Some bash_denied) "bash") <= 0.
Proof.
  split.
  - exact (proj1 (decision_respects_settings [any_bash_rule] "s" None "child" (Some bash_denied) None
      "bash") bash_denied eq_refl eq_refl).
  - exact (proj2 (decision_respects_settings [any_bash_rule] "s" None "child" (Some bash_allowed)
      (Some bash_denied) "bash") bash_denied SDeny eq_refl eq_refl).
Defined.
