(* ===== verification/Config.v ===== *)
(** Configuration: the part of [piqo-server/src/config.rs] the rest of the
    server computes with.  Agents with their two sources (Markdown and TOML),
    body layers, tool limits, provider resolution and endpoints, identifier
    checks, front matter.

    [HashMap]s are [gmap]s.  [PiqoConfig] holds the tables these functions
    read; reading and editing the TOML file is not modelled.  Environment
    variables are a function, URL and header syntax checks (of [reqwest]) are
    parameters. *)

From Stdlib Require Export SpecFloat.
From S2P Require Export Mcp Permissions.

Inductive ProviderProtocol := ChatCompletions | Responses.
#[export] Instance ProviderProtocol_eq_dec : EqDecision ProviderProtocol.
Proof. solve_decision. Defined.

Inductive ConfigError :=
  | ReadFailed (path : string)
  | WriteFailed (path : string)
  | ParseFailed
  | AgentRead (path : string)
  | InvalidAgentDefinition (path reason : string)
  | AgentNotFound (name : string)
  | EditFailed
  | ProviderNotFound (name : string)
  | ProviderAlreadyExists (name : string)
  | ManualModelOverride (name : string)
  | ConflictingCredentials (name : string)
  | MissingCredential (provider variable : string)
  | InvalidProtocol (provider : string)
  | InvalidProvider (reason : string)
  | InvalidNativeTools (reason : string)
  | InvalidMcp (reason : string)
  | InvalidOrchestration (reason : string)
  | InvalidResourceLimits (reason : string)
  | InvalidStorage (reason : string)
  | ReadOnly
  | LockPoisoned
  | TaskFailed (reason : string)
  | RevisionExhausted.

(** [str::parse::<ProviderProtocol>]. *)
Definition parse_protocol (s : string) : option ProviderProtocol :=
  if String.eqb s "chat_completions" || String.eqb s "chat-completion" || String.eqb s "chat"
  then Some ChatCompletions
  else if String.eqb s "responses" || String.eqb s "response" then Some Responses
  else None.

(** ** Tables *)

Record BodyLayer := mkBodyLayer { bl_body : json; bl_max_model_turns : Z }.
Definition body_layer_default : BodyLayer := mkBodyLayer JNull 32.

Record AgentConfigOverride := mkOverride {
  ao_description : option string;
  ao_provider : option string;
  ao_model : option string;
  ao_instructions : option string;
  ao_permissions : option AgentPermissions;
  ao_body : json }.

Record AgentDefinition := mkDefinition {
  ad_id : string;
  ad_description : option string;
  ad_provider : option string;
  ad_model : option string;
  ad_instructions : option string;
  ad_permissions : AgentPermissions;
  ad_markdown_body : json;
  ad_toml_body : json }.

Record ModelContextConfig := mkModelContext {
  mc_context_window_tokens : option Z; mc_output_reserve_tokens : option Z }.

Record ProviderConfig := mkProviderConfig {
  pc_base_url : string;
  pc_protocol : string;
  pc_api_key : option string;
  pc_api_key_env : option string;
  pc_headers : gmap string string;
  pc_connect_timeout_seconds : Z;
  pc_models : option (list string);
  pc_context_window_pointer : option string;
  pc_output_limit_pointer : option string;
  pc_context_models : gmap string ModelContextConfig }.

Record NativeToolsConfig := mkNativeTools {
  nt_max_read_bytes : option Z;
  nt_max_read_lines : option Z;
  nt_max_write_bytes : option Z;
  nt_max_result_bytes : option Z;
  nt_max_result_lines : option Z;
  nt_bash_timeout_seconds : option Z;
  nt_termination_grace_millis : option Z;
  nt_shell : option string }.

(** [ResourceLimits]: limits for untrusted input and locally managed work. *)
Record ResourceLimits := mkResourceLimits {
  max_active_runs : Z;
  max_pending_runs : Z;
  max_pending_runs_per_session : Z;
  max_subprocesses : Z;
  max_http_body_bytes : Z;
  max_provider_request_bytes : Z;
  max_provider_response_bytes : Z;
  max_event_payload_bytes : Z;
  max_sse_connections : Z;
  max_sse_connections_per_session : Z;
  sse_channel_capacity : Z;
  max_dump_bytes : Z;
  max_dump_files : Z }.

Definition MIB : Z := 1024 * 1024.
Definition resource_limits_default : ResourceLimits :=
  mkResourceLimits 8 256 32 16 (4 * MIB) (4 * MIB) (32 * MIB) MIB 256 16 1024 (512 * MIB) 512.

Record StorageConfig := mkStorage { backup_directory : option string }.

(** [OrchestrationConfig]: limits of delegated agents. *)
Record OrchestrationConfig := mkOrchestration {
  oc_max_depth : Z;
  oc_max_concurrent_per_tree : Z;
  oc_max_concurrent_global : Z;
  oc_max_child_model_turns : Z;
  oc_max_child_duration_seconds : Z;
  oc_max_tree_duration_seconds : Z;
  oc_max_tree_tokens : Z;
  oc_max_context_bytes : Z;
  oc_max_context_message_ids : Z;
  oc_max_result_bytes : Z }.
Definition orchestration_default : OrchestrationConfig :=
  mkOrchestration 1 2 4 32 600 1800 262144 65536 32 65536.

(** A compaction strategy in the configuration is that of the artifact. *)
Record CompactionConfig := mkCompaction {
  cc_strategy : CompactionStrategy;
  cc_summary_provider : option string;
  cc_summary_model : option string;
  cc_summary_body : json;
  cc_summary_max_output_tokens : Z;
  cc_max_retries : Z }.
Definition compaction_default : CompactionConfig := mkCompaction Llm None None JNull 2048 1.

(** [f64]: binary64 numbers and their operations are those of IEEE 754, as the
    Standard Library specifies them. *)
Notation f64 := spec_float.
Definition f64_of_u64 (n : Z) : f64 := binary_normalize 53 1024 n 0 false.
Definition f64_mul (x y : f64) : f64 := SFmul 53 1024 x y.

(** [x.floor() as u64] and [x.ceil() as u64]: NaN is 0, the rest saturates. *)
Definition u64_clamp (n : Z) : Z := Z.max 0 (Z.min u64_max n).
Definition f64_floor_u64 (x : f64) : Z :=
  match x with
  | S754_finite s m e =>
      u64_clamp (let n := if s then Z.neg m else Z.pos m in if 0 <=? e then n * 2 ^ e else n / 2 ^ (- e))
  | S754_infinity false => u64_max
  | _ => 0
  end.
Definition f64_ceil_u64 (x : f64) : Z :=
  match x with
  | S754_finite s m e =>
      u64_clamp (let n := if s then Z.neg m else Z.pos m in if 0 <=? e then n * 2 ^ e else - (- n / 2 ^ (- e)))
  | S754_infinity false => u64_max
  | _ => 0
  end.

(** 0.8 and 0.6. *)
Definition f64_0_8 : f64 := S754_finite false 7205759403792794 (-53).
Definition f64_0_6 : f64 := S754_finite false 5404319552844595 (-53).
Definition f64_zero : f64 := S754_zero false.
Definition f64_one : f64 := f64_of_u64 1.

Record ContextConfig := mkContextConfig {
  fallback_context_window_tokens : Z;
  fallback_output_reserve_tokens : Z;
  trigger_ratio : f64;
  target_ratio : f64;
  compaction : CompactionConfig }.
Definition context_config_default : ContextConfig :=
  mkContextConfig 131072 32768 f64_0_8 f64_0_6 compaction_default.

Record PiqoConfig := mkConfig {
  defaults : BodyLayer;
  providers : gmap string ProviderConfig;
  models : gmap string BodyLayer;
  agents_overrides : gmap string AgentConfigOverride;
  variants : gmap string BodyLayer;
  native_tools : NativeToolsConfig;
  mcp_servers : gmap string McpServerConfig;
  context : ContextConfig;
  orchestration : OrchestrationConfig;
  resource_limits : ResourceLimits;
  storage : StorageConfig;
  markdown_agents : gmap string AgentDefinition }.

Definition native_tools_default : NativeToolsConfig :=
  mkNativeTools None None None None None None None None.
(** [PiqoConfig::default()]. *)
Definition config_default : PiqoConfig :=
  mkConfig body_layer_default ∅ ∅ ∅ ∅ native_tools_default ∅ context_config_default
    orchestration_default resource_limits_default (mkStorage None) ∅.

(** ** Agents and body layers *)

Definition permissions_default : AgentPermissions := mkAgentPermissions None None None None ∅.
Definition agent_default (id : string) : AgentDefinition :=
  mkDefinition id None None None None permissions_default JNull JNull.

Section config.
  Context (config : PiqoConfig).

Definition agent (name : string) : result ConfigError AgentDefinition :=
  let base := default (agent_default name) (markdown_agents config !! name) in
  match agents_overrides config !! name with
  | Some o =>
      Ok (mkDefinition (ad_id base)
            (or_else (ao_description o) (ad_description base))
            (or_else (ao_provider o) (ad_provider base))
            (or_else (ao_model o) (ad_model base))
            (or_else (ao_instructions o) (ad_instructions base))
            (merge_permissions (ad_permissions base) (ao_permissions o))
            (ad_markdown_body base) (ao_body o))
  | None =>
      if negb (bool_decide (is_Some (markdown_agents config !! name)))
      then Err (AgentNotFound name) else Ok base
  end.

(** Names sorted and without duplicates; every one of them resolves. *)
Definition agents : list AgentDefinition :=
  let markdown : gmap string () := (fun _ => ()) <$> markdown_agents config in
  let overrides : gmap string () := (fun _ => ()) <$> agents_overrides config in
  omap (fun name => ok (agent name)) (btree_keys (markdown ∪ overrides)).

Definition normalize_body (value : json) : json := if is_object value then value else JObject [].

Definition body_layers (model : string) (agent_name variant : option string) (request : json) :
    list json :=
  [normalize_body (bl_body (defaults config))]
  ++ match models config !! model with
     | Some layer => [normalize_body (bl_body layer)]
     | None => []
     end
  ++ match agent_name with
     | Some name =>
         match agent name with
         | Ok a =>
             (if bool_decide (is_Some (markdown_agents config !! name))
              then [normalize_body (ad_markdown_body a)] else [])
             ++ (if bool_decide (is_Some (agents_overrides config !! name))
                 then [normalize_body (ad_toml_body a)] else [])
         | Err _ => []
         end
     | None => []
     end
  ++ match variant with
     | Some name =>
         match variants config !! name with
         | Some layer => [normalize_body (bl_body layer)]
         | None => []
         end
     | None => []
     end
  ++ [normalize_body request].

End config.

(** ** Tool limits *)

Definition limits (c : NativeToolsConfig) : NativeToolLimits :=
  mkLimits (default (max_read_bytes default_limits) (nt_max_read_bytes c))
    (default (max_read_lines default_limits) (nt_max_read_lines c))
    (default (max_write_bytes default_limits) (nt_max_write_bytes c))
    (default (max_tool_result_bytes default_limits) (nt_max_result_bytes c))
    (default (max_result_lines default_limits) (nt_max_result_lines c)).

Definition validate_native_tools (c : NativeToolsConfig) : result ConfigError () :=
  match List.find (fun p => bool_decide (p.2 = Some 0))
          [("max_read_bytes", nt_max_read_bytes c); ("max_read_lines", nt_max_read_lines c);
           ("max_write_bytes", nt_max_write_bytes c); ("max_result_bytes", nt_max_result_bytes c);
           ("max_result_lines", nt_max_result_lines c)] with
  | Some (name, _) => Err (InvalidNativeTools (name ++s " must be greater than zero"))
  | None =>
      if bool_decide (nt_bash_timeout_seconds c = Some 0)
         || bool_decide (nt_termination_grace_millis c = Some 0)
      then Err (InvalidNativeTools "shell durations must be greater than zero")
      else if match nt_shell c with Some path => negb (path_is_absolute path) | None => false end
      then Err (InvalidNativeTools "shell must be an absolute path")
      else Ok ()
  end.

(** ** Identifiers and front matter *)

Definition valid_agent_id (id : string) : bool :=
  negb (is_empty id)
  && str_forallb (fun c => is_ascii_alphanumeric c || (c =? "_")%char || (c =? "-")%char) id.

Definition validate_provider_name (name : string) : result ConfigError () :=
  if negb (is_empty name) && (blen name <=? 128)
     && str_forallb (fun c => is_ascii_alphanumeric c || (c =? ".")%char || (c =? "_")%char
                              || (c =? "-")%char) name
  then Ok () else Err (InvalidProvider "provider name must be 1-128 URL-safe characters").

Definition normalize_models (names : list string) : result ConfigError (list string) :=
  try_fold (fun normalized model =>
    let model := trim model in
    if is_empty model then Err (InvalidProvider "model names must not be empty")
    else if bool_decide (model ∈ normalized) then Ok normalized
    else Ok (normalized ++ [model])) [] names.

Inductive front_matter_error := NoOpening | NoClosing.

(** [trim_end_matches(['\r', '\n'])]. *)
Fixpoint trim_start_crlf (s : string) : string :=
  match s with
  | String c s' => if (c =? cr)%char || (c =? nl)%char then trim_start_crlf s' else s
  | "" => ""
  end.
Definition trim_end_crlf (s : string) : string := str_rev (trim_start_crlf (str_rev s)).

(** The loop over the lines after the opening delimiter; [before] are the lines
    passed, in reverse order. *)
Fixpoint find_closing (before rest : list string) : result front_matter_error (string * string) :=
  match rest with
  | [] => Err NoClosing
  | line :: rest =>
      if String.eqb (trim_end_crlf line) "---"
      then Ok (str_concat (rev before), str_concat rest)
      else find_closing (line :: before) rest
  end.

Definition split_front_matter (text : string) : result front_matter_error (string * string) :=
  '(opening, remaining) ← ok_or NoOpening (split_once nl text);
  if negb (String.eqb (trim_end_char cr opening) "---") then Err NoOpening
  else find_closing [] (split_inclusive remaining).

(** ** Providers *)

Definition endpoint (base_url : string) (protocol : ProviderProtocol) : string :=
  let base := trim_end_char slash base_url in
  let path := match protocol with
              | ChatCompletions => "/chat/completions"
              | Responses => "/responses"
              end in
  let suffix := "/v1" ++s path in
  if ends_with suffix base then base
  else if ends_with "/v1" base then base ++s path
  else base ++s suffix.

Definition models_endpoint (base_url : string) : string :=
  let base := trim_end_char slash base_url in
  match strip_suffix "/v1/chat/completions" base, strip_suffix "/v1/responses" base with
  | Some root, _ => root ++s "/v1/models"
  | None, Some root => root ++s "/v1/models"
  | None, None =>
      if ends_with "/v1" base then base ++s "/models" else base ++s "/v1/models"
  end.

Inductive ProviderCredentialInput :=
  | NoCredential
  | ApiKey (value : string)
  | Environment (variable : string).

Definition credential_values (credential : option ProviderCredentialInput) :
    result ConfigError (option string * option string) :=
  match default NoCredential credential with
  | NoCredential => Ok (None, None)
  | ApiKey value =>
      if is_empty value then Err (InvalidProvider "credential value must not be empty")
      else Ok (Some value, None)
  | Environment variable =>
      if is_empty (trim variable) then Err (InvalidProvider "credential value must not be empty")
      else Ok (None, Some (trim variable))
  end.

Record ResolvedProvider := mkResolved {
  rv_name : string;
  rv_endpoint : string;
  rv_models_endpoint : string;
  rv_protocol : ProviderProtocol;
  rv_headers : gmap string string;
  rv_connect_timeout_seconds : Z }.

Section providers.
  Context (env_var : string -> option string)
    (url_scheme : string -> option string) (header_ok : string -> string -> bool).

Definition validate_provider (name : string) (p : ProviderConfig) : result ConfigError () :=
  if bool_decide (is_Some (pc_api_key p)) && bool_decide (is_Some (pc_api_key_env p))
  then Err (ConflictingCredentials name)
  else
    scheme ← ok_or (InvalidProvider "url") (url_scheme (pc_base_url p));
    if negb (String.eqb scheme "http" || String.eqb scheme "https")
    then Err (InvalidProvider "base_url must use http or https")
    else if pc_connect_timeout_seconds p =? 0
    then Err (InvalidProvider "connect_timeout_seconds must be greater than zero")
    else if i64_max <? pc_connect_timeout_seconds p
    then Err (InvalidProvider "connect_timeout_seconds is too large")
    else
      _ ← ok_or (InvalidProtocol name) (parse_protocol (pc_protocol p));
      if negb (forallb (fun h => header_ok h.1 h.2) (map_to_list (pc_headers p)))
      then Err (InvalidProvider "header")
      else
        _ ← match pc_models p with Some l => normalize_models l | None => Ok [] end;
        if existsb (fun o => match o with Some s => negb (starts_with "/" s) | None => false end)
             [pc_context_window_pointer p; pc_output_limit_pointer p]
        then Err (InvalidProvider "context metadata pointer must start with /")
        else Ok ().

Definition resolve_provider_config (name : string) (p : ProviderConfig) :
    result ConfigError ResolvedProvider :=
  if bool_decide (is_Some (pc_api_key p)) && bool_decide (is_Some (pc_api_key_env p))
  then Err (ConflictingCredentials name)
  else
    protocol ← ok_or (InvalidProtocol name) (parse_protocol (pc_protocol p));
    headers ←
      match or_else (pc_api_key p) (v ← pc_api_key_env p; env_var v) with
      | Some key =>
          Ok (match pc_headers p !! "authorization" with
              | Some _ => pc_headers p
              | None => <["authorization" := "Bearer " ++s key]> (pc_headers p)
              end)
      | None =>
          match pc_api_key_env p with
          | Some variable => Err (MissingCredential name variable)
          | None => Ok (pc_headers p)
          end
      end;
    Ok (mkResolved name (endpoint (pc_base_url p) protocol) (models_endpoint (pc_base_url p))
          protocol headers (Z.max (pc_connect_timeout_seconds p) 1)).

Definition resolve_provider (config : PiqoConfig) (name : string) :
    result ConfigError ResolvedProvider :=
  p ← ok_or (ProviderNotFound name) (providers config !! name); resolve_provider_config name p.

(** [Value::pointer] (of [serde_json]) is [pointer]. *)
Definition context_budget (pointer : string -> json -> option json) (config : PiqoConfig)
    (provider_name model : string) (metadata : option json) : result ConfigError (Z * Z) :=
  provider ← ok_or (ProviderNotFound provider_name) (providers config !! provider_name);
  let configured := pc_context_models provider !! model in
  let from_metadata (p : option string) : option Z :=
    s ← p; m ← metadata; v ← pointer s m; n ← as_u64 v; if 0 <? n then Some n else None in
  let context_window_tokens :=
    default (fallback_context_window_tokens (context config))
      (or_else (from_metadata (pc_context_window_pointer provider))
         (configured ≫= mc_context_window_tokens)) in
  let output_reserve_tokens :=
    default (fallback_output_reserve_tokens (context config))
      (or_else (from_metadata (pc_output_limit_pointer provider))
         (configured ≫= mc_output_reserve_tokens)) in
  if context_window_tokens <=? output_reserve_tokens
  then Err (InvalidProvider "context output reserve exceeds context window")
  else Ok (context_window_tokens, output_reserve_tokens).

(** ** [PiqoConfig::validate] *)

Definition validate_resource_limits (l : ResourceLimits) : result ConfigError () :=
  if existsb (fun value => value =? 0)
       [max_active_runs l; max_pending_runs l; max_pending_runs_per_session l; max_subprocesses l;
        max_http_body_bytes l; max_provider_request_bytes l; max_provider_response_bytes l;
        max_event_payload_bytes l; max_sse_connections l; max_sse_connections_per_session l;
        sse_channel_capacity l; max_dump_bytes l; max_dump_files l]
  then Err (InvalidResourceLimits "all resource limits must be greater than zero")
  else if max_pending_runs l <? max_pending_runs_per_session l
  then Err (InvalidResourceLimits "max_pending_runs_per_session cannot exceed max_pending_runs")
  else if max_sse_connections l <? max_sse_connections_per_session l
  then Err (InvalidResourceLimits "max_sse_connections_per_session cannot exceed max_sse_connections")
  else Ok ().

Definition validate_storage (c : StorageConfig) : result ConfigError () :=
  match backup_directory c with
  | Some path =>
      if negb (path_is_absolute path) then Err (InvalidStorage "backup_directory must be an absolute path")
      else Ok ()
  | None => Ok ()
  end.

Definition validate_orchestration (o : OrchestrationConfig) : result ConfigError () :=
  if (oc_max_depth o =? 0) || (oc_max_concurrent_per_tree o =? 0) || (oc_max_concurrent_global o =? 0)
     || (oc_max_child_model_turns o =? 0) || (oc_max_child_duration_seconds o =? 0)
     || (oc_max_tree_duration_seconds o =? 0) || (oc_max_tree_tokens o =? 0)
     || (oc_max_context_bytes o =? 0) || (oc_max_context_message_ids o =? 0) || (oc_max_result_bytes o =? 0)
  then Err (InvalidOrchestration "all limits must be greater than zero") else Ok ().

Definition validate_context (c : ContextConfig) : result ConfigError () :=
  if (fallback_context_window_tokens c =? 0) || (fallback_output_reserve_tokens c =? 0)
     || (fallback_context_window_tokens c <=? fallback_output_reserve_tokens c)
     || negb (SFltb f64_zero (target_ratio c) && SFltb (target_ratio c) (trigger_ratio c)
              && SFltb (trigger_ratio c) f64_one)
     || (cc_summary_max_output_tokens (compaction c) =? 0)
  then Err (InvalidProvider "invalid context configuration") else Ok ().

Definition validate_server (entry : string * McpServerConfig) : result ConfigError () :=
  if negb (valid_agent_id entry.1)
  then Err (InvalidMcp ("server id " ++s entry.1 ++s " must use letters, digits, underscores, or hyphens"))
  else map_err (fun _ => InvalidMcp (entry.1 ++s ": invalid MCP configuration"))
         (McpServerConfig.validate entry.2).

Definition validate_entry (entry : string * ProviderConfig) : result ConfigError () :=
  _ ← validate_provider_name entry.1; validate_provider entry.1 entry.2.

(** The providers of a [HashMap] are visited in some order: that of their names
    here, which decides only which error is reported. *)
Definition validate_config (config : PiqoConfig) : result ConfigError () :=
  _ ← collect validate_entry (btree_entries (providers config));
  _ ← validate_native_tools (native_tools config);
  _ ← validate_resource_limits (resource_limits config);
  _ ← validate_storage (storage config);
  _ ← validate_orchestration (orchestration config);
  _ ← validate_context (context config);
  _ ← collect validate_server (btree_entries (mcp_servers config));
  Ok ().

End providers.

