(* ===== verification/Body.v ===== *)
(** Provider request bodies: [merge_request_bodies] of
    [piqo-provider/src/body.rs] and [build_body] with its tool definitions, of
    [piqo-server/src/supervisor.rs].

    [to_string] is [serde_json]'s printer.  Indexing the transcript out of
    bounds is a panic in the source; here it is the error [Panic]. *)

From S2P Require Export Config Json.

(** ** Merging layers *)

Inductive BodyMergeError := LayerIsNotAnObject (index : Z).

Definition merge_object (merged object : list (string * json)) : list (string * json) :=
  foldl (fun m kv => map_insert kv.1 kv.2 m) merged object.

Fixpoint merge_from (index : Z) (merged : list (string * json)) (layers : list json) :
    result BodyMergeError (list (string * json)) :=
  match layers with
  | [] => Ok merged
  | layer :: layers =>
      object ← ok_or (LayerIsNotAnObject index) (as_object layer);
      merge_from (index + 1) (merge_object merged object) layers
  end.

Definition merge_request_bodies (layers : list json) : result BodyMergeError json :=
  JObject <$> merge_from 0 [] layers.

(** ** Tool definitions *)

Definition string_schema : json := jobject [("type", JString "string")].
Definition schema (required : list string) (properties : list (string * json)) : json :=
  jobject [("type", JString "object"); ("additionalProperties", JBool false);
           ("required", JArray (JString <$> required)); ("properties", jobject properties)].
Definition positive_schema : json :=
  jobject [("type", JString "integer"); ("minimum", JNumber (PosInt 1))].

Definition native_description (tool : NativeTool) : string :=
  match tool with
  | Read => "Read a UTF-8 regular file inside the project workspace."
  | Write => "Create or atomically overwrite a UTF-8 file inside the project workspace."
  | Edit => "Replace exact text in an existing UTF-8 file inside the project workspace."
  | Bash => "Execute one command with a project workspace working directory."
  end.

Definition native_parameters (tool : NativeTool) : json :=
  match tool with
  | Read => schema ["filePath"]
      [("filePath", string_schema); ("offset", positive_schema); ("limit", positive_schema)]
  | Write => schema ["filePath"; "content"; "mode"]
      [("filePath", string_schema); ("content", string_schema);
       ("mode", jobject [("type", JString "string");
                         ("enum", JArray [JString "create"; JString "overwrite"])])]
  | Edit => schema ["filePath"; "oldString"; "newString"]
      [("filePath", string_schema); ("oldString", string_schema); ("newString", string_schema);
       ("replaceAll", jobject [("type", JString "boolean")])]
  | Bash => schema ["command"] [("command", string_schema); ("cwd", string_schema)]
  end.

Definition tool_definition (protocol : ProviderProtocol) (name : string) (description parameters : json) :
    json :=
  let fields := [("name", JString name); ("description", description); ("parameters", parameters)] in
  match protocol with
  | ChatCompletions => jobject [("type", JString "function"); ("function", jobject fields)]
  | Responses => jobject (("type", JString "function") :: fields)
  end.

Definition native_tool_definitions (protocol : ProviderProtocol) (tools : list NativeTool) : list json :=
  (fun tool => tool_definition protocol (NativeTool.name tool)
                 (JString (native_description tool)) (native_parameters tool)) <$> tools.

Definition mcp_tool_definitions (protocol : ProviderProtocol) (tools : list McpToolDefinition) :
    list json :=
  (fun tool => tool_definition protocol (mt_name tool)
     match mt_description tool with Some d => JString d | None => JNull end
     (mt_input_schema tool)) <$> tools.

Definition delegate_tool_definition : McpToolDefinition :=
  mkMcpTool "delegate" "piqo" "delegate"
    (Some "Delegate a bounded task to a named Piqo agent using explicitly selected parent messages.")
    (schema ["agent"; "task"; "context_message_ids"]
       [("agent", string_schema); ("task", string_schema);
        ("context_message_ids", jobject [("type", JString "array"); ("items", string_schema)])]).

(** ** Requests *)

Record RunRequest := mkRequest {
  rq_provider : string;
  rq_model : string;
  rq_input : json;
  rq_agent : option string;
  rq_variant : option string;
  rq_body : json }.

Definition enabled (s : option PermissionSetting) : bool :=
  match s with Some SAllow | Some SAsk => true | _ => false end.

Definition configured_native_tools (config : PiqoConfig) (request : RunRequest) : list NativeTool :=
  match get "tools" (rq_body request) with
  | Some _ => []
  | None =>
      match rq_agent request with
      | None => []
      | Some name =>
          match agent config name with
          | Err _ => []
          | Ok a =>
              let p := ad_permissions a in
              omap (fun tp => if enabled tp.2 then Some tp.1 else None)
                [(Read, perm_read p); (Write, perm_write p); (Edit, perm_write p); (Bash, perm_bash p)]
          end
      end
  end.

Definition configured_mcp_tools (config : PiqoConfig) (request : RunRequest)
    (catalog : list McpToolDefinition) : list McpToolDefinition :=
  match rq_agent request with
  | None => []
  | Some name =>
      match agent config name with
      | Err _ => []
      | Ok a =>
          let p := ad_permissions a in
          List.filter (fun tool => enabled (or_else (perm_tools p !! mt_name tool) (perm_mcp p))) catalog
      end
  end.

Definition configured_delegate (config : PiqoConfig) (request : RunRequest) : bool :=
  match rq_agent request with
  | None => false
  | Some name =>
      match agent config name with
      | Err _ => false
      | Ok a => enabled (perm_tools (ad_permissions a) !! "delegate")
      end
  end.

Definition role_name (role : MessageRole) : string :=
  match role with
  | System => "system" | User => "user" | Assistant => "assistant" | Tool => "tool"
  end.

Definition body_stream_mode (body : json) : bool :=
  default true (v ← get "stream" body; as_bool v).

(** ** The transcript *)

Inductive BuildError := InvalidRequest (reason : string) | Panic.

Definition closed (m : MessageProjection) : bool := mp_completed m || mp_interrupted m.

Definition after_artifact (artifact : option ContextArtifact) (m : MessageProjection) : bool :=
  match artifact with
  | None => true
  | Some a => ca_source_end_event_id a <? mp_last_event_id m
  end.

Definition message_content (m : MessageProjection) : json :=
  match mp_blocks m with
  | [Text text] => JString text
  | [JsonBlock value] => value
  | blocks =>
      JArray ((fun b => match b with
                        | Text text => jobject [("type", JString "text"); ("text", JString text)]
                        | JsonBlock value => value
                        end) <$> blocks)
  end.

Definition message_entry (m : MessageProjection) : json :=
  jobject [("role", JString (role_name (mp_role m))); ("content", message_content m)].

Definition system_entry (content : string) : json :=
  jobject [("role", JString "system"); ("content", JString content)].

Definition all_calls (p : SessionProjection) : list ToolCallProjection :=
  concat ((fun r => btree_values (rp_tool_calls r)) <$> btree_values (sp_runs p)).

(** Calls whose assistant message is not covered by the artifact. *)
Definition visible_calls (p : SessionProjection) : list ToolCallProjection :=
  List.filter (fun c =>
      match cp_active_artifact (sp_context p) with
      | None => true
      | Some a =>
          match List.find (fun m => String.eqb (mp_message_id m) (tc_assistant_message_id c))
                  (sp_messages p) with
          | None => true
          | Some m => ca_source_end_event_id a <? mp_last_event_id m
          end
      end) (all_calls p).

Definition call_entry (c : ToolCallProjection) : json :=
  jobject [("id", JString (tc_call_id c)); ("type", JString "function");
           ("function", jobject [("name", JString (tc_tool_name c));
                                 ("arguments", JString (tc_raw_arguments c))])].

(** [transcript[i].as_object_mut().expect(..).insert("tool_calls", v)]. *)
Definition attach_calls (i : nat) (calls : list json) (transcript : list json) :
    result BuildError (list json) :=
  match transcript !! i with
  | Some (JObject o) => Ok (<[i := JObject (map_insert "tool_calls" (JArray calls) o)]> transcript)
  | _ => Err Panic
  end.

Fixpoint attach_all (calls : list ToolCallProjection) (i : nat) (messages : list MessageProjection)
    (transcript : list json) : result BuildError (list json) :=
  match messages with
  | [] => Ok transcript
  | m :: messages =>
      let own := call_entry <$>
        List.filter (fun c => String.eqb (tc_assistant_message_id c) (mp_message_id m)) calls in
      t ← (if negb (bool_decide (mp_role m = Assistant)) || bool_decide (own = []) then Ok transcript
           else attach_calls i own transcript);
      attach_all calls (S i) messages t
  end.

Section build_body.
  Context (to_string : json -> string).

Definition base_transcript (p : SessionProjection) : list json :=
  let artifact := cp_active_artifact (sp_context p) in
  match artifact with
  | Some a => [system_entry ("Earlier conversation summary (" ++s ca_artifact_id a ++s "): " ++s ca_summary a)]
  | None => []
  end
  ++ (message_entry <$> List.filter (fun m => after_artifact artifact m)
        (List.filter closed (sp_messages p))).

Definition agent_instructions (config : PiqoConfig) (request : RunRequest) :
    result BuildError (option string) :=
  match rq_agent request with
  | None => Ok None
  | Some name =>
      match agent config name with
      | Ok a => Ok (ad_instructions a)
      | Err _ => Err (InvalidRequest ("agent " ++s name ++s " is not configured"))
      end
  end.

Definition chat_messages (p : SessionProjection) (transcript : list json) : result BuildError (list json) :=
  let completed_messages := List.filter closed (sp_messages p) in
  let offset := (length transcript - length completed_messages)%nat in
  t ← attach_all (visible_calls p) offset completed_messages transcript;
  Ok (t ++ omap (fun c =>
        v ← tc_result c;
        Some (jobject [("role", JString "tool"); ("tool_call_id", JString (tc_call_id c));
                       ("content", JString (to_string v))])) (visible_calls p)).

Definition responses_input (p : SessionProjection) (transcript : list json) : list json :=
  transcript ++ concat ((fun c =>
    jobject [("type", JString "function_call"); ("call_id", JString (tc_call_id c));
             ("name", JString (tc_tool_name c)); ("arguments", JString (tc_raw_arguments c))] ::
    match tc_result c with
    | Some v => [jobject [("type", JString "function_call_output"); ("call_id", JString (tc_call_id c));
                          ("output", v)]]
    | None => []
    end) <$> visible_calls p).

Definition build_body (config : PiqoConfig) (protocol : ProviderProtocol) (request : RunRequest)
    (p : SessionProjection) (native_tools : list NativeTool) (mcp_tools : list McpToolDefinition) :
    result BuildError json :=
  object ← map_err (fun _ => InvalidRequest "provider body layer is not a JSON object")
    (merge_from 0 [] (body_layers config (rq_model request) (rq_agent request) (rq_variant request)
                        (rq_body request)));
  let object := map_or_insert "model" (JString (rq_model request)) object in
  let object := map_or_insert "stream" (JBool true) object in
  let object :=
    if negb (bool_decide (native_tools = [])) || negb (bool_decide (mcp_tools = []))
    then map_or_insert "tools" (JArray (native_tool_definitions protocol native_tools
                                          ++ mcp_tool_definitions protocol mcp_tools)) object
    else object in
  instructions ← agent_instructions config request;
  let transcript :=
    match instructions with Some s => [system_entry s] | None => [] end ++ base_transcript p in
  match protocol with
  | ChatCompletions =>
      messages ← chat_messages p transcript;
      Ok (JObject (map_or_insert "messages" (JArray messages) object))
  | Responses => Ok (JObject (map_or_insert "input" (JArray (responses_input p transcript)) object))
  end.

End build_body.
