(* ===== verification/BodyFacts.v ===== *)
(** Properties of provider request bodies (file Body): the layers merge by
    "the last layer that has the key wins", the server only fills gaps, and the
    transcript carries every closed message with its own tool calls, as long as
    no compaction is in force. *)

From S2P Require Export Body.
From S2P Require SessionSpec.
From S2P Require Import BTree Json.

Definition layer_wf (v : json) : Prop :=
  match v with JObject o => map_wf o | _ => True end.

(** What the layers say about a key: the last one that has it. *)
Definition layered (k : string) (layers : list json) : option json := last (omap (get k) layers).

(** ** Merging *)

Lemma map_get_notin k o : k ∉ o.*1 -> map_get k o = None.
Proof.
  induction o as [|[k' v] o IH]; simpl; [done|]. intros H.
  case_decide; [subst; destruct H; by left|]. apply IH. intros ?. apply H. by right.
Qed.

Lemma map_wf_cons k v o : map_wf ((k, v) :: o) -> map_wf o /\ map_get k o = None.
Proof.
  intros [Hs Hk]%StronglySorted_inv. split; [done|]. apply map_get_notin. intros Hin.
  rewrite Forall_forall in Hk. apply Hk in Hin. unfold string_lt in Hin. simpl in Hin.
  by rewrite string_compare_refl in Hin.
Qed.

Lemma map_get_merge k merged o :
  map_wf o -> map_get k (merge_object merged o) = or_else (map_get k o) (map_get k merged).
Proof.
  unfold merge_object. revert merged. induction o as [|[k' v] o IH]; intros merged Hwf; [done|].
  apply map_wf_cons in Hwf as [Hwf Hk']. cbn [foldl]. rewrite IH by done. simpl.
  case_decide as Hk; [subst; by rewrite Hk', map_get_insert|].
  by rewrite map_get_insert_ne by congruence.
Qed.

Lemma merge_object_wf merged o : map_wf merged -> map_wf (merge_object merged o).
Proof.
  unfold merge_object. revert merged. induction o as [|[k v] o IH]; intros merged H; [done|].
  simpl. apply IH. by apply map_insert_wf.
Qed.

Lemma last_cons_or {A} (x : A) l : last (x :: l) = or_else (last l) (Some x).
Proof. rewrite last_cons. by destruct (last l). Qed.

Lemma layered_cons k v layers : layered k (v :: layers) = or_else (layered k layers) (get k v).
Proof.
  unfold layered. simpl. destruct (get k v) as [w|]; [apply last_cons_or|].
  by destruct (last _).
Qed.

Lemma merge_from_get k index merged layers o :
  Forall layer_wf layers -> merge_from index merged layers = Ok o ->
  map_get k o = or_else (layered k layers) (map_get k merged).
Proof.
  revert index merged. induction layers as [|v layers IH]; intros index merged Hwf H; simpl in H.
  - by injection H as <-.
  - inv_ok. apply Forall_cons in Hwf as [Hv Hwf]. rewrite (IH _ _ Hwf H), layered_cons.
    destruct v; try done. injection Heqo0 as ->. rewrite map_get_merge by done. simpl.
    by destruct (layered k layers).
Qed.

Lemma merge_from_error index merged layers i :
  merge_from index merged layers = Err (LayerIsNotAnObject i) <->
  exists before v after, layers = before ++ v :: after /\ i = index + Z.of_nat (length before) /\
    Forall (fun l => is_object l = true) before /\ is_object v = false.
Proof.
  revert index merged. induction layers as [|v layers IH]; intros index merged.
  - simpl. split; [done|]. intros (b & w & a & H & _). by destruct b.
  - cbn [merge_from]. destruct (as_object v) as [o|] eqn:Hv; simpl.
    + destruct v; try done. rewrite IH. split.
      * intros (bs & w & a & -> & -> & Hb & Hw). eexists (_ :: bs), w, a.
        split_and!; [done|simpl; lia|by constructor|done].
      * intros (bs & w & a & H & -> & Hb & Hw). destruct bs as [|x bs]; simplify_eq/=.
        apply Forall_cons in Hb as [_ Hb]. exists bs, w, a. split_and!; [done|lia|done|done].
    + assert (Hn : is_object v = false) by by destruct v. split.
      * intros [= <-]. exists [], v, layers. split_and!; [done|simpl; lia|constructor|done].
      * intros (bs & w & a & H & -> & Hb & Hw). destruct bs as [|x bs]; simplify_eq/=.
        -- do 2 f_equal. lia.
        -- apply Forall_cons in Hb as [? _]. congruence.
Qed.

(** Layer precedence: merging succeeds exactly when every layer is an
    object, and names the first one that is not; the merged body then has, for
    every key, the value of the last layer with that key, untouched. *)
Theorem last_layer_wins layers :
  Forall layer_wf layers ->
  match merge_request_bodies layers with
  | Ok body =>
      Forall (fun l => is_object l = true) layers /\
      is_object body = true /\ forall k, get k body = layered k layers
  | Err (LayerIsNotAnObject i) =>
      exists before v after, layers = before ++ v :: after /\ i = Z.of_nat (length before) /\
        Forall (fun l => is_object l = true) before /\ is_object v = false
  end.
Proof.
  intros Hwf. unfold merge_request_bodies.
  destruct (merge_from 0 [] layers) as [o|[i]] eqn:E; simpl.
  - split_and!; [|done|].
    + apply Forall_forall. intros v Hv. destruct (is_object v) eqn:Hn; [done|]. exfalso.
      apply list_elem_of_split in Hv as (l1 & l2 & ->). clear Hwf. revert E.
      generalize ([] : list (string * json)) 0. induction l1 as [|x l1 IH]; intros m j E; simpl in E.
      * by destruct v.
      * inv_ok. by eapply IH.
    + intros k. rewrite (merge_from_get k _ _ _ _ Hwf E). by destruct (layered k layers).
  - apply merge_from_error in E as (b & v & a & -> & -> & Hb & Hv).
    exists b, v, a. split_and!; [done|lia|done|done].
Qed.

Lemma last_layer_wins_witness :
  exists body, merge_request_bodies [jobject [("a", JBool true); ("b", JNull)]; jobject [("a", JBool false)]]
    = Ok body /\ get "a" body = Some (JBool false) /\ get "b" body = Some JNull.
Proof.
  pose proof (last_layer_wins [jobject [("a", JBool true); ("b", JNull)]; jobject [("a", JBool false)]]) as H.
  eexists. split; [vm_compute; reflexivity|].
  destruct H as (_ & _ & H); [repeat constructor|]. split; [exact (H "a")|exact (H "b")].
Defined.

(** ** Filling the gaps *)

Section filling.
  Context (to_string : json -> string) (config : PiqoConfig) (protocol : ProviderProtocol)
    (request : RunRequest) (p : SessionProjection)
    (native_tools : list NativeTool) (mcp_tools : list McpToolDefinition).

Definition request_layers : list json :=
  body_layers config (rq_model request) (rq_agent request) (rq_variant request) (rq_body request).

(** The keys the server may add, and when it does. *)
Definition transcript_key : string :=
  match protocol with ChatCompletions => "messages" | Responses => "input" end.
Definition fills (k : string) : bool :=
  String.eqb k "model" || String.eqb k "stream" || String.eqb k transcript_key
  || (String.eqb k "tools" && (negb (bool_decide (native_tools = [])) || negb (bool_decide (mcp_tools = [])))).

Lemma get_or_insert_other k k1 v o : k1 <> k -> map_get k1 (map_or_insert k v o) = map_get k1 o.
Proof. intros H. rewrite map_get_or_insert. destruct (map_get k1 o); [done|]. by case_decide. Qed.

(** Inserting under keys that are absent only: present keys survive, other keys
    stay absent. *)
Lemma get_or_insert_gap k k1 v o :
  map_get k1 (map_or_insert k v o) = map_get k1 o \/ (k1 = k /\ map_get k1 o = None).
Proof.
  rewrite map_get_or_insert. destruct (map_get k1 o); [by left|].
  case_decide; [right; by split|by left].
Qed.

Lemma build_body_object body :
  build_body to_string config protocol request p native_tools mcp_tools = Ok body ->
  exists o transcript, merge_from 0 [] request_layers = Ok o /\
    body = JObject (map_or_insert transcript_key transcript
      (let o := map_or_insert "stream" (JBool true) (map_or_insert "model" (JString (rq_model request)) o) in
       if negb (bool_decide (native_tools = [])) || negb (bool_decide (mcp_tools = []))
       then map_or_insert "tools" (JArray (native_tool_definitions protocol native_tools
              ++ mcp_tool_definitions protocol mcp_tools)) o
       else o)).
Proof.
  unfold build_body. fold request_layers. intros H.
  destruct (merge_from 0 [] request_layers) as [o|]; simpl in H; [|done].
  destruct (agent_instructions config request) as [i|]; simpl in H; [|done].
  unfold transcript_key. destruct protocol.
  - destruct (chat_messages _ _ _) as [m|]; simpl in H; [|done]. injection H as <-. eauto.
  - injection H as <-. eauto.
Qed.

(** The server only fills gaps: in the body sent to the provider, every key
    some layer supplies has the value of its last layer, whatever its name; the
    only keys added are the model, the stream flag, the transcript and, when
    tools are on offer, the tool list. *)
Theorem body_only_fills_gaps body k :
  Forall layer_wf request_layers ->
  build_body to_string config protocol request p native_tools mcp_tools = Ok body ->
  match layered k request_layers with
  | Some v => get k body = Some v
  | None => is_Some (get k body) -> fills k = true
  end.
Proof.
  intros Hwf H. destruct (build_body_object _ H) as (o & t & Ho & ->).
  pose proof (merge_from_get k _ _ _ _ Hwf Ho) as Hg. simpl in Hg.
  set (tools := negb _ || negb _). simpl get.
  set (o1 := map_or_insert "model" _ o). set (o2 := map_or_insert "stream" _ o1).
  set (o3 := if tools then _ else o2).
  assert (E3 : map_get k o3 = map_get k o2 \/ (tools = true /\ k = "tools" /\ map_get k o2 = None)).
  { unfold o3. destruct tools; [|by left].
    destruct (get_or_insert_gap "tools" k (JArray (native_tool_definitions protocol native_tools
      ++ mcp_tool_definitions protocol mcp_tools)) o2) as [?|[? ?]]; [by left|right; by split_and!]. }
  pose proof (get_or_insert_gap transcript_key k t o3) as E4.
  pose proof (get_or_insert_gap "stream" k (JBool true) o1) as E2.
  pose proof (get_or_insert_gap "model" k (JString (rq_model request)) o) as E1.
  fold o1 in E1. fold o2 in E2.
  destruct (layered k request_layers) as [v|] eqn:Hl; simpl in Hg.
  - assert (map_get k o2 = Some v) as G2 by (destruct E1 as [E1|[_ E1]], E2 as [E2|[_ E2]]; congruence).
    destruct E3 as [E3|(_ & _ & E3)], E4 as [E4|[_ E4]]; congruence.
  - intros [v Hv]. unfold fills. fold tools.
    destruct E4 as [E4|[-> _]]; [|by rewrite String.eqb_refl, !orb_true_r].
    destruct E3 as [E3|(-> & -> & _)]; [|by rewrite andb_true_r, String.eqb_refl, orb_true_r].
    destruct E2 as [E2|[-> _]]; [|by rewrite String.eqb_refl, !orb_true_r].
    destruct E1 as [E1|[-> _]]; [congruence|by rewrite String.eqb_refl].
Qed.

End filling.

Definition example_config : PiqoConfig :=
  config_default.
Definition example_request : RunRequest :=
  mkRequest "p" "m" (JString "hi") None None (jobject [("stream", JBool false); ("messages", JNull)]).

Lemma body_only_fills_gaps_witness :
  exists body, build_body (fun _ => "") example_config ChatCompletions example_request
      (SessionProjection.new "s") [Read] [] = Ok body /\
    get "messages" body = Some JNull /\ get "stream" body = Some (JBool false) /\
    get "model" body = Some (JString "m").
Proof.
  assert (Hwf : Forall layer_wf (request_layers example_config example_request))
    by (repeat constructor).
  eexists. split; [vm_compute; reflexivity|].
  pose proof (fun k => body_only_fills_gaps (fun _ => "") example_config ChatCompletions
    example_request (SessionProjection.new "s") [Read] [] _ k Hwf
    ltac:(vm_compute; reflexivity)) as H.
  split_and!; [exact (H "messages")|exact (H "stream")|vm_compute; reflexivity].
Defined.

(** ** The transcript *)

Definition entry_with_calls (calls : list ToolCallProjection) (m : MessageProjection) : json :=
  let own := call_entry <$>
    List.filter (fun c => String.eqb (tc_assistant_message_id c) (mp_message_id m)) calls in
  match message_entry m with
  | JObject o =>
      if negb (bool_decide (mp_role m = Assistant)) || bool_decide (own = []) then JObject o
      else JObject (map_insert "tool_calls" (JArray own) o)
  | v => v
  end.

Lemma attach_all_spec calls pre ms :
  attach_all calls (length pre) ms (pre ++ (message_entry <$> ms)) =
    Ok (pre ++ (entry_with_calls calls <$> ms)).
Proof.
  revert pre. induction ms as [|m ms IH]; intros pre; [done|].
  cbn [attach_all fmap list_fmap].
  set (own := call_entry <$> _).
  assert (Hstep : (if negb (bool_decide (mp_role m = Assistant)) || bool_decide (own = [])
             then Ok (pre ++ message_entry m :: (message_entry <$> ms))
             else attach_calls (length pre) own (pre ++ message_entry m :: (message_entry <$> ms)))
          = Ok (E := BuildError) (pre ++ entry_with_calls calls m :: (message_entry <$> ms))).
  { unfold entry_with_calls. fold own.
    destruct (message_entry m) as [| | | | |o] eqn:Hm; try discriminate Hm.
    destruct (_ || _); [done|]. unfold attach_calls.
    rewrite list_lookup_middle by done. by rewrite insert_app_r_alt, Nat.sub_diag by lia. }
  unfold list_fmap in Hstep |- *. rewrite Hstep. cbn [mbind result_mbind].
  rewrite (cons_middle _ pre), (assoc_L (++)).
  replace (S (length pre)) with (length (pre ++ [entry_with_calls calls m]))
    by (rewrite length_app; simpl; lia).
  rewrite IH. by rewrite <- (assoc_L (++)).
Qed.

(** The transcript without compaction: building the chat messages never
    panics; they are the leading system entries, every closed message in order,
    each assistant message carrying exactly its own tool calls, then the results
    of the answered calls. *)
Theorem chat_transcript_exact to_string p pre :
  cp_active_artifact (sp_context p) = None ->
  chat_messages to_string p (pre ++ base_transcript p) =
    Ok (pre ++ (entry_with_calls (all_calls p) <$> List.filter closed (sp_messages p))
        ++ omap (fun c => v ← tc_result c;
             Some (jobject [("role", JString "tool"); ("tool_call_id", JString (tc_call_id c));
                            ("content", JString (to_string v))])) (all_calls p)).
Proof.
  intros Ha. unfold chat_messages.
  assert (Hv : visible_calls p = all_calls p)
    by (unfold visible_calls; rewrite Ha; by apply filter_all').
  assert (Hb : base_transcript p = message_entry <$> List.filter closed (sp_messages p)).
  { unfold base_transcript. rewrite Ha. simpl. f_equal. by apply filter_all'. }
  rewrite Hv, Hb, length_app, length_fmap, Nat.add_sub, attach_all_spec.
  simpl. by rewrite <- (assoc_L (++)).
Qed.

Definition text_turn (id : string) (role : MessageRole) : list SemanticEvent :=
  [MessageStarted id "" role AuthorUser; MessageContentAppended id (Text id); MessageCompleted id].

Definition plain_log : list SemanticEvent :=
  SessionCreated None :: RunQueued "r" None "p" "x" JNull :: text_turn "u1" User
  ++ text_turn "a1" Assistant ++ [ToolCallEmitted "r" "a1" "c" "" "read" JNull "{}" true].

Lemma chat_transcript_exact_witness :
  let p := SessionSpec.state_of plain_log in
  chat_messages (fun _ => "") p (base_transcript p) =
    Ok (entry_with_calls (all_calls p) <$> List.filter closed (sp_messages p)) /\
  length (List.filter closed (sp_messages p)) = 2%nat.
Proof.
  intros p.
  assert (Ha : cp_active_artifact (sp_context p) = None) by (vm_compute; reflexivity).
  pose proof (chat_transcript_exact (fun _ => "") p [] Ha) as H.
  split; [|vm_compute; reflexivity]. simpl app in H. rewrite H.
  vm_compute. reflexivity.
Defined.

(** A session compacted up to its third message, whose fourth message is an
    assistant message with a tool call. *)
Definition compacted_log : list SemanticEvent :=
  SessionCreated None :: RunQueued "r" None "p" "x" JNull :: text_turn "u1" User
  ++ text_turn "a1" Assistant ++ text_turn "u2" User
  ++ [ContextCompacted "r" (mkArtifact "art" None Deterministic 1 1 11 1000 100 900 500
        CONTEXT_ESTIMATOR_VERSION "short" [])]
  ++ text_turn "a2" Assistant ++ [ToolCallEmitted "r" "a2" "c" "" "read" JNull "{}" true].

(** With a compaction in force the index arithmetic fails: for this session,
    which replays without error, building the chat transcript indexes past its
    end (a panic in the source). *)
Theorem compacted_transcript_panics :
  is_ok (SessionSpec.replay (SessionProjection.new "s") (SessionSpec.record_from 1 compacted_log)) = true /\
  forall to_string, chat_messages to_string (SessionSpec.state_of compacted_log)
    (base_transcript (SessionSpec.state_of compacted_log)) = Err Panic.
Proof. split; [vm_compute; reflexivity|]. intros to_string. vm_compute. reflexivity. Qed.
