(* ===== verification/Provider.v ===== *)
(** Provider responses: the decoders of [piqo-provider/src/transport.rs] and
    the response loop of [execute_run] in [piqo-server/src/supervisor.rs].

    Bytes from the network arrive in chunks.  A server-sent event ends at an
    empty line, its payload is decoded into deltas, tool-call fragments are
    gathered until the stream completes and text is gathered until 4096 bytes
    or 100 ms.  [from_str] and [to_string] are [serde_json]'s parser and printer;
    [late n] tells whether 100 ms had passed at the [n]-th text delta; recording
    a delta is the function [append] on a state of any type [W], the session
    store of file Supervisor among them, which may fail with an error text.  The
    [HashMap] of tool-call buffers is iterated in key order (Rust leaves the
    order open). *)

From S2P Require Export Body.

Inductive ProviderDelta :=
  | TextDelta (text : string)
  | ToolCallDelta_ (call_id name : option string) (arguments : string)
  | ToolCallFragment (index : option Z) (call_id name : option string) (arguments : string)
  | UsageDelta (usage : json)
  | CompletedDelta
  | RequiresActionDelta.

Inductive TransportError :=
  | JsonError
  | MalformedSse (value : string)
  | MalformedModelCatalog.

Record DiscoveredModel := mkModel { dm_id : string; dm_metadata : json }.

(** ** Decoders *)

(** [Vec::dedup_by] on equal ids. *)
Fixpoint dedup_models (l : list DiscoveredModel) : list DiscoveredModel :=
  match l with
  | [] => []
  | x :: l =>
      match dedup_models l with
      | [] => [x]
      | y :: l' => if String.eqb (dm_id x) (dm_id y) then x :: l' else x :: y :: l'
      end
  end.

Definition model_leb (a b : DiscoveredModel) : bool := String.leb (dm_id a) (dm_id b).

Definition parse_model (model : json) : result TransportError DiscoveredModel :=
  id ← ok_or MalformedModelCatalog
         (v ← get "id" model; s ← as_str v; if is_empty (trim s) then None else Some s);
  Ok (mkModel id model).

Definition parse_model_catalog (value : json) : result TransportError (list DiscoveredModel) :=
  data ← ok_or MalformedModelCatalog (v ← get "data" value; as_array v);
  models ← collect parse_model data;
  Ok (dedup_models (sort_by model_leb models)).

Definition get_str (k : string) (v : json) : option string := w ← get k v; as_str w.
Definition get_array (k : string) (v : json) : list json := default [] (w ← get k v; as_array w).

Definition usage_deltas (value : json) : list ProviderDelta :=
  match get "usage" value with
  | Some usage => if is_null usage then [] else [UsageDelta usage]
  | None => []
  end.

Definition parse_chat_call (streaming : bool) (call : json) : ProviderDelta :=
  let function := get "function" call in
  let arguments := default "" (f ← function; get_str "arguments" f) in
  let index := v ← get "index" call; as_u64 v in
  let call_id := or_else (get_str "id" call)
                   ((fun i => "stream-index-" ++s show_u64 i) <$> index) in
  let name := f ← function; get_str "name" f in
  if streaming then ToolCallFragment index call_id name arguments
  else ToolCallDelta_ call_id name arguments.

Definition parse_choice (streaming : bool) (choice : json) : list ProviderDelta :=
  match or_else (get "delta" choice) (get "message" choice) with
  | None => []
  | Some delta =>
      match get_str "content" delta with
      | Some text => if is_empty text then [] else [TextDelta text]
      | None => []
      end
      ++ (parse_chat_call streaming <$> get_array "tool_calls" delta)
  end.

Definition parse_chat_event (value : json) (streaming : bool) : list ProviderDelta :=
  usage_deltas value ++ concat (parse_choice streaming <$> get_array "choices" value).

Definition parse_output_item (item : json) : list ProviderDelta :=
  match get_str "type" item with
  | Some "message" =>
      omap (fun content => TextDelta <$> get_str "text" content) (get_array "content" item)
  | Some "function_call" =>
      [ToolCallDelta_ (get_str "call_id" item) (get_str "name" item)
         (default "" (get_str "arguments" item))]
  | _ => []
  end.

Section decoders.
  Context (from_str : string -> option json) (to_string : json -> string).

Definition parse_responses_event (event_type : option string) (value : json) :
    result TransportError (list ProviderDelta) :=
  let kind := default "" (or_else event_type (get_str "type" value)) in
  if String.eqb kind "response.output_text.delta" then
    Ok match get_str "delta" value with Some text => [TextDelta text] | None => [] end
  else if String.eqb kind "response.function_call_arguments.delta" then Ok []
  else if String.eqb kind "response.function_call_arguments.done" then
    Ok [ToolCallDelta_ (get_str "item_id" value) (get_str "name" value)
          (default "" (get_str "arguments" value))]
  else if String.eqb kind "response.completed" then
    Ok (match (r ← get "response" value; get "usage" r) with
        | Some usage => [UsageDelta usage]
        | None => []
        end ++ [CompletedDelta])
  else if String.eqb kind "response.failed" || String.eqb kind "error" then
    Err (MalformedSse (to_string value))
  else if String.eqb kind "response.requires_action" then Ok [RequiresActionDelta]
  else if String.eqb kind "response" || String.eqb kind "" then
    Ok (usage_deltas value ++ concat (parse_output_item <$> get_array "output" value))
  else Ok [].

Definition parse_sse_event (protocol : ProviderProtocol) (event_type : option string) (data : string) :
    result TransportError (list ProviderDelta) :=
  if String.eqb (trim data) "[DONE]" then Ok [CompletedDelta]
  else
    value ← ok_or JsonError (from_str data);
    match protocol with
    | ChatCompletions => Ok (parse_chat_event value true)
    | Responses => parse_responses_event event_type value
    end.

Definition parse_non_stream_response (protocol : ProviderProtocol) (body : string) :
    result TransportError (list ProviderDelta) :=
  value ← ok_or JsonError (from_str body);
  deltas ← match protocol with
           | ChatCompletions => Ok (parse_chat_event value false)
           | Responses => parse_responses_event None value
           end;
  Ok (deltas ++ [CompletedDelta]).

End decoders.

(** ** Server-sent event frames *)

(** [buffer.windows(n).position(|w| w == pat)]. *)
Fixpoint find_bytes (pat s : string) : option nat :=
  match s with
  | "" => None
  | String _ s' => if starts_with pat s then Some O else S <$> find_bytes pat s'
  end.

Definition LFLF : string := NL ++s NL.
Definition CRLFCRLF : string := CR ++s NL ++s CR ++s NL.

Definition find_sse_frame_end (buffer : string) : option (nat * nat) :=
  match find_bytes LFLF buffer, find_bytes CRLFCRLF buffer with
  | Some lf, Some crlf => if (crlf <? lf)%nat then Some (crlf, 4%nat) else Some (lf, 2%nat)
  | Some lf, None => Some (lf, 2%nat)
  | None, Some crlf => Some (crlf, 4%nat)
  | None, None => None
  end.

Definition parse_sse_line (acc : option string * string) (line : string) : option string * string :=
  let '(event_type, data) := acc in
  match strip_prefix "event:" line with
  | Some value => (Some (trim value), data)
  | None =>
      match strip_prefix "data:" line with
      | Some value => (event_type, (if is_empty data then data else data ++s NL) ++s trim_start value)
      | None => acc
      end
  end.
Definition parse_sse_frame (frame : string) : option string * string :=
  foldl parse_sse_line (None, "") (lines frame).

(** ** The response loop *)

(** The error texts that are not fixed: those of UTF-8 and response decoding, of
    a broken connection; other texts are kept as they are. *)
Inductive Failure := InvalidUtf8 | Transport (e : TransportError) | Broken | Message (error : string).
Definition INCOMPLETE : string := "provider stream ended before a completion event".

Inductive ExecutionResult :=
  | Completed
  | CompletedWithUsage (usage : option json)
  | RequiresAction
  | ExecCancelled
  | ExecInterrupted
  | Failed (why : Failure) (retryable : bool).

Inductive DeltaResult := DeltaNone | DeltaUsage (usage : json) | DeltaRequiresAction.

Record ToolCallBuffer := mkBuffer {
  tb_call_id : option string; tb_name : option string; tb_arguments : string }.

Record StreamState (W : Type) := mkStream {
  st_text : string;
  st_texts : nat;
  st_tools : gmap string ToolCallBuffer;
  st_usage : option json;
  st_saw_delta : bool;
  st_saw_completed : bool;
  st_outcome : ExecutionResult;
  st_world : W }.
Arguments mkStream {W}.
Arguments st_text {W}.
Arguments st_texts {W}.
Arguments st_tools {W}.
Arguments st_usage {W}.
Arguments st_saw_delta {W}.
Arguments st_saw_completed {W}.
Arguments st_outcome {W}.
Arguments st_world {W}.

Section updates.
  Context {W : Type}.
  Implicit Types s : StreamState W.

Definition stream_start (w : W) : StreamState W := mkStream "" 0 ∅ None false false Completed w.

Definition set_outcome (o : ExecutionResult) s : StreamState W :=
  mkStream (st_text s) (st_texts s) (st_tools s) (st_usage s) (st_saw_delta s)
    (st_saw_completed s) o (st_world s).
Definition set_text (t : string) (n : nat) s : StreamState W :=
  mkStream t n (st_tools s) (st_usage s) (st_saw_delta s)
    (st_saw_completed s) (st_outcome s) (st_world s).
Definition set_tools (m : gmap string ToolCallBuffer) s : StreamState W :=
  mkStream (st_text s) (st_texts s) m (st_usage s) (st_saw_delta s)
    (st_saw_completed s) (st_outcome s) (st_world s).
Definition set_stream_usage (u : option json) s : StreamState W :=
  mkStream (st_text s) (st_texts s) (st_tools s) u (st_saw_delta s)
    (st_saw_completed s) (st_outcome s) (st_world s).
Definition set_saw (delta completed : bool) s : StreamState W :=
  mkStream (st_text s) (st_texts s) (st_tools s) (st_usage s) delta completed
    (st_outcome s) (st_world s).
Definition set_stream_world (w : W) s : StreamState W :=
  mkStream (st_text s) (st_texts s) (st_tools s) (st_usage s) (st_saw_delta s)
    (st_saw_completed s) (st_outcome s) w.

(** The loop goes on while nothing ended it. *)
Definition running s : bool :=
  match st_outcome s with Failed _ _ | RequiresAction => false | _ => true end.

Definition returned s : bool :=
  match st_outcome s with ExecCancelled | ExecInterrupted => true | _ => false end.

End updates.

(** What [tokio::select!] delivers: a tick of the flush timer, bytes, a broken
    connection, a cancellation of the run, a shutdown of the server.  The end of
    the list is the end of the response. *)
Inductive StreamEvent := Tick | Chunk (bytes : string) | ChunkError | Cancel | Shutdown.

Section stream.
  Context (from_str : string -> option json) (to_string : json -> string)
    (protocol : ProviderProtocol) (late : nat -> bool)
    {W : Type} (append : ProviderDelta -> W -> W * result string ()).
  Implicit Types s : StreamState W.

(** [persist_delta]: text, tool calls and pauses are appended to the session. *)
Definition persist_delta (d : ProviderDelta) s : StreamState W * result string DeltaResult :=
  let record r :=
    let '(w, done) := append d (st_world s) in (set_stream_world w s, _ ← done; Ok r) in
  match d with
  | TextDelta _ | ToolCallDelta_ _ _ _ => record DeltaNone
  | RequiresActionDelta => record DeltaRequiresAction
  | ToolCallFragment _ _ _ _ => (s, Err "incomplete tool call reached persistence")
  | UsageDelta usage => (s, Ok (DeltaUsage usage))
  | CompletedDelta => (s, Ok DeltaNone)
  end.

Definition fragment_key (index : option Z) (call_id : option string) (buffers : Z) : string :=
  default ("anonymous-tool-" ++s show_u64 buffers)
    (or_else ((fun i => "stream-index-" ++s show_u64 i) <$> index) call_id).

Definition add_fragment (index : option Z) (call_id name : option string) (arguments : string)
    (m : gmap string ToolCallBuffer) : gmap string ToolCallBuffer :=
  let key := fragment_key index call_id (Z.of_nat (size m)) in
  let e := default (mkBuffer call_id name "") (m !! key) in
  <[key := mkBuffer (or_else (tb_call_id e) call_id) (or_else (tb_name e) name)
             (tb_arguments e ++s arguments)]> m.

Fixpoint flush_tools (l : list ToolCallBuffer) s : StreamState W :=
  match l with
  | [] => s
  | b :: l =>
      match persist_delta (ToolCallDelta_ (tb_call_id b) (tb_name b) (tb_arguments b)) s with
      | (s, Ok DeltaRequiresAction) => set_outcome RequiresAction s
      | (s, Ok _) => flush_tools l s
      | (s, Err e) => set_outcome (Failed (Message e) false) s
      end
  end.

(** The gathered text is persisted; the flag says that this failed. *)
Definition flush_text s : StreamState W * bool :=
  match persist_delta (TextDelta (st_text s)) (set_text "" (st_texts s) s) with
  | (s, Ok _) => (s, false)
  | (s, Err e) => (set_outcome (Failed (Message e) false) s, true)
  end.

Definition is_content (d : ProviderDelta) : bool :=
  match d with
  | TextDelta _ | ToolCallDelta_ _ _ _ | ToolCallFragment _ _ _ _ => true
  | _ => false
  end.

(** The body of [for delta in deltas]; the flag says that the loop is left. *)
Definition process_delta (d : ProviderDelta) s : StreamState W * bool :=
  let s := set_saw (st_saw_delta s || is_content d) (st_saw_completed s) s in
  match d with
  | ToolCallFragment index call_id name arguments =>
      (set_tools (add_fragment index call_id name arguments (st_tools s)) s, false)
  | TextDelta text =>
      let s := set_text (st_text s ++s text) (S (st_texts s)) s in
      if (blen (st_text s) <? 4096) && negb (late (st_texts s)) then (s, false)
      else flush_text s
  | CompletedDelta =>
      let s := set_saw (st_saw_delta s) true s in
      (flush_tools (btree_values (st_tools s)) (set_tools ∅ s), false)
  | _ =>
      match persist_delta d s with
      | (s, Ok (DeltaUsage value)) => (set_stream_usage (Some value) s, false)
      | (s, Ok DeltaNone) => (s, false)
      | (s, Ok DeltaRequiresAction) => (set_outcome RequiresAction s, true)
      | (s, Err e) => (set_outcome (Failed (Message e) false) s, true)
      end
  end.

Fixpoint process_deltas (l : list ProviderDelta) s : StreamState W :=
  match l with
  | [] => s
  | d :: l => let '(s, stop) := process_delta d s in if stop then s else process_deltas l s
  end.

Definition process_frame (frame : string) s : StreamState W :=
  if negb (utf8_valid frame) then set_outcome (Failed InvalidUtf8 false) s
  else
    let '(event_type, data) := parse_sse_frame frame in
    if is_empty (trim data) then s
    else match parse_sse_event from_str to_string protocol event_type data with
    | Ok deltas => process_deltas deltas s
    | Err e => set_outcome (Failed (Transport e) false) s
    end.

(** [while let Some(..) = find_sse_frame_end(&buffer)]: every round shortens the
    buffer, so its length is enough fuel. *)
Fixpoint drain (fuel : nat) (buffer : string) s : string * StreamState W :=
  match fuel with
  | O => (buffer, s)
  | S fuel =>
      match find_sse_frame_end buffer with
      | None => (buffer, s)
      | Some (index, delimiter_len) =>
          let rest := str_drop (index + delimiter_len) buffer in
          let s := process_frame (str_take index buffer) s in
          if running s then drain fuel rest s else (rest, s)
      end
  end.

Definition on_event (e : StreamEvent) (buffer : string) s : string * StreamState W :=
  match e with
  | Tick => (buffer, if is_empty (st_text s) then s else fst (flush_text s))
  | Chunk bytes =>
      let buffer := buffer ++s bytes in drain (String.length buffer) buffer s
  | ChunkError => (buffer, set_outcome (Failed Broken (negb (st_saw_delta s))) s)
  | Cancel => (buffer, set_outcome ExecCancelled s)
  | Shutdown => (buffer, set_outcome ExecInterrupted s)
  end.

Fixpoint stream_loop (l : list StreamEvent) (buffer : string) s : StreamState W :=
  match l with
  | [] => s
  | e :: l =>
      let '(buffer, s) := on_event e buffer s in
      if running s && negb (returned s) then stream_loop l buffer s else s
  end.

(** After the loop: the completion check, the last text, the usage.  A
    cancellation or shutdown has returned at once. *)
Definition stream_outcome s : ExecutionResult :=
  match st_outcome s with
  | Completed => if st_saw_completed s then Completed else Failed (Message INCOMPLETE) false
  | o => o
  end.

Definition flush_rest s : StreamState W * option string :=
  if is_empty (st_text s) then (s, None)
  else match persist_delta (TextDelta (st_text s)) (set_text "" (st_texts s) s) with
  | (s, Ok _) => (s, None)
  | (s, Err e) => (s, Some e)
  end.

Definition with_usage (usage : option json) (o : ExecutionResult) : ExecutionResult :=
  match o with Completed => CompletedWithUsage usage | o => o end.

Definition finish_stream s : StreamState W * ExecutionResult :=
  if returned s then (s, st_outcome s)
  else
    let result := stream_outcome s in
    let '(s, failed) := flush_rest s in
    match failed with
    | Some e => (s, Failed (Message e) (st_saw_delta s))
    | None => (s, with_usage (st_usage s) result)
    end.

Definition stream_response (l : list StreamEvent) (w : W) : StreamState W * ExecutionResult :=
  finish_stream (stream_loop l "" (stream_start w)).

(** A response that is not streamed: its deltas in order, the texts gathered. *)
Fixpoint collect_deltas (l : list ProviderDelta) s : StreamState W :=
  match l with
  | [] => s
  | TextDelta text :: l => collect_deltas l (set_text (st_text s ++s text) (st_texts s) s)
  | d :: l =>
      match persist_delta d s with
      | (s, Ok (DeltaUsage value)) => collect_deltas l (set_stream_usage (Some value) s)
      | (s, Ok DeltaNone) => collect_deltas l s
      | (s, Ok DeltaRequiresAction) => set_outcome RequiresAction s
      | (s, Err e) => set_outcome (Failed (Message e) false) s
      end
  end.

End stream.
