(* ===== verification/ProviderFacts.v ===== *)
(** Properties of provider responses (file Provider): where the network cuts
    the byte stream does not matter, no text is lost, the decoders' contracts. *)

From S2P Require Export BodyFacts Provider.
From S2P Require Import BTree Json.

(** ** Frames do not depend on what follows them *)

Lemma starts_with_app pat a c :
  (String.length pat <= String.length a)%nat -> starts_with pat (a ++s c) = starts_with pat a.
Proof.
  revert a. induction pat as [|x pat IH]; intros a H; [done|].
  destruct a as [|y a]; simpl in H; [lia|].
  rewrite append_cons, !starts_with_cons. f_equal. apply IH. lia.
Qed.

Lemma starts_with_app_true pat a c : starts_with pat a = true -> starts_with pat (a ++s c) = true.
Proof.
  rewrite !starts_with_spec. intros (r & ->). exists (r ++s c). by rewrite append_assoc.
Qed.

Lemma starts_with_length pat a : starts_with pat a = true -> (String.length pat <= String.length a)%nat.
Proof. rewrite starts_with_spec. intros (r & ->). rewrite length_append. lia. Qed.

Lemma find_bytes_length pat s i :
  find_bytes pat s = Some i -> (i + String.length pat <= String.length s)%nat.
Proof.
  revert i. induction s as [|x s IH]; intros i H; cbn [find_bytes] in H; [done|].
  destruct (starts_with pat (String x s)) eqn:Hs.
  - injection H as <-. by apply starts_with_length in Hs.
  - destruct (find_bytes pat s) as [j|]; [|done]. injection H as <-. specialize (IH j eq_refl). simpl. lia.
Qed.

Lemma find_bytes_app pat s c i :
  find_bytes pat s = Some i -> find_bytes pat (s ++s c) = Some i.
Proof.
  revert i. induction s as [|x s IH]; intros i H; cbn [find_bytes] in H; [done|].
  rewrite append_cons. cbn [find_bytes]. rewrite <- append_cons.
  destruct (starts_with pat (String x s)) eqn:Hs; [by rewrite starts_with_app_true|].
  destruct (find_bytes pat s) as [j|] eqn:Hj; [|done]. injection H as <-.
  apply find_bytes_length in Hj as Hl. rewrite starts_with_app by (simpl; lia).
  by rewrite Hs, (IH j).
Qed.

(** An [\r\n\r\n] that only the following bytes complete starts after any [\n\n]
    already seen. *)
Lemma late_crlf s c i p :
  find_bytes CRLFCRLF s = None -> find_bytes LFLF s = Some i ->
  find_bytes CRLFCRLF (s ++s c) = Some p -> (i <= p)%nat.
Proof.
  revert i p. induction s as [|x s IH]; intros i p Hn Hi Hp; [done|].
  rewrite append_cons in Hp. cbn [find_bytes] in Hn, Hi, Hp. rewrite <- append_cons in Hp.
  destruct (starts_with CRLFCRLF (String x s)) eqn:Hs; [done|].
  destruct (find_bytes CRLFCRLF s) eqn:Hns; [done|].
  destruct (starts_with LFLF (String x s)) eqn:Hl; [injection Hi as <-; lia|].
  destruct (find_bytes LFLF s) as [i'|] eqn:Hi'; [|done]. injection Hi as <-.
  destruct (starts_with CRLFCRLF (String x s ++s c)) eqn:Hsc.
  - exfalso. apply starts_with_spec in Hsc as (r & Hr). change CRLFCRLF with
      (String cr (String nl (String cr (String nl "")))) in Hr, Hs.
    rewrite !append_cons in Hr. injection Hr as -> Hr.
    destruct s as [|x1 s]; [done|]. rewrite !append_cons in Hr. injection Hr as -> Hr.
    destruct s as [|x2 s]; [done|]. rewrite !append_cons in Hr. injection Hr as -> Hr.
    destruct s as [|x3 s]; [done|]. rewrite !append_cons in Hr. injection Hr as -> Hr.
    done.
  - destruct (find_bytes CRLFCRLF (s ++s c)) as [p'|]; [|done]. injection Hp as <-.
    specialize (IH i' p' eq_refl eq_refl eq_refl). lia.
Qed.

Lemma find_bytes_new pat s c p :
  find_bytes pat s = None -> find_bytes pat (s ++s c) = Some p ->
  (String.length s < p + String.length pat)%nat \/ pat = "".
Proof.
  destruct (decide (pat = "")) as [->|Hpat]; [by right|]. intros Hn Hp. left. revert p Hn Hp.
  induction s as [|x s IH]; intros p Hn Hp; [destruct pat; simpl; [done|lia]|].
  rewrite append_cons in Hp. cbn [find_bytes] in Hn, Hp. rewrite <- append_cons in Hp.
  destruct (starts_with pat (String x s)) eqn:Hs; [done|].
  destruct (find_bytes pat s) eqn:Hns; [done|].
  destruct (starts_with pat (String x s ++s c)) eqn:Hsc.
  - injection Hp as <-. destruct (decide (String.length pat <= String.length (String x s))%nat); [|lia].
    by rewrite starts_with_app, Hs in Hsc.
  - destruct (find_bytes pat (s ++s c)) as [p'|]; [|done]. injection Hp as <-.
    specialize (IH p' eq_refl eq_refl). simpl. lia.
Qed.

Lemma find_frame_app s c i n :
  find_sse_frame_end s = Some (i, n) -> find_sse_frame_end (s ++s c) = Some (i, n).
Proof.
  unfold find_sse_frame_end.
  destruct (find_bytes LFLF s) as [lf|] eqn:Hl, (find_bytes CRLFCRLF s) as [cl|] eqn:Hc; try done.
  - by rewrite (find_bytes_app _ _ _ _ Hl), (find_bytes_app _ _ _ _ Hc).
  - rewrite (find_bytes_app _ _ _ _ Hl). destruct (find_bytes CRLFCRLF (s ++s c)) as [p|] eqn:Hp; [|done].
    pose proof (late_crlf _ _ _ _ Hc Hl Hp).
    by replace (p <? lf)%nat with false by (symmetry; apply Nat.ltb_ge; lia).
  - rewrite (find_bytes_app _ _ _ _ Hc). intros [= <- <-].
    destruct (find_bytes LFLF (s ++s c)) as [p|] eqn:Hp; [|done].
    destruct (find_bytes_new _ _ _ _ Hl Hp) as [Hlen|?]; [|done].
    apply find_bytes_length in Hc. simpl in Hlen, Hc.
    by replace (cl <? p)%nat with true by (symmetry; apply Nat.ltb_lt; lia).
Qed.

Lemma find_frame_length s i n :
  find_sse_frame_end s = Some (i, n) -> (i + n <= String.length s)%nat /\ (0 < n)%nat.
Proof.
  unfold find_sse_frame_end. intros H.
  destruct (find_bytes LFLF s) as [lf|] eqn:Hl, (find_bytes CRLFCRLF s) as [cl|] eqn:Hc;
    try (apply find_bytes_length in Hl; simpl in Hl); try (apply find_bytes_length in Hc; simpl in Hc);
    try destruct (_ <? _)%nat; simplify_eq; lia.
Qed.

Lemma str_drop_0 s : str_drop 0 s = s.
Proof. unfold str_drop. rewrite Nat.sub_0_r. apply (str_take_ge _ s). done. Qed.
Lemma str_drop_cons n c s : str_drop (S n) (String c s) = str_drop n s.
Proof. reflexivity. Qed.

Lemma str_drop_app n a b :
  (n <= String.length a)%nat -> str_drop n (a ++s b) = str_drop n a ++s b.
Proof.
  revert n. induction a as [|x a IH]; intros [|n] H; simpl in H; try lia; try by rewrite !str_drop_0.
  rewrite append_cons, !str_drop_cons. apply IH. lia.
Qed.

Lemma length_str_drop n s : String.length (str_drop n s) = (String.length s - n)%nat.
Proof.
  revert n. induction s as [|x s IH]; intros [|n]; try done; [by rewrite str_drop_0|].
  rewrite str_drop_cons. simpl. apply IH.
Qed.

(** ** The loop over a buffer *)

Section stream.
  Context (from_str : string -> option json) (to_string : json -> string)
    (protocol : ProviderProtocol) (late : nat -> bool)
    {W : Type} (append : ProviderDelta -> W -> W * result string ()).

Notation drain := (drain from_str to_string protocol late append).
Notation process_frame := (process_frame from_str to_string protocol late append).
Notation stream_loop := (stream_loop from_str to_string protocol late append).

Lemma drain_fuel f1 f2 b s :
  (String.length b <= f1)%nat -> (String.length b <= f2)%nat -> drain f1 b s = drain f2 b s.
Proof.
  revert f2 b s. induction f1 as [|f1 IH]; intros f2 b s H1 H2.
  - destruct b; simpl in H1; [|lia]. by destruct f2.
  - destruct f2 as [|f2]; [destruct b; simpl in H2; [done|lia]|]. cbn [Provider.drain].
    destruct (find_sse_frame_end b) as [[i n]|] eqn:Hf; [|done].
    destruct (running _); [|done]. apply find_frame_length in Hf.
    apply IH; rewrite length_str_drop; lia.
Qed.

Lemma drain_shrinks f b s : (String.length (fst (drain f b s)) <= String.length b)%nat.
Proof.
  revert b s. induction f as [|f IH]; intros b s; cbn [Provider.drain]; [done|].
  destruct (find_sse_frame_end b) as [[i n]|]; [|done].
  destruct (running _); simpl; [etrans; [apply IH|]|]; rewrite length_str_drop; lia.
Qed.

(** Draining a longer buffer first does what draining the shorter one does. *)
Lemma drain_app f b c s :
  (String.length (b ++s c) <= f)%nat -> running s = true ->
  let '(r, s1) := drain f b s in
  if running s1 then drain f (b ++s c) s = drain f (r ++s c) s1
  else snd (drain f (b ++s c) s) = s1.
Proof.
  revert b s. induction f as [|f IH]; intros b s Hlen Hrun.
  - rewrite length_append in Hlen. destruct b, c; simpl in Hlen; try lia. simpl. by destruct (running s).
  - cbn [Provider.drain]. destruct (find_sse_frame_end b) as [[i n]|] eqn:Hf.
    + rewrite (find_frame_app _ c _ _ Hf). pose proof (find_frame_length _ _ _ Hf) as [Hl Hn].
      rewrite length_append in Hlen.
      assert (Ht : str_take i (b ++s c) = str_take i b).
      { rewrite str_take_app. replace (i - String.length b)%nat with 0%nat by lia.
        by rewrite str_take_0, append_nil_r. }
      rewrite Ht, str_drop_app by lia.
      destruct (running (process_frame (str_take i b) s)) eqn:Hr; [|by rewrite Hr].
      specialize (IH (str_drop (i + n) b) (process_frame (str_take i b) s)).
      rewrite length_append, length_str_drop in IH. specialize (IH ltac:(lia) Hr).
      destruct (drain f (str_drop (i + n) b) _) as [r s1] eqn:Hd.
      destruct (running s1); [|done]. rewrite IH.
      pose proof (drain_shrinks f (str_drop (i + n) b) (process_frame (str_take i b) s)) as Hle.
      rewrite Hd in Hle. simpl in Hle.
      rewrite length_str_drop in Hle.
      change (drain f (r ++s c) s1 = drain (S f) (r ++s c) s1).
      apply drain_fuel; rewrite length_append; lia.
    + by rewrite Hrun.
Qed.

Definition chunks (l : list string) : list StreamEvent := Chunk <$> l.

Lemma drain_done f b s :
  (String.length b <= f)%nat ->
  let '(r, s1) := drain f b s in running s1 = true -> find_sse_frame_end r = None.
Proof.
  revert b s. induction f as [|f IH]; intros b s H; cbn [Provider.drain].
  - by destruct b; simpl in H; [|lia].
  - destruct (find_sse_frame_end b) as [[i n]|] eqn:Hf; [|done].
    destruct (running _) eqn:Hr; [|by rewrite Hr]. apply find_frame_length in Hf.
    apply IH. rewrite length_str_drop. lia.
Qed.

(** Only events of the loop itself make it return. *)
Lemma persist_delta_outcome d s s' r :
  persist_delta append d s = (s', r) -> st_outcome s' = st_outcome s.
Proof. destruct d; simpl; try destruct (append _ _) as [? []]; intros [= <- _]; done. Qed.

Lemma flush_tools_returned l s : returned s = false -> returned (flush_tools append l s) = false.
Proof.
  revert s. induction l as [|x l IH]; intros s H; [done|]. cbn [flush_tools].
  destruct (persist_delta _ _ s) as [s' r] eqn:E. apply persist_delta_outcome in E.
  destruct r as [[]|]; try done; apply IH; unfold returned in *; by rewrite E.
Qed.

Lemma process_delta_returned d s s' stop :
  process_delta late append d s = (s', stop) -> returned s = false -> returned s' = false.
Proof.
  intros H Hs. destruct d; simpl in H.
  2-4: try (destruct (append _ _) as [? []]); simplify_eq/=; done.
  - destruct (_ && _); [by simplify_eq/=|]. unfold flush_text in H. simpl in H.
    destruct (append _ _) as [? []]; by simplify_eq/=.
  - simplify_eq/=. by apply flush_tools_returned.
  - destruct (append _ _) as [? []]; by simplify_eq/=.
Qed.

Lemma process_deltas_returned l s :
  returned s = false -> returned (process_deltas late append l s) = false.
Proof.
  revert s. induction l as [|d l IH]; intros s H; [done|]. cbn [process_deltas].
  destruct (process_delta late append d s) as [s' stop] eqn:E.
  eapply process_delta_returned in E; [|done]. destruct stop; auto.
Qed.

Lemma process_frame_returned b s : returned s = false -> returned (process_frame b s) = false.
Proof.
  intros H. unfold Provider.process_frame. destruct (negb _); [done|].
  destruct (parse_sse_frame b) as [e d]. destruct (is_empty _); [done|].
  destruct (parse_sse_event _ _ _ _ _); [|done]. by apply process_deltas_returned.
Qed.

Lemma drain_returned f b s : returned s = false -> returned (snd (drain f b s)) = false.
Proof.
  revert b s. induction f as [|f IH]; intros b s H; [done|]. cbn [Provider.drain].
  destruct (find_sse_frame_end b) as [[i n]|]; [|done].
  pose proof (process_frame_returned (str_take i b) s H) as Hp.
  destruct (running _); [by apply IH|done].
Qed.

(** The state after a run of chunks is the state after their concatenation. *)
Lemma stream_loop_chunks l b s :
  running s = true -> returned s = false -> find_sse_frame_end b = None ->
  stream_loop (chunks l) b s = snd (drain (String.length (b ++s str_concat l)) (b ++s str_concat l) s).
Proof.
  revert b s. induction l as [|c l IH]; intros b s Hrun Hret Hnone.
  - change (str_concat []) with "". rewrite append_nil_r. cbn.
    destruct (String.length b); cbn [Provider.drain]; [done|]. by rewrite Hnone.
  - cbn [chunks fmap list_fmap Provider.stream_loop on_event].
    change (str_concat (c :: l)) with (c ++s str_concat l). rewrite <- append_assoc.
    set (t := b ++s c). set (F := String.length (t ++s str_concat l)).
    assert (HF : drain (String.length t) t s = drain F t s)
      by (apply drain_fuel; unfold F; rewrite ?length_append; lia).
    rewrite HF. pose proof (drain_app F t (str_concat l) s ltac:(done) Hrun) as Ha.
    pose proof (drain_done F t s ltac:(unfold F; rewrite length_append; lia)) as Hd.
    pose proof (drain_returned F t s Hret) as Hr.
    destruct (drain F t s) as [r s1] eqn:E. simpl in Hr. rewrite Hr, andb_true_r.
    destruct (running s1) eqn:Hs1; [|done]. rewrite Ha.
    fold (chunks l). rewrite IH by auto. f_equal.
    pose proof (drain_shrinks F t s) as Hle. rewrite E in Hle. simpl in Hle.
    apply drain_fuel; [done|]. unfold F. rewrite !length_append in *. lia.
Qed.

(** C37. Chunking is irrelevant: two deliveries of the same bytes, cut into chunks
    in any way, leave the same state and the same result: the same text and tool
    calls persisted in the same order, the same usage, the same outcome. *)
Theorem chunking_is_irrelevant l1 l2 w :
  str_concat l1 = str_concat l2 ->
  stream_response from_str to_string protocol late append (chunks l1) w =
  stream_response from_str to_string protocol late append (chunks l2) w.
Proof.
  intros H. unfold stream_response. f_equal. rewrite !stream_loop_chunks by done. by rewrite H.
Qed.

End stream.

Definition example_sse : list string :=
  ["data: [DO"; "NE]" ++s NL; NL].

(** The state in which every delta is recorded. *)
Definition record_delta (d : ProviderDelta) (l : list ProviderDelta) :
    list ProviderDelta * result string () := (l ++ [d], Ok ()).

Lemma chunking_is_irrelevant_witness :
  stream_response (fun _ => None) (fun _ => "") ChatCompletions (fun _ => false) record_delta
    (chunks example_sse) [] =
  (set_saw false true (stream_start []), CompletedWithUsage None).
Proof.
  rewrite (chunking_is_irrelevant (fun _ => None) (fun _ => "") ChatCompletions (fun _ => false)
    record_delta example_sse [str_concat example_sse] [] ltac:(vm_compute; reflexivity)).
  vm_compute. reflexivity.
Defined.

(** ** Timing does not matter either *)

Definition delta_text (d : ProviderDelta) : option string :=
  match d with TextDelta t => Some t | _ => None end.
Definition is_text (d : ProviderDelta) : bool :=
  match d with TextDelta _ => true | _ => false end.

(** What a response has produced: the text so far, persisted or still gathered,
    the other deltas persisted, and the control part of the state. *)
Definition produced (s : StreamState (list ProviderDelta)) :=
  (str_concat (omap delta_text (st_world s)) ++s st_text s,
   List.filter (fun d => negb (is_text d)) (st_world s),
   st_tools s, st_usage s, st_saw_delta s, st_saw_completed s, st_outcome s).

Section timing.
  Context (from_str : string -> option json) (to_string : json -> string)
    (protocol : ProviderProtocol).

Notation push d s := (set_stream_world (st_world s ++ [d]) s).
  Implicit Types s : StreamState (list ProviderDelta).

Lemma produced_push_other d s :
  is_text d = false ->
  produced (push d s) =
    (str_concat (omap delta_text (st_world s)) ++s st_text s,
     List.filter (fun d => negb (is_text d)) (st_world s) ++ [d],
     st_tools s, st_usage s, st_saw_delta s, st_saw_completed s, st_outcome s).
Proof.
  intros Hd. unfold produced. simpl. rewrite omap_app, List.filter_app. simpl. rewrite Hd. simpl.
  destruct d; try done; simpl; by rewrite app_nil_r.
Qed.

Lemma produced_flush_text s : produced (fst (flush_text record_delta s)) = produced s.
Proof.
  unfold produced, flush_text. simpl. rewrite omap_app, List.filter_app, str_concat_app. simpl.
  change (str_concat [st_text s]) with (st_text s ++s ""). by rewrite !append_nil_r, app_nil_r.
Qed.

Lemma produced_flush_tools l s1 s2 :
  produced s1 = produced s2 ->
  produced (flush_tools record_delta l s1) = produced (flush_tools record_delta l s2).
Proof.
  revert s1 s2. induction l as [|b l IH]; intros s1 s2 H; [done|]. cbn [flush_tools persist_delta record_delta mbind result_mbind].
  apply IH. rewrite !produced_push_other by done. unfold produced in H. congruence.
Qed.

Lemma produced_process_delta late1 late2 d s1 s2 :
  produced s1 = produced s2 ->
  produced (fst (process_delta late1 record_delta d s1)) = produced (fst (process_delta late2 record_delta d s2))
  /\ snd (process_delta late1 record_delta d s1) = snd (process_delta late2 record_delta d s2).
Proof.
  intros H. pose proof H as H'. unfold produced in H'. injection H' as Ht Hp Hto Hu Hd Hc Ho.
  assert (Hsaw : forall b1 b2 c1 c2, b1 = b2 -> c1 = c2 ->
    produced (set_saw b1 c1 s1) = produced (set_saw b2 c2 s2))
    by (intros; subst; unfold produced; simpl; congruence).
  destruct d.
  - set (q s := set_text (st_text s ++s text) (S (st_texts s))
           (set_saw (st_saw_delta s || true) (st_saw_completed s) s)).
    assert (Hq : produced (q s1) = produced (q s2)).
    { unfold produced, q. simpl. rewrite <- !append_assoc, Ht. congruence. }
    assert (Hpd : forall late s, produced (fst (process_delta late record_delta (TextDelta text) s))
        = produced (q s) /\ snd (process_delta late record_delta (TextDelta text) s) = false).
    { intros late s. unfold process_delta, is_content. fold (q s).
      destruct (_ && _); [by split|]. by rewrite produced_flush_text. }
    destruct (Hpd late1 s1) as [-> ->], (Hpd late2 s2) as [-> ->]. by split.
  - simpl. split; [|done]. unfold produced. simpl.
    rewrite !omap_app, !List.filter_app, !str_concat_app. simpl. rewrite !append_nil_r. congruence.
  - simpl. split; [|done]. unfold produced. simpl. congruence.
  - simpl. split; [|done]. unfold produced. simpl. congruence.
  - simpl. split; [|done]. rewrite Hto. apply produced_flush_tools. unfold produced. simpl. congruence.
  - simpl. split; [|done].
    unfold produced in *. simpl.
    rewrite !omap_app, !List.filter_app, !str_concat_app. simpl. rewrite !append_nil_r. congruence.
Qed.

Lemma produced_process_deltas late1 late2 l s1 s2 :
  produced s1 = produced s2 ->
  produced (process_deltas late1 record_delta l s1) = produced (process_deltas late2 record_delta l s2).
Proof.
  revert s1 s2. induction l as [|d l IH]; intros s1 s2 H; [done|]. cbn [process_deltas].
  pose proof (produced_process_delta late1 late2 d s1 s2 H) as [Hp Hs].
  destruct (process_delta late1 record_delta d s1) as [t1 b1], (process_delta late2 record_delta d s2) as [t2 b2].
  simpl in Hp, Hs. subst b2. destruct b1; auto.
Qed.

Lemma produced_outcome s1 s2 : produced s1 = produced s2 -> st_outcome s1 = st_outcome s2.
Proof. unfold produced. congruence. Qed.

Lemma produced_process_frame late1 late2 b s1 s2 :
  produced s1 = produced s2 ->
  produced (process_frame from_str to_string protocol late1 record_delta b s1) =
  produced (process_frame from_str to_string protocol late2 record_delta b s2).
Proof.
  intros H. unfold process_frame.
  assert (Hf : forall o, produced (set_outcome o s1) = produced (set_outcome o s2))
    by (intros o; unfold produced in *; simpl; congruence).
  destruct (negb _); [apply Hf|]. destruct (parse_sse_frame b) as [e d].
  destruct (is_empty _); [done|]. destruct (parse_sse_event _ _ _ _ _); [|apply Hf].
  by apply produced_process_deltas.
Qed.

Lemma produced_drain late1 late2 f b s1 s2 :
  produced s1 = produced s2 ->
  fst (drain from_str to_string protocol late1 record_delta f b s1) =
    fst (drain from_str to_string protocol late2 record_delta f b s2) /\
  produced (snd (drain from_str to_string protocol late1 record_delta f b s1)) =
    produced (snd (drain from_str to_string protocol late2 record_delta f b s2)).
Proof.
  revert b s1 s2. induction f as [|f IH]; intros b s1 s2 H; [by split|]. cbn [Provider.drain].
  destruct (find_sse_frame_end b) as [[i n]|]; [|by split].
  pose proof (produced_process_frame late1 late2 (str_take i b) s1 s2 H) as Hp.
  unfold running. rewrite (produced_outcome _ _ Hp).
  destruct (match st_outcome _ with Failed _ _ | RequiresAction => false | _ => true end);
    [by apply IH|by split].
Qed.

Lemma produced_tick s : produced (if is_empty (st_text s) then s else fst (flush_text record_delta s)) = produced s.
Proof. destruct (is_empty (st_text s)); [done|apply produced_flush_text]. Qed.

Definition untimed (l : list StreamEvent) : list StreamEvent :=
  List.filter (fun e => match e with Tick => false | _ => true end) l.

Lemma produced_stream_loop late1 late2 l b s1 s2 :
  produced s1 = produced s2 ->
  running s1 && negb (returned s1) = true ->
  produced (stream_loop from_str to_string protocol late1 record_delta l b s1) =
  produced (stream_loop from_str to_string protocol late2 record_delta (untimed l) b s2).
Proof.
  revert b s1 s2. induction l as [|e l IH]; intros b s1 s2 H Hr; [done|].
  assert (Hcont : forall q1 q2 b', produced q1 = produced q2 ->
    produced (if running q1 && negb (returned q1)
              then stream_loop from_str to_string protocol late1 record_delta l b' q1 else q1) =
    produced (if running q2 && negb (returned q2)
              then stream_loop from_str to_string protocol late2 record_delta (untimed l) b' q2 else q2)).
  { intros q1 q2 b' Hq. pose proof (produced_outcome _ _ Hq) as Ho.
    destruct (running q1 && negb (returned q1)) eqn:E.
    - rewrite (IH b' q1 q2 Hq E). unfold running, returned in *. rewrite <- Ho. by rewrite E.
    - unfold running, returned in *. rewrite <- Ho. by rewrite E. }
  destruct e; cbn [untimed List.filter stream_loop on_event].
  - set (q := if is_empty (st_text s1) then s1 else fst (flush_text record_delta s1)).
    assert (Hq : produced q = produced s1) by apply produced_tick.
    assert (E : running q && negb (returned q) = true).
    { unfold running, returned in *. by rewrite (produced_outcome _ _ Hq). }
    rewrite E. apply IH; [congruence|done].
  - pose proof (produced_drain late1 late2 (String.length (b ++s bytes)) (b ++s bytes) s1 s2 H) as [Hf Hs].
    destruct (drain _ _ _ late1 _ _ _ _) as [b1 q1], (drain _ _ _ late2 _ _ _ _) as [b2 q2].
    simpl in Hf, Hs. subst b2. by apply Hcont.
  - apply Hcont. unfold produced in *. simpl. congruence.
  - apply Hcont. unfold produced in *. simpl. congruence.
  - apply Hcont. unfold produced in *. simpl. congruence.
Qed.

(** The text a response left in the session. *)
Definition persisted_text s : string := str_concat (omap delta_text (st_world s)).
Definition persisted_others s : list ProviderDelta :=
  List.filter (fun d => negb (is_text d)) (st_world s).

Lemma produced_finish s1 s2 :
  produced s1 = produced s2 ->
  let r1 := finish_stream record_delta s1 in let r2 := finish_stream record_delta s2 in
  (returned s1 = false -> persisted_text (fst r1) = persisted_text (fst r2)) /\
  persisted_others (fst r1) = persisted_others (fst r2) /\ snd r1 = snd r2.
Proof.
  intros H. pose proof H as H'. unfold produced in H'. injection H' as Ht Hp Hto Hu Hd Hc Ho.
  unfold finish_stream, flush_rest, stream_outcome, with_usage, returned. rewrite <- Ho.
  assert (Hpush : forall s, let r :=
      if is_empty (st_text s) then (s, None)
      else match persist_delta record_delta (TextDelta (st_text s)) (set_text "" (st_texts s) s) with
           | (s, Ok _) => (s, None)
           | (s, Err e) => (s, Some e)
           end in
      snd r = None /\ persisted_text (fst r) = persisted_text s ++s st_text s /\
      persisted_others (fst r) = persisted_others s /\ st_usage (fst r) = st_usage s).
  { intros s. destruct (is_empty (st_text s)) eqn:He; simpl.
    - destruct (st_text s); [|done]. by rewrite append_nil_r.
    - unfold persisted_text, persisted_others. simpl.
      rewrite omap_app, List.filter_app, str_concat_app. simpl.
      change (str_concat [st_text s]) with (st_text s ++s ""). by rewrite append_nil_r, app_nil_r. }
  pose proof (Hpush s1) as P1. pose proof (Hpush s2) as P2. cbv zeta in P1, P2.
  destruct (match st_outcome s1 with ExecCancelled | ExecInterrupted => true | _ => false end).
  - simpl. split_and!; done.
  - destruct (if is_empty (st_text s1) then _ else _) as [q1 f1],
      (if is_empty (st_text s2) then _ else _) as [q2 f2].
    destruct P1 as (P1&T1&O1&U1), P2 as (P2&T2&O2&U2). simpl in *. subst f1 f2. simpl.
    split_and!; [intros _; by rewrite T1, T2|by rewrite O1, O2|]. by rewrite U1, U2, Hc, Hu.
Qed.

(** Timing is irrelevant: as long as the database accepts, the flush timer
    and the 100 ms rule change how the text is cut into blocks and nothing else:
    the text recorded, the tool calls and pauses recorded, and the result are
    those of the same response without any tick. *)
Theorem timing_is_irrelevant late1 late2 l :
  let r1 := stream_response from_str to_string protocol late1 record_delta l [] in
  let r2 := stream_response from_str to_string protocol late2 record_delta (untimed l) [] in
  (snd r1 <> ExecCancelled -> snd r1 <> ExecInterrupted ->
     persisted_text (fst r1) = persisted_text (fst r2)) /\
  persisted_others (fst r1) = persisted_others (fst r2) /\ snd r1 = snd r2.
Proof.
  cbv zeta. unfold stream_response.
  pose proof (produced_stream_loop late1 late2 l "" (stream_start []) (stream_start []) eq_refl eq_refl) as H.
  destruct (produced_finish _ _ H) as (Ht & Ho & Hr). split_and!; [|done|done].
  intros Hc Hi. apply Ht.
  destruct (returned (stream_loop _ _ _ late1 _ l "" (stream_start []))) eqn:E; [|done]. exfalso.
  unfold finish_stream in Hc, Hi. rewrite E in Hc, Hi. simpl in Hc, Hi.
  unfold returned in E. by destruct (st_outcome _).
Qed.
End timing.

Definition hi_chunk : json :=
  jobject [("choices", JArray [jobject [("delta", jobject [("content", JString "hi")])]])].
Definition hi_stream : list StreamEvent :=
  [Chunk ("data: x" ++s LFLF); Tick; Chunk ("data: x" ++s LFLF ++s "data: [DONE]" ++s LFLF)].

Lemma timing_is_irrelevant_witness :
  let r := stream_response (fun _ => Some hi_chunk) (fun _ => "") ChatCompletions (fun _ => false)
    record_delta hi_stream [] in
  length (st_world (fst r)) = 2%nat /\ persisted_text (fst r) = "hihi" /\
  persisted_text (fst (stream_response (fun _ => Some hi_chunk) (fun _ => "") ChatCompletions
    (fun _ => true) record_delta (untimed hi_stream) [])) = "hihi".
Proof.
  intros r.
  destruct (timing_is_irrelevant (fun _ => Some hi_chunk) (fun _ => "") ChatCompletions
    (fun _ => false) (fun _ => true) hi_stream) as [H _].
  split; [vm_compute; reflexivity|]. split; [vm_compute; reflexivity|].
  rewrite <- H; [vm_compute; reflexivity|vm_compute; discriminate|vm_compute; discriminate].
Defined.

(** ** What recording keeps, the response loop keeps *)

Section kept.
  Context (from_str : string -> option json) (to_string : json -> string)
    (protocol : ProviderProtocol) (late : nat -> bool)
    {W : Type} (append : ProviderDelta -> W -> W * result string ())
    (R : relation W) `{!PreOrder R} (Happend : forall d w, R w (fst (append d w))).
  Implicit Types s : StreamState W.

Lemma persist_delta_kept d s : R (st_world s) (st_world (fst (persist_delta append d s))).
Proof.
  assert (Hr : forall r, R (st_world s) (st_world (fst (let '(w, done) := append d (st_world s) in
    (set_stream_world w s, _ ← done; Ok (r : DeltaResult)))))).
  { intros r. pose proof (Happend d (st_world s)) as Ha. by destruct (append d (st_world s)). }
  destruct d; try apply Hr; reflexivity.
Qed.

Lemma flush_tools_kept l s : R (st_world s) (st_world (flush_tools append l s)).
Proof.
  revert s. induction l as [|b l IH]; intros s; [reflexivity|]. cbn [flush_tools].
  pose proof (persist_delta_kept (ToolCallDelta_ (tb_call_id b) (tb_name b) (tb_arguments b)) s) as Hp.
  destruct (persist_delta append _ s) as [s' [[]|]]; simpl in *; try exact Hp; (etrans; [exact Hp|apply IH]).
Qed.

Lemma flush_text_kept s : R (st_world s) (st_world (fst (flush_text append s))).
Proof.
  unfold flush_text. pose proof (persist_delta_kept (TextDelta (st_text s)) (set_text "" (st_texts s) s)) as Hp.
  destruct (persist_delta append _ _) as [s' []]; exact Hp.
Qed.

Lemma process_delta_kept d s : R (st_world s) (st_world (fst (process_delta late append d s))).
Proof.
  assert (Hp : R (st_world s) (st_world (fst (persist_delta append d
    (set_saw (st_saw_delta s || is_content d) (st_saw_completed s) s)))))
    by apply (persist_delta_kept d (set_saw (st_saw_delta s || is_content d) (st_saw_completed s) s)).
  unfold process_delta.
  destruct d; try (destruct (persist_delta append _ _) as [s' [[]|]]; exact Hp); try reflexivity.
  - destruct (_ && _); [reflexivity|].
    apply (flush_text_kept (set_text (st_text (set_saw (st_saw_delta s || is_content (TextDelta text))
      (st_saw_completed s) s) ++s text) _ (set_saw (st_saw_delta s || is_content (TextDelta text)) (st_saw_completed s) s))).
  - simpl. apply (flush_tools_kept _ (set_tools ∅ (set_saw (st_saw_delta s || false) true
      (set_saw (st_saw_delta s || false) (st_saw_completed s) s)))).
Qed.

Lemma process_deltas_kept l s : R (st_world s) (st_world (process_deltas late append l s)).
Proof.
  revert s. induction l as [|d l IH]; intros s; [reflexivity|]. cbn [process_deltas].
  pose proof (process_delta_kept d s) as Hp. destruct (process_delta late append d s) as [s' []]; [done|].
  etrans; [exact Hp|apply IH].
Qed.

Lemma process_frame_kept f s :
  R (st_world s) (st_world (process_frame from_str to_string protocol late append f s)).
Proof.
  unfold process_frame. destruct (negb _); [reflexivity|]. destruct (parse_sse_frame f) as [e d].
  destruct (is_empty _); [reflexivity|]. destruct (parse_sse_event _ _ _ _ _); [apply process_deltas_kept|reflexivity].
Qed.

Lemma drain_kept n b s :
  R (st_world s) (st_world (snd (drain from_str to_string protocol late append n b s))).
Proof.
  revert b s. induction n as [|n IH]; intros b s; [reflexivity|]. cbn [drain].
  destruct (find_sse_frame_end b) as [[i k]|]; [|reflexivity].
  pose proof (process_frame_kept (str_take i b) s) as Hp. destruct (running _); [|done].
  etrans; [exact Hp|apply IH].
Qed.

Lemma on_event_kept e b s :
  R (st_world s) (st_world (snd (on_event from_str to_string protocol late append e b s))).
Proof.
  destruct e; simpl; try reflexivity; [|apply drain_kept].
  destruct (is_empty _); [reflexivity|apply flush_text_kept].
Qed.

Lemma stream_loop_kept l b s :
  R (st_world s) (st_world (stream_loop from_str to_string protocol late append l b s)).
Proof.
  revert b s. induction l as [|e l IH]; intros b s; [reflexivity|]. cbn [stream_loop].
  pose proof (on_event_kept e b s) as Hp. destruct (on_event _ _ _ _ _ e b s) as [b' s'].
  destruct (_ && _); [|done]. etrans; [exact Hp|apply IH].
Qed.

Lemma flush_rest_kept s : R (st_world s) (st_world (fst (flush_rest append s))).
Proof.
  unfold flush_rest. destruct (is_empty _); [reflexivity|].
  pose proof (persist_delta_kept (TextDelta (st_text s)) (set_text "" (st_texts s) s)) as Hp.
  destruct (persist_delta append _ _) as [s' []]; exact Hp.
Qed.

Lemma collect_deltas_kept l s : R (st_world s) (st_world (collect_deltas append l s)).
Proof.
  revert s. induction l as [|d l IH]; intros s; [reflexivity|]. cbn [collect_deltas].
  pose proof (persist_delta_kept d s) as Hp.
  destruct d; [apply (IH (set_text _ _ s))|..];
    (destruct (persist_delta append _ s) as [s' [[]|]]; simpl in *; try exact Hp;
     first [etrans; [exact Hp|apply IH] | etrans; [exact Hp|apply (IH (set_stream_usage _ s'))]]).
Qed.

End kept.
