(* ===== verification/Transport.v ===== *)
(** Requests to providers: [ProviderTransport] of [piqo-provider/src/transport.rs].

    The client, its requests, header syntax and responses are [reqwest]'s: the
    class [Reqwest], with what the source relies on in [ReqwestLaws].  A [HashMap]
    of headers is given as the list of its entries in the order of its iteration,
    which Rust leaves open: theorems hold for every order. *)

From S2P Require Export Config Provider.

Class Reqwest := {
  Client : Type;
  Request : Type;
  Response : Type;
  HttpError : Type;
  (** [Client::builder()] with [connect_timeout], in seconds, and [timeout] *)
  client_with : Z -> option Z -> result HttpError Client;
  (** [client.post(endpoint).json(&body).build()], [client.get(endpoint).build()] *)
  post_json : string -> json -> result HttpError Request;
  get_request : string -> result HttpError Request;
  (** [HeaderName::from_bytes], as the name compares; [HeaderValue::from_str] *)
  header_name : string -> option string;
  header_value_ok : string -> bool;
  (** [headers_mut().insert]; what is sent: a header, and the rest of the request *)
  insert_header : string -> string -> Request -> Request;
  request_header : string -> Request -> option string;
  request_line : Request -> string * string;
  request_body : Request -> option json;
  (** [client.execute], one outcome for each request that is sent *)
  execute : N -> Client -> Request -> result HttpError Response;
  response_status : Response -> Z;
  is_success : Z -> bool;
  response_json : Response -> result HttpError json }.

Class ReqwestLaws (R : Reqwest) : Prop := {
  insert_header_eq name value r : request_header name (insert_header name value r) = Some value;
  insert_header_ne name name' value r : name <> name' ->
    request_header name' (insert_header name value r) = request_header name' r;
  insert_header_line name value r : request_line (insert_header name value r) = request_line r;
  insert_header_body name value r : request_body (insert_header name value r) = request_body r;
  authorization_name : header_name "authorization" = Some "authorization" }.

(** [ProviderTransportError]: [InvalidJson], [MalformedSse] and
    [MalformedModelCatalog] are the errors of the decoders. *)
Inductive ProviderTransportError `{Reqwest} :=
  | Http (e : HttpError)
  | InvalidHeader (reason : string)
  | HttpStatus (status : Z)
  | Decoding (e : TransportError).

Section transport.
  Context `{Reqwest}.

(** What a header of a configuration is checked for. *)
Definition header_syntax (name value : string) : bool :=
  bool_decide (is_Some (header_name name)) && header_value_ok value.

(** The loop over the headers of a provider. *)
Fixpoint insert_headers (headers : list (string * string)) (request : Request) :
    result ProviderTransportError Request :=
  match headers with
  | [] => Ok request
  | (name, value) :: headers =>
      name ← ok_or (InvalidHeader "invalid name") (header_name name);
      if header_value_ok value then insert_headers headers (insert_header name value request)
      else Err (InvalidHeader "invalid value")
  end.

Definition build_request (endpoint : string) (body : json) : result HttpError Request := post_json endpoint body.

Definition build_request_with_headers (endpoint : string) (body : json) (headers : list (string * string)) :
    result ProviderTransportError Request :=
  request ← map_err Http (post_json endpoint body); insert_headers headers request.

Definition send (number : N) (client : Client) (request : Request) : result HttpError Response :=
  execute number client request.

Definition send_with_connect_timeout (number : N) (request : Request) (timeout : Z) : result HttpError Response :=
  client ← client_with timeout None; execute number client request.

(** [discover_models] up to the catalog: its response as JSON. *)
Definition fetch_models (number : N) (endpoint : string) (headers : list (string * string)) (connect_timeout : Z) :
    result ProviderTransportError json :=
  client ← map_err Http (client_with connect_timeout (Some connect_timeout));
  request ← map_err Http (get_request endpoint);
  request ← insert_headers headers request;
  response ← map_err Http (execute number client request);
  if is_success (response_status response) then map_err Http (response_json response)
  else Err (HttpStatus (response_status response)).

Definition discover_models (number : N) (endpoint : string) (headers : list (string * string)) (connect_timeout : Z) :
    result ProviderTransportError (list DiscoveredModel) :=
  value ← fetch_models number endpoint headers connect_timeout;
  map_err Decoding (parse_model_catalog value).

End transport.
