(* ===== verification/Store.v ===== *)
(** The durable store of [piqo-server/src/storage.rs]: SQLite tables, the
    event log of every session, its cached projection, and the operations on
    them.

    A table is a finite map by primary key; the [events] table is keyed by
    session and event id.  [ON DELETE CASCADE] and the uniqueness constraints
    are written out.  A transaction works on a copy of the database that is
    kept only when every statement succeeds; the projection cache is outside
    the database, as in the source.  Clock readings and fresh ids are
    arguments.  The two JSON columns of an event row (written and read by
    [serde]) are the [payload] of an [EventCodec]; the enumerations stored as
    text (phase, retention) are kept as values.  The law of [EventCodec] is stricter
    than serde: a float may come back with its last bit changed and an [Option] that
    holds null as [None]; file CodecSpec says for which events it holds.  The tables
    of permission rules (file Permissions) and of agent links are not part of
    [database]. *)

From stdpp Require Import pretty.
From S2P Require Export EventLog BTree.
From S2P Require Import Permissions.
From S2P Require Export Session.

(** ** Encoding of events *)

Class EventCodec := {
  payload : Type;
  encode_event : SemanticEvent -> payload;
  decode_event : payload -> option (SemanticEvent * json);
  decode_encode_event : forall e, exists data, decode_event (encode_event e) = Some (e, data) }.

(** Events kept as they are: an instance for concrete stores. *)
Definition plain_codec : EventCodec :=
  {| payload := SemanticEvent; encode_event := fun e => e;
     decode_event := fun e => Some (e, JNull);
     decode_encode_event := fun e => ex_intro _ JNull eq_refl |}.

Definition EVENT_SCHEMA_VERSION : Z := 1.

Inductive HistoryRetention := Forever | OneYear | SixMonths | ThreeMonths | OneMonth.

(** The store's and the supervisor's errors, in the order of the source.  A
    constructor whose name is taken has a longer one here; texts made by other
    libraries are dropped. *)
Inductive StoreError :=
  | StoreIo
  | Database
  | Migration
  | InvalidEventJson
  | SessionNotFound (session_id : string)
  | ProjectNotFound (project_id : string)
  | ProjectPathConflict (path : string)
  | ProjectDeleting (project_id : string)
  | EventNotFound (session_id : string) (event_id : EventId)
  | UnsupportedSchemaVersion (version : Z)
  | CorruptSession (session_id reason : string)
  | InvalidSessionTransition (e : ProjectionError)
  | InvalidCursor
  | InvalidRequest (reason : string)
  | StoreConflict (reason : string)
  | QueueIsPaused
  | QueueNotPaused
  | RunNotFound (run_id : string)
  | ToolCallNotFound (call_id : string)
  | ToolCallWrongRun (call_id run_id : string)
  | ToolResultConflict (call_id : string)
  | CallerOwnedTranscript
  | NativeToolManaged (call_id : string)
  | McpToolManaged (call_id : string)
  | StoreProviderNotFound (provider : string)
  | ProviderUnavailable (reason : string)
  | ProviderProtocolError (reason : string)
  | ShuttingDown
  | ShutdownTimeout
  | RunCapacityExceeded
  | SseCapacityExceeded
  | InvalidRetention
  | CorruptDatabase
  | BackupUnavailable
  | StoreRuleNotFound (id : string)
  | StoreInvalidScope
  | AgentLinkConflict (call_id : string)
  | WorkerStatePoisoned.

(** ** Tables *)

Record SessionRow := mkSessionRow {
  sr_title : option string;
  sr_project_id : option string;
  sr_parent_session_id : option string;
  sr_forked_at_event_id : option Z;
  sr_created_at : string;
  sr_updated_at : string;
  sr_phase : SessionPhase;
  sr_revision : Z;
  sr_last_event_id : Z;
  sr_history_retention : HistoryRetention }.

(** [SessionSummary] is a row with its id. *)
Definition SessionSummary : Type := string * SessionRow.

Record Project := mkProject {
  pj_name : string; pj_path : string; pj_created_at : string; pj_updated_at : string }.

Section store.
  Context `{EventCodec}.

Record EventRow := mkEventRow {
  er_schema_version : Z;
  er_payload : payload;
  er_occurred_at : string }.

Record database := mkDatabase {
  db_sessions : gmap string SessionRow;
  db_events : gmap string (list (Z * EventRow));
  db_projects : gmap string Project }.

Record SqliteStore := mkStore {
  st_db : database;
  st_cache : gmap string SessionProjection }.

Definition empty_store : SqliteStore := mkStore (mkDatabase ∅ ∅ ∅) ∅.

Definition set_sessions (m : gmap string SessionRow) (db : database) : database :=
  mkDatabase m (db_events db) (db_projects db).
Definition set_events (m : gmap string (list (Z * EventRow))) (db : database) : database :=
  mkDatabase (db_sessions db) m (db_projects db).

(** The rows of one session, by event id: the table keeps them in that order. *)
Definition session_rows (session_id : string) (db : database) : list (Z * EventRow) :=
  default [] (db_events db !! session_id).

(** [INSERT INTO events]: refused on a duplicate key, and for a session that
    does not exist; ids are positive ([events_integrity_insert]). *)
Fixpoint insert_row (id : Z) (row : EventRow) (l : list (Z * EventRow)) : option (list (Z * EventRow)) :=
  match l with
  | [] => Some [(id, row)]
  | (i, r) :: l =>
      if id =? i then None
      else if id <? i then Some ((id, row) :: (i, r) :: l)
      else l' ← insert_row id row l; Some ((i, r) :: l')
  end.

Definition insert_event (session_id : string) (id : Z) (row : EventRow) (db : database) :
    result StoreError database :=
  if bool_decide (db_sessions db !! session_id = None) || (id <=? 0) then Err Database
  else
    rows ← ok_or Database (insert_row id row (session_rows session_id db));
    Ok (set_events (<[session_id := rows]> (db_events db)) db).

(** ** Reading events *)

Definition recorded_from_row (session_id : string) (row : Z * EventRow) :
    result StoreError RecordedEvent :=
  let '(id, r) := row in
  if negb (er_schema_version r =? EVENT_SCHEMA_VERSION)
  then Err (UnsupportedSchemaVersion
         (if (0 <=? er_schema_version r) && (er_schema_version r <=? u16_max)
          then er_schema_version r else u16_max))
  else
    '(event, data) ← ok_or InvalidEventJson (decode_event (er_payload r));
    if id <? 0 then Err (CorruptSession session_id "negative event id")
    else Ok (mkRecorded id session_id (er_schema_version r) (er_occurred_at r) event (Some data)).

Definition project_step (session_id : string) (acc : Z * SessionProjection) (event : RecordedEvent) :
    result StoreError (Z * SessionProjection) :=
  let '(n, state) := acc in
  let expected_id := n + 1 in
  if negb (re_id event =? expected_id) || negb (re_schema_version event =? EVENT_SCHEMA_VERSION)
  then Err (CorruptSession session_id ("non-contiguous or unsupported event " ++s pretty (re_id event)))
  else
    state ← map_err InvalidSessionTransition (SessionProjection.try_apply (re_id event) (re_event event) state);
    Ok (expected_id, state).

Definition project (session_id : string) (events : list RecordedEvent) :
    result StoreError SessionProjection :=
  '(_, state) ← try_fold (project_step session_id) (0, SessionProjection.new session_id) events;
  if bool_decide (events = []) then Err (CorruptSession session_id "session has no creation event")
  else Ok state.

(** [SELECT .. FROM events WHERE session_id = ? ORDER BY event_id]. *)
Definition read_events (session_id : string) (db : database) : result StoreError (list RecordedEvent) :=
  collect (recorded_from_row session_id) (session_rows session_id db).

Definition ensure_session (session_id : string) (db : database) : result StoreError () :=
  if bool_decide (is_Some (db_sessions db !! session_id)) then Ok ()
  else Err (SessionNotFound session_id).

(** [limit] is [None] for [u32::MAX]. *)
Definition events_after (session_id : string) (after : EventId) (limit : option Z) (db : database) :
    result StoreError (list RecordedEvent) :=
  _ ← ensure_session session_id db;
  after ← ok_or InvalidCursor (i64_of_u64 after);
  let rows := List.filter (fun r => after <? fst r) (session_rows session_id db) in
  collect (recorded_from_row session_id)
    match limit with
    | None => rows
    | Some n => take (Z.to_nat (Z.max 1 (Z.min n 200))) rows
    end.

Definition projection (session_id : string) (s : SqliteStore) :
    SqliteStore * result StoreError SessionProjection :=
  match st_cache s !! session_id with
  | Some p => (s, Ok p)
  | None =>
      match (events ← events_after session_id 0 None (st_db s); project session_id events) with
      | Ok p => (mkStore (st_db s) (<[session_id := p]> (st_cache s)), Ok p)
      | Err e => (s, Err e)
      end
  end.

Definition get_session (session_id : string) (db : database) : result StoreError SessionSummary :=
  row ← ok_or (SessionNotFound session_id) (db_sessions db !! session_id); Ok (session_id, row).

Definition session_snapshot (session_id : string) (db : database) :
    result StoreError (SessionSummary * SessionProjection) :=
  summary ← get_session session_id db;
  events ← read_events session_id db;
  p ← project session_id events;
  if bool_decide (ss_last_event_id (sp_state p) = Some (sr_last_event_id (snd summary)))
  then Ok (summary, p)
  else Err (CorruptSession session_id "session summary and event projection disagree on last event id").

(** ** Writing *)

Definition event_row (occurred_at : string) (event : SemanticEvent) : EventRow :=
  mkEventRow EVENT_SCHEMA_VERSION (encode_event event) occurred_at.

(** [insert_event_row]. *)
Definition insert_event_row (session_id : string) (event_id : EventId) (occurred_at : string)
    (event : SemanticEvent) (db : database) : result StoreError database :=
  id ← ok_or InvalidCursor (i64_of_u64 event_id);
  insert_event session_id id (event_row occurred_at event) db.

Definition set_projection_columns (p : SessionProjection) (revision last_event_id : Z)
    (updated_at : string) (r : SessionRow) : SessionRow :=
  mkSessionRow (sr_title r) (sr_project_id r) (sr_parent_session_id r) (sr_forked_at_event_id r)
    (sr_created_at r) updated_at (ss_phase (sp_state p)) revision last_event_id
    (sr_history_retention r).

Definition create_session (id now : string) (title project_id : option string)
    (history_retention : HistoryRetention) (s : SqliteStore) :
    SqliteStore * result StoreError SessionSummary :=
  let db := st_db s in
  match
    (_ ← match project_id with
         | Some p => if bool_decide (is_Some (db_projects db !! p)) then Ok ()
                     else Err (ProjectNotFound p)
         | None => Ok ()
         end;
     _ ← (if bool_decide (is_Some (db_sessions db !! id)) then Err Database else Ok ());
     let row := mkSessionRow title project_id None None now now Created 0 1 history_retention in
     insert_event_row id 1 now (SessionCreated title)
       (set_sessions (<[id := row]> (db_sessions db)) db))
  with
  | Ok db' => let s' := mkStore db' (st_cache s) in (s', get_session id db')
  | Err e => (s, Err e)
  end.

(** One iteration of the loop of [append_events], inside its transaction.
    [last_event_id + 1] beyond the [INTEGER] range becomes a float, which the
    driver does not read as an [i64]. *)
Definition append_step (session_id now : string) (acc : database * SessionProjection * list RecordedEvent)
    (event : SemanticEvent) : result StoreError (database * SessionProjection * list RecordedEvent) :=
  let '(db, p, recorded) := acc in
  row ← ok_or (SessionNotFound session_id) (db_sessions db !! session_id);
  let event_id := sr_last_event_id row + 1 in
  if i64_max <? event_id then Err Database
  else if event_id <? 0 then Err (CorruptSession session_id "negative event id")
  else
    p' ← map_err InvalidSessionTransition (SessionProjection.try_apply event_id event p);
    db' ← insert_event_row session_id event_id now event db;
    revision ← ok_or InvalidCursor (i64_of_u64 (ss_revision (sp_state p')));
    let row' := set_projection_columns p' revision event_id now row in
    Ok (set_sessions (<[session_id := row']> (db_sessions db')) db', p',
        recorded ++ [mkRecorded event_id session_id EVENT_SCHEMA_VERSION now event None]).

(** The transaction of [append_events], from the projection it starts with. *)
Definition append_transaction (session_id now : string) (cached : option SessionProjection)
    (events : list SemanticEvent) (db : database) :
    result StoreError (database * SessionProjection * list RecordedEvent) :=
  p ← match cached with
      | Some p => Ok p
      | None => previous ← read_events session_id db; project session_id previous
      end;
  try_fold (append_step session_id now) (db, p, []) events.

(** The three steps of [append_events] that other tasks can be scheduled
    between: the cache is read, the transaction commits, the cache is written. *)
Definition append_read (session_id : string) (s : SqliteStore) : option SessionProjection :=
  st_cache s !! session_id.

Definition append_commit (session_id now : string) (cached : option SessionProjection)
    (events : list SemanticEvent) (s : SqliteStore) :
    SqliteStore * result StoreError (SessionProjection * list RecordedEvent) :=
  match append_transaction session_id now cached events (st_db s) with
  | Ok (db, p, recorded) => (mkStore db (st_cache s), Ok (p, recorded))
  | Err e => (s, Err e)
  end.

Definition append_cache (session_id : string) (p : SessionProjection) (s : SqliteStore) : SqliteStore :=
  mkStore (st_db s) (<[session_id := p]> (st_cache s)).

Definition append_events (session_id now : string) (events : list SemanticEvent) (s : SqliteStore) :
    SqliteStore * result StoreError (list RecordedEvent) :=
  match events with
  | [] => (s, Ok [])
  | _ =>
      match append_commit session_id now (append_read session_id s) events s with
      | (s, Ok (p, recorded)) => (append_cache session_id p s, Ok recorded)
      | (s, Err e) => (s, Err e)
      end
  end.

(** [append_event]: the first of the recorded events. *)
Definition append_event (session_id now : string) (event : SemanticEvent) (s : SqliteStore) :
    SqliteStore * result StoreError RecordedEvent :=
  let '(s, r) := append_events session_id now [event] s in
  (s, recorded ← r; ok_or (CorruptSession session_id "empty append result") (head recorded)).

(** ** Forks *)

Definition fork_events (parent_session_id : string) (at_event_id : EventId) (p : SessionProjection) :
    list SemanticEvent :=
  [SessionForked parent_session_id at_event_id]
  ++ match SessionProjection.active_run p with
     | Some run => [RunInterrupted (rp_run_id run) "forked_branch"]
     | None => []
     end
  ++ [QueuePaused].

Definition fork_step (id created_at : string) (acc : database * SessionProjection * Z)
    (event : SemanticEvent) : result StoreError (database * SessionProjection * Z) :=
  let '(db, p, next_id) := acc in
  p' ← map_err InvalidSessionTransition (SessionProjection.try_apply next_id event p);
  db' ← insert_event_row id next_id created_at event db;
  revision ← ok_or InvalidCursor (i64_of_u64 (ss_revision (sp_state p')));
  last ← ok_or InvalidCursor (i64_of_u64 next_id);
  row ← ok_or Database (db_sessions db' !! id);
  let row' := set_projection_columns p' revision last created_at row in
  let db'' := set_sessions (<[id := row']> (db_sessions db')) db' in
  if next_id =? u64_max then Err InvalidCursor else Ok (db'', p', next_id + 1).

Definition fork_session (id created_at parent_session_id : string) (at_event_id : EventId)
    (title : option string) (s : SqliteStore) : SqliteStore * result StoreError SessionSummary :=
  let db := st_db s in
  match
    (parent ← ok_or (SessionNotFound parent_session_id) (db_sessions db !! parent_session_id);
     at_id ← ok_or InvalidCursor (i64_of_u64 at_event_id);
     let rows := List.filter (fun r => fst r <=? at_id) (session_rows parent_session_id db) in
     if negb (bool_decide (fst <$> last rows = Some at_id))
     then Err (EventNotFound parent_session_id at_event_id)
     else
       parent_events ← collect (recorded_from_row parent_session_id) rows;
       parent_state ← project parent_session_id parent_events;
       _ ← (if bool_decide (is_Some (db_sessions db !! id)) then Err Database else Ok ());
       revision ← ok_or InvalidCursor (i64_of_u64 (ss_revision (sp_state parent_state)));
       let row := mkSessionRow title (sr_project_id parent) (Some parent_session_id) (Some at_id)
                    created_at created_at (ss_phase (sp_state parent_state)) revision at_id Forever in
       let db1 := set_sessions (<[id := row]> (db_sessions db)) db in
       let db2 := set_events (<[id := rows]> (db_events db1)) db1 in
       if at_event_id =? u64_max then Err InvalidCursor
       else
         '(db3, _, _) ← try_fold (fork_step id created_at) (db2, parent_state, at_event_id + 1)
                          (fork_events parent_session_id at_event_id parent_state);
         Ok db3)
  with
  | Ok db' => let s' := mkStore db' (st_cache s) in (s', get_session id db')
  | Err e => (s, Err e)
  end.

(** ** Retention, projects, recovery, validation *)

Definition update_session_retention (session_id : string) (h : HistoryRetention) (s : SqliteStore) :
    SqliteStore * result StoreError SessionSummary :=
  let db := st_db s in
  match db_sessions db !! session_id with
  | None => (s, Err (SessionNotFound session_id))
  | Some r =>
      let r' := mkSessionRow (sr_title r) (sr_project_id r) (sr_parent_session_id r)
        (sr_forked_at_event_id r) (sr_created_at r) (sr_updated_at r) (sr_phase r) (sr_revision r)
        (sr_last_event_id r) h in
      let db' := set_sessions (<[session_id := r']> (db_sessions db)) db in
      (mkStore db' (st_cache s), get_session session_id db')
  end.

Definition path_taken (path : string) (except : option string) (db : database) : bool :=
  existsb (fun ip => String.eqb (pj_path (snd ip)) path
                     && negb (bool_decide (except = Some (fst ip)))) (map_to_list (db_projects db)).

(** [CHECK (length(trim(name)) > 0)]: [trim] drops spaces, [length] stops at
    the first NUL. *)
Fixpoint name_allowed (name : string) : bool :=
  match name with
  | EmptyString => false
  | String c name =>
      if Ascii.eqb c " " then name_allowed name else negb (Ascii.eqb c "000")
  end.

Definition create_project (id now name path : string) (s : SqliteStore) :
    SqliteStore * result StoreError Project :=
  let db := st_db s in
  if negb (name_allowed name) then (s, Err Database)
  else if bool_decide (is_Some (db_projects db !! id)) || path_taken path None db
  then (s, Err (ProjectPathConflict path))
  else
    let p := mkProject name path now now in
    (mkStore (mkDatabase (db_sessions db) (db_events db) (<[id := p]> (db_projects db))) (st_cache s), Ok p).

Definition update_project (id now : string) (name path : option string) (s : SqliteStore) :
    SqliteStore * result StoreError Project :=
  let db := st_db s in
  match db_projects db !! id with
  | None => (s, Err (ProjectNotFound id))
  | Some c =>
      let name' := default (pj_name c) name in
      let path' := default (pj_path c) path in
      if negb (name_allowed name') then (s, Err Database)
      else if path_taken path' (Some id) db then (s, Err (ProjectPathConflict path'))
      else
        let p := mkProject name' path' (pj_created_at c) now in
        (mkStore (mkDatabase (db_sessions db) (db_events db) (<[id := p]> (db_projects db))) (st_cache s),
         Ok p)
  end.

Definition in_project (project_id : string) (r : SessionRow) : Prop := sr_project_id r = Some project_id.
#[export] Instance in_project_dec project_id r : Decision (in_project project_id r).
Proof. unfold in_project. apply _. Defined.

(** [SELECT id FROM sessions WHERE project_id = ?]. *)
Definition project_session_ids (project_id : string) (db : database) : gset string :=
  dom (filter (fun kr => in_project project_id (snd kr)) (db_sessions db)).

(** A session that a session of another project was forked from keeps the
    deletion from happening: [parent_session_id] references [sessions] without
    a cascade.  [events] rows follow their session. *)
Definition dangling_fork (gone : gset string) (db : database) : bool :=
  existsb (fun kr => bool_decide (fst kr ∉ gone)
             && match sr_parent_session_id (snd kr) with
                | Some parent => bool_decide (parent ∈ gone)
                | None => false
                end) (map_to_list (db_sessions db)).

Definition delete_project (project_id : string) (s : SqliteStore) : SqliteStore * result StoreError () :=
  let db := st_db s in
  if negb (bool_decide (is_Some (db_projects db !! project_id))) then (s, Err (ProjectNotFound project_id))
  else
    let gone := project_session_ids project_id db in
    if dangling_fork gone db then (s, Err Database)
    else
      let keep {A} (m : gmap string A) : gmap string A := filter (fun kv => fst kv ∉ gone) m in
      (mkStore (mkDatabase (keep (db_sessions db)) (keep (db_events db)) (delete project_id (db_projects db)))
         (keep (st_cache s)), Ok ()).

Definition running_ids (db : database) : list string :=
  (List.filter (fun kr => bool_decide (sr_phase (snd kr) = Running)) (btree_entries (db_sessions db))).*1.

Definition recover_one (now : string) (s : SqliteStore) (id : string) :
    SqliteStore * result StoreError RecordedEvent :=
  match append_event id now (SessionInterrupted "server_restart") s with
  | (s, Err e) => (s, Err e)
  | (s, Ok interrupted) =>
      match projection id s with
      | (s, Err e) => (s, Err e)
      | (s, Ok p) =>
          match SessionProjection.active_run p with
          | None => (s, Ok interrupted)
          | Some run =>
              let '(s, r) := append_event id now (RunInterrupted (rp_run_id run) "server_restart") s in
              (s, _ ← r; Ok interrupted)
          end
      end
  end.

Fixpoint recover_all (now : string) (ids : list string) (s : SqliteStore) :
    SqliteStore * result StoreError (list RecordedEvent) :=
  match ids with
  | [] => (s, Ok [])
  | id :: ids =>
      match recover_one now s id with
      | (s, Ok e) => let '(s, r) := recover_all now ids s in (s, es ← r; Ok (e :: es))
      | (s, Err e) => (s, Err e)
      end
  end.

Definition recover_running_sessions (now : string) (s : SqliteStore) :
    SqliteStore * result StoreError (list RecordedEvent) :=
  recover_all now (running_ids (st_db s)) s.

Definition validate_session (db : database) (kr : string * SessionRow) : result StoreError () :=
  let '(id, row) := kr in
  events ← events_after id 0 None db;
  p ← project id events;
  if sr_revision row <? 0 then Err (CorruptSession id "negative revision")
  else if sr_last_event_id row <? 0 then Err (CorruptSession id "negative event id")
  else if negb (bool_decide (ss_phase (sp_state p) = sr_phase row))
          || negb (ss_revision (sp_state p) =? sr_revision row)
          || negb (default 0 (ss_last_event_id (sp_state p)) =? sr_last_event_id row)
  then Err (CorruptSession id "projection cache does not match event log")
  else Ok ().

Definition validate_all (db : database) : result StoreError () :=
  _ ← collect (validate_session db) (map_to_list (db_sessions db)); Ok ().

End store.

(** ** Pagination cursors *)

Definition bar : ascii := "|"%char.
Definition encode_cursor (created_at id : string) : string := created_at ++s String bar id.
Definition decode_cursor (cursor : string) : result StoreError (string * string) :=
  '(created_at, id) ← ok_or InvalidCursor (split_once bar cursor);
  if is_empty created_at || is_empty id then Err InvalidCursor else Ok (created_at, id).
