(* ===== verification/StoreFacts.v ===== *)
(** Facts about the store (file Store).

    Three layers: a projection does not depend on the id of its session and
    [project] is a replay of numbered events; what one statement and one
    transaction do to a database whose session row agrees with its event rows
    ([row_ok]); the invariant [consistent] of whole stores. *)

From S2P Require Export SessionSpec Store.
Import SessionProjection.

(** ** Renaming a session *)

Definition rmap {E A B} (f : A -> B) (r : result E A) : result E B :=
  match r with Ok a => Ok (f a) | Err e => Err e end.

Section set_state.
  Context (s : SessionState) (p : SessionProjection).

Lemma update_run_state k f : update_run k f (set_state s p) = rmap (set_state s) (update_run k f p).
Proof. unfold update_run. simpl. by destruct (update_entry _ _ _ _). Qed.

Lemma update_message_state k f :
  update_message k f (set_state s p) = rmap (set_state s) (update_message k f p).
Proof. unfold update_message. simpl. by destruct (update_first _ _ _ _). Qed.

Lemma update_instance_state k f :
  update_instance k f (set_state s p) = rmap (set_state s) (update_instance k f p).
Proof. unfold update_instance. simpl. by destruct (update_entry _ _ _ _). Qed.

Lemma permission_resolved_state k d :
  permission_resolved k d (set_state s p) = rmap (set_state s) (permission_resolved k d p).
Proof. unfold permission_resolved. simpl. by destruct (update_entry _ _ _ _). Qed.

Lemma leave_state (q q' : SessionProjection) (r r' : result ProjectionError SessionProjection) :
  r' = rmap (set_state s) r -> q' = set_state s q ->
  leave q' r' = (set_state s (fst (leave q r)), snd (leave q r)).
Proof. intros -> ->. by destruct r. Qed.
End set_state.

Lemma run_completed_state s p k u :
  run_completed k u (set_state s p) = rmap (set_state s) (run_completed k u p).
Proof.
  unfold run_completed, set_run_terminal. rewrite update_run_state.
  destruct (update_run _ _ p) as [q|]; simpl; [apply update_run_state|done].
Qed.

(** No arm of [apply] after the state machine looks at the state. *)
Lemma project_event_state i ev s p :
  project_event i ev (set_state s p) =
    (set_state s (fst (project_event i ev p)), snd (project_event i ev p)).
Proof.
  destruct ev; simpl; try reflexivity;
    try (apply leave_state; [|reflexivity]);
    try apply update_run_state; try apply update_message_state; try apply update_instance_state;
    try apply run_completed_state; try apply permission_resolved_state.
  all: try (unfold message_started, agent_spawned, permission_requested, run_queued, run_started,
    run_requires_action, run_failed, run_cancelled, run_interrupted, set_run_terminal,
    context_fact_recorded; simpl; rewrite ?update_run_state;
    try (destruct (update_run _ _ p) eqn:?; simpl; try done); case_match; simpl; done).
  apply (update_instance_state s (set_agents (<[agent_id:=APFinished]> (sp_agents p)) p)).
Qed.

Definition rename_state (id : string) (s : SessionState) : SessionState :=
  mkState id (ss_phase s) (ss_revision s) (ss_last_event_id s).
Definition rename (id : string) (p : SessionProjection) : SessionProjection :=
  set_state (rename_state id (sp_state p)) p.

Lemma state_apply_rename id i ev s :
  SessionState.apply i ev (rename_state id s) = rmap (rename_state id) (SessionState.apply i ev s).
Proof.
  unfold SessionState.apply, SessionState.interrupt, SessionState.transition.
  destruct ev; simpl; try done; by repeat (case_match; simpl; try done).
Qed.

Lemma set_state_twice s s' p : set_state s (set_state s' p) = set_state s p.
Proof. done. Qed.

Lemma try_apply_rename id i ev p :
  try_apply i ev (rename id p) = rmap (rename id) (try_apply i ev p).
Proof.
  unfold try_apply, apply. simpl. rewrite state_apply_rename.
  destruct (SessionState.apply i ev (sp_state p)) as [s|]; simpl; [|done].
  unfold rename. rewrite set_state_twice, !project_event_state.
  destruct (project_event i ev p) as [q [e|]]; simpl; [done|]. by rewrite set_state_twice.
Qed.

Lemma new_rename id id' : new id = rename id (new id').
Proof. done. Qed.

Lemma replay_cons p e l :
  replay p (e :: l) = (q ← try_apply (re_id e) (re_event e) p; replay q l).
Proof. done. Qed.

Lemma replay_rename id p l : replay (rename id p) l = rmap (rename id) (replay p l).
Proof.
  revert p. induction l as [|e l IH]; intros p; [done|].
  rewrite !replay_cons, try_apply_rename.
  destruct (try_apply _ _ p) as [q|]; simpl; [apply IH|done].
Qed.

(** [replay] looks at ids and events only. *)
Lemma replay_same p l l' :
  Forall2 (fun e e' => re_id e = re_id e' /\ re_event e = re_event e') l l' ->
  replay p l = replay p l'.
Proof.
  intros H. revert p. induction H as [|e e' l l' [Hi He] _ IH]; intros p; [done|].
  rewrite !replay_cons, Hi, He.
  by destruct (try_apply _ _ p) as [q|]; simpl.
Qed.

(** ** [project] is a replay of events numbered from one *)

Fixpoint numbered (n : Z) (l : list RecordedEvent) : Prop :=
  match l with
  | [] => True
  | e :: l => re_id e = n + 1 /\ re_schema_version e = EVENT_SCHEMA_VERSION /\ numbered (n + 1) l
  end.

Lemma numbered_app n l l' :
  numbered n (l ++ l') <-> numbered n l /\ numbered (n + Z.of_nat (length l)) l'.
Proof.
  revert n. induction l as [|e l IH]; intros n; simpl; [rewrite Z.add_0_r; tauto|].
  rewrite IH. replace (n + 1 + Z.of_nat (length l)) with (n + Z.of_nat (S (length l))) by lia. tauto.
Qed.

Lemma numbered_ids n l e : numbered n l -> e ∈ l -> n < re_id e <= n + Z.of_nat (length l).
Proof.
  revert n. induction l as [|x l IH]; intros n; simpl; [by intros _ ?%elem_of_nil|].
  intros (Hx&_&Hl) [->|He]%elem_of_cons; [lia|]. specialize (IH _ Hl He). lia.
Qed.

Lemma project_fold id n p l m q :
  try_fold (project_step id) (n, p) l = Ok (m, q) <->
  numbered n l /\ replay p l = Ok q /\ m = n + Z.of_nat (length l).
Proof.
  revert n p. induction l as [|e l IH]; intros n p; simpl.
  - split; [intros [= <- <-]; split_and!; [done|done|lia]|].
    intros (_ & [= ->] & ->). by rewrite Z.add_0_r.
  - rewrite replay_cons.
    destruct (Z.eqb_spec (re_id e) (n + 1)) as [Hi|Hi]; simpl; [|split; [done|tauto]].
    destruct (Z.eqb_spec (re_schema_version e) EVENT_SCHEMA_VERSION) as [Hv|Hv]; simpl;
      [|split; [done|tauto]].
    destruct (try_apply (re_id e) (re_event e) p) as [p1|]; simpl;
      [|split; [done|by intros (_&?&_)]].
    rewrite IH. replace (n + 1 + Z.of_nat (length l)) with (n + Z.of_nat (S (length l))) by lia.
    tauto.
Qed.

Lemma project_Ok id l p :
  project id l = Ok p <-> l <> [] /\ numbered 0 l /\ replay (new id) l = Ok p.
Proof.
  unfold project.
  destruct (try_fold (project_step id) (0, new id) l) as [[m q]|e] eqn:E; simpl.
  - apply project_fold in E as (Hn & Hr & _). case_bool_decide as Hl.
    + split; [done|]. by intros [? _].
    + split; [by intros [= <-]|]. intros (_&_&?). congruence.
  - split; [done|]. intros (_ & Hn & Hr).
    rewrite (proj2 (project_fold id 0 (new id) l _ p) (conj Hn (conj Hr eq_refl))) in E. done.
Qed.

(** The last id and the revision of a replayed projection. *)
Lemma state_apply_bounds i ev s s' :
  SessionState.apply i ev s = Ok s' -> 0 <= ss_revision s ->
  ss_last_event_id s' = Some i /\ 0 <= ss_revision s' <= ss_revision s + 1.
Proof.
  intros H Hs. assert (Ht : forall t, u64_add (ss_revision t) 1 <= ss_revision t + 1 \/ ss_revision t < 0).
  { intros t. unfold u64_add. destruct (decide (ss_revision t < 0)); [by right|left]. apply Z.mod_le; lia. }
  apply session_apply_spec in H as [_ H]. pose proof (u64_add_range (ss_revision s) 1).
  specialize (Ht s). destruct (phase_request ev) as [[f t]|]; [destruct H as [_ ->]|subst s']; simpl; split; try done; lia.
Qed.

Lemma replay_bounds p l p' :
  replay p l = Ok p' -> 0 <= ss_revision (sp_state p) ->
  0 <= ss_revision (sp_state p') <= ss_revision (sp_state p) + Z.of_nat (length l).
Proof.
  revert p. induction l as [|e l IH]; intros p H Hp; [injection H as ->; simpl; lia|].
  rewrite replay_cons in H. inv_ok. rename Heqr into E.
  apply try_apply_control in E as [E _]. apply state_apply_bounds in E as [_ E]; [|done].
  specialize (IH _ H). simpl length. lia.
Qed.

Lemma project_state id l p :
  project id l = Ok p ->
  ss_last_event_id (sp_state p) = Some (Z.of_nat (length l))
  /\ 0 <= ss_revision (sp_state p) <= Z.of_nat (length l).
Proof.
  intros (Hne & Hn & Hr)%project_Ok. split; [|apply (replay_bounds _ _ _ Hr); done].
  destruct l as [|e l _] using rev_ind; [done|].
  apply numbered_app in Hn as [_ [Hi _]]. apply replay_app in Hr as (q & Hq & H). cbn in H.
  destruct (apply_recorded q e) as [p1|] eqn:E; [|done]. injection H as ->.
  apply try_apply_control in E as [E _]. apply state_apply_bounds in E as [-> _];
    [|apply (replay_bounds _ _ _ Hq); done].
  rewrite length_app. simpl. f_equal. lia.
Qed.

(** ** One session in a database *)

Lemma collect_app {E A B} (f : A -> result E B) l1 l2 :
  collect f (l1 ++ l2) = (b1 ← collect f l1; b2 ← collect f l2; Ok (b1 ++ b2)).
Proof.
  induction l1 as [|a l1 IH]; simpl; [by destruct (collect f l2)|].
  destruct (f a) as [b|]; simpl; [|done]. rewrite IH.
  destruct (collect f l1); simpl; [|done]. by destruct (collect f l2).
Qed.

(** An event without the JSON it was parsed from: the view that an event
    returned by an append shares with the one read back. *)
Definition strip (e : RecordedEvent) : RecordedEvent :=
  mkRecorded (re_id e) (re_session_id e) (re_schema_version e) (re_occurred_at e) (re_event e) None.

(** What [append_events] records for [events] after event [n]. *)
Fixpoint record_at (session_id now : string) (n : Z) (events : list SemanticEvent) : list RecordedEvent :=
  match events with
  | [] => []
  | e :: events =>
      mkRecorded (n + 1) session_id EVENT_SCHEMA_VERSION now e None
      :: record_at session_id now (n + 1) events
  end.

(** The abstract append: it extends a projection by numbered events. *)
Definition log_step (acc : Z * SessionProjection) (event : SemanticEvent) :
    result StoreError (Z * SessionProjection) :=
  let '(n, p) := acc in
  if i64_max <? n + 1 then Err Database
  else p' ← map_err InvalidSessionTransition (try_apply (n + 1) event p); Ok (n + 1, p').

(** Rows that agree on everything an append does not write. *)
Definition same_meta (r r' : SessionRow) : Prop :=
  sr_title r' = sr_title r /\ sr_project_id r' = sr_project_id r
  /\ sr_parent_session_id r' = sr_parent_session_id r
  /\ sr_forked_at_event_id r' = sr_forked_at_event_id r
  /\ sr_created_at r' = sr_created_at r /\ sr_history_retention r' = sr_history_retention r.

#[export] Instance same_meta_preorder : PreOrder same_meta.
Proof.
  split; [by intros r|]. intros r1 r2 r3 (?&?&?&?&?&?) (?&?&?&?&?&?). split_and!; congruence.
Qed.

(** [solve_frame] proves [frame] (below) of a database given by its tables. *)
Ltac solve_frame := split_and!; simpl; intros; try rewrite lookup_insert_ne by done; done.

Section rows.
  Context `{EventCodec}.

Lemma recorded_from_event_row session_id i now ev :
  0 <= i -> exists data,
    recorded_from_row session_id (i, event_row now ev) =
      Ok (mkRecorded i session_id EVENT_SCHEMA_VERSION now ev (Some data)).
Proof.
  intros Hi. destruct (decode_encode_event ev) as [data Hd]. exists data.
  unfold recorded_from_row. simpl. rewrite Hd. simpl. by rewrite (proj2 (Z.ltb_ge _ _) Hi).
Qed.

Lemma recorded_from_row_id session_id row e :
  recorded_from_row session_id row = Ok e -> re_id e = fst row /\ re_session_id e = session_id.
Proof. destruct row as [i r]. unfold recorded_from_row. intros H'. by split_ok. Qed.

Lemma collect_ids session_id rows evs :
  collect (recorded_from_row session_id) rows = Ok evs -> rows.*1 = re_id <$> evs.
Proof.
  intros Hc%collect_Forall2. induction Hc as [|r e rows evs He _ IH]; [done|].
  apply recorded_from_row_id in He as [He _]. rewrite !fmap_cons, He. by f_equal.
Qed.

Lemma insert_row_last i r rows :
  Forall (fun x => x < i) rows.*1 -> insert_row i r rows = Some (rows ++ [(i, r)]).
Proof.
  induction rows as [|[j x] rows IH]; simpl; [done|]. intros [Hj Hf]%Forall_cons.
  rewrite (proj2 (Z.eqb_neq _ _)), (proj2 (Z.ltb_ge _ _)), IH by (done || lia). done.
Qed.

(** The session row [row] is the summary of the event rows of [id], which
    decode to [evs] and project to [p]. *)
Record row_ok (db : database) (id : string) (row : SessionRow) (evs : list RecordedEvent)
    (p : SessionProjection) : Prop := {
  ro_row : db_sessions db !! id = Some row;
  ro_read : read_events id db = Ok evs;
  ro_project : project id evs = Ok p;
  ro_phase : sr_phase row = ss_phase (sp_state p);
  ro_revision : sr_revision row = ss_revision (sp_state p);
  ro_last : sr_last_event_id row = Z.of_nat (length evs) }.

(** The database after one more event of [id]. *)
Definition appended (id now : string) (n : Z) (ev : SemanticEvent) (p : SessionProjection)
    (row : SessionRow) (db : database) : database :=
  set_sessions
    (<[id := set_projection_columns p (ss_revision (sp_state p)) n now row]> (db_sessions db))
    (set_events (<[id := session_rows id db ++ [(n, event_row now ev)]]> (db_events db)) db).

(** Nothing but session [id] changes. *)
Definition frame (id : string) (db db' : database) : Prop :=
  (forall j, j <> id -> db_sessions db' !! j = db_sessions db !! j)
  /\ (forall j, j <> id -> db_events db' !! j = db_events db !! j)
  /\ db_projects db' = db_projects db.

#[export] Instance frame_preorder id : PreOrder (frame id).
Proof.
  split; [by intros db|]. intros d1 d2 d3 (Hs&He&Hp) (Hs'&He'&Hp').
  split_and!; [| |congruence]; intros j Hj; [by rewrite Hs', Hs|by rewrite He', He].
Qed.

Lemma appended_frame id now n ev p row db : frame id db (appended id now n ev p row db).
Proof. solve_frame. Qed.

Lemma appended_rows id now n ev p row db :
  session_rows id (appended id now n ev p row db) = session_rows id db ++ [(n, event_row now ev)].
Proof. unfold session_rows. simpl. by rewrite lookup_insert_eq. Qed.

Lemma insert_event_row_next db id row evs p now ev :
  row_ok db id row evs p -> Z.of_nat (length evs) + 1 <= i64_max ->
  let n := Z.of_nat (length evs) + 1 in
  insert_event_row id n now ev db =
    Ok (set_events (<[id := session_rows id db ++ [(n, event_row now ev)]]> (db_events db)) db).
Proof.
  intros [Hrow Hread Hp _ _ _] Hn n. unfold insert_event_row, insert_event. fold n in Hn.
  rewrite i64_of_u64_in by lia. simpl. rewrite Hrow. simpl.
  rewrite (proj2 (Z.leb_gt _ _)) by (unfold n; lia). simpl.
  rewrite insert_row_last; [done|]. rewrite (collect_ids _ _ _ Hread), Forall_fmap.
  apply project_Ok in Hp as (_ & Hnum & _). apply Forall_forall. intros e He.
  apply (numbered_ids 0) in He; [|done]. simpl. unfold n. lia.
Qed.

Lemma row_ok_step db id row evs p now ev p' :
  row_ok db id row evs p ->
  let n := Z.of_nat (length evs) + 1 in
  try_apply n ev p = Ok p' ->
  exists data,
    row_ok (appended id now n ev p' row db) id
      (set_projection_columns p' (ss_revision (sp_state p')) n now row)
      (evs ++ [mkRecorded n id EVENT_SCHEMA_VERSION now ev (Some data)]) p'.
Proof.
  intros [Hrow Hread Hp _ _ _] n Ht.
  destruct (recorded_from_event_row id n now ev) as [data Hd]; [unfold n; lia|]. exists data.
  split; simpl; try done.
  - apply lookup_insert_eq.
  - unfold read_events. rewrite appended_rows, collect_app.
    unfold read_events in Hread. rewrite Hread. cbn [collect]. by rewrite Hd.
  - apply project_Ok in Hp as (Hne & Hnum & Hr). apply project_Ok. split_and!.
    + by destruct evs.
    + apply numbered_app. by split_and!.
    + unfold replay. rewrite try_fold_app. unfold replay in Hr. rewrite Hr. simpl.
      unfold apply_recorded. simpl. by rewrite Ht.
  - rewrite length_app. simpl. unfold n. lia.
Qed.

(** The revision fits wherever the event id does. *)
Lemma row_ok_revision db id row evs p ev p' :
  row_ok db id row evs p -> try_apply (Z.of_nat (length evs) + 1) ev p = Ok p' ->
  Z.of_nat (length evs) + 1 <= i64_max ->
  i64_of_u64 (ss_revision (sp_state p')) = Some (ss_revision (sp_state p')).
Proof.
  intros [_ _ Hp _ _ _] Ht Hn. apply project_state in Hp as [_ Hb].
  apply try_apply_control in Ht as [Ht _]. apply state_apply_bounds in Ht as [_ Ht]; [|lia].
  apply i64_of_u64_in. lia.
Qed.

Lemma append_step_eq db id row evs p recorded now ev :
  row_ok db id row evs p ->
  append_step id now (db, p, recorded) ev =
    ('(n, p') ← log_step (Z.of_nat (length evs), p) ev;
     Ok (appended id now n ev p' row db, p',
         recorded ++ [mkRecorded n id EVENT_SCHEMA_VERSION now ev None])).
Proof.
  intros Hok. unfold append_step, log_step. rewrite (ro_row _ _ _ _ _ Hok). simpl.
  rewrite (ro_last _ _ _ _ _ Hok). destruct (Z.ltb_spec i64_max (Z.of_nat (length evs) + 1)) as [|Hn];
    simpl; [done|].
  rewrite (proj2 (Z.ltb_ge _ _)) by lia.
  destruct (try_apply _ ev p) as [p'|] eqn:Ht; simpl; [|done].
  rewrite (insert_event_row_next _ _ _ _ _ _ _ Hok) by lia. simpl.
  by rewrite (row_ok_revision _ _ _ _ _ _ _ Hok Ht) by lia.
Qed.

(** The loop of [append_events]. *)
Lemma append_loop events : forall db id row evs p recorded now,
  row_ok db id row evs p ->
  match try_fold log_step (Z.of_nat (length evs), p) events with
  | Err e => try_fold (append_step id now) (db, p, recorded) events = Err e
  | Ok (_, p') => exists db' row' new,
      try_fold (append_step id now) (db, p, recorded) events =
        Ok (db', p', recorded ++ record_at id now (Z.of_nat (length evs)) events)
      /\ row_ok db' id row' (evs ++ new) p'
      /\ strip <$> new = record_at id now (Z.of_nat (length evs)) events
      /\ frame id db db' /\ same_meta row row'
  end.
Proof.
  induction events as [|ev events IH]; intros db id row evs p recorded now Hok.
  - exists db, row, []. simpl. rewrite !app_nil_r. by split_and!.
  - cbn [try_fold]. rewrite (append_step_eq _ _ _ _ _ _ _ _ Hok).
    destruct (log_step (Z.of_nat (length evs), p) ev) as [[n p']|] eqn:Hs; simpl; [|done].
    assert (n = Z.of_nat (length evs) + 1 /\ try_apply n ev p = Ok p') as [-> Ht].
    { unfold log_step in Hs. destruct (_ <? _); [done|].
      destruct (try_apply _ ev p) eqn:Ht; by simplify_eq/=. }
    destruct (row_ok_step _ _ _ _ _ now _ _ Hok Ht) as [data Hok'].
    specialize (IH _ _ _ _ _
      (recorded ++ [mkRecorded (Z.of_nat (length evs) + 1) id EVENT_SCHEMA_VERSION now ev None]) now Hok').
    replace (Z.of_nat (length (evs ++ _))) with (Z.of_nat (length evs) + 1) in IH
      by (rewrite length_app; simpl; lia).
    destruct (try_fold log_step _ events) as [[m q]|]; [|exact IH].
    destruct IH as (db' & row' & new & -> & Hok'' & Hnew & Hf & Hm).
    exists db', row', (mkRecorded (Z.of_nat (length evs) + 1) id EVENT_SCHEMA_VERSION now ev (Some data) :: new).
    rewrite <- app_assoc in Hok''. rewrite <- app_assoc. cbn [record_at app]. rewrite fmap_cons, Hnew.
    split_and!; try done.
    etrans; [apply appended_frame|done].
Qed.
(** ** Forks: the same steps, from the projection of the parent *)

Definition rehome (id : string) (e : RecordedEvent) : RecordedEvent :=
  mkRecorded (re_id e) id (re_schema_version e) (re_occurred_at e) (re_event e) (re_raw_data e).

Lemma recorded_rehome id parent row e :
  recorded_from_row parent row = Ok e -> recorded_from_row id row = Ok (rehome id e).
Proof. destruct row as [i r]. unfold recorded_from_row. intros H'. by split_ok. Qed.

Lemma collect_rehome id parent rows evs :
  collect (recorded_from_row parent) rows = Ok evs ->
  collect (recorded_from_row id) rows = Ok (rehome id <$> evs).
Proof.
  rewrite !collect_Forall2. intros Hc. apply Forall2_fmap_r. eapply Forall2_impl; [exact Hc|].
  intros r e. apply recorded_rehome.
Qed.

Lemma numbered_rehome n id evs : numbered n (rehome id <$> evs) <-> numbered n evs.
Proof. revert n. induction evs as [|e evs IH]; intros n; [done|]. rewrite fmap_cons. simpl. by rewrite IH. Qed.

Lemma numbered_strip n evs : numbered n (strip <$> evs) <-> numbered n evs.
Proof. revert n. induction evs as [|e evs IH]; intros n; [done|]. rewrite fmap_cons. simpl. by rewrite IH. Qed.

Lemma replay_fmap (f : RecordedEvent -> RecordedEvent) p l :
  (forall e, re_id (f e) = re_id e /\ re_event (f e) = re_event e) ->
  replay p (f <$> l) = replay p l.
Proof.
  intros Hf. apply replay_same, Forall2_fmap_l. induction l; constructor; auto.
Qed.

Lemma project_rehome id parent evs p :
  project parent evs = Ok p -> project id (rehome id <$> evs) = Ok (rename id p).
Proof.
  rewrite !project_Ok. intros (Hne & Hn & Hr). split_and!.
  - by destruct evs.
  - by apply numbered_rehome.
  - rewrite replay_fmap by done. by rewrite (new_rename id parent), replay_rename, Hr.
Qed.

(** The rows up to an event are a prefix. *)
Lemma filter_take (rows : list (Z * EventRow)) evs n i :
  rows.*1 = re_id <$> evs -> numbered n evs ->
  List.filter (fun r => fst r <=? i) rows = take (Z.to_nat (i - n)) rows.
Proof.
  revert n evs. induction rows as [|[j r] rows IH]; intros n evs He Hn; [by rewrite take_nil|].
  destruct evs as [|e evs]; [done|]. injection He as -> He. destruct Hn as (He1 & _ & Hn).
  specialize (IH _ _ He Hn). simpl. rewrite He1, IH. destruct (Z.leb_spec (n + 1) i) as [Hi|Hi].
  - replace (Z.to_nat (i - n)) with (S (Z.to_nat (i - (n + 1)))) by lia. done.
  - replace (Z.to_nat (i - n)) with 0%nat by lia. by replace (Z.to_nat (i - (n + 1))) with 0%nat by lia.
Qed.

Lemma last_take_id (rows : list (Z * EventRow)) evs i :
  rows.*1 = re_id <$> evs -> numbered 0 evs ->
  fst <$> last (take (Z.to_nat i) rows) = Some i <-> 1 <= i <= Z.of_nat (length evs).
Proof.
  intros He Hn. assert (Hl : length rows = length evs) by (by rewrite <- (length_fmap fst), He, length_fmap).
  assert (Hk : forall k : nat, fst <$> rows !! k = (fun _ => Z.of_nat k + 1) <$> evs !! k).
  { intros k. rewrite <- list_lookup_fmap, He, list_lookup_fmap.
    destruct (evs !! k) as [e|] eqn:E; simpl; [|done]. f_equal.
    rewrite <- (take_drop_middle _ _ _ E) in Hn. apply numbered_app in Hn as [_ [-> _]].
    rewrite length_take. apply lookup_lt_Some in E. lia. }
  rewrite last_lookup, length_take. destruct (decide (1 <= i <= Z.of_nat (length evs))) as [Hi|Hi].
  - split; [done|intros _]. rewrite lookup_take_lt by lia.
    replace (pred (min (Z.to_nat i) (length rows))) with (Z.to_nat (i - 1)) by lia. rewrite Hk.
    destruct (lookup_lt_is_Some_2 evs (Z.to_nat (i - 1))) as [e ->]; [lia|]. simpl. f_equal. lia.
  - split; [|done]. intros Hs. exfalso. apply Hi.
    destruct (take (Z.to_nat i) rows !! pred (min (Z.to_nat i) (length rows))) as [r|] eqn:E; [|done].
    apply lookup_take_Some in E as [E Hlt]. specialize (Hk (pred (min (Z.to_nat i) (length rows)))).
    rewrite E in Hk. simpl in *. apply lookup_lt_Some in E.
    destruct (evs !! _); simplify_eq/=. lia.
Qed.

Lemma fork_step_eq db id row evs q now ev :
  row_ok db id row evs (rename id q) ->
  let n := Z.of_nat (length evs) + 1 in
  fork_step id now (db, q, n) ev =
    match try_apply n ev q with
    | Ok q' => if i64_max <? n then Err InvalidCursor
               else Ok (appended id now n ev (rename id q') row db, q', n + 1)
    | Err e => Err (InvalidSessionTransition e)
    end.
Proof.
  intros Hok n. unfold fork_step. destruct (try_apply n ev q) as [q'|] eqn:Ht; simpl; [|done].
  assert (Ht' : try_apply n ev (rename id q) = Ok (rename id q')) by (by rewrite try_apply_rename, Ht).
  destruct (Z.ltb_spec i64_max n) as [Hn|Hn].
  - unfold insert_event_row. by rewrite i64_of_u64_out.
  - rewrite (insert_event_row_next _ _ _ _ _ _ _ Hok) by done. cbn -[i64_of_u64].
    pose proof (row_ok_revision _ _ _ _ _ _ _ Hok Ht' Hn) as Hr. cbn -[i64_of_u64] in Hr. rewrite Hr.
    rewrite i64_of_u64_in by done. simpl. rewrite (ro_row _ _ _ _ _ Hok). simpl.
    rewrite (proj2 (Z.eqb_neq _ _)) by (unfold u64_max, i64_max in *; lia). done.
Qed.

Lemma fork_loop events : forall db id row evs q now,
  row_ok db id row evs (rename id q) ->
  forall q', replay q (record_at id now (Z.of_nat (length evs)) events) = Ok q' ->
  Z.of_nat (length evs + length events) <= i64_max ->
  exists db' row' new,
    try_fold (fork_step id now) (db, q, Z.of_nat (length evs) + 1) events =
      Ok (db', q', Z.of_nat (length evs + length events) + 1)
    /\ row_ok db' id row' (evs ++ new) (rename id q')
    /\ strip <$> new = record_at id now (Z.of_nat (length evs)) events
    /\ frame id db db' /\ same_meta row row'.
Proof.
  induction events as [|ev events IH]; intros db id row evs q now Hok q' Hr Hb.
  - injection Hr as <-. exists db, row, []. simpl. rewrite !app_nil_r, Nat.add_0_r. by split_and!.
  - cbn [record_at] in Hr. rewrite replay_cons in Hr. simpl in Hr.
    destruct (try_apply (Z.of_nat (length evs) + 1) ev q) as [q1|] eqn:Ht; simpl in Hr; [|done].
    assert (Ht' : try_apply (Z.of_nat (length evs) + 1) ev (rename id q) = Ok (rename id q1))
      by (by rewrite try_apply_rename, Ht).
    destruct (row_ok_step _ _ _ _ _ now _ _ Hok Ht') as [data Hok'].
    specialize (IH _ _ _ _ _ now Hok' q').
    rewrite length_app in IH. simpl length in IH, Hb.
    replace (Z.of_nat (length evs + 1)) with (Z.of_nat (length evs) + 1) in IH by lia.
    destruct (IH Hr ltac:(lia)) as (db' & row' & new & E & Hok'' & Hnew & Hf & Hm).
    exists db', row', (mkRecorded (Z.of_nat (length evs) + 1) id EVENT_SCHEMA_VERSION now ev (Some data) :: new).
    cbn [try_fold]. rewrite (fork_step_eq _ _ _ _ _ _ _ Hok), Ht, (proj2 (Z.ltb_ge _ _)) by lia.
    cbn [mbind result_mbind]. rewrite <- app_assoc in Hok''. cbn [app] in Hok''. cbn [record_at].
    rewrite fmap_cons, Hnew. split_and!; try done.
    + etrans; [exact E|]. simpl length. do 2 f_equal. lia.
    + etrans; [apply appended_frame|done].
Qed.

(** Past the width of an event id, the branch is refused. *)
Lemma fork_loop_overflow events : forall db id row evs q now,
  row_ok db id row evs (rename id q) -> Z.of_nat (length evs) <= i64_max ->
  i64_max < Z.of_nat (length evs + length events) ->
  exists e, try_fold (fork_step id now) (db, q, Z.of_nat (length evs) + 1) events = Err e.
Proof.
  induction events as [|ev events IH]; intros db id row evs q now Hok Hl Hb; simpl length in Hb; [lia|].
  cbn [try_fold]. rewrite (fork_step_eq _ _ _ _ _ _ _ Hok).
  destruct (try_apply _ ev q) as [q1|] eqn:Ht; simpl; [|eauto].
  destruct (Z.ltb_spec i64_max (Z.of_nat (length evs) + 1)) as [|Hn]; simpl; [eauto|].
  assert (Ht' : try_apply (Z.of_nat (length evs) + 1) ev (rename id q) = Ok (rename id q1))
    by (by rewrite try_apply_rename, Ht).
  destruct (row_ok_step _ _ _ _ _ now _ _ Hok Ht') as [data Hok'].
  specialize (IH _ _ _ _ _ now Hok'). rewrite length_app in IH. simpl length in IH.
  replace (Z.of_nat (length evs + 1)) with (Z.of_nat (length evs) + 1) in IH by lia.
  apply IH; lia.
Qed.

(** The child before its closing events: a row and the rows of a prefix. *)
Lemma fork_prefix_ok db parent prow evs p id n row :
  row_ok db parent prow evs p -> 1 <= n <= Z.of_nat (length evs) ->
  exists q,
    project parent (take (Z.to_nat n) evs) = Ok q
    /\ collect (recorded_from_row parent) (take (Z.to_nat n) (session_rows parent db)) =
         Ok (take (Z.to_nat n) evs)
    /\ ss_revision (sp_state q) <= n
    /\ (sr_phase row = ss_phase (sp_state q) -> sr_revision row = ss_revision (sp_state q) ->
        sr_last_event_id row = n ->
        row_ok (mkDatabase (<[id := row]> (db_sessions db))
                  (<[id := take (Z.to_nat n) (session_rows parent db)]> (db_events db)) (db_projects db))
          id row (rehome id <$> take (Z.to_nat n) evs) (rename id q)).
Proof.
  intros [_ Hread Hp _ _ _] Hn. set (k := Z.to_nat n). pose proof Hp as (Hne & Hnum & Hr)%project_Ok.
  rewrite <- (take_drop k evs) in Hr, Hnum. apply replay_app in Hr as (q & Hq & _).
  apply numbered_app in Hnum as [Hnum _].
  assert (Hk : length (take k evs) = k) by (rewrite length_take; lia).
  assert (Hproj : project parent (take k evs) = Ok q).
  { apply project_Ok. split_and!; try done. intros E. rewrite E in Hk. simpl in Hk. lia. }
  assert (Hcol : collect (recorded_from_row parent) (take k (session_rows parent db)) = Ok (take k evs)).
  { unfold read_events in Hread. rewrite <- (take_drop k (session_rows parent db)), collect_app in Hread.
    inv_ok. pose proof (collect_length _ _ _ Heqr) as Hl.
    rewrite length_take in Hl. apply collect_length in Heqr0.
    rewrite length_drop in Heqr0. rewrite take_app_length'; [done|].
    rewrite length_app, length_take in *. lia. }
  exists q. split_and!; try done.
  - apply project_state in Hproj as [_ Hb]. lia.
  - intros H1 H2 H3. split; simpl; try done.
    + apply lookup_insert_eq.
    + unfold read_events, session_rows at 1. simpl. rewrite lookup_insert_eq. simpl.
      by apply (collect_rehome id parent).
    + by apply (project_rehome id parent).
    + rewrite length_fmap, Hk. lia.
Qed.

(** The active run of a projection can always be interrupted. *)
Lemma interrupt_active q r reason : projection_wf q -> active_run q = Some r ->
  forall q1, sp_runs q1 = sp_runs q ->
  run_interrupted (rp_run_id r) reason q1 =
    Ok (set_queue_paused true (set_runs
      (<[rp_run_id r := set_error (Some reason) (set_status RInterrupted r)]> (sp_runs q)) q1)).
Proof.
  intros Hq Ha q1 H1. unfold active_run in Ha. apply find_Some_elem in Ha as [Hin Hs].
  apply elem_of_btree_values in Hin as [k Hk]. rewrite (run_id_key _ _ _ Hq Hk).
  apply bool_decide_eq_true in Hs. unfold run_interrupted, set_run_terminal, update_run, update_entry.
  rewrite H1, Hk. simpl. by rewrite Hs.
Qed.

(** The events that close a branch always apply. *)
Lemma fork_events_apply id now n parent at_event_id q :
  projection_wf q ->
  exists q', replay q (record_at id now n (fork_events parent at_event_id q)) = Ok q'
    /\ sp_queue_paused q' = true /\ ss_phase (sp_state q') = Interrupted
    /\ sp_messages q' = sp_messages q /\ sp_pending_permissions q' = sp_pending_permissions q
    /\ sp_context q' = sp_context q /\ sp_agent_instances q' = sp_agent_instances q
    /\ sp_runs q' = match active_run q with
                    | Some r => <[rp_run_id r := set_error (Some "forked_branch") (set_status RInterrupted r)]> (sp_runs q)
                    | None => sp_runs q
                    end.
Proof.
  intros Hq. unfold fork_events. destruct (active_run q) as [r|] eqn:Ha.
  - eexists. cbn [record_at app]. rewrite !replay_cons. unfold apply_recorded, try_apply, apply. cbn -[run_interrupted].
    unfold apply_recorded, try_apply, apply. cbn -[run_interrupted].
    rewrite (interrupt_active q r) by done. simpl. by split_and!.
  - eexists. split; [reflexivity|]. by split_and!.
Qed.
End rows.
