(* ===== verification/StoreSpec.v ===== *)
(** What the store promises (files Store and StoreFacts).

    The contract is an append-only log per session, from which everything else
    follows by replay.  [consistent] is the invariant of the operations;
    [reachable] are the stores they build.  [append_events] and [fork_session]
    refine their descriptions on logs; every reachable store passes the
    validation of the next start; interleaving two appends to one session
    breaks the invariant. *)

From S2P Require Export StoreFacts Store.
Import SessionProjection.

Section invariant.
  Context `{EventCodec}.

(** The log of a session, as a reader of the store sees it. *)
Definition log (session_id : string) (s : SqliteStore) : list RecordedEvent :=
  match read_events session_id (st_db s) with Ok l => strip <$> l | Err _ => [] end.

(** Every session row summarises its events, a cached projection is the replay
    of the log, and no table refers to a missing row. *)
Record consistent (s : SqliteStore) : Prop := {
  cs_sessions : forall id row, db_sessions (st_db s) !! id = Some row ->
    exists evs p, row_ok (st_db s) id row evs p /\ (forall q, st_cache s !! id = Some q -> q = p);
  cs_events : dom (db_events (st_db s)) ⊆ dom (db_sessions (st_db s));
  cs_cache : dom (st_cache s) ⊆ dom (db_sessions (st_db s));
  cs_projects : forall id row pid, db_sessions (st_db s) !! id = Some row ->
    sr_project_id row = Some pid -> is_Some (db_projects (st_db s) !! pid);
  cs_parents : forall id row parent, db_sessions (st_db s) !! id = Some row ->
    sr_parent_session_id row = Some parent ->
    exists prow, db_sessions (st_db s) !! parent = Some prow /\ sr_project_id prow = sr_project_id row }.

Lemma empty_consistent : consistent empty_store.
Proof. split; simpl; try set_solver; intros *; by rewrite lookup_empty. Qed.

(** ** Transfer between databases *)

Lemma row_ok_transfer db db' id row row' evs p :
  db_sessions db' !! id = Some row' -> db_events db' !! id = db_events db !! id ->
  sr_phase row' = sr_phase row -> sr_revision row' = sr_revision row ->
  sr_last_event_id row' = sr_last_event_id row ->
  row_ok db id row evs p -> row_ok db' id row' evs p.
Proof.
  intros Hs He ??? []. split; try congruence; [].
  unfold read_events, session_rows in *. by rewrite He.
Qed.

Lemma row_ok_frame id db db' j row evs p :
  frame id db db' -> j <> id -> row_ok db j row evs p -> row_ok db' j row evs p.
Proof.
  intros (Hs & He & _) Hj Hok. eapply row_ok_transfer; [|by apply He|done..|done].
  rewrite Hs by done. apply Hok.
Qed.

Lemma row_ok_read_frame id db db' j :
  frame id db db' -> j <> id -> read_events j db' = read_events j db.
Proof. intros (_ & He & _) Hj. unfold read_events, session_rows. by rewrite He. Qed.

Lemma absent_rows s id : consistent s -> db_sessions (st_db s) !! id = None ->
  db_events (st_db s) !! id = None /\ st_cache s !! id = None.
Proof.
  intros [_ He Hc _ _] Hn%not_elem_of_dom. split; apply not_elem_of_dom; set_solver.
Qed.

(** Replacing the rows of one session. *)
Lemma consistent_update s db' id row row' evs p cache' :
  consistent s -> frame id (st_db s) db' ->
  db_sessions (st_db s) !! id = Some row ->
  sr_project_id row' = sr_project_id row -> sr_parent_session_id row' = sr_parent_session_id row ->
  row_ok db' id row' evs p ->
  (forall q, cache' !! id = Some q -> q = p) ->
  (forall j, j <> id -> cache' !! j = st_cache s !! j) ->
  consistent (mkStore db' cache').
Proof.
  intros [Hss Hev Hca Hpr Hpa] Hf Hrow Hm1 Hm2 Hok Hq Hc. pose proof Hf as (Hs & He & Hp).
  assert (Hold : forall j r, db_sessions db' !! j = Some r -> exists r0,
    db_sessions (st_db s) !! j = Some r0 /\ sr_project_id r = sr_project_id r0
    /\ sr_parent_session_id r = sr_parent_session_id r0 /\ (j <> id -> r = r0)).
  { intros j r Hj. destruct (decide (j = id)) as [->|Hne].
    - rewrite (ro_row _ _ _ _ _ Hok) in Hj. injection Hj as <-. by exists row.
    - rewrite Hs in Hj by done. by exists r. }
  assert (Hdom : forall j, is_Some (db_sessions (st_db s) !! j) -> is_Some (db_sessions db' !! j)).
  { intros j Hj. destruct (decide (j = id)) as [->|Hne]; [|by rewrite Hs].
    rewrite (ro_row _ _ _ _ _ Hok). by eexists. }
  split; simpl.
  - intros j r Hj. destruct (decide (j = id)) as [->|Hne].
    + rewrite (ro_row _ _ _ _ _ Hok) in Hj. injection Hj as <-. eauto.
    + destruct (Hold _ _ Hj) as (r0 & Hj0 & _ & _ & E). specialize (E Hne). subst r0.
      destruct (Hss _ _ Hj0) as (evs' & p' & Hok' & Hq'). exists evs', p'.
      split; [by eapply row_ok_frame|]. intros q. rewrite Hc by done. apply Hq'.
  - intros j Hj%elem_of_dom. apply elem_of_dom. destruct (decide (j = id)) as [->|Hne].
    + rewrite (ro_row _ _ _ _ _ Hok). by eexists.
    + rewrite He in Hj by done. rewrite Hs by done. apply elem_of_dom, Hev, elem_of_dom. done.
  - intros j Hj%elem_of_dom. apply elem_of_dom, Hdom. destruct (decide (j = id)) as [->|Hne]; [by eexists|].
    rewrite Hc in Hj by done. apply elem_of_dom, Hca, elem_of_dom. done.
  - intros j r pid Hj Hpid. destruct (Hold _ _ Hj) as (r0 & Hj0 & E & _). rewrite Hp.
    eapply Hpr; [exact Hj0|congruence].
  - intros j r par Hj Hpar. destruct (Hold _ _ Hj) as (r0 & Hj0 & E1 & E2 & _).
    destruct (Hpa _ _ par Hj0) as (pr & Hpr0 & E3); [congruence|].
    destruct (Hdom par) as [pr' Hpr']; [by eexists|]. exists pr'. split; [done|].
    destruct (Hold _ _ Hpr') as (pr0 & Hpr0' & E4 & _). congruence.
Qed.

(** Adding a session. *)
Lemma consistent_new s db' id row evs p :
  consistent s -> frame id (st_db s) db' -> db_sessions (st_db s) !! id = None ->
  row_ok db' id row evs p ->
  (forall pid, sr_project_id row = Some pid -> is_Some (db_projects (st_db s) !! pid)) ->
  (forall parent, sr_parent_session_id row = Some parent ->
     exists prow, db_sessions (st_db s) !! parent = Some prow /\ sr_project_id prow = sr_project_id row) ->
  consistent (mkStore db' (st_cache s)).
Proof.
  intros Hcs Hf Hnone Hok Hpid Hpar. pose proof Hf as (Hs & He & Hp).
  destruct (absent_rows _ _ Hcs Hnone) as [_ Hcn]. destruct Hcs as [Hss Hev Hca Hpr Hpa].
  assert (Hdom : forall j, is_Some (db_sessions (st_db s) !! j) -> is_Some (db_sessions db' !! j)).
  { intros j Hj. destruct (decide (j = id)) as [->|Hne]; [|by rewrite Hs].
    rewrite (ro_row _ _ _ _ _ Hok). by eexists. }
  split; simpl.
  - intros j r Hj. destruct (decide (j = id)) as [->|Hne].
    + rewrite (ro_row _ _ _ _ _ Hok) in Hj. injection Hj as <-. exists evs, p. split; [done|].
      intros q Hq. congruence.
    + rewrite Hs in Hj by done. destruct (Hss _ _ Hj) as (evs' & p' & Hok' & Hq'). exists evs', p'.
      split; [by eapply row_ok_frame|done].
  - intros j Hj%elem_of_dom. apply elem_of_dom. destruct (decide (j = id)) as [->|Hne].
    + rewrite (ro_row _ _ _ _ _ Hok). by eexists.
    + rewrite He in Hj by done. rewrite Hs by done. apply elem_of_dom, Hev, elem_of_dom. done.
  - intros j Hj. apply elem_of_dom, Hdom, elem_of_dom, Hca, Hj.
  - intros j r pid Hj E. rewrite Hp. destruct (decide (j = id)) as [->|Hne].
    + rewrite (ro_row _ _ _ _ _ Hok) in Hj. injection Hj as <-. by apply Hpid.
    + rewrite Hs in Hj by done. by eapply Hpr.
  - intros j r par Hj E. assert (exists prow, db_sessions (st_db s) !! par = Some prow
      /\ sr_project_id prow = sr_project_id r) as (prow & Hprow & E').
    { destruct (decide (j = id)) as [->|Hne].
      - rewrite (ro_row _ _ _ _ _ Hok) in Hj. injection Hj as <-. by apply Hpar.
      - rewrite Hs in Hj by done. by eapply Hpa. }
    exists prow. split; [|done]. rewrite Hs; [done|]. intros ->. congruence.
Qed.
(** ** The abstract append *)

(** [append_events] on a log alone. *)
Definition append_log (session_id now : string) (events : list SemanticEvent) (l : list RecordedEvent) :
    result StoreError (list RecordedEvent * SessionProjection) :=
  p ← project session_id l;
  '(_, p') ← try_fold log_step (Z.of_nat (length l), p) events;
  Ok (record_at session_id now (Z.of_nat (length l)) events, p').

Lemma project_strip id l p : project id (strip <$> l) = Ok p <-> project id l = Ok p.
Proof.
  rewrite !project_Ok, numbered_strip, replay_fmap by done. split; intros (?&?&?); split_and!; try done; by destruct l.
Qed.

Lemma row_ok_log s id row evs p : row_ok (st_db s) id row evs p -> log id s = strip <$> evs.
Proof. intros Hok. unfold log. by rewrite (ro_read _ _ _ _ _ Hok). Qed.

Lemma log_frame s s' id j : frame id (st_db s) (st_db s') -> j <> id -> log j s' = log j s.
Proof. intros Hf Hj. unfold log. by rewrite (row_ok_read_frame _ _ _ _ Hf Hj). Qed.

Lemma absent_log s id : consistent s -> db_sessions (st_db s) !! id = None ->
  read_events id (st_db s) = Ok [] /\ log id s = [].
Proof.
  intros Hc Hn. apply absent_rows in Hn as [Hn _]; [|done]. unfold log, read_events, session_rows. by rewrite Hn.
Qed.

Lemma projection_cached id s p : st_cache s !! id = Some p -> projection id s = (s, Ok p).
Proof. intros Hp. unfold projection. by rewrite Hp. Qed.

Lemma strip_all (l : list RecordedEvent) : Forall (fun e => re_raw_data e = None) l -> strip <$> l = l.
Proof. induction 1 as [|e l He _ IH]; [done|]. rewrite fmap_cons, IH. destruct e; simpl in *. by subst. Qed.

Lemma append_transaction_ok s id row evs p now events :
  row_ok (st_db s) id row evs p -> (forall q, st_cache s !! id = Some q -> q = p) ->
  append_transaction id now (append_read id s) events (st_db s) =
    try_fold (append_step id now) (st_db s, p, []) events.
Proof.
  intros Hok Hc. unfold append_transaction, append_read. destruct (st_cache s !! id) as [q|]; simpl.
  - by rewrite (Hc q).
  - rewrite (ro_read _ _ _ _ _ Hok). simpl. by rewrite (ro_project _ _ _ _ _ Hok).
Qed.

(** A transaction on a consistent store, from the projection it should use. *)
Lemma append_refines s id now events :
  consistent s -> events <> [] ->
  match append_log id now events (log id s) with
  | Ok (recorded, p') => exists s',
      append_events id now events s = (s', Ok recorded)
      /\ log id s' = log id s ++ recorded
      /\ st_cache s' !! id = Some p'
      /\ frame id (st_db s) (st_db s')
      /\ consistent s'
  | Err e => append_events id now events s = (s, Err e)
  end.
Proof.
  intros Hcs Hne. assert (Hun : append_events id now events s =
    match append_commit id now (append_read id s) events s with
    | (s, Ok (p, recorded)) => (append_cache id p s, Ok recorded)
    | (s, Err e) => (s, Err e)
    end) by (by destruct events).
  rewrite Hun. unfold append_commit, append_log.
  destruct (db_sessions (st_db s) !! id) as [row|] eqn:Hrow.
  - destruct (cs_sessions _ Hcs _ _ Hrow) as (evs & p & Hok & Hc).
    rewrite (append_transaction_ok _ _ _ _ _ _ _ Hok Hc), (row_ok_log _ _ _ _ _ Hok).
    rewrite (proj2 (project_strip _ _ _) (ro_project _ _ _ _ _ Hok)), length_fmap. simpl.
    pose proof (append_loop events _ _ _ _ _ [] now Hok) as Hl.
    destruct (try_fold log_step (Z.of_nat (length evs), p) events) as [[n p']|e]; simpl; [|by rewrite Hl].
    destruct Hl as (db' & row' & new & -> & Hok' & Hnew & Hf & Hm).
    eexists. split; [reflexivity|]. split_and!; simpl.
    + erewrite row_ok_log by exact Hok'. by rewrite fmap_app, Hnew.
    + apply lookup_insert_eq.
    + done.
    + eapply consistent_update; [done|exact Hf|exact Hrow|apply Hm|apply Hm|exact Hok'| |].
      * intros q Hq. rewrite lookup_insert_eq in Hq. congruence.
      * intros j Hj. by rewrite lookup_insert_ne.
  - destruct (absent_log _ _ Hcs Hrow) as [Hread ->]. simpl.
    unfold append_transaction, append_read.
    rewrite (proj2 (absent_rows _ _ Hcs Hrow)), Hread. simpl. done.
Qed.

Lemma append_consistent s id now events : consistent s -> consistent (fst (append_events id now events s)).
Proof.
  intros Hcs. destruct (decide (events = [])) as [->|Hne]; [done|].
  pose proof (append_refines s id now events Hcs Hne) as Hr.
  destruct (append_log _ _ _ _) as [[rec p']|]; [|by rewrite Hr].
  by destruct Hr as (s' & -> & _ & _ & _ & ?).
Qed.

(** ** The other operations *)

Lemma events_after_all id db : is_Some (db_sessions db !! id) ->
  Forall (fun r => 0 < fst r) (session_rows id db) ->
  events_after id 0 None db = read_events id db.
Proof.
  intros Hs Hp. unfold events_after, ensure_session. rewrite bool_decide_eq_true_2 by done.
  unfold read_events. cbn [mbind result_mbind ok_or i64_of_u64]. simpl. induction Hp as [|r rows Hr _ IH]; simpl; [done|].
  rewrite (proj2 (Z.ltb_lt _ _) Hr). simpl. by rewrite IH.
Qed.

Lemma row_ok_ids db id row evs p : row_ok db id row evs p ->
  (session_rows id db).*1 = re_id <$> evs /\ numbered 0 evs.
Proof.
  intros [_ Hread Hp _ _ _]. split; [by eapply collect_ids|]. by apply project_Ok in Hp as (_&?&_).
Qed.

Lemma row_ok_events db id row evs p : row_ok db id row evs p -> events_after id 0 None db = Ok evs.
Proof.
  intros Hok. rewrite <- (ro_read _ _ _ _ _ Hok). apply events_after_all; [by rewrite (ro_row _ _ _ _ _ Hok)|].
  apply row_ok_ids in Hok as [Hids Hn]. apply (Forall_fmap fst (fun x => 0 < x)).
  rewrite Hids. apply Forall_fmap, Forall_forall. intros e He.
  apply (numbered_ids 0) in He; [|done]. simpl. lia.
Qed.

Lemma projection_ok s id row evs p :
  row_ok (st_db s) id row evs p -> (forall q, st_cache s !! id = Some q -> q = p) ->
  exists c, projection id s = (mkStore (st_db s) c, Ok p) /\ c !! id = Some p
    /\ (forall j, j <> id -> c !! j = st_cache s !! j).
Proof.
  intros Hok Hc. unfold projection. destruct (st_cache s !! id) as [q|] eqn:E.
  - exists (st_cache s). rewrite (Hc q eq_refl) in *. by destruct s.
  - rewrite (row_ok_events _ _ _ _ _ Hok). simpl. rewrite (ro_project _ _ _ _ _ Hok). eexists.
    split; [done|]. split; [apply lookup_insert_eq|]. intros j Hj. by rewrite lookup_insert_ne.
Qed.

Lemma frame_refl_meta s id : frame id (st_db s) (st_db s).
Proof. reflexivity. Qed.

Lemma projection_consistent s id : consistent s -> consistent (fst (projection id s)).
Proof.
  intros Hcs. destruct (db_sessions (st_db s) !! id) as [row|] eqn:Hrow.
  - destruct (cs_sessions _ Hcs _ _ Hrow) as (evs & p & Hok & Hc).
    destruct (projection_ok _ _ _ _ _ Hok Hc) as (c & -> & Hcp & Hj). simpl.
    eapply (consistent_update s _ id row row); [done|reflexivity|done..|exact Hok| |done].
    intros q Hq. congruence.
  - unfold projection. rewrite (proj2 (absent_rows _ _ Hcs Hrow)).
    unfold events_after, ensure_session. rewrite Hrow. done.
Qed.

Lemma new_session_row_ok db id now title pid h :
  db_events db !! id = None ->
  let row := mkSessionRow title pid None None now now Created 0 1 h in
  let db1 := set_sessions (<[id := row]> (db_sessions db)) db in
  exists db' evs p, insert_event_row id 1 now (SessionCreated title) db1 = Ok db'
    /\ row_ok db' id row evs p /\ frame id db db'
    /\ strip <$> evs = record_at id now 0 [SessionCreated title].
Proof.
  intros Hn row db1.
  destruct (recorded_from_event_row id 1 now (SessionCreated title)) as [data Hd]; [lia|].
  eexists _, [mkRecorded 1 id EVENT_SCHEMA_VERSION now (SessionCreated title) (Some data)], _. split_and!.
  - unfold insert_event_row, insert_event. simpl. rewrite lookup_insert_eq. simpl.
    unfold session_rows. simpl. rewrite Hn. simpl. reflexivity.
  - split; simpl; [apply lookup_insert_eq| | | | |]; [|reflexivity..].
    unfold read_events, session_rows. cbn [db_events set_events]. rewrite lookup_insert_eq.
    change (collect (recorded_from_row id) [(1, event_row now (SessionCreated title))] =
      Ok [mkRecorded 1 id EVENT_SCHEMA_VERSION now (SessionCreated title) (Some data)]).
    cbn [collect]. by rewrite Hd.
  - solve_frame.
  - reflexivity.
Qed.

Lemma create_consistent s id now title pid h :
  consistent s -> consistent (fst (create_session id now title pid h s)).
Proof.
  intros Hcs. unfold create_session.
  destruct (match pid with Some _ => _ | None => _ end) as [[]|] eqn:Hp; simpl; [|done].
  case_bool_decide as Hid; simpl; [done|]. apply eq_None_not_Some in Hid.
  destruct (new_session_row_ok (st_db s) id now title pid h) as (db' & evs & p & E & Hok & Hf & _).
  { by apply absent_rows. }
  rewrite E. simpl. eapply consistent_new; [done|exact Hf|done|exact Hok| |done].
  intros q [= ->]. simpl in Hp. by case_bool_decide.
Qed.

Lemma retention_consistent s id h :
  consistent s -> consistent (fst (update_session_retention id h s)).
Proof.
  intros Hcs. unfold update_session_retention.
  destruct (db_sessions (st_db s) !! id) as [row|] eqn:Hrow; [|done]. simpl.
  destruct (cs_sessions _ Hcs _ _ Hrow) as (evs & p & Hok & Hc).
  eapply (consistent_update s _ id row _ evs p); [done| |done| | | |done|done].
  4: { eapply (row_ok_transfer (st_db s) _ _ row); [apply lookup_insert_eq|done..]. }
  2, 3: done.
  solve_frame.
Qed.

(** Project rows can change as long as no session's project goes away. *)
Lemma consistent_projects s pr :
  consistent s -> (forall k, is_Some (db_projects (st_db s) !! k) -> is_Some (pr !! k)) ->
  consistent (mkStore (mkDatabase (db_sessions (st_db s)) (db_events (st_db s)) pr) (st_cache s)).
Proof.
  intros [Hss Hev Hca Hpr Hpa] Hk. split; simpl; try done; [|by eauto].
  intros id row Hrow. destruct (Hss _ _ Hrow) as (evs & p & Hok & Hc). exists evs, p.
  split; [|done]. eapply (row_ok_transfer (st_db s) _ _ row); done.
Qed.

Lemma insert_is_Some {V} (m : gmap string V) i v k : is_Some (m !! k) -> is_Some (<[i := v]> m !! k).
Proof. intros Hk. rewrite lookup_insert_is_Some. destruct (decide (i = k)); auto. Qed.

Lemma create_project_consistent s id now name path :
  consistent s -> consistent (fst (create_project id now name path s)).
Proof.
  intros Hcs. unfold create_project. destruct (negb _); [done|]. destruct (_ || _); [done|].
  apply consistent_projects; [done|]. intros k. apply insert_is_Some.
Qed.

Lemma update_project_consistent s id now name path :
  consistent s -> consistent (fst (update_project id now name path s)).
Proof.
  intros Hcs. unfold update_project. destruct (db_projects _ !! id); [|done].
  destruct (negb _); [done|]. destruct (path_taken _ _ _); [done|].
  apply consistent_projects; [done|]. intros k. apply insert_is_Some.
Qed.

(** ** Deleting a project *)

Lemma elem_of_project_sessions pid db id :
  id ∈ project_session_ids pid db <->
  exists row, db_sessions db !! id = Some row /\ sr_project_id row = Some pid.
Proof.
  unfold project_session_ids. rewrite elem_of_dom. unfold is_Some.
  setoid_rewrite map_lookup_filter_Some. done.
Qed.

(** The foreign key from a fork to its parent never blocks a deletion: a fork
    belongs to the project of its parent. *)
Lemma no_dangling_fork s pid : consistent s ->
  dangling_fork (project_session_ids pid (st_db s)) (st_db s) = false.
Proof.
  intros Hcs. unfold dangling_fork. apply not_true_iff_false. intros ([id row] & Hin & Hb)%existsb_elem.
  apply elem_of_map_to_list in Hin. simpl in Hb. apply andb_true_iff in Hb as [Hid Hp].
  apply bool_decide_eq_true in Hid. destruct (sr_parent_session_id row) as [par|] eqn:Epar; [|done].
  apply bool_decide_eq_true, elem_of_project_sessions in Hp as (prow & Hprow & Hpid).
  apply Hid, elem_of_project_sessions. exists row. split; [done|].
  destruct (cs_parents _ Hcs _ _ _ Hin Epar) as (prow' & Hprow' & E). congruence.
Qed.

Lemma lookup_keep {V} (gone : gset string) (m : gmap string V) k :
  filter (fun kv => fst kv ∉ gone) m !! k = if bool_decide (k ∈ gone) then None else m !! k.
Proof.
  rewrite map_lookup_filter. case_bool_decide as Hk; destruct (m !! k) as [v|]; simpl; try done; by case_guard.
Qed.

Lemma delete_project_consistent s pid : consistent s -> consistent (fst (delete_project pid s)).
Proof.
  intros Hcs. unfold delete_project. case_bool_decide as Hpid; simpl; [|done].
  rewrite (no_dangling_fork _ _ Hcs). set (gone := project_session_ids pid (st_db s)).
  assert (Hgone : forall k row, db_sessions (st_db s) !! k = Some row -> k ∉ gone -> sr_project_id row <> Some pid).
  { intros k row Hk Hn E. apply Hn, elem_of_project_sessions. eauto. }
  destruct Hcs as [Hss Hev Hca Hpr Hpa]. split; simpl.
  - intros id row. rewrite lookup_keep. case_bool_decide as Hg; [done|]. intros Hrow.
    destruct (Hss _ _ Hrow) as (evs & p & Hok & Hc). exists evs, p.
    rewrite lookup_keep, bool_decide_eq_false_2 by done. split; [|done].
    eapply row_ok_transfer; [| |done..|exact Hok]; simpl; by rewrite lookup_keep, bool_decide_eq_false_2.
  - intros k. rewrite !elem_of_dom, !lookup_keep. case_bool_decide; [done|].
    rewrite <- !elem_of_dom. apply Hev.
  - intros k. rewrite !elem_of_dom, !lookup_keep. case_bool_decide; [done|].
    rewrite <- !elem_of_dom. apply Hca.
  - intros id row q. rewrite lookup_keep. case_bool_decide as Hg; [done|]. intros Hrow Hq.
    rewrite lookup_delete_ne; [by eapply Hpr|]. intros ->. by eapply Hgone.
  - intros id row par. rewrite lookup_keep. case_bool_decide as Hg; [done|]. intros Hrow Hpar.
    destruct (Hpa _ _ _ Hrow Hpar) as (prow & Hprow & E). exists prow.
    rewrite lookup_keep, bool_decide_eq_false_2; [done|].
    intros (r & Hr & Hrp)%elem_of_project_sessions. apply Hg, elem_of_project_sessions.
    exists row. split; [done|]. congruence.
Qed.
(** ** Forks *)

(** The log of a branch: the parent's events up to the fork, then the events
    that close it. *)
Definition branch (id now parent : string) (n : Z) (l : list RecordedEvent) (q : SessionProjection) :
    list RecordedEvent :=
  (rehome id <$> take (Z.to_nat n) l) ++ record_at id now n (fork_events parent n q).

(** The projection of a branch: the parent's at the fork, with its active run
    interrupted and the queue paused. *)
Record branched (q p : SessionProjection) : Prop := {
  br_paused : sp_queue_paused p = true;
  br_phase : ss_phase (sp_state p) = Interrupted;
  br_messages : sp_messages p = sp_messages q;
  br_permissions : sp_pending_permissions p = sp_pending_permissions q;
  br_instances : sp_agent_instances p = sp_agent_instances q;
  br_context : sp_context p = sp_context q;
  br_runs : sp_runs p = match active_run q with
    | Some r => <[rp_run_id r := set_error (Some "forked_branch") (set_status RInterrupted r)]> (sp_runs q)
    | None => sp_runs q
    end }.

(** [fork_session] up to its loop, on a consistent store. *)
Lemma fork_unfold s id now parent n title prow evs p :
  row_ok (st_db s) parent prow evs p -> 0 <= n <= i64_max -> db_sessions (st_db s) !! id = None ->
  if bool_decide (1 <= n <= Z.of_nat (length evs)) then
    exists q row db,
      project parent (take (Z.to_nat n) evs) = Ok q
      /\ row_ok db id row (rehome id <$> take (Z.to_nat n) evs) (rename id q)
      /\ frame id (st_db s) db /\ sr_project_id row = sr_project_id prow
      /\ sr_parent_session_id row = Some parent
      /\ length (rehome id <$> take (Z.to_nat n) evs) = Z.to_nat n
      /\ fork_session id now parent n title s =
         match try_fold (fork_step id now) (db, q, n + 1) (fork_events parent n q) with
         | Ok (db', _, _) => (mkStore db' (st_cache s), get_session id db')
         | Err e => (s, Err e)
         end
  else fork_session id now parent n title s = (s, Err (EventNotFound parent n)).
Proof.
  intros Hok Hn Hid. unfold fork_session. rewrite (ro_row _ _ _ _ _ Hok). cbn [ok_or mbind result_mbind].
  rewrite i64_of_u64_in by lia.
  cbn [ok_or mbind result_mbind].
  destruct (row_ok_ids _ _ _ _ _ Hok) as [Hids Hnum].
  rewrite (filter_take _ _ _ _ Hids Hnum), Z.sub_0_r.
  rewrite (bool_decide_ext (fst <$> last (take (Z.to_nat n) (session_rows parent (st_db s))) = Some n)
    (1 <= n <= Z.of_nat (length evs))) by (by apply last_take_id).
  case_bool_decide as Hb; cbn [negb]; [|done].
  destruct (fork_prefix_ok _ _ _ _ _ id n (mkSessionRow title (sr_project_id prow) (Some parent) (Some n)
     now now Created 0 n Forever) Hok Hb) as (q & Hq & Hc & Hrev & _).
  set (row := mkSessionRow title (sr_project_id prow) (Some parent) (Some n)
     now now (ss_phase (sp_state q)) (ss_revision (sp_state q)) n Forever).
  destruct (fork_prefix_ok _ _ _ _ _ id n row Hok Hb) as (q' & Hq' & _ & _ & Hrow).
  assert (q' = q) as -> by congruence. specialize (Hrow eq_refl eq_refl eq_refl).
  eexists q, row, _. split; [done|]. split; [exact Hrow|]. split_and!; try done.
  - solve_frame.
  - rewrite length_fmap, length_take. lia.
  - rewrite Hc. cbn [mbind result_mbind]. rewrite Hq, Hid. cbn [mbind result_mbind].
    rewrite bool_decide_eq_false_2 by (by intros []). cbn [mbind result_mbind].
    rewrite i64_of_u64_in by lia.
    cbn [ok_or mbind result_mbind].
    rewrite (proj2 (Z.eqb_neq _ _)) by (unfold i64_max, u64_max in *; lia).
    change (set_events _ _) with (mkDatabase (<[id := row]> (db_sessions (st_db s)))
      (<[id := take (Z.to_nat n) (session_rows parent (st_db s))]> (db_events (st_db s)))
      (db_projects (st_db s))).
    match goal with |- context [try_fold ?f ?a ?l] => by destruct (try_fold f a l) as [[[db' ?] ?]|] end.
Qed.

Lemma fork_success s id now parent n title prow evs p q :
  consistent s -> row_ok (st_db s) parent prow evs p -> db_sessions (st_db s) !! id = None ->
  1 <= n <= Z.of_nat (length evs) -> project parent (take (Z.to_nat n) evs) = Ok q ->
  n + Z.of_nat (length (fork_events parent n q)) <= i64_max ->
  exists s' row p',
    fork_session id now parent n title s = (s', Ok (id, row))
    /\ log id s' = branch id now parent n (log parent s) q
    /\ project id (log id s') = Ok p' /\ branched q p'
    /\ frame id (st_db s) (st_db s') /\ consistent s'.
Proof.
  intros Hcs Hok Hid Hin Hproj Hb.
  pose proof (fork_unfold s id now parent n title _ _ _ Hok ltac:(lia) Hid) as Hf.
  rewrite bool_decide_eq_true_2 in Hf by done.
  destruct Hf as (q0 & row & db & Hq & Hrow & Hframe & Hpid & Hpar & Hlen & ->).
  assert (q0 = q) as -> by congruence.
  pose proof (proj1 (project_Ok _ _ _) Hq) as (_ & _ & Hqr).
  destruct (fork_events_apply id now n parent n q) as (q' & Hr & Hbr); [by eapply replay_new_wf|].
  pose proof (fork_loop (fork_events parent n q) _ _ _ _ _ now Hrow q') as Hl.
  rewrite Hlen, Z2Nat.id in Hl by lia.
  destruct (Hl Hr ltac:(lia)) as (db' & row' & new & -> & Hok' & Hnew & Hf' & Hm).
  assert (Hlog : log id (mkStore db' (st_cache s)) = branch id now parent n (log parent s) q).
  { erewrite row_ok_log by exact Hok'. rewrite (row_ok_log _ _ _ _ _ Hok), fmap_app, Hnew.
    unfold branch. rewrite <- fmap_take, <- !list_fmap_compose. done. }
  exists (mkStore db' (st_cache s)), row', (rename id q'). unfold get_session.
  rewrite (ro_row _ _ _ _ _ Hok'). split_and!; [done|exact Hlog| | | |].
  - erewrite row_ok_log by exact Hok'. apply project_strip. apply Hok'.
  - by destruct Hbr as (?&?&?&?&?&?&?).
  - by etrans.
  - eapply consistent_new; [done| |done|exact Hok'| |]; [by etrans| |].
    + intros pid Hp. eapply cs_projects; [done|exact (ro_row _ _ _ _ _ Hok)|].
      destruct Hm as (_&E1&_). congruence.
    + intros par Hp. destruct Hm as (_&E1&E2&_). exists prow.
      assert (par = parent) as -> by congruence. split; [apply Hok|congruence].
Qed.

Lemma fork_events_length parent n q : (length (fork_events parent n q) <= 3)%nat.
Proof. unfold fork_events. destruct (active_run q); simpl; lia. Qed.

Lemma fork_consistent s id now parent n title :
  consistent s -> 0 <= n -> consistent (fst (fork_session id now parent n title s)).
Proof.
  intros Hcs Hn. destruct (db_sessions (st_db s) !! parent) as [prow|] eqn:Hprow.
  2: { unfold fork_session. by rewrite Hprow. }
  destruct (decide (n <= i64_max)) as [Hmax|Hmax].
  2: { unfold fork_session. rewrite Hprow. cbn [ok_or mbind result_mbind].
       by rewrite i64_of_u64_out by lia. }
  destruct (cs_sessions _ Hcs _ _ Hprow) as (evs & p & Hok & _).
  destruct (db_sessions (st_db s) !! id) as [r|] eqn:Hid.
  { unfold fork_session. rewrite Hprow, Hid. cbn [ok_or mbind result_mbind].
    destruct (i64_of_u64 n); [|done]. cbn [ok_or mbind result_mbind]. destruct (negb _); [done|].
    destruct (collect _ _); [|done]. cbn [ok_or mbind result_mbind].
    by destruct (project _ _). }
  pose proof (fork_unfold s id now parent n title _ _ _ Hok ltac:(lia) Hid) as Hf.
  case_bool_decide as Hin; [|by rewrite Hf].
  destruct Hf as (q & row & db & Hq & Hrow & _ & _ & _ & Hlen & E).
  destruct (decide (n + Z.of_nat (length (fork_events parent n q)) <= i64_max)) as [Hb|Hb].
  - destruct (fork_success s id now parent n title _ _ _ _ Hcs Hok Hid Hin Hq Hb)
      as (s' & row' & p' & -> & _ & _ & _ & _ & Hc). done.
  - destruct (fork_loop_overflow (fork_events parent n q) _ _ _ _ _ now Hrow) as [e He]; [lia..|].
    rewrite Hlen, Z2Nat.id in He by lia. rewrite E, He. done.
Qed.
(** ** Reachable stores *)

Inductive store_step (s : SqliteStore) : SqliteStore -> Prop :=
  | step_create_session id now title project_id h :
      store_step s (fst (create_session id now title project_id h s))
  | step_append_events id now events : store_step s (fst (append_events id now events s))
  | step_fork_session id now parent n title :
      0 <= n -> store_step s (fst (fork_session id now parent n title s))
  | step_projection id : store_step s (fst (projection id s))
  | step_retention id h : store_step s (fst (update_session_retention id h s))
  | step_create_project id now name path : store_step s (fst (create_project id now name path s))
  | step_update_project id now name path : store_step s (fst (update_project id now name path s))
  | step_delete_project id : store_step s (fst (delete_project id s)).

(** The stores that sequences of operations build, failed ones included. *)
Definition reachable (s : SqliteStore) : Prop := rtc store_step empty_store s.

Lemma step_consistent s s' : store_step s s' -> consistent s -> consistent s'.
Proof.
  destruct 1; intros; [apply create_consistent|apply append_consistent|apply fork_consistent
    |apply projection_consistent|apply retention_consistent|apply create_project_consistent
    |apply update_project_consistent|apply delete_project_consistent]; done.
Qed.

Lemma reachable_consistent s : reachable s -> consistent s.
Proof.
  unfold reachable. intros Hr. pose proof empty_consistent as H0. revert H0.
  induction Hr; eauto using step_consistent.
Qed.

(** ** Validation *)

Lemma collect_unit {E A} (f : A -> result E ()) l :
  (forall a, a ∈ l -> f a = Ok ()) -> exists us, collect f l = Ok us.
Proof.
  induction l as [|a l IH]; intros Hf; [by eexists|]. simpl. rewrite (Hf a) by left.
  destruct IH as [us ->]; [|by eexists]. intros b Hb. apply Hf. by right.
Qed.

Lemma row_ok_validates db id row evs p :
  row_ok db id row evs p -> validate_session db (id, row) = Ok ().
Proof.
  intros Hok. unfold validate_session. rewrite (row_ok_events _ _ _ _ _ Hok). simpl.
  pose proof (project_state _ _ _ (ro_project _ _ _ _ _ Hok)) as [Hl Hb].
  rewrite (ro_project _ _ _ _ _ Hok). simpl.
  rewrite (ro_revision _ _ _ _ _ Hok), (ro_last _ _ _ _ _ Hok), (ro_phase _ _ _ _ _ Hok), Hl. simpl.
  rewrite !(proj2 (Z.ltb_ge _ _)) by lia. rewrite bool_decide_eq_true_2, !Z.eqb_refl by done. done.
Qed.

Lemma row_ok_snapshot db id row evs p :
  row_ok db id row evs p -> session_snapshot id db = Ok ((id, row), p).
Proof.
  intros Hok. pose proof (project_state _ _ _ (ro_project _ _ _ _ _ Hok)) as [Hl _].
  unfold session_snapshot, get_session. rewrite (ro_row _ _ _ _ _ Hok). simpl.
  rewrite (ro_read _ _ _ _ _ Hok). simpl. rewrite (ro_project _ _ _ _ _ Hok). simpl.
  by rewrite Hl, (ro_last _ _ _ _ _ Hok), bool_decide_eq_true_2.
Qed.

Lemma consistent_validates s : consistent s -> validate_all (st_db s) = Ok ().
Proof.
  intros Hcs. unfold validate_all.
  destruct (collect_unit (validate_session (st_db s)) (map_to_list (db_sessions (st_db s)))) as [us ->]; [|done].
  intros [id row] Hin%elem_of_map_to_list.
  destruct (cs_sessions _ Hcs _ _ Hin) as (evs & p & Hok & _). by eapply row_ok_validates.
Qed.

(** ** Recovery *)

Definition is_running (r : SessionRow) : Prop := sr_phase r = Running.

Lemma append_one s id now ev row evs p p' :
  consistent s -> row_ok (st_db s) id row evs p ->
  Z.of_nat (length evs) + 1 <= i64_max -> try_apply (Z.of_nat (length evs) + 1) ev p = Ok p' ->
  exists s' e, append_event id now ev s = (s', Ok e) /\ re_event e = ev
    /\ consistent s' /\ frame id (st_db s) (st_db s') /\ st_cache s' !! id = Some p'
    /\ exists row' evs', row_ok (st_db s') id row' evs' p' /\ length evs' = S (length evs).
Proof.
  intros Hcs Hok Hb Ht.
  pose proof (append_refines s id now [ev] Hcs ltac:(done)) as Hr. unfold append_log in Hr.
  rewrite (row_ok_log _ _ _ _ _ Hok), length_fmap in Hr.
  rewrite (proj2 (project_strip _ _ _) (ro_project _ _ _ _ _ Hok)) in Hr. cbn [mbind result_mbind] in Hr.
  cbn -[append_events i64_max Z.of_nat Z.add] in Hr.
  rewrite (proj2 (Z.ltb_ge _ _)), Ht in Hr by lia. cbn -[append_events Z.of_nat Z.add] in Hr.
  destruct Hr as (s' & E & Hl & Hc & Hf & Hcs'). unfold append_event. rewrite E.
  eexists s', _. split; [reflexivity|]. split_and!; try done.
  assert (is_Some (db_sessions (st_db s') !! id)) as [row' Hrow'].
  { destruct (db_sessions (st_db s') !! id) eqn:Hn; [by eexists|].
    apply absent_log in Hn as [_ Hn]; [|done]. rewrite Hn in Hl. by destruct (strip <$> evs). }
  destruct (cs_sessions _ Hcs' _ _ Hrow') as (evs' & q & Hok' & Hq).
  rewrite (Hq _ Hc). exists row', evs'. split; [done|].
  rewrite (row_ok_log _ _ _ _ _ Hok') in Hl. apply (f_equal length) in Hl.
  rewrite length_app, !length_fmap in Hl. simpl in Hl. lia.
Qed.

Lemma recover_one_ok s id now row :
  consistent s -> db_sessions (st_db s) !! id = Some row -> is_running row ->
  sr_last_event_id row + 2 <= i64_max ->
  exists s' e row', recover_one now s id = (s', Ok e) /\ re_event e = SessionInterrupted "server_restart"
    /\ consistent s' /\ frame id (st_db s) (st_db s')
    /\ db_sessions (st_db s') !! id = Some row' /\ sr_phase row' = Interrupted.
Proof.
  intros Hcs Hrow Hrun Hb. destruct (cs_sessions _ Hcs _ _ Hrow) as (evs & p & Hok & _).
  rewrite (ro_last _ _ _ _ _ Hok) in Hb. unfold is_running in Hrun. rewrite (ro_phase _ _ _ _ _ Hok) in Hrun.
  assert (exists p1, try_apply (Z.of_nat (length evs) + 1) (SessionInterrupted "server_restart") p = Ok p1
    /\ ss_phase (sp_state p1) = Interrupted /\ sp_runs p1 = sp_runs p) as (p1 & Ht & Hph & Hruns).
  { unfold try_apply, apply, SessionState.apply, SessionState.interrupt, SessionState.transition.
    rewrite Hrun. by eexists. }
  destruct (append_one s id now _ _ _ _ _ Hcs Hok ltac:(lia) Ht)
    as (s1 & e & E & He & Hcs1 & Hf1 & Hc1 & row1 & evs1 & Hok1 & Hl1).
  unfold recover_one. rewrite E, (projection_cached _ _ _ Hc1).
  destruct (active_run p1) as [r|] eqn:Ha.
  - assert (Hwf : projection_wf p1).
    { pose proof (ro_project _ _ _ _ _ Hok1) as Hp. apply project_Ok in Hp as (_&_&Hp). by eapply replay_new_wf. }
    destruct (append_one s1 id now (RunInterrupted (rp_run_id r) "server_restart") _ _ _
      (set_queue_paused true (set_runs (<[rp_run_id r := set_error (Some "server_restart")
        (set_status RInterrupted r)]> (sp_runs p1)) (set_state (mkState (ss_session_id (sp_state p1))
          (ss_phase (sp_state p1)) (ss_revision (sp_state p1)) (Some (Z.of_nat (length evs1) + 1))) p1)))
      Hcs1 Hok1 ltac:(lia)) as (s2 & e2 & E2 & _ & Hcs2 & Hf2 & _ & row2 & evs2 & Hok2 & _).
    { unfold try_apply, apply. cbn -[run_interrupted Z.of_nat].
      by rewrite (interrupt_active p1 r _ Hwf Ha) by done. }
    rewrite E2. exists s2, e, row2. split_and!; try done; [by etrans|apply Hok2|].
    by rewrite (ro_phase _ _ _ _ _ Hok2).
  - exists s1, e, row1. split_and!; try done; [apply Hok1|]. by rewrite (ro_phase _ _ _ _ _ Hok1).
Qed.

Lemma recover_all_ok now ids : forall s,
  consistent s -> NoDup ids ->
  (forall id, id ∈ ids -> exists row, db_sessions (st_db s) !! id = Some row /\ is_running row
     /\ sr_last_event_id row + 2 <= i64_max) ->
  exists s' es, recover_all now ids s = (s', Ok es)
    /\ re_event <$> es = (fun _ => SessionInterrupted "server_restart") <$> ids
    /\ consistent s'
    /\ (forall id, id ∉ ids -> db_sessions (st_db s') !! id = db_sessions (st_db s) !! id)
    /\ (forall id, id ∈ ids -> sr_phase <$> db_sessions (st_db s') !! id = Some Interrupted).
Proof.
  induction ids as [|id ids IH]; intros s Hcs Hnd Hr.
  { exists s, []. split_and!; try done. intros id Hid. by apply elem_of_nil in Hid. }
  apply NoDup_cons in Hnd as [Hnin Hnd].
  destruct (Hr id) as (row & Hrow & Hrun & Hb); [by left|].
  destruct (recover_one_ok s id now row Hcs Hrow Hrun Hb) as (s1 & e & row1 & E & He & Hcs1 & Hf & Hrow1 & Hph).
  destruct Hf as (Hs & _ & _).
  destruct (IH s1 Hcs1 Hnd) as (s' & es & E' & Hes & Hcs' & Hout & Hin).
  { intros j Hj. rewrite Hs by (by intros ->). apply Hr. by right. }
  cbn [recover_all]. rewrite E, E'. eexists s', _. split_and!; try done.
  - rewrite !fmap_cons, He. by f_equal.
  - intros j Hj. rewrite not_elem_of_cons in Hj. destruct Hj. rewrite Hout, Hs; done.
  - intros j [->|Hj]%elem_of_cons; [|by apply Hin]. rewrite Hout by done. rewrite Hrow1. simpl. by f_equal.
Qed.

Lemma elem_of_running db id :
  id ∈ running_ids db <-> exists row, db_sessions db !! id = Some row /\ is_running row.
Proof.
  unfold running_ids. rewrite list_elem_of_fmap. split.
  - intros ([k row] & -> & Hin). apply list_elem_of_In, List.filter_In in Hin as [Hin Hp].
    exists row. split; [by apply elem_of_btree_entries, list_elem_of_In|]. by apply bool_decide_eq_true in Hp.
  - intros (row & Hrow & Hp). exists (id, row). split; [done|]. apply list_elem_of_In, List.filter_In.
    split; [by apply list_elem_of_In, elem_of_btree_entries|]. by apply bool_decide_eq_true.
Qed.

Lemma running_ids_NoDup db : NoDup (running_ids db).
Proof.
  unfold running_ids. eapply (sublist_NoDup _ (btree_keys (db_sessions db))); [apply btree_keys_NoDup|].
  unfold btree_keys. induction (btree_entries (db_sessions db)) as [|[k r] l IH]; simpl; [constructor|].
  destruct (bool_decide _); simpl; by constructor.
Qed.
End invariant.

(** ** Concrete stores *)

#[local] Existing Instance plain_codec.

(** One session in a project: a finished run, a run that requires action, and
    one that is still running. *)
Definition example_events : list SemanticEvent :=
  [SessionPhaseChanged Created Running None;
   RunQueued "r1" None "p" "x" JNull; RunStarted "r1" "a" 1; RunCompleted "r1" None;
   RunQueued "r2" None "p" "x" JNull; RunStarted "r2" "b" 1].
Definition example_store : SqliteStore :=
  let s := fst (create_project "pr" "t" "name" "/p" empty_store) in
  let s := fst (create_session "s" "t" None (Some "pr") Forever s) in
  fst (append_events "s" "t" example_events s).

Lemma example_reachable : reachable example_store.
Proof.
  do 3 (eapply rtc_r; [|constructor]). apply rtc_refl.
Qed.

Lemma example_consistent : consistent example_store.
Proof. apply reachable_consistent, example_reachable. Qed.

(** ** Properties *)





(** C35. Branching: forking a session at one of its events gives a new session
    whose log is the parent's up to that event, the fork, the interruption of
    the run that was active there, and a pause; its projection is the parent's
    at that event but for those; no other session changes.  An id that is not
    an event of the parent is refused and nothing changes. *)
Theorem fork_session_branches `{EventCodec} s id now parent n title :
  reachable s -> db_sessions (st_db s) !! id = None -> is_Some (db_sessions (st_db s) !! parent) ->
  0 <= n <= i64_max -> Z.of_nat (length (log parent s)) + 3 <= i64_max ->
  if bool_decide (1 <= n <= Z.of_nat (length (log parent s))) then
    exists s' row q p,
      fork_session id now parent n title s = (s', Ok (id, row))
      /\ project parent (take (Z.to_nat n) (log parent s)) = Ok q
      /\ log id s' = branch id now parent n (log parent s) q
      /\ project id (log id s') = Ok p /\ branched q p
      /\ forall j, j <> id -> log j s' = log j s
  else fork_session id now parent n title s = (s, Err (EventNotFound parent n)).
Proof.
  intros Hcs%reachable_consistent Hid [prow Hprow] Hn Hb.
  destruct (cs_sessions _ Hcs _ _ Hprow) as (evs & p & Hok & _).
  pose proof (fork_unfold s id now parent n title _ _ _ Hok ltac:(lia) Hid) as Hf.
  rewrite (row_ok_log _ _ _ _ _ Hok), length_fmap in Hb |- *. case_bool_decide as Hin; [|done].
  destruct Hf as (q & _ & _ & Hq & _).
  destruct (fork_success s id now parent n title _ _ _ _ Hcs Hok Hid Hin Hq) as
    (s' & row & p' & E & Hl & Hp & Hbr & Hfr & _).
  { pose proof (fork_events_length parent n q). lia. }
  rewrite (row_ok_log _ _ _ _ _ Hok) in Hl. exists s', row, q, p'. split_and!; try done.
  - rewrite <- fmap_take. by apply project_strip.
  - intros j Hj. by eapply log_frame.
Qed.

Lemma fork_session_branches_witness : exists s' row,
  fork_session "c" "t3" "s" 7 None example_store = (s', Ok ("c", row))
  /\ length (log "c" s') = 10%nat /\ log "s" s' = log "s" example_store.
Proof.
  pose proof (fork_session_branches example_store "c" "t3" "s" 7 None example_reachable) as H.
  assert (Hl : length (log "s" example_store) = 7%nat) by (vm_compute; reflexivity).
  rewrite Hl in H. specialize (H ltac:(vm_compute; reflexivity) ltac:(vm_compute; by eexists)
    ltac:(vm_compute; split; discriminate) ltac:(vm_compute; discriminate)).
  rewrite bool_decide_eq_true_2 in H by (vm_compute; split; discriminate).
  destruct H as (s' & row & q & p & E & Hq & Hb & _ & _ & Hj). exists s', row. split; [exact E|].
  split; [|apply Hj; discriminate].
  assert (Ha : length (fork_events "s" 7 q) = 3%nat).
  { revert Hq. set (r := project _ _). vm_compute in r. subst r. intros [= <-]. vm_compute. reflexivity. }
  rewrite Hb. unfold branch. rewrite length_app, length_fmap, length_take, Hl.
  unfold fork_events in *. destruct (active_run q); [reflexivity|discriminate Ha].
Defined.

(** Recovery: after a crash, [recover_running_sessions] interrupts every
    session that was running, reports one interruption for each, and leaves no
    session running; it cannot fail while event ids are in range, and sessions
    that were not running keep their rows. *)
Theorem recovery_stops_running_sessions `{EventCodec} s now :
  reachable s ->
  (forall id row, db_sessions (st_db s) !! id = Some row -> sr_last_event_id row + 2 <= i64_max) ->
  exists s' events,
    recover_running_sessions now s = (s', Ok events)
    /\ re_event <$> events = (fun _ => SessionInterrupted "server_restart") <$> running_ids (st_db s)
    /\ forall id,
         sr_phase <$> db_sessions (st_db s') !! id <> Some Running
         /\ (id ∉ running_ids (st_db s) ->
               db_sessions (st_db s') !! id = db_sessions (st_db s) !! id).
Proof.
  intros Hcs%reachable_consistent Hb.
  destruct (recover_all_ok now (running_ids (st_db s)) s Hcs (running_ids_NoDup _))
    as (s' & es & E & Hes & _ & Hout & Hin).
  { intros id (row & Hrow & Hrun)%elem_of_running. exists row. eauto. }
  exists s', es. split_and!; try done. intros id. split; [|by apply Hout].
  destruct (decide (id ∈ running_ids (st_db s))) as [Hi|Hi]; [by rewrite Hin|].
  rewrite Hout by done. intros Hp. apply Hi, elem_of_running.
  destruct (db_sessions (st_db s) !! id) as [row|] eqn:Hrow; [|done]. exists row. by injection Hp.
Qed.

Lemma recovery_stops_running_sessions_witness : exists s' events,
  recover_running_sessions "t4" example_store = (s', Ok events) /\ length events = 1%nat.
Proof.
  destruct (recovery_stops_running_sessions example_store "t4" example_reachable) as (s' & es & E & He & _).
  - intros id row H. assert (row = snd (hd ("", row) (map_to_list (db_sessions (st_db example_store))))) as ->.
    { apply elem_of_map_to_list in H. revert H. set (l := map_to_list _). vm_compute in l. subst l.
      intros [H|H]%elem_of_cons; [by injection H|by apply elem_of_nil in H]. }
    vm_compute. discriminate.
  - exists s', es. split; [exact E|]. apply (f_equal length) in He.
    rewrite !length_fmap in He. rewrite He. vm_compute. reflexivity.
Defined.

(** A session whose only run has just completed: its worker is about to append
    the end of the phase, a client is about to queue another run. *)
Definition race_store : SqliteStore :=
  let s := fst (create_session "s" "t" None None Forever empty_store) in
  fst (append_events "s" "t" (take 4 example_events) s).
Definition race_finish : SemanticEvent := SessionPhaseChanged Running Finished (Some "queue_empty").
Definition race_queue : SemanticEvent := RunQueued "r2" None "p" "x" JNull.

(** [late] has read the cache when [early] runs to its end; then [late]
    commits and writes the cache. *)
Definition race (early late : SemanticEvent) (s : SqliteStore) : SqliteStore * bool :=
  let cached := append_read "s" s in
  let '(s, r) := append_event "s" "t1" early s in
  match append_commit "s" "t2" cached [late] s with
  | (s, Ok (p, _)) => (append_cache "s" p s, is_ok r)
  | (s, Err _) => (s, false)
  end.

(** The refinement needs appends to one session not to overlap, and
    nothing orders the append of a queued run with those of the session's
    worker: [append_events] reads the cached projection before its transaction
    begins.  With the queued run late, both appends succeed and the next start
    rejects the database; with the worker late, both succeed, the log holds the
    queued run and the projection the scheduler looks at does not. *)
Theorem racing_appends_lose_updates :
  reachable race_store
  /\ (let '(s, ok) := race race_finish race_queue race_store in
      ok = true /\ validate_all (st_db s) =
        Err (CorruptSession "s" "projection cache does not match event log"))
  /\ (let '(s, ok) := race race_queue race_finish race_store in
      ok = true
      /\ rp_run_id <$> queued_runs (state_of (re_event <$> log "s" s)) = ["r2"]
      /\ (queued_runs <$> st_cache s !! "s") = Some []).
Proof.
  split; [do 2 (eapply rtc_r; [|constructor]); apply rtc_refl|].
  split; vm_compute; by split_and!.
Qed.
