(* ===== verification/Listing.v ===== *)
(** Listing pages of [piqo-server/src/storage.rs]: newest first, by creation
    time and id, with a cursor that names the last entry of a page.

    The three queries of the source (sessions, sessions under a clause,
    projects) are one function of the rows and of their creation time.  A
    client that follows the cursors sees every row once. *)

From S2P Require Export Store.

(** ** Keys *)

(** [(created_at, id)], compared as a row value by SQLite: byte-wise. *)
Definition page_key : Type := string * string.
Definition key_ltb (a b : page_key) : bool :=
  String.ltb a.1 b.1 || (String.eqb a.1 b.1 && String.ltb a.2 b.2).

Section page.
  Context {A : Type} (created_at : A -> string).

Definition key_of (r : string * A) : page_key := (created_at (snd r), fst r).

(** [ORDER BY created_at DESC, id DESC]. *)
Definition newer (x y : string * A) : bool := negb (key_ltb (key_of x) (key_of y)).

(** [WHERE (created_at, id) < (?, ?)]. *)
Definition after_cursor (cursor : option page_key) (r : string * A) : bool :=
  match cursor with Some c => key_ltb (key_of r) c | None => true end.

Definition parse_cursor (cursor : option string) : result StoreError (option page_key) :=
  match cursor with
  | Some c => k ← decode_cursor c; Ok (Some k)
  | None => Ok None
  end.

Definition list_page (cursor : option string) (limit : Z) (rows : list (string * A)) :
    result StoreError (list (string * A) * option string) :=
  let limit := Z.to_nat (Z.max 1 (Z.min limit 200)) in
  cursor ← parse_cursor cursor;
  let fetched := take (S limit) (sort_by newer (List.filter (after_cursor cursor) rows)) in
  let summaries := take limit fetched in
  Ok (summaries,
      if (limit <? length fetched)%nat
      then r ← last summaries; Some (encode_cursor (created_at (snd r)) (fst r))
      else None).

End page.

(** A client that follows the cursors of a query until there is none. *)
Fixpoint list_all {A} (query : option string -> result StoreError (list A * option string))
    (fuel : nat) (cursor : option string) : result StoreError (list A) :=
  match fuel with
  | O => Ok []
  | S fuel =>
      '(page, next) ← query cursor;
      match next with
      | None => Ok page
      | Some c => rest ← list_all query fuel (Some c); Ok (page ++ rest)
      end
  end.

Section listing.
  Context `{EventCodec}.

Definition list_sessions (cursor : option string) (limit : Z) (db : database) :
    result StoreError (list SessionSummary * option string) :=
  list_page sr_created_at cursor limit (map_to_list (db_sessions db)).

(** [list_sessions_by_clause] with the clause as a test. *)
Definition list_sessions_by_clause (clause : SessionRow -> bool) (cursor : option string) (limit : Z)
    (db : database) : result StoreError (list SessionSummary * option string) :=
  list_page sr_created_at cursor limit
    (List.filter (fun r => clause (snd r)) (map_to_list (db_sessions db))).

Definition list_unassigned_sessions (cursor : option string) (limit : Z) (db : database) :
    result StoreError (list SessionSummary * option string) :=
  list_sessions_by_clause (fun r => bool_decide (sr_project_id r = None)) cursor limit db.

Definition list_project_sessions (project_id : string) (cursor : option string) (limit : Z)
    (db : database) : result StoreError (list SessionSummary * option string) :=
  if bool_decide (is_Some (db_projects db !! project_id))
  then list_sessions_by_clause (fun r => bool_decide (sr_project_id r = Some project_id)) cursor limit db
  else Err (ProjectNotFound project_id).

Definition list_projects (cursor : option string) (limit : Z) (db : database) :
    result StoreError (list (string * Project) * option string) :=
  list_page pj_created_at cursor limit (map_to_list (db_projects db)).
End listing.

(** ** The order of keys *)

Lemma string_ltb_lt a b : String.ltb a b = true <-> string_lt a b.
Proof. unfold String.ltb, string_lt. by destruct (String.compare a b). Qed.

Lemma string_lt_irrefl a : ~ string_lt a a.
Proof. unfold string_lt. by rewrite string_compare_refl. Qed.

Lemma string_lt_total a b : string_lt a b \/ a = b \/ string_lt b a.
Proof.
  pose proof (string_leb_total' a b) as Ht. apply orb_prop_elim in Ht.
  rewrite !string_leb_spec in Ht. naive_solver.
Qed.

Definition key_lt (a b : page_key) : Prop :=
  string_lt a.1 b.1 \/ (a.1 = b.1 /\ string_lt a.2 b.2).

Lemma key_ltb_lt a b : key_ltb a b = true <-> key_lt a b.
Proof.
  unfold key_ltb, key_lt. by rewrite orb_true_iff, andb_true_iff, !string_ltb_lt, String.eqb_eq.
Qed.

Lemma key_ltb_false a b : ~ key_lt a b -> key_ltb a b = false.
Proof. rewrite <- key_ltb_lt. by destruct (key_ltb a b). Qed.

Lemma key_lt_irrefl a : ~ key_lt a a.
Proof. intros [?%string_lt_irrefl|[_ ?%string_lt_irrefl]]; done. Qed.

Lemma key_lt_trans a b c : key_lt a b -> key_lt b c -> key_lt a c.
Proof.
  intros [Ha|[Ea Ha]] [Hb|[Eb Hb]]; unfold key_lt.
  - left. by eapply string_compare_lt_trans.
  - left. by rewrite <- Eb.
  - left. by rewrite Ea.
  - right. split; [congruence|]. by eapply string_compare_lt_trans.
Qed.

Lemma key_lt_total a b : key_lt a b \/ a = b \/ key_lt b a.
Proof.
  destruct a as [a1 a2], b as [b1 b2]. unfold key_lt. simpl.
  destruct (string_lt_total a1 b1) as [|[->|]]; auto.
  destruct (string_lt_total a2 b2) as [|[->|]]; auto.
Qed.

(** ** Sorting and filtering commute *)

Section filter_sort.
  Context {A : Type} (leb : A -> A -> bool).
  Context (Htot : forall x y, leb x y || leb y x) (Htr : forall x y z, leb x y -> leb y z -> leb x z).

Lemma insert_by_head x l : Forall (leb x) l -> insert_by leb x l = x :: l.
Proof. destruct l as [|y l]; [done|]. intros [Hy _]%Forall_cons. simpl. by destruct (leb x y). Qed.

Lemma Forall_filter' (P : A -> Prop) p l : Forall P l -> Forall P (List.filter p l).
Proof. induction 1 as [|x l Hx _ IH]; simpl; [done|]. destruct (p x); by try constructor. Qed.

Lemma filter_insert_by p x l :
  StronglySorted leb l ->
  List.filter p (insert_by leb x l) = if p x then insert_by leb x (List.filter p l) else List.filter p l.
Proof.
  induction 1 as [|y l Hs IH Hy]; simpl; [done|]. destruct (leb x y) eqn:Hxy; simpl.
  - destruct (p x) eqn:Hx, (p y) eqn:Hpy; simpl; try done; [by rewrite Hxy|].
    symmetry. apply insert_by_head, Forall_filter'. eapply Forall_impl; [exact Hy|].
    intros z Hz. eapply Htr; [|exact Hz]. by rewrite Hxy.
  - rewrite IH. destruct (p x) eqn:Hx, (p y) eqn:Hpy; simpl; try done. by rewrite Hxy.
Qed.

Lemma sort_by_filter p l : sort_by leb (List.filter p l) = List.filter p (sort_by leb l).
Proof.
  induction l as [|x l IH]; [done|]. cbn [sort_by].
  rewrite filter_insert_by by (by apply sort_by_sorted). simpl. destruct (p x); [|done]. simpl. by rewrite IH.
Qed.
End filter_sort.

(** ** Pages *)

Definition no_bar (s : string) : Prop := str_forallb (fun c => negb (c =? bar)%char) s = true.

(** What cursors need of a row: RFC 3339 times and UUIDs have it. *)
Definition row_key_ok (k : page_key) : Prop := no_bar k.1 /\ k.1 <> "" /\ k.2 <> "".

Lemma decode_encode_cursor k : row_key_ok k -> decode_cursor (encode_cursor k.1 k.2) = Ok k.
Proof.
  destruct k as [a b]. intros (Hbar & Ha & Hb). simpl in *. unfold decode_cursor, encode_cursor.
  assert (split_once bar (a ++s String bar b) = Some (a, b)) as ->.
  { clear Ha. unfold no_bar in Hbar. induction a as [|c a IH]; [done|].
    simpl in Hbar. apply andb_true_iff in Hbar as [Hc Hbar].
    rewrite append_cons. cbn [split_once]. rewrite (Ascii.eqb_sym bar c).
    destruct (c =? bar)%char; [done|]. by rewrite IH. }
  simpl. destruct a, b; done.
Qed.

Section pages.
  Context {A : Type} (created_at : A -> string) (rows : list (string * A)).
  Context (Hnd : NoDup rows.*1) (Hkeys : Forall (fun r => row_key_ok (key_of created_at r)) rows).
  Context (limit : Z).

Notation key := (key_of created_at).
Notation all := (sort_by (newer created_at) rows).

Lemma newer_total x y : newer created_at x y || newer created_at y x.
Proof.
  unfold newer. destruct (key_ltb (key x) (key y)) eqn:E; simpl; [|done].
  apply key_ltb_lt in E. destruct (key_ltb (key y) (key x)) eqn:E'; [|done].
  apply key_ltb_lt in E'. by destruct (key_lt_irrefl (key x)); eapply key_lt_trans.
Qed.

Lemma newer_spec x y : newer created_at x y <-> key y = key x \/ key_lt (key y) (key x).
Proof.
  unfold newer. destruct (key_ltb (key x) (key y)) eqn:E; simpl.
  - apply key_ltb_lt in E. split; [done|]. intros [Hk|Hk].
    + rewrite Hk in E. by apply key_lt_irrefl in E.
    + by destruct (key_lt_irrefl (key x)); eapply key_lt_trans.
  - split; [intros _|done]. destruct (key_lt_total (key x) (key y)) as [H|[H|H]]; [|by left|by right].
    apply key_ltb_lt in H. congruence.
Qed.

Lemma newer_trans x y z : newer created_at x y -> newer created_at y z -> newer created_at x z.
Proof.
  rewrite !newer_spec. intros [E|H] [E'|H'].
  - left. congruence.
  - right. by rewrite <- E.
  - right. by rewrite E'.
  - right. by eapply key_lt_trans.
Qed.

(** The listing is strictly decreasing: no two rows share a key. *)
Lemma all_strict l1 r l2 : all = l1 ++ r :: l2 ->
  Forall (fun x => key_lt (key r) (key x)) l1 /\ Forall (fun x => key_lt (key x) (key r)) l2.
Proof.
  intros E. assert (Hn : NoDup all.*1) by (by rewrite sort_by_perm).
  pose proof (sort_by_sorted _ rows newer_total newer_trans) as Hs. rewrite E in Hn, Hs.
  rewrite fmap_app, fmap_cons in Hn. apply NoDup_app in Hn as (_ & Hd & [Hr _]%NoDup_cons).
  assert (Hne : forall x y, newer created_at x y -> fst x <> fst y -> key_lt (key y) (key x)).
  { intros x y [Hk|]%newer_spec Hf; [|done]. by injection Hk. }
  split; apply Forall_forall; intros x Hx.
  - apply Hne; [|intros Ef; apply (Hd (fst x)); [by apply list_elem_of_fmap_2|rewrite Ef; by left]].
    apply list_elem_of_split in Hx as (la & lb & ->). rewrite <- app_assoc in Hs.
    clear -Hs. induction la as [|a la IH]; simpl in Hs; apply StronglySorted_inv in Hs as [Hs Hf]; [|by apply IH].
    rewrite Forall_forall in Hf. apply Hf. apply elem_of_app. right. by left.
  - apply Hne; [|intros Ef; apply Hr; rewrite Ef; by apply list_elem_of_fmap_2].
    clear -Hs Hx. induction l1 as [|a l1 IH]; simpl in Hs; apply StronglySorted_inv in Hs as [Hs Hf]; [|by apply IH].
    rewrite Forall_forall in Hf. by apply Hf.
Qed.

Lemma after_key l1 r l2 : all = l1 ++ r :: l2 ->
  List.filter (after_cursor created_at (Some (key r))) all = l2.
Proof.
  intros E. destruct (all_strict _ _ _ E) as [H1 H2]. rewrite E. clear E. rewrite List.filter_app. simpl.
  rewrite key_ltb_false by apply key_lt_irrefl.
  replace (List.filter _ l1) with (@nil (string * A)).
  - simpl. induction H2 as [|x l Hx _ IH]; simpl; [done|]. by rewrite (proj2 (key_ltb_lt _ _) Hx), IH.
  - symmetry. induction H1 as [|x l Hx _ IH]; simpl; [done|].
    rewrite key_ltb_false; [done|]. intros Hc.
    by destruct (key_lt_irrefl (key r)); eapply key_lt_trans.
Qed.

Lemma list_page_rest cursor key_opt rest :
  parse_cursor cursor = Ok key_opt ->
  List.filter (after_cursor created_at key_opt) all = rest ->
  let n := Z.to_nat (Z.max 1 (Z.min limit 200)) in
  list_page created_at cursor limit rows =
    Ok (take n rest,
        if (n <? length rest)%nat
        then r ← last (take n rest); Some (encode_cursor (key r).1 (key r).2) else None).
Proof.
  intros Hc Hrest n. unfold list_page. rewrite Hc. cbn [mbind result_mbind]. fold n.
  rewrite (sort_by_filter _ newer_total newer_trans), Hrest, take_take, Nat.min_l by lia.
  assert ((n <? length (take (S n) rest))%nat = (n <? length rest)%nat) as ->; [|done].
  rewrite length_take. destruct (Nat.ltb_spec n (length rest)); [apply Nat.ltb_lt|apply Nat.ltb_ge]; lia.
Qed.

Lemma list_all_rest fuel : forall cursor key_opt done_ rest,
  parse_cursor cursor = Ok key_opt ->
  all = done_ ++ rest -> List.filter (after_cursor created_at key_opt) all = rest ->
  (length rest < fuel)%nat ->
  list_all (fun c => list_page created_at c limit rows) fuel cursor = Ok rest.
Proof.
  induction fuel as [|fuel IH]; intros cursor ko dn rest Hc Hall Hrest Hf; [lia|].
  cbn [list_all]. rewrite (list_page_rest _ _ _ Hc Hrest).
  set (n := Z.to_nat (Z.max 1 (Z.min limit 200))). assert (Hn : (1 <= n)%nat) by lia.
  cbn [mbind result_mbind]. destruct (Nat.ltb_spec n (length rest)) as [Hl|Hl].
  2: { by rewrite take_ge. }
  destruct (last (take n rest)) as [r|] eqn:Hlast.
  2: { apply last_None in Hlast. apply (f_equal length) in Hlast. rewrite length_take in Hlast. simpl in Hlast. lia. }
  apply last_Some in Hlast as [front Hfront]. cbn [mbind option_bind].
  assert (Hsplit : all = (dn ++ front) ++ r :: drop n rest).
  { rewrite Hall, <- (take_drop n rest) at 1. rewrite Hfront. by rewrite <- !app_assoc. }
  assert (Hk : row_key_ok (key r)).
  { rewrite Forall_forall in Hkeys. apply Hkeys. rewrite <- (sort_by_perm (newer created_at) rows), Hsplit.
    apply elem_of_app. right. by left. }
  rewrite (IH _ (Some (key r)) ((dn ++ front) ++ [r]) (drop n rest)).
  - cbn [mbind result_mbind]. by rewrite take_drop.
  - unfold parse_cursor. by rewrite (decode_encode_cursor _ Hk).
  - etrans; [exact Hsplit|]. by rewrite <- (app_assoc (dn ++ front)).
  - by apply (after_key _ _ _ Hsplit).
  - rewrite length_drop. lia.
Qed.

End pages.

(** ** Properties *)

(** C36. Pagination: a client that follows the cursors of a session listing,
    whatever page size it asks for, sees every session under the clause exactly
    once, newest first; the whole listing is the clause that always holds. *)
Theorem listing_is_complete `{EventCodec} (db : database) limit clause :
  (forall id row, db_sessions db !! id = Some row -> row_key_ok (sr_created_at row, id)) ->
  exists l,
    list_all (fun c => list_sessions_by_clause clause c limit db)
      (S (size (db_sessions db))) None = Ok l
    /\ (forall id row, (id, row) ∈ l <-> db_sessions db !! id = Some row /\ clause row = true)
    /\ NoDup l.*1
    /\ StronglySorted (newer sr_created_at) l
    /\ forall c, list_sessions c limit db = list_sessions_by_clause (fun _ => true) c limit db.
Proof.
  intros Hk. set (rows := List.filter (fun r => clause (snd r)) (map_to_list (db_sessions db))).
  assert (Hsub : sublist rows (map_to_list (db_sessions db))).
  { unfold rows. generalize (map_to_list (db_sessions db)). induction l as [|x l IH]; simpl; [constructor|].
    destruct (clause (snd x)); by constructor. }
  assert (Hnd : NoDup rows.*1).
  { eapply sublist_NoDup; [|by apply fmap_sublist]. apply NoDup_fst_map_to_list. }
  assert (Hmem : forall id row, (id, row) ∈ rows <-> db_sessions db !! id = Some row /\ clause row = true).
  { intros id row. unfold rows. rewrite list_elem_of_In, List.filter_In, <- list_elem_of_In.
    by rewrite elem_of_map_to_list. }
  assert (Hkeys : Forall (fun r => row_key_ok (key_of sr_created_at r)) rows).
  { apply Forall_forall. intros [id row] [Hr _]%Hmem. by apply Hk. }
  exists (sort_by (newer sr_created_at) rows). split_and!.
  - unfold list_sessions_by_clause. fold rows.
    apply (list_all_rest _ _ Hnd Hkeys limit _ None None []); [done|done|by apply filter_all'|].
    rewrite length_sort_by. apply sublist_length in Hsub. rewrite length_map_to_list in Hsub. lia.
  - intros id row. by rewrite elem_of_sort_by.
  - by rewrite sort_by_perm.
  - apply sort_by_sorted; [apply newer_total|apply newer_trans].
  - intros c. unfold list_sessions, list_sessions_by_clause. by rewrite filter_all'.
Qed.

#[local] Existing Instance plain_codec.

(** Two sessions created in the same millisecond, and a third one. *)
Definition listing_row (created_at : string) : SessionRow :=
  mkSessionRow None None None None created_at created_at Created 0 1 Forever.
Definition listing_db : database :=
  mkDatabase {[ "a" := listing_row "2025-01-01T00:00:00.000Z"; "b" := listing_row "2025-01-01T00:00:00.000Z";
                "c" := listing_row "2025-01-01T00:00:00.001Z" ]} ∅ ∅.

Lemma listing_is_complete_witness : exists l,
  list_all (fun c => list_sessions_by_clause (fun _ => true) c 2 listing_db)
    (S (size (db_sessions listing_db))) None = Ok l /\ l.*1 = ["c"; "b"; "a"].
Proof.
  destruct (listing_is_complete listing_db 2 (fun _ => true)) as (l & Hl & _).
  - intros id row H. apply elem_of_map_to_list in H.
    assert (Hall : forallb (fun r => str_forallb (fun c => negb (c =? bar)%char) (sr_created_at (snd r))
      && negb (is_empty (sr_created_at (snd r))) && negb (is_empty (fst r)))
      (map_to_list (db_sessions listing_db)) = true) by (vm_compute; reflexivity).
    rewrite forallb_elem in Hall. specialize (Hall _ H). simpl in Hall.
    rewrite !andb_true_iff in Hall. destruct Hall as [[Hb Hc] Hi]. split; [exact Hb|].
    split; intros E; simpl in E; [rewrite E in Hc|rewrite E in Hi]; discriminate.
  - exists l. split; [exact Hl|]. revert Hl. set (r := list_all _ _ _). vm_compute in r. subst r.
    intros [= <-]. vm_compute. reflexivity.
Defined.
