(* ===== verification/Stream.v ===== *)
(** The event stream of [piqo-server/src/lib.rs]: [stream_events], the header that
    resumes it and the slots that bound the open streams.

    A client's stream is opened in two steps (it subscribes, then it reads the
    events recorded so far) and afterwards receives what handlers publish.  A
    handler that records events commits them to the store and publishes them
    later, one after the other: [fd_flight] holds what the handlers in progress
    have committed and not yet published.  tokio's broadcast channel keeps the
    last [capacity] events a receiver has not read and tells it when it has lost
    older ones. *)

From S2P Require Export Store Config.

(** ** [parse_last_event_id] *)

(** [u64::from_str]. *)
Fixpoint parse_digits (s : string) (n : Z) : option Z :=
  match s with
  | "" => Some n
  | String c s =>
      if (48 <=? byte c) && (byte c <=? 57)
      then let n := n * 10 + (byte c - 48) in if u64_max <? n then None else parse_digits s n
      else None
  end.
Definition parse_u64 (s : string) : option Z :=
  let digits := match s with String "+" s => s | _ => s end in
  match digits with "" => None | _ => parse_digits digits 0 end.

(** [HeaderValue::to_str]: visible ASCII, spaces and tabs. *)
Definition header_text (s : string) : bool :=
  str_forallb (fun c => ((32 <=? byte c) && (byte c <? 127)) || (byte c =? 9)) s.

Inductive CursorError := NotText | NotInteger.
Definition parse_last_event_id (header : option string) : result CursorError EventId :=
  match header with
  | None => Ok 0
  | Some value => if header_text value then ok_or NotInteger (parse_u64 value) else Err NotText
  end.

(** ** [acquire_sse_connection]: free slots *)

Record SseSlots := mkSlots { sl_connections : Z; sl_by_session : gmap string Z }.

(** [max_sse_connections] and [max_sse_connections_per_session] of the limits the
    server was started with. *)
Definition new_slots (l : ResourceLimits) : SseSlots := mkSlots (max_sse_connections l) ∅.

(** The global permit that was taken is dropped when the session has none left;
    the session's entry stays. *)
Definition acquire_sse_connection (l : ResourceLimits) (session_id : string) (s : SseSlots) :
    SseSlots * result StoreError () :=
  if sl_connections s =? 0 then (s, Err SseCapacityExceeded)
  else
    let free := default (max_sse_connections_per_session l) (sl_by_session s !! session_id) in
    if free =? 0 then (mkSlots (sl_connections s) (<[session_id := free]> (sl_by_session s)), Err SseCapacityExceeded)
    else (mkSlots (sl_connections s - 1) (<[session_id := free - 1]> (sl_by_session s)), Ok ()).

(** A stream ends: both permits are dropped. *)
Definition release_sse_connection (session_id : string) (s : SseSlots) : SseSlots :=
  mkSlots (sl_connections s + 1) (alter (fun free => free + 1) session_id (sl_by_session s)).

(** ** [stream_events] *)

(** Where the body of the stream stands: [last_id], what was yielded, and the
    receiver with the events it has not read. *)
Record SseStream := mkSse {
  sse_last_id : EventId;
  sse_sent : list RecordedEvent;
  sse_queue : list RecordedEvent;
  sse_lagged : bool }.

(** [if recorded.id > last_id { last_id = recorded.id; yield .. }]. *)
Definition offer (st : SseStream) (recorded : RecordedEvent) : SseStream :=
  if sse_last_id st <? re_id recorded
  then mkSse (re_id recorded) (sse_sent st ++ [recorded]) (sse_queue st) (sse_lagged st)
  else st.

(** A receiver that subscribes with checkpoint [after]. *)
Definition subscribed (after : EventId) : SseStream := mkSse after [] [] false.

(** What the channel does with an event for a receiver. *)
Definition receive (capacity : nat) (recorded : RecordedEvent) (st : SseStream) : SseStream :=
  let queue := sse_queue st ++ [recorded] in
  if (length queue <=? capacity)%nat then mkSse (sse_last_id st) (sse_sent st) queue (sse_lagged st)
  else mkSse (sse_last_id st) (sse_sent st) (drop 1 queue) true.

Definition unlagged (st : SseStream) : SseStream :=
  mkSse (sse_last_id st) (sse_sent st) (sse_queue st) false.
Definition pop (queue : list RecordedEvent) (st : SseStream) : SseStream :=
  mkSse (sse_last_id st) (sse_sent st) queue (sse_lagged st).

Inductive SsePhase := Opening | Live | Closed.
#[export] Instance SsePhase_eq_dec : EqDecision SsePhase.
Proof. solve_decision. Defined.

Section stream.
  Context `{EventCodec}.

(** The replay that follows the subscription; an error answers the request. *)
Definition open_stream (session_id : string) (after : EventId) (db : database) (st : SseStream) :
    result StoreError SseStream :=
  replay ← events_after session_id after None db; Ok (foldl offer st replay).

(** One turn of the loop on [receiver.recv()]: [None] when the stream ends, the
    state itself when there is nothing to read. *)
Definition poll_stream (session_id : string) (db : database) (st : SseStream) : option SseStream :=
  if sse_lagged st then
    match events_after session_id (sse_last_id st) None db with
    | Ok events => Some (foldl offer (unlagged st) events)
    | Err _ => None
    end
  else match sse_queue st with
  | recorded :: queue => Some (offer (pop queue st) recorded)
  | [] => Some st
  end.

(** ** A stream among the handlers that record events *)

Record Feed := mkFeed {
  fd_store : SqliteStore;
  fd_flight : list (list RecordedEvent);
  fd_phase : SsePhase;
  fd_stream : SseStream }.

Definition feed_start (after : EventId) (store : SqliteStore) : Feed :=
  mkFeed store [] Opening (subscribed after).

(** A handler commits events of some session; those of other sessions are
    published elsewhere. *)
Definition feed_append (session_id id now : string) (events : list SemanticEvent) (f : Feed) : Feed :=
  match append_events id now events (fd_store f) with
  | (store, Ok recorded) =>
      mkFeed store (if String.eqb id session_id then fd_flight f ++ [recorded] else fd_flight f)
        (fd_phase f) (fd_stream f)
  | (store, Err _) => mkFeed store (fd_flight f) (fd_phase f) (fd_stream f)
  end.

(** The [i]-th handler in progress publishes its next event. *)
Definition feed_publish (capacity i : nat) (f : Feed) : Feed :=
  match fd_flight f !! i with
  | Some (recorded :: rest) =>
      mkFeed (fd_store f) (<[i := rest]> (fd_flight f)) (fd_phase f)
        (if decide (fd_phase f = Closed) then fd_stream f else receive capacity recorded (fd_stream f))
  | _ => f
  end.

Definition feed_open (session_id : string) (f : Feed) : Feed :=
  match fd_phase f with
  | Opening =>
      match open_stream session_id (sse_last_id (fd_stream f)) (st_db (fd_store f)) (fd_stream f) with
      | Ok st => mkFeed (fd_store f) (fd_flight f) Live st
      | Err _ => mkFeed (fd_store f) (fd_flight f) Closed (fd_stream f)
      end
  | _ => f
  end.

Definition feed_poll (session_id : string) (f : Feed) : Feed :=
  match fd_phase f with
  | Live =>
      match poll_stream session_id (st_db (fd_store f)) (fd_stream f) with
      | Some st => mkFeed (fd_store f) (fd_flight f) Live st
      | None => mkFeed (fd_store f) (fd_flight f) Closed (fd_stream f)
      end
  | _ => f
  end.

(** [streams_closed]: the loop ends wherever it is, whatever the receiver still
    holds ([tokio::select!] without [biased]). *)
Definition feed_shutdown (f : Feed) : Feed :=
  mkFeed (fd_store f) (fd_flight f) Closed (fd_stream f).

(** Events are published in the order of their ids when a handler publishes only
    after those that committed before it are done. *)
Definition in_order (i : nat) (f : Feed) : Prop := Forall (fun l => l = []) (take i (fd_flight f)).

Inductive feed_step (ordered : bool) (session_id : string) (capacity : nat) (f : Feed) : Feed -> Prop :=
  | feed_step_append id now events : feed_step ordered session_id capacity f (feed_append session_id id now events f)
  | feed_step_publish i : (ordered = true -> in_order i f) ->
      feed_step ordered session_id capacity f (feed_publish capacity i f)
  | feed_step_open : feed_step ordered session_id capacity f (feed_open session_id f)
  | feed_step_poll : feed_step ordered session_id capacity f (feed_poll session_id f).

End stream.
