(* ===== verification/Admission.v ===== *)
(** Run admission and live events: [AdmissionController] and [EventHub] of
    [piqo-server/src/supervisor.rs].

    Both are a table behind a lock that every method holds from its first to its
    last line, so a method is one step.  A broadcast channel is tokio's: here it
    is the list of its receivers, and [hub_inbox] is what was sent to each of them
    (a receiver that is [capacity] events behind loses the oldest ones). *)

From S2P Require Export Store.
From S2P Require Export Config.

(** ** [AdmissionController] *)

Record AdmissionState := mkAdmission {
  as_pending : Z;
  as_sessions : gmap string Z;
  as_run_sessions : gmap string string }.

Module AdmissionController.

Definition new : AdmissionState := mkAdmission 0 ∅ ∅.

Definition reserve (limits : ResourceLimits) (session_id run_id : string) (a : AdmissionState) :
    result StoreError AdmissionState :=
  let session_pending := default 0 (as_sessions a !! session_id) in
  if (max_pending_runs limits <=? as_pending a)
     || (max_pending_runs_per_session limits <=? session_pending)
  then Err RunCapacityExceeded
  else Ok (mkAdmission (as_pending a + 1) (<[session_id := session_pending + 1]> (as_sessions a))
             (<[run_id := session_id]> (as_run_sessions a))).

Definition release (run_id : string) (a : AdmissionState) : AdmissionState :=
  match as_run_sessions a !! run_id with
  | None => a
  | Some session_id =>
      mkAdmission (u64_sat_sub (as_pending a) 1)
        match as_sessions a !! session_id with
        | None => as_sessions a
        | Some value =>
            let value := u64_sat_sub value 1 in
            if value =? 0 then delete session_id (as_sessions a)
            else <[session_id := value]> (as_sessions a)
        end
        (delete run_id (as_run_sessions a))
  end.

End AdmissionController.

(** The reservations of one session. *)
Definition reserved_by (session_id : string) (a : AdmissionState) : gmap string string :=
  filter (fun rs => rs.2 = session_id) (as_run_sessions a).

(** The counters are the numbers of reservations, and within the limits. *)
Record admission_wf (limits : ResourceLimits) (a : AdmissionState) : Prop := {
  aw_pending : as_pending a = Z.of_nat (size (as_run_sessions a));
  aw_sessions : forall s, default 0 (as_sessions a !! s) = Z.of_nat (size (reserved_by s a));
  aw_positive : forall s n, as_sessions a !! s = Some n -> 0 < n;
  aw_max : as_pending a <= Z.max 0 (max_pending_runs limits);
  aw_max_session : forall s, default 0 (as_sessions a !! s) <= Z.max 0 (max_pending_runs_per_session limits) }.

Lemma new_admission_wf limits : admission_wf limits AdmissionController.new.
Proof.
  split; simpl; [by rewrite map_size_empty| |intros *; by rewrite lookup_empty|lia|];
    intros s; rewrite lookup_empty; simpl; [|lia].
  unfold reserved_by. simpl. by rewrite map_filter_empty, map_size_empty.
Qed.

Lemma reserved_by_insert_same s r a p m : as_run_sessions a !! r = None ->
  size (reserved_by s (mkAdmission p m (<[r := s]> (as_run_sessions a)))) = S (size (reserved_by s a)).
Proof.
  intros Hr. unfold reserved_by. simpl. rewrite map_filter_insert_True by done.
  apply map_size_insert_None. apply map_lookup_filter_None. by left.
Qed.

Lemma reserved_by_insert_other s s' r a p m : as_run_sessions a !! r = None -> s' <> s ->
  reserved_by s' (mkAdmission p m (<[r := s]> (as_run_sessions a))) = reserved_by s' a.
Proof.
  intros Hr Hs. unfold reserved_by. simpl. rewrite map_filter_insert_False by (simpl; congruence).
  by rewrite delete_id.
Qed.

Lemma reserve_wf limits s r a a' : as_run_sessions a !! r = None ->
  admission_wf limits a -> AdmissionController.reserve limits s r a = Ok a' -> admission_wf limits a'.
Proof.
  intros Hr [Hp Hs Hpos Hm Hms]. unfold AdmissionController.reserve. destruct (_ || _) eqn:E; [done|].
  intros [= <-]. pose proof (Hs s) as Hss. split; simpl.
  - rewrite map_size_insert_None by done. lia.
  - intros s'. destruct (decide (s' = s)) as [->|Hne].
    + rewrite lookup_insert_eq, reserved_by_insert_same by done. simpl. lia.
    + rewrite lookup_insert_ne by done. rewrite reserved_by_insert_other by done. apply Hs.
  - intros s' n. destruct (decide (s' = s)) as [->|Hne].
    + rewrite lookup_insert_eq. intros [= <-]. lia.
    + rewrite lookup_insert_ne by done. apply Hpos.
  - lia.
  - intros s'. destruct (decide (s' = s)) as [->|Hne].
    + rewrite lookup_insert_eq. simpl. lia.
    + rewrite lookup_insert_ne by done. apply Hms.
Qed.

Lemma reserved_by_delete s r a p m :
  reserved_by s (mkAdmission p m (delete r (as_run_sessions a))) = delete r (reserved_by s a).
Proof. unfold reserved_by. simpl. apply map_filter_delete. Qed.

Lemma reserved_by_lookup s r a : reserved_by s a !! r = Some s <-> as_run_sessions a !! r = Some s.
Proof. unfold reserved_by. rewrite map_lookup_filter_Some. simpl. naive_solver. Qed.

Lemma release_wf limits r a : admission_wf limits a -> admission_wf limits (AdmissionController.release r a).
Proof.
  intros Hwf. unfold AdmissionController.release. destruct (as_run_sessions a !! r) as [s|] eqn:Hr; [|done].
  destruct Hwf as [Hp Hs Hpos Hm Hms].
  pose proof (map_size_delete_Some _ _ (mk_is_Some _ _ Hr)) as Hsize.
  assert (Hne0 : size (as_run_sessions a) <> 0%nat).
  { intros H0%map_size_empty_iff. rewrite H0 in Hr. by rewrite lookup_empty in Hr. }
  assert (Hsr : reserved_by s a !! r = Some s) by by apply reserved_by_lookup.
  pose proof (map_size_delete_Some _ _ (mk_is_Some _ _ Hsr)) as Hsize'.
  assert (Hne1 : size (reserved_by s a) <> 0%nat).
  { intros H0%map_size_empty_iff. rewrite H0 in Hsr. by rewrite lookup_empty in Hsr. }
  pose proof (Hs s) as Hss. destruct (as_sessions a !! s) as [v|] eqn:Hv; simpl in Hss; [|lia].
  pose proof (Hpos _ _ Hv) as Hv0. set (sessions := if u64_sat_sub v 1 =? 0 then delete s (as_sessions a) else <[s := u64_sat_sub v 1]> (as_sessions a)).
  assert (Hlook : default 0 (sessions !! s) = v - 1 /\ (forall n, sessions !! s = Some n -> 0 < n)
    /\ forall s', s' <> s -> sessions !! s' = as_sessions a !! s').
  { assert (Hd : u64_sat_sub v 1 = v - 1) by (unfold u64_sat_sub; lia).
    unfold sessions. rewrite Hd. destruct (v - 1 =? 0) eqn:E; split_and!.
    - rewrite lookup_delete_eq. simpl. lia.
    - intros n. by rewrite lookup_delete_eq.
    - intros s' Hn. by rewrite lookup_delete_ne.
    - rewrite lookup_insert_eq. simpl. lia.
    - intros n. rewrite lookup_insert_eq. intros [= <-]. lia.
    - intros s' Hn. by rewrite lookup_insert_ne. }
  destruct Hlook as (Hls & Hlp & Hlo). split; simpl; fold sessions.
  - unfold u64_sat_sub. lia.
  - intros s'. rewrite reserved_by_delete. destruct (decide (s' = s)) as [->|Hne].
    + rewrite Hls. lia.
    + rewrite Hlo by done. rewrite Hs, delete_id; [done|].
      apply map_lookup_filter_None. right. simpl. intros x Hx. congruence.
  - intros s' n. destruct (decide (s' = s)) as [->|Hne]; [apply Hlp|]. rewrite Hlo by done. apply Hpos.
  - unfold u64_sat_sub. lia.
  - intros s'. destruct (decide (s' = s)) as [->|Hne]; [|by rewrite Hlo].
    rewrite Hls. specialize (Hms s). rewrite Hv in Hms. simpl in Hms. lia.
Qed.

Lemma release_run_sessions r a :
  as_run_sessions (AdmissionController.release r a) = delete r (as_run_sessions a).
Proof.
  unfold AdmissionController.release. destruct (as_run_sessions a !! r) eqn:Hr; [done|].
  by rewrite delete_id.
Qed.

Lemma reserve_run_sessions limits s r a a' :
  AdmissionController.reserve limits s r a = Ok a' -> as_run_sessions a' = <[r := s]> (as_run_sessions a).
Proof. unfold AdmissionController.reserve. destruct (_ || _); [done|]. by intros [= <-]. Qed.

(** ** [EventHub] *)

Record EventHub := mkHub {
  hub_channels : gmap string (list N);
  hub_inbox : gmap N (list RecordedEvent) }.

Module EventHub.

Definition new : EventHub := mkHub ∅ ∅.

Definition has_receivers (entry : string * list N) : Prop := entry.2 <> [].
#[export] Instance has_receivers_dec entry : Decision (has_receivers entry).
Proof. unfold has_receivers. apply _. Defined.

(** [channels.retain(|_, sender| sender.receiver_count() > 0)]. *)
Definition retain (channels : gmap string (list N)) : gmap string (list N) := filter has_receivers channels.

(** [receiver] is the new receiver. *)
Definition subscribe (session_id : string) (receiver : N) (h : EventHub) : EventHub :=
  let channels := retain (hub_channels h) in
  mkHub (<[session_id := default [] (channels !! session_id) ++ [receiver]]> channels)
    (<[receiver := []]> (hub_inbox h)).

Definition deliver (event : RecordedEvent) (inbox : gmap N (list RecordedEvent)) (receiver : N) :
    gmap N (list RecordedEvent) :=
  <[receiver := default [] (inbox !! receiver) ++ [event]]> inbox.

(** [send] fails when nobody listens; the channel is then removed. *)
Definition publish (event : RecordedEvent) (h : EventHub) : EventHub :=
  let receivers := default [] (hub_channels h !! re_session_id event) in
  let channels :=
    if bool_decide (receivers = []) then delete (re_session_id event) (hub_channels h)
    else hub_channels h in
  mkHub (retain channels) (foldl (deliver event) (hub_inbox h) receivers).

Definition remove_if_unused (session_id : string) (h : EventHub) : EventHub :=
  if bool_decide (hub_channels h !! session_id = Some [])
  then mkHub (delete session_id (hub_channels h)) (hub_inbox h) else h.

Definition close_sessions (session_ids : list string) (h : EventHub) : EventHub :=
  mkHub (foldl (fun m id => delete id m) (hub_channels h) session_ids) (hub_inbox h).

(** A client goes away: its receiver is dropped. *)
Definition drop_receiver (receiver : N) (h : EventHub) : EventHub :=
  mkHub ((fun l => List.filter (fun r => negb (N.eqb r receiver)) l) <$> hub_channels h) (hub_inbox h).

End EventHub.

(** What can happen to a hub while receiver [r] listens to session [s]. *)
Inductive HubOp :=
  | HubSubscribe (session_id : string) (receiver : N)
  | HubPublish (event : RecordedEvent)
  | HubRemoveIfUnused (session_id : string)
  | HubClose (session_ids : list string)
  | HubDrop (receiver : N).

Definition hub_apply (op : HubOp) (h : EventHub) : EventHub :=
  match op with
  | HubSubscribe s r => EventHub.subscribe s r h
  | HubPublish e => EventHub.publish e h
  | HubRemoveIfUnused s => EventHub.remove_if_unused s h
  | HubClose l => EventHub.close_sessions l h
  | HubDrop r => EventHub.drop_receiver r h
  end.

(** [r] listens to [s] and to nothing else. *)
Definition listens (s : string) (r : N) (h : EventHub) : Prop :=
  (exists l1 l2, hub_channels h !! s = Some (l1 ++ r :: l2) /\ r ∉ l1 /\ r ∉ l2)
  /\ forall s' l, s' <> s -> hub_channels h !! s' = Some l -> r ∉ l.

(** The operations that leave [r] listening: it is not dropped, its session is
    not closed and no other receiver is [r]. *)
Definition undisturbed (s : string) (r : N) (op : HubOp) : Prop :=
  match op with
  | HubSubscribe _ r' | HubDrop r' => r' <> r
  | HubClose l => s ∉ l
  | _ => True
  end.

Definition published (s : string) (ops : list HubOp) : list RecordedEvent :=
  omap (fun op => match op with
                  | HubPublish e => if String.eqb (re_session_id e) s then Some e else None
                  | _ => None
                  end) ops.

Lemma retain_lookup (m : gmap string (list N)) s l :
  EventHub.retain m !! s = Some l <-> m !! s = Some l /\ l <> [].
Proof. unfold EventHub.retain. by rewrite map_lookup_filter_Some. Qed.

Lemma retain_lookup_default (m : gmap string (list N)) s :
  default [] (EventHub.retain m !! s) = default [] (m !! s).
Proof.
  destruct (EventHub.retain m !! s) as [l|] eqn:E; simpl.
  - apply retain_lookup in E as [-> _]. done.
  - destruct (m !! s) as [[|x l]|] eqn:E'; [done| |done].
    assert (EventHub.retain m !! s = Some (x :: l)) by by apply retain_lookup. congruence.
Qed.

Lemma deliver_notin e inbox l r :
  r ∉ l -> foldl (EventHub.deliver e) inbox l !! r = inbox !! r.
Proof.
  revert inbox. induction l as [|x l IH]; intros inbox Hr; simpl; [done|].
  apply not_elem_of_cons in Hr as [Hx Hl]. rewrite IH by done. unfold EventHub.deliver.
  by rewrite lookup_insert_ne.
Qed.

Lemma deliver_in e inbox l1 l2 r :
  r ∉ l1 -> r ∉ l2 ->
  foldl (EventHub.deliver e) inbox (l1 ++ r :: l2) !! r = Some (default [] (inbox !! r) ++ [e]).
Proof.
  intros H1 H2. rewrite foldl_app. simpl. rewrite deliver_notin by done. unfold EventHub.deliver at 1.
  by rewrite lookup_insert_eq, deliver_notin.
Qed.

Lemma close_lookup l (m : gmap string (list N)) s :
  foldl (fun m id => delete id m) m l !! s = if bool_decide (s ∈ l) then None else m !! s.
Proof.
  revert m. induction l as [|x l IH]; intros m; simpl; [done|]. rewrite IH.
  destruct (decide (s = x)) as [->|Hne].
  - rewrite lookup_delete_eq. rewrite (bool_decide_eq_true_2 (x ∈ x :: l)) by left. by destruct (bool_decide _).
  - rewrite lookup_delete_ne by done. destruct (decide (s ∈ l)).
    + rewrite !bool_decide_eq_true_2; [done|by right|done].
    + rewrite !bool_decide_eq_false_2; [done| |done]. by apply not_elem_of_cons.
Qed.

Lemma listens_other s r h s' l : listens s r h -> s' <> s -> default [] (hub_channels h !! s') = l -> r ∉ l.
Proof.
  intros [_ Ho] Hs <-. destruct (hub_channels h !! s') eqn:E; simpl; [by eapply Ho|apply not_elem_of_nil].
Qed.

Lemma hub_apply_listens s r op h :
  listens s r h -> undisturbed s r op ->
  listens s r (hub_apply op h)
  /\ default [] (hub_inbox (hub_apply op h) !! r) = default [] (hub_inbox h !! r) ++ published s [op].
Proof.
  intros Hl Hk. pose proof Hl as [(l1 & l2 & Hc & H1 & H2) Ho]. destruct op as [s0 r0|e|s0|l|r0]; simpl in *.
  - split; [|by rewrite lookup_insert_ne, app_nil_r]. split; simpl.
    + destruct (decide (s0 = s)) as [->|Hne].
      * rewrite lookup_insert_eq, retain_lookup_default, Hc. simpl. exists l1, (l2 ++ [r0]).
        rewrite <- app_assoc. split_and!; [done|done|]. rewrite elem_of_app, list_elem_of_singleton.
        intros [?|?]; [done|congruence].
      * rewrite lookup_insert_ne by done. exists l1, l2. split_and!; [|done..]. apply retain_lookup.
        split; [done|by destruct l1].
    + intros s' l Hs'. destruct (decide (s0 = s')) as [->|Hne].
      * rewrite lookup_insert_eq, retain_lookup_default. intros [= <-].
        rewrite elem_of_app, list_elem_of_singleton. intros [Hin|?]; [|congruence].
        eapply listens_other in Hin; [done|exact Hl|exact Hs'|done].
      * rewrite lookup_insert_ne by done. intros [Hh _]%retain_lookup. by eapply Ho.
  - assert (Hch : forall s' l, EventHub.retain (if bool_decide (default [] (hub_channels h !! re_session_id e) = [])
        then delete (re_session_id e) (hub_channels h) else hub_channels h) !! s' = Some l
        <-> hub_channels h !! s' = Some l /\ l <> []).
    { intros s' l. rewrite retain_lookup. destruct (bool_decide _) eqn:Hb; [|done].
      apply bool_decide_eq_true in Hb. rewrite lookup_delete_Some. split; [naive_solver|].
      intros [Hh Hn]. split_and!; [|done..]. intros E. rewrite E, Hh in Hb. done. }
    split; [split; simpl|].
    + exists l1, l2. split_and!; [|done..]. apply Hch. split; [done|by destruct l1].
    + intros s' l Hs' [Hh _]%Hch. by eapply Ho.
    + destruct (String.eqb_spec (re_session_id e) s) as [E|Hne].
      * rewrite E, Hc. simpl. by rewrite deliver_in.
      * rewrite deliver_notin; [by rewrite app_nil_r|]. by eapply listens_other.
  - unfold EventHub.remove_if_unused. rewrite app_nil_r. case_bool_decide as Hb; [|done].
    split; [|done]. split; simpl.
    + exists l1, l2. rewrite lookup_delete_ne; [done|]. intros ->. rewrite Hc in Hb. by destruct l1.
    + intros s' l Hs' [_ Hh]%lookup_delete_Some. by eapply Ho.
  - rewrite app_nil_r. split; [|done]. split; simpl.
    + exists l1, l2. rewrite close_lookup, bool_decide_eq_false_2 by done. done.
    + intros s' l' Hs'. rewrite close_lookup. destruct (bool_decide _); [done|]. by apply Ho.
  - rewrite app_nil_r. split; [|done]. split; simpl.
    + rewrite lookup_fmap, Hc. simpl. eexists _, _. split_and!.
      * rewrite List.filter_app. cbn [List.filter]. rewrite (proj2 (N.eqb_neq r r0)) by congruence. done.
      * rewrite list_elem_of_In, filter_In, <- list_elem_of_In. tauto.
      * rewrite list_elem_of_In, filter_In, <- list_elem_of_In. tauto.
    + intros s' l Hs' (l' & <- & Hh)%lookup_fmap_Some.
      rewrite list_elem_of_In, filter_In, <- list_elem_of_In. intros [Hin _]. by eapply Ho.
Qed.

(** Live streams are complete: whatever else happens to the hub, a receiver is
    sent exactly the events published for its session since it subscribed, in
    their order, until it goes away or its session is closed. *)
Theorem listener_receives_every_event s r ops h :
  listens s r h -> Forall (undisturbed s r) ops ->
  let h' := foldl (fun h op => hub_apply op h) h ops in
  listens s r h'
  /\ default [] (hub_inbox h' !! r) = default [] (hub_inbox h !! r) ++ published s ops.
Proof.
  intros Hl Hk. revert h Hl. induction Hk as [|op ops Hop _ IH]; intros h Hl; simpl; [by rewrite app_nil_r|].
  destruct (hub_apply_listens _ _ _ _ Hl Hop) as [Hl' Hi].
  destruct (IH _ Hl') as [Hl'' Hi']. split; [done|]. simpl in Hi'. rewrite Hi', Hi, <- app_assoc. f_equal.
  unfold published at 3. by destruct op; simpl; try (destruct (String.eqb _ _)).
Qed.

Lemma subscribe_listens s r h :
  (forall s' l, hub_channels h !! s' = Some l -> r ∉ l) ->
  listens s r (EventHub.subscribe s r h) /\ hub_inbox (EventHub.subscribe s r h) !! r = Some [].
Proof.
  intros Hf. split; [|apply lookup_insert_eq]. split; simpl.
  - rewrite lookup_insert_eq, retain_lookup_default. exists (default [] (hub_channels h !! s)), [].
    split_and!; [done| |apply not_elem_of_nil].
    destruct (hub_channels h !! s) eqn:E; simpl; [by eapply Hf|apply not_elem_of_nil].
  - intros s' l Hs'. rewrite lookup_insert_ne by done. intros [Hh _]%retain_lookup. by eapply Hf.
Qed.

Definition example_event (s : string) (i : Z) : RecordedEvent := mkRecorded i s 1 "" QueuePaused None.
Definition example_ops : list HubOp :=
  [HubPublish (example_event "s" 1); HubSubscribe "s" 2; HubPublish (example_event "t" 1);
   HubDrop 2; HubPublish (example_event "s" 2); HubRemoveIfUnused "s"].

Lemma listener_receives_every_event_witness :
  let h := EventHub.subscribe "s" 1%N EventHub.new in
  published "s" example_ops = [example_event "s" 1; example_event "s" 2]
  /\ default [] (hub_inbox (foldl (fun h op => hub_apply op h) h example_ops) !! 1%N)
     = [] ++ published "s" example_ops.
Proof.
  intros h. split; [reflexivity|].
  apply (listener_receives_every_event "s" 1%N example_ops h).
  - apply subscribe_listens. intros s' l. simpl. by rewrite lookup_empty.
  - unfold example_ops. repeat constructor; simpl; discriminate.
Defined.
