(* ===== verification/World.v ===== *)
(** The state the supervisor of [piqo-server/src/supervisor.rs] shares with its
    tasks, and the monad its handlers are written in.

    [World] holds what [SessionSupervisor] points to: the store with its tables
    of permission rules and agent links, the configuration, the MCP servers, the
    admission controller, the event hub, the cancellation tokens, the projects
    being deleted, the shutdown token and the workers that were spawned; and the
    file system the tools work on.  A handler is a function on worlds that
    returns a value, an error or a panic ([M]); it runs without other tasks in
    between, which is what the session locks give it for one session.

    What lies outside is the class [Outside]: fresh ids, the clock,
    providers, processes, printers of errors.  Its answers are numbered: each use
    takes the next tick, so two uses are independent. *)

From S2P Require Export Provider Admission.
From S2P Require Export Store.

(** ** Outside the program *)

(** The end of a response that is not streamed. *)
Inductive TextOutcome :=
  | TextCancelled
  | TextShutdown
  | TextError (error : string)
  | TextOk (text : string).

Record Response := mkResponse {
  rs_success : bool;
  rs_status : string;
  rs_stream : list StreamEvent;
  rs_text : TextOutcome }.

(** What ends the wait for a response. *)
Inductive SendOutcome :=
  | SendCancelled
  | SendShutdown
  | SendError (error : string)
  | SendOk (response : Response).

Class Outside := {
  (** [Uuid::now_v7], [chrono::Utc::now] *)
  uuid : N -> string;
  clock : N -> string;
  (** [Display] of errors *)
  display_store : StoreError -> string;
  display_config : ConfigError -> string;
  display_failure : Failure -> string;
  (** [serde_json]: parser, printer, length of the printed value *)
  from_str : string -> option json;
  to_string : json -> string;
  (** configuration: environment variables, [reqwest]'s URL and header parsers,
      [Value::pointer] *)
  env_var : string -> option string;
  url_scheme : string -> option string;
  header_ok : string -> string -> bool;
  pointer : string -> json -> option json;
  (** the transport: an error of [build_request_with_headers], the outcome of a
      request, whether a pause between attempts is cut short by a shutdown, which
      text deltas come late *)
  build_request_error : string -> json -> gmap string string -> option string;
  send : N -> SendOutcome;
  sleep_interrupted : N -> bool;
  late : N -> nat -> bool;
  (** whether the time of a run (in seconds) is up while it waits, and how many
      events of a streamed response it has seen by then *)
  time_is_up : N -> Z -> option nat;
  (** MCP servers and their schemas *)
  mcp_behaviour : N -> string -> Behaviour;
  mcp_outcome : N -> CallOutcome;
  schema_ok : json -> bool;
  conforms : json -> json -> bool;
  (** processes started by [bash], the current directory *)
  spawn_process : N -> file_system -> path -> string ->
    option (file_system * Outcome * list string * list string);
  current_dir : path }.

Definition to_vec_len `{Outside} (v : json) : Z := blen (to_string v).

(** ** Agent links *)

Record AgentLinkRecord := mkLinkRecord {
  lr_instance_id : string;
  lr_profile_id : string;
  lr_parent_session_id : string;
  lr_parent_run_id : string;
  lr_parent_call_id : string;
  lr_child_session_id : string;
  lr_child_run_id : string;
  lr_depth : Z;
  lr_budget : AgentBudget;
  lr_permission_ceiling : json;
  lr_created_at : string }.

(** [ORDER BY created_at, instance_id]. *)
Definition link_leb (a b : AgentLinkRecord) : bool :=
  negb (String.leb (lr_created_at b) (lr_created_at a))
  || (String.eqb (lr_created_at a) (lr_created_at b) && String.leb (lr_instance_id a) (lr_instance_id b)).

(** The constraints of the table: three unique columns, two foreign keys, a
    positive depth. *)
Definition link_allowed `{EventCodec} (db : database) (links : list AgentLinkRecord) (r : AgentLinkRecord) : bool :=
  negb (existsb (fun l => String.eqb (lr_instance_id l) (lr_instance_id r)
                          || String.eqb (lr_parent_call_id l) (lr_parent_call_id r)
                          || String.eqb (lr_child_session_id l) (lr_child_session_id r)) links)
  && bool_decide (is_Some (db_sessions db !! lr_parent_session_id r))
  && bool_decide (is_Some (db_sessions db !! lr_child_session_id r))
  && (1 <=? lr_depth r).

(** ** The world *)

(** Why a handler does not return a value: an error, a panic that unwinds the
    task, a [timeout] around it that drops it where it waits.  [OutOfFuel] is
    not an outcome of the program. *)
Inductive Fault := Fail (e : StoreError) | Panicked | Dropped | OutOfFuel.

Section world.
  Context `{EventCodec}.

Record World := mkWorld {
  w_store : SqliteStore;
  w_rules : list PermissionRuleRecord;
  w_links : list AgentLinkRecord;
  w_config : PiqoConfig;
  w_metadata : gmap string (gmap string json);
  w_mcp : McpManager;
  w_limits : ResourceLimits;
  w_admission : AdmissionState;
  w_hub : EventHub;
  w_cancellations : gmap string bool;
  w_deleting : gset string;
  w_shutdown : bool;
  w_workers : list string;
  w_fs : file_system;
  w_ticks : N }.

Definition set_store (s : SqliteStore) (w : World) : World :=
  mkWorld s (w_rules w) (w_links w) (w_config w) (w_metadata w) (w_mcp w) (w_limits w) (w_admission w) (w_hub w)
    (w_cancellations w) (w_deleting w) (w_shutdown w) (w_workers w) (w_fs w) (w_ticks w).
Definition set_rules (l : list PermissionRuleRecord) (w : World) : World :=
  mkWorld (w_store w) l (w_links w) (w_config w) (w_metadata w) (w_mcp w) (w_limits w) (w_admission w) (w_hub w)
    (w_cancellations w) (w_deleting w) (w_shutdown w) (w_workers w) (w_fs w) (w_ticks w).
Definition set_links (l : list AgentLinkRecord) (w : World) : World :=
  mkWorld (w_store w) (w_rules w) l (w_config w) (w_metadata w) (w_mcp w) (w_limits w) (w_admission w) (w_hub w)
    (w_cancellations w) (w_deleting w) (w_shutdown w) (w_workers w) (w_fs w) (w_ticks w).
Definition set_mcp (m : McpManager) (w : World) : World :=
  mkWorld (w_store w) (w_rules w) (w_links w) (w_config w) (w_metadata w) m (w_limits w) (w_admission w) (w_hub w)
    (w_cancellations w) (w_deleting w) (w_shutdown w) (w_workers w) (w_fs w) (w_ticks w).
Definition set_admission (a : AdmissionState) (w : World) : World :=
  mkWorld (w_store w) (w_rules w) (w_links w) (w_config w) (w_metadata w) (w_mcp w) (w_limits w) a (w_hub w)
    (w_cancellations w) (w_deleting w) (w_shutdown w) (w_workers w) (w_fs w) (w_ticks w).
Definition set_hub (h : EventHub) (w : World) : World :=
  mkWorld (w_store w) (w_rules w) (w_links w) (w_config w) (w_metadata w) (w_mcp w) (w_limits w) (w_admission w) h
    (w_cancellations w) (w_deleting w) (w_shutdown w) (w_workers w) (w_fs w) (w_ticks w).
Definition set_cancellations (m : gmap string bool) (w : World) : World :=
  mkWorld (w_store w) (w_rules w) (w_links w) (w_config w) (w_metadata w) (w_mcp w) (w_limits w) (w_admission w) (w_hub w)
    m (w_deleting w) (w_shutdown w) (w_workers w) (w_fs w) (w_ticks w).
Definition set_deleting (d : gset string) (w : World) : World :=
  mkWorld (w_store w) (w_rules w) (w_links w) (w_config w) (w_metadata w) (w_mcp w) (w_limits w) (w_admission w) (w_hub w)
    (w_cancellations w) d (w_shutdown w) (w_workers w) (w_fs w) (w_ticks w).
Definition set_shutdown (b : bool) (w : World) : World :=
  mkWorld (w_store w) (w_rules w) (w_links w) (w_config w) (w_metadata w) (w_mcp w) (w_limits w) (w_admission w) (w_hub w)
    (w_cancellations w) (w_deleting w) b (w_workers w) (w_fs w) (w_ticks w).
Definition set_workers (l : list string) (w : World) : World :=
  mkWorld (w_store w) (w_rules w) (w_links w) (w_config w) (w_metadata w) (w_mcp w) (w_limits w) (w_admission w) (w_hub w)
    (w_cancellations w) (w_deleting w) (w_shutdown w) l (w_fs w) (w_ticks w).
Definition set_fs (fs : file_system) (w : World) : World :=
  mkWorld (w_store w) (w_rules w) (w_links w) (w_config w) (w_metadata w) (w_mcp w) (w_limits w) (w_admission w) (w_hub w)
    (w_cancellations w) (w_deleting w) (w_shutdown w) (w_workers w) fs (w_ticks w).
Definition set_ticks (n : N) (w : World) : World :=
  mkWorld (w_store w) (w_rules w) (w_links w) (w_config w) (w_metadata w) (w_mcp w) (w_limits w) (w_admission w) (w_hub w)
    (w_cancellations w) (w_deleting w) (w_shutdown w) (w_workers w) (w_fs w) n.

(** A supervisor that was just created: the admission controller keeps the
    limits of that moment. *)
Definition new_world (s : SqliteStore) (config : PiqoConfig) : World :=
  mkWorld s [] [] config ∅ ∅ (resource_limits config) AdmissionController.new EventHub.new ∅ ∅ false [] ∅ 0.

(** ** Handlers *)

Definition M (A : Type) : Type := World -> World * result Fault A.

#[export] Instance M_ret : MRet M := fun A a w => (w, Ok a).
#[export] Instance M_bind : MBind M := fun A B f m w =>
  match m w with
  | (w, Ok a) => f a w
  | (w, Err e) => (w, Err e)
  end.

Definition fail {A} (e : StoreError) : M A := fun w => (w, Err (Fail e)).
Definition panic {A} : M A := fun w => (w, Err Panicked).
Definition dropped {A} : M A := fun w => (w, Err Dropped).
Definition out_of_fuel {A} : M A := fun w => (w, Err OutOfFuel).
Definition gets {A} (f : World -> A) : M A := fun w => (w, Ok (f w)).
Definition modify (f : World -> World) : M () := fun w => (f w, Ok ()).
Definition lift {A} (r : result StoreError A) : M A := fun w => (w, map_err Fail r).

(** A statement that only reads the database, and one that writes the store. *)
Definition query {A} (f : database -> result StoreError A) : M A := fun w =>
  (w, map_err Fail (f (st_db (w_store w)))).
Definition on_store {A} (f : SqliteStore -> SqliteStore * result StoreError A) : M A := fun w =>
  let '(s, r) := f (w_store w) in (set_store s w, map_err Fail r).

(** [match m.await { Ok(a) => .., Err(e) => .. }] and [let _ = m.await]: a panic
    is not an error and goes on unwinding. *)
Definition try {A} (m : M A) : M (result StoreError A) := fun w =>
  match m w with
  | (w, Ok a) => (w, Ok (Ok a))
  | (w, Err (Fail e)) => (w, Ok (Err e))
  | (w, Err f) => (w, Err f)
  end.

(** [for x in l { f(x).await?; }]. *)
Fixpoint each {A} (f : A -> M ()) (l : list A) : M () :=
  match l with
  | [] => mret ()
  | a :: l => _ ← f a; each f l
  end.

Definition tick : M N := fun w => (set_ticks (w_ticks w + 1) w, Ok (w_ticks w)).

Context `{Outside}.

Definition fresh_id : M string := n ← tick; mret (uuid n).
Definition now : M string := n ← tick; mret (clock n).

(** ** Store, hub and admission *)

Definition read_projection (session_id : string) : M SessionProjection := on_store (projection session_id).

Definition publish (event : RecordedEvent) : M () := modify (fun w => set_hub (EventHub.publish event (w_hub w)) w).
Definition release (run_id : string) : M () :=
  modify (fun w => set_admission (AdmissionController.release run_id (w_admission w)) w).
Definition reserve (session_id run_id : string) : M () := fun w =>
  match AdmissionController.reserve (w_limits w) session_id run_id (w_admission w) with
  | Ok a => (set_admission a w, Ok ())
  | Err e => (w, Err (Fail e))
  end.

Definition terminal_run (event : SemanticEvent) : option string :=
  match event with
  | RunCompleted run_id _ | RunFailed run_id _ | RunCancelled run_id _ | RunInterrupted run_id _ => Some run_id
  | _ => None
  end.

Definition release_terminal_admission (event : SemanticEvent) : M () :=
  match terminal_run event with Some run_id => release run_id | None => mret () end.

Definition announce (recorded : RecordedEvent) : M () :=
  _ ← publish recorded; release_terminal_admission (re_event recorded).

Definition append (session_id : string) (event : SemanticEvent) : M RecordedEvent :=
  timestamp ← now;
  recorded ← on_store (append_event session_id timestamp event);
  _ ← announce recorded;
  mret recorded.

Definition append_many (session_id : string) (events : list SemanticEvent) : M (list RecordedEvent) :=
  timestamp ← now;
  recorded ← on_store (append_events session_id timestamp events);
  _ ← each announce recorded;
  mret recorded.

(** ** Links, workers, tokens *)

Definition agent_links (session_id : string) : M (list AgentLinkRecord) :=
  _ ← query (ensure_session session_id);
  links ← gets w_links;
  mret (sort_by link_leb (List.filter (fun l => String.eqb (lr_parent_session_id l) session_id
                                              || String.eqb (lr_child_session_id l) session_id) links)).

Definition create_agent_link (record : AgentLinkRecord) : M () := fun w =>
  if link_allowed (st_db (w_store w)) (w_links w) record
  then (set_links (w_links w ++ [record]) w, Ok ())
  else (w, Err (Fail (AgentLinkConflict (lr_parent_call_id record)))).

Definition spawn_worker (session_id : string) : M () :=
  modify (fun w => if w_shutdown w then w else set_workers (w_workers w ++ [session_id]) w).

Definition insert_token (run_id : string) : M () :=
  modify (fun w => set_cancellations (<[run_id := false]> (w_cancellations w)) w).
Definition remove_token (run_id : string) : M () :=
  modify (fun w => set_cancellations (delete run_id (w_cancellations w)) w).
(** [token.cancel()] on the token of a run, if it has one. *)
Definition cancel_token (run_id : string) : M () :=
  modify (fun w => set_cancellations (alter (fun _ => true) run_id (w_cancellations w)) w).

Definition ensure_running : M () :=
  stopped ← gets w_shutdown; if (stopped : bool) then fail ShuttingDown else mret ().

Definition run_of (p : SessionProjection) (run_id : string) : M RunProjection :=
  lift (ok_or (RunNotFound run_id) (sp_runs p !! run_id)).

Definition store_session_ids : M (list string) := gets (fun w => btree_keys (db_sessions (st_db (w_store w)))).

End world.
Arguments World {_}.
Arguments M {_} A.
