(* ===== verification/Manager.v ===== *)
(** [ConfigManager] of [piqo-server/src/config.rs]: loading [piqo.toml] with the
    Markdown agents beside it, editing providers through the API, model discovery
    and the provider catalog.

    The configuration file lives in the file system of file Workspace.  TOML and
    YAML are other libraries': the class [Documents] is what the source uses of
    [toml], [toml_edit] and [serde_yaml], and of [reqwest] for a model catalog.  A
    mutation holds the lock of its manager from the reading of the file to the
    replacement of the snapshot, so it is one step; a discovery awaits a response
    and is cut into [discovery_start] and [discovery_end]. *)

From S2P Require Export World Workspace.

Record AgentFrontMatter := mkFrontMatter {
  fm_description : option string;
  fm_provider : option string;
  fm_model : option string;
  fm_permissions : option AgentPermissions;
  fm_body : json }.

Class Documents := {
  (** [toml_edit]: tables of items; a document is its root table *)
  table : Type;
  item : Type;
  empty_table : table;
  table_get : string -> table -> option item;
  table_set : string -> item -> table -> table;
  table_remove : string -> table -> table;
  of_table : table -> item;
  as_table : item -> option table;
  of_str : string -> item;
  of_i64 : Z -> item;
  of_strings : list string -> item;
  parse_document : string -> option table;
  print_document : table -> string;
  (** [toml::from_str] on the fields of [PiqoConfig] it reads *)
  toml_config : string -> option PiqoConfig;
  (** [serde_yaml::from_str] *)
  yaml : string -> result string AgentFrontMatter;
  (** [GET] of a model catalog: the JSON of a successful response, or the text of
      the error *)
  fetch : N -> string -> gmap string string -> Z -> result string json;
  display_transport : TransportError -> string }.

(** ** Data *)

Inductive ProviderCredentialSummary :=
  | SummaryNone | SummaryApiKey | SummaryEnvironment (variable : string).

Record CreateProviderRequest := mkCreateProvider {
  cp_name : string;
  cp_base_url : string;
  cp_protocol : option string;
  cp_credentials : option ProviderCredentialInput;
  cp_headers : option (gmap string string);
  cp_connect_timeout_seconds : option Z }.

Record UpdateProviderRequest := mkUpdateProvider {
  up_base_url : option string;
  up_protocol : option string;
  up_credentials : option ProviderCredentialInput;
  up_headers : option (gmap string string);
  up_connect_timeout_seconds : option Z }.

Inductive ModelSource := Manual | Discovery.
Inductive DiscoveryStatus := DPending | DSucceeded | DFailed | DNotApplicable.

Record ModelDiscovery := mkDiscovery {
  md_status : DiscoveryStatus; md_last_attempt_at : option string; md_error : option string }.

Record ProviderCatalogEntry := mkCatalogEntry {
  pe_name : string;
  pe_base_url : string;
  pe_protocol : string;
  pe_connect_timeout_seconds : Z;
  pe_credentials : ProviderCredentialSummary;
  pe_header_names : list string;
  pe_streaming : bool;
  pe_non_streaming : bool;
  pe_models : list string;
  pe_model_source : ModelSource;
  pe_discovery : ModelDiscovery }.

Record ProviderModelsResponse := mkModelsResponse {
  pm_provider : string; pm_models : list string; pm_source : ModelSource; pm_discovery : ModelDiscovery }.

Record ConfigSnapshot := mkSnapshot { cs_revision : Z; cs_loaded_at : string; cs_config : PiqoConfig }.

Record DiscoveryCache := mkCache {
  dc_models : list string; dc_metadata : gmap string json; dc_discovery : ModelDiscovery }.

(** [ConfigManagerInner], with the file system its file is in. *)
Record ConfigManager := mkManager {
  cm_path : option path;
  cm_snapshot : ConfigSnapshot;
  cm_discovery : gmap string DiscoveryCache;
  cm_fs : file_system }.

#[export] Instance ModelContextConfig_eq_dec : EqDecision ModelContextConfig.
Proof. solve_decision. Defined.
#[export] Instance ProviderConfig_eq_dec : EqDecision ProviderConfig.
Proof. solve_decision. Defined.

(** ** Files *)

Definition path_display (p : path) : string := "/" ++s join "/" p.
Definition parent (p : path) : path := removelast p.

Definition read_to_string (fs : file_system) (p : path) : option string :=
  text ← ok (read_file fs p); if utf8_valid text then Some text else None.

(** [fs::create_dir_all], downwards; only the last missing directory matters for
    the error. *)
Definition create_dir (fs : file_system) (p : path) : result io_error file_system :=
  d ← realpath fs (removelast p);
  let q := d ++ [List.last p ""] in
  match node_at fs q with Some _ => Err IoAlreadyExists | None => Ok (<[q := Dir]> fs) end.

Fixpoint create_dir_all (fs : file_system) (above todo : path) : result io_error file_system :=
  match todo with
  | [] => Ok fs
  | c :: todo =>
      let p := above ++ [c] in
      if path_is_dir fs p then create_dir_all fs p todo
      else fs ← create_dir fs p; create_dir_all fs p todo
  end.

(** [write_atomic]: the temporary file is opened in the directory the parent path
    leads to, and [rename] replaces the entry there, a symbolic link included. *)
Definition write_atomic (fs : file_system) (temporary_name : string) (p : path) (text : string) :
    file_system * result ConfigError () :=
  match create_dir_all fs [] (parent p) with
  | Err _ => (fs, Err (WriteFailed (path_display (parent p))))
  | Ok fs =>
      let failed := Err (WriteFailed (path_display p)) in
      match realpath fs (parent p) with
      | Err _ => (fs, failed)
      | Ok d =>
          let temporary := d ++ [temporary_name] in
          match node_at fs temporary with
          | Some _ => (remove_file fs temporary, failed)
          | None =>
              let fs1 := <[temporary := File text]> fs in
              match rename fs1 temporary (d ++ [List.last p ""]) with
              | Ok fs2 => (fs2, Ok ())
              | Err _ => (remove_file fs1 temporary, failed)
              end
          end
      end
  end.

(** ** Loading *)

Definition set_markdown (m : gmap string AgentDefinition) (c : PiqoConfig) : PiqoConfig :=
  mkConfig (defaults c) (providers c) (models c) (agents_overrides c) (variants c) (native_tools c)
    (mcp_servers c) (context c) (orchestration c) (resource_limits c) (storage c) m.

(** The names and nodes of a directory.  The order of [read_dir] is open: by name
    here, which decides only which error is reported. *)
Definition read_dir (fs : file_system) (d : path) : list (string * node) :=
  sort_by key_leb (omap (fun kn => if bool_decide (kn.1 <> [] /\ removelast kn.1 = d)
                                   then Some (List.last kn.1 "", kn.2) else None) (map_to_list fs)).

(** [file_stem] of a name whose [extension] is [md]. *)
Definition markdown_stem (name : string) : option string :=
  id ← strip_suffix ".md" name; if is_empty id then None else Some id.

Definition front_matter_reason (e : front_matter_error) : string :=
  match e with
  | NoOpening => "front matter must start with a --- delimiter"
  | NoClosing => "front matter must end with a --- delimiter"
  end.

Section loading.
  Context `{Documents} `{Outside}.

Definition markdown_definition (shown id text : string) : result ConfigError AgentDefinition :=
  '(front_matter, instructions) ←
    map_err (fun e => InvalidAgentDefinition shown (front_matter_reason e)) (split_front_matter text);
  front_matter ← map_err (InvalidAgentDefinition shown) (yaml front_matter);
  Ok (mkDefinition id (fm_description front_matter) (fm_provider front_matter) (fm_model front_matter)
        (if is_empty (trim instructions) then None else Some instructions)
        (default permissions_default (fm_permissions front_matter)) (fm_body front_matter) JNull).

(** One entry of the loop over the directory; only regular files count. *)
Definition load_markdown_agent (directory : path) (agents : gmap string AgentDefinition)
    (entry : string * node) : result ConfigError (gmap string AgentDefinition) :=
  match markdown_stem entry.1, entry.2 with
  | Some id, File content =>
      let shown := path_display (directory ++ [entry.1]) in
      if negb (valid_agent_id id)
      then Err (InvalidAgentDefinition shown "file name must use letters, digits, underscores, or hyphens")
      else if negb (utf8_valid content) then Err (AgentRead shown)
      else
        definition ← markdown_definition shown id content;
        match agents !! id with
        | Some _ => Err (InvalidAgentDefinition shown ("duplicate agent " ++s id))
        | None => Ok (<[id := definition]> agents)
        end
  | _, _ => Ok agents
  end.

Definition load_markdown_agents (fs : file_system) (config_path : path) (config : PiqoConfig) :
    result ConfigError PiqoConfig :=
  let directory := parent config_path ++ ["agents"] in
  if negb (path_exists fs directory) then Ok config
  else
    d ← map_err (fun _ => AgentRead (path_display directory)) (realpath fs directory);
    if negb (path_is_dir fs directory) then Err (AgentRead (path_display directory))
    else
      agents ← try_fold (load_markdown_agent directory) (markdown_agents config) (read_dir fs d);
      Ok (set_markdown agents config).

(** [toml::from_str::<PiqoConfig>]: the field [markdown_agents] is skipped. *)
Definition config_from_str (text : string) : result ConfigError PiqoConfig :=
  config ← ok_or ParseFailed (toml_config text); Ok (set_markdown ∅ config).

(** [PiqoConfig::load]. *)
Definition load (fs : file_system) (p : path) : result ConfigError PiqoConfig :=
  config ← (if path_exists fs p
            then text ← ok_or (ReadFailed (path_display p)) (read_to_string fs p); config_from_str text
            else Ok config_default);
  config ← load_markdown_agents fs p config;
  _ ← validate_config url_scheme header_ok config;
  Ok config.

End loading.

(** ** Editing a document *)

Section editing.
  Context `{Documents}.

(** [providers_table_mut] and [provider_table_mut], as what is done to the table:
    a missing [providers] table is created. *)
Definition with_providers (f : table -> result ConfigError table) (document : table) :
    result ConfigError table :=
  providers ← match table_get "providers" document with
              | None => Ok empty_table
              | Some i => ok_or (InvalidProvider "providers must be a TOML table") (as_table i)
              end;
  providers ← f providers;
  Ok (table_set "providers" (of_table providers) document).

Definition with_provider (name : string) (f : table -> result ConfigError table) (document : table) :
    result ConfigError table :=
  with_providers (fun providers =>
    t ← ok_or (ProviderNotFound name) (i ← table_get name providers; as_table i);
    t ← f t;
    Ok (table_set name (of_table t) providers)) document.

Definition set_opt {A} (key : string) (make : A -> item) (o : option A) (t : table) : table :=
  match o with Some a => table_set key (make a) t | None => t end.

Definition headers_table (headers : gmap string string) : table :=
  foldl (fun t h => table_set h.1 (of_str h.2) t) empty_table (btree_entries headers).

Definition provider_table (p : ProviderConfig) : table :=
  let t := table_set "base_url" (of_str (pc_base_url p)) empty_table in
  let t := table_set "protocol" (of_str (pc_protocol p)) t in
  let t := table_set "connect_timeout_seconds" (of_i64 (pc_connect_timeout_seconds p)) t in
  let t := set_opt "api_key" of_str (pc_api_key p) t in
  let t := set_opt "api_key_env" of_str (pc_api_key_env p) t in
  let t := if bool_decide (pc_headers p = ∅) then t
           else table_set "headers" (of_table (headers_table (pc_headers p))) t in
  set_opt "models" of_strings (pc_models p) t.

Definition set_credentials (credential : ProviderCredentialInput) (t : table) : result ConfigError table :=
  '(api_key, api_key_env) ← credential_values (Some credential);
  let t := table_remove "api_key_env" (table_remove "api_key" t) in
  Ok (set_opt "api_key_env" of_str api_key_env (set_opt "api_key" of_str api_key t)).

(** The edits of the five operations. *)
Definition insert_provider (name : string) (p : ProviderConfig) : table -> result ConfigError table :=
  with_providers (fun providers =>
    match table_get name providers with
    | Some _ => Err (ProviderAlreadyExists name)
    | None => Ok (table_set name (of_table (provider_table p)) providers)
    end).

Definition edit_provider (name : string) (request : UpdateProviderRequest) : table -> result ConfigError table :=
  with_provider name (fun t =>
    let t := set_opt "base_url" (fun s => of_str (trim s)) (up_base_url request) t in
    let t := set_opt "protocol" of_str (up_protocol request) t in
    t ← match up_credentials request with Some c => set_credentials c t | None => Ok t end;
    let t := set_opt "headers" (fun h => of_table (headers_table h)) (up_headers request) t in
    match up_connect_timeout_seconds request with
    | Some timeout =>
        timeout ← ok_or (InvalidProvider "connect timeout is too large") (i64_of_u64 timeout);
        Ok (table_set "connect_timeout_seconds" (of_i64 timeout) t)
    | None => Ok t
    end).

Definition remove_provider (name : string) : table -> result ConfigError table :=
  with_providers (fun providers =>
    match table_get name providers with
    | Some _ => Ok (table_remove name providers)
    | None => Err (ProviderNotFound name)
    end).

Definition set_models (name : string) (models : list string) : table -> result ConfigError table :=
  with_provider name (fun t => Ok (table_set "models" (of_strings models) t)).

Definition remove_models (name : string) : table -> result ConfigError table :=
  with_provider name (fun t => Ok (table_remove "models" t)).

Definition DEFAULT_PROTOCOL : string := "chat_completions".
Definition DEFAULT_CONNECT_TIMEOUT : Z := 10.

Definition from_create `{Outside} (r : CreateProviderRequest) : result ConfigError ProviderConfig :=
  '(api_key, api_key_env) ← credential_values (cp_credentials r);
  let config := mkProviderConfig (trim (cp_base_url r)) (default DEFAULT_PROTOCOL (cp_protocol r)) api_key
    api_key_env (default ∅ (cp_headers r)) (default DEFAULT_CONNECT_TIMEOUT (cp_connect_timeout_seconds r))
    None None None ∅ in
  _ ← validate_provider url_scheme header_ok (cp_name r) config;
  Ok config.

End editing.

(** ** [ConfigManager] *)

Module ConfigManager.

(** [ConfigManager::new]: with a path, or in memory. *)
Definition new (p : option path) (config : PiqoConfig) (now : string) (fs : file_system) : ConfigManager :=
  mkManager p (mkSnapshot 1 now config) ∅ fs.

Definition snapshot (m : ConfigManager) : PiqoConfig := cs_config (cm_snapshot m).
Definition set_snapshot (s : ConfigSnapshot) (m : ConfigManager) : ConfigManager :=
  mkManager (cm_path m) s (cm_discovery m) (cm_fs m).
Definition set_discoveries (d : gmap string DiscoveryCache) (m : ConfigManager) : ConfigManager :=
  mkManager (cm_path m) (cm_snapshot m) d (cm_fs m).
Definition set_files (fs : file_system) (m : ConfigManager) : ConfigManager :=
  mkManager (cm_path m) (cm_snapshot m) (cm_discovery m) fs.

Definition set_discovery (name : string) (c : DiscoveryCache) (m : ConfigManager) : ConfigManager :=
  set_discoveries (<[name := c]> (cm_discovery m)) m.
Definition clear_discovery (name : string) (m : ConfigManager) : ConfigManager :=
  set_discoveries (delete name (cm_discovery m)) m.

(** [revision.checked_add(1)]. *)
Definition next_snapshot (config : PiqoConfig) (now : string) (s : ConfigSnapshot) :
    result ConfigError ConfigSnapshot :=
  if cs_revision s =? u64_max then Err RevisionExhausted
  else Ok (mkSnapshot (cs_revision s + 1) now config).

(** *** The catalog *)

Definition credential_summary (p : ProviderConfig) : ProviderCredentialSummary :=
  match pc_api_key p, pc_api_key_env p with
  | Some _, _ => SummaryApiKey
  | None, Some variable => SummaryEnvironment variable
  | None, None => SummaryNone
  end.

Definition empty_cache : DiscoveryCache := mkCache [] ∅ (mkDiscovery DPending None None).

Definition view_for (m : ConfigManager) (name : string) (p : ProviderConfig) : ProviderCatalogEntry :=
  let '(models, source, discovery) :=
    match pc_models p with
    | Some models => (models, Manual, mkDiscovery DNotApplicable None None)
    | None => let c := default empty_cache (cm_discovery m !! name) in (dc_models c, Discovery, dc_discovery c)
    end in
  mkCatalogEntry name (pc_base_url p) (pc_protocol p) (pc_connect_timeout_seconds p) (credential_summary p)
    (btree_keys (pc_headers p)) true true models source discovery.

Definition catalog (m : ConfigManager) : list ProviderCatalogEntry :=
  (fun e => view_for m e.1 e.2) <$> btree_entries (providers (snapshot m)).

Definition provider (m : ConfigManager) (name : string) : result ConfigError ProviderCatalogEntry :=
  p ← ok_or (ProviderNotFound name) (providers (snapshot m) !! name); Ok (view_for m name p).

Definition models (m : ConfigManager) (name : string) : result ConfigError ProviderModelsResponse :=
  p ← provider m name;
  Ok (mkModelsResponse (pe_name p) (pe_models p) (pe_model_source p) (pe_discovery p)).

Section manager.
  Context `{Documents} `{Outside}.

Definition context_budget (m : ConfigManager) (provider model : string) : result ConfigError (Z * Z) :=
  let metadata := c ← cm_discovery m !! provider; dc_metadata c !! model in
  Config.context_budget pointer (snapshot m) provider model metadata.

(** *** Reload and mutation *)

Definition reload (now : string) (m : ConfigManager) : ConfigManager * result ConfigError ConfigSnapshot :=
  match
    (p ← ok_or ReadOnly (cm_path m);
     config ← load (cm_fs m) p;
     next_snapshot config now (cm_snapshot m))
  with
  | Ok s => (set_discoveries ∅ (set_snapshot s m), Ok s)
  | Err e => (m, Err e)
  end.

(** A document is read from the file, or new when there is none. *)
Definition read_document (fs : file_system) (p : path) : result ConfigError table :=
  if negb (path_exists fs p) then Ok empty_table
  else
    text ← ok_or (ReadFailed (path_display p)) (read_to_string fs p);
    ok_or EditFailed (parse_document text).

(** The text that an edit writes, and the configuration it stands for. *)
Definition edited (fs : file_system) (p : path) (operation : table -> result ConfigError table) :
    result ConfigError (string * PiqoConfig) :=
  document ← read_document fs p;
  document ← operation document;
  let text := print_document document in
  config ← config_from_str text;
  _ ← validate_config url_scheme header_ok config;
  Ok (text, config).

Definition mutate (now temporary : string) (operation : table -> result ConfigError table) (m : ConfigManager) :
    ConfigManager * result ConfigError () :=
  match (p ← ok_or ReadOnly (cm_path m); e ← edited (cm_fs m) p operation; Ok (p, e)) with
  | Err e => (m, Err e)
  | Ok (p, (text, config)) =>
      let '(fs, written) := write_atomic (cm_fs m) temporary p text in
      let m := set_files fs m in
      match (_ ← written; next_snapshot config now (cm_snapshot m)) with
      | Ok s => (set_snapshot s m, Ok ())
      | Err e => (m, Err e)
      end
  end.

(** *** Discovery *)

(** [ProviderTransport::discover_models]. *)
Definition discover_models (request : N) (r : ResolvedProvider) : result string (list DiscoveredModel) :=
  value ← fetch request (rv_models_endpoint r) (rv_headers r) (rv_connect_timeout_seconds r);
  map_err display_transport (parse_model_catalog value).

(** Up to the request: the provider as it is now, and the cache set to pending. *)
Definition discovery_start (name now : string) (m : ConfigManager) :
    ConfigManager * result ConfigError ProviderConfig :=
  match providers (snapshot m) !! name with
  | None => (m, Err (ProviderNotFound name))
  | Some original =>
      if bool_decide (is_Some (pc_models original)) then (m, Err (ManualModelOverride name))
      else (set_discovery name (mkCache [] ∅ (mkDiscovery DPending (Some now) None)) m, Ok original)
  end.

Definition discovery_request (request : N) (name : string) (original : ProviderConfig) :
    result string (list DiscoveredModel) :=
  match resolve_provider_config env_var name original with
  | Ok r => discover_models request r
  | Err e => Err (display_config e)
  end.

Definition discovered (now : string) (outcome : result string (list DiscoveredModel)) : DiscoveryCache :=
  match outcome with
  | Ok l => mkCache (dm_id <$> l) (list_to_map (rev ((fun d => (dm_id d, dm_metadata d)) <$> l)))
              (mkDiscovery DSucceeded (Some now) None)
  | Err error => mkCache [] ∅ (mkDiscovery DFailed (Some now) (Some error))
  end.

(** After the response: it is dropped when the provider has changed meanwhile. *)
Definition discovery_end (name now : string) (original : ProviderConfig)
    (outcome : result string (list DiscoveredModel)) (m : ConfigManager) :
    ConfigManager * result ConfigError ProviderCatalogEntry :=
  match providers (snapshot m) !! name with
  | None => (m, Err (ProviderNotFound name))
  | Some current =>
      let m := if decide (current = original) then set_discovery name (discovered now outcome) m else m in
      (m, provider m name)
  end.

Definition discover_provider (request : N) (name now : string) (m : ConfigManager) :
    ConfigManager * result ConfigError ProviderCatalogEntry :=
  match discovery_start name now m with
  | (m, Err e) => (m, Err e)
  | (m, Ok original) => discovery_end name now original (discovery_request request name original) m
  end.

(** The providers are asked at the same time; here one after the other. *)
Definition discover_all (request : N) (now : string) (m : ConfigManager) : ConfigManager :=
  foldl (fun m name => fst (discover_provider request name now m)) m
    (fst <$> List.filter (fun e => bool_decide (pc_models e.2 = None)) (btree_entries (providers (snapshot m)))).

(** *** Providers and models *)

Definition create_provider (request : N) (now temporary : string) (r : CreateProviderRequest) (m : ConfigManager) :
    ConfigManager * result ConfigError ProviderCatalogEntry :=
  match (_ ← validate_provider_name (cp_name r); from_create r) with
  | Err e => (m, Err e)
  | Ok p =>
      match mutate now temporary (insert_provider (cp_name r) p) m with
      | (m, Err e) => (m, Err e)
      | (m, Ok _) => discover_provider request (cp_name r) now (clear_discovery (cp_name r) m)
      end
  end.

Definition empty_update (r : UpdateProviderRequest) : bool :=
  match r with mkUpdateProvider None None None None None => true | _ => false end.

Definition update_provider (request : N) (now temporary name : string) (r : UpdateProviderRequest)
    (m : ConfigManager) : ConfigManager * result ConfigError ProviderCatalogEntry :=
  if empty_update r then (m, Err (InvalidProvider "at least one provider field is required"))
  else
    match mutate now temporary (edit_provider name r) m with
    | (m, Err e) => (m, Err e)
    | (m, Ok _) =>
        let m := clear_discovery name m in
        match p ← providers (snapshot m) !! name; pc_models p with
        | Some _ => (m, provider m name)
        | None => discover_provider request name now m
        end
    end.

Definition delete_provider (now temporary name : string) (m : ConfigManager) :
    ConfigManager * result ConfigError () :=
  match mutate now temporary (remove_provider name) m with
  | (m, Err e) => (m, Err e)
  | (m, Ok _) => (clear_discovery name m, Ok ())
  end.

Definition replace_models (now temporary name : string) (l : list string) (m : ConfigManager) :
    ConfigManager * result ConfigError ProviderModelsResponse :=
  match normalize_models l with
  | Err e => (m, Err e)
  | Ok l =>
      match mutate now temporary (set_models name l) m with
      | (m, Err e) => (m, Err e)
      | (m, Ok _) => let m := clear_discovery name m in (m, models m name)
      end
  end.

(** [discover_provider(name).await?; self.models(name)]. *)
Definition discover_then_models (request : N) (now name : string) (m : ConfigManager) :
    ConfigManager * result ConfigError ProviderModelsResponse :=
  match discover_provider request name now m with
  | (m, Err e) => (m, Err e)
  | (m, Ok _) => (m, models m name)
  end.

Definition clear_models (request : N) (now temporary name : string) (m : ConfigManager) :
    ConfigManager * result ConfigError ProviderModelsResponse :=
  match mutate now temporary (remove_models name) m with
  | (m, Err e) => (m, Err e)
  | (m, Ok _) => discover_then_models request now name (clear_discovery name m)
  end.

Definition refresh_models (request : N) (now name : string) (m : ConfigManager) :
    ConfigManager * result ConfigError ProviderModelsResponse :=
  match providers (snapshot m) !! name with
  | None => (m, Err (ProviderNotFound name))
  | Some p =>
      if bool_decide (is_Some (pc_models p)) then (m, Err (ManualModelOverride name))
      else discover_then_models request now name m
  end.

End manager.
End ConfigManager.
