(* ===== verification/Requests.v ===== *)
(** The JSON forms of the values the supervisor stores inside events and links:
    run requests, permission ceilings, delegation requests and agent results, as
    [serde]'s derived implementations read and write them.

    A derived reader takes an object or an array in the order of the fields; an
    [Option] field may be missing or null in an object; unknown keys are ignored
    unless the type denies them. *)

From S2P Require Export Body.

(** ** Fields *)

Definition required {A} (read : json -> option A) (k : string) (o : list (string * json)) : option A :=
  v ← map_get k o; read v.

Definition nullable {A} (read : json -> option A) (v : json) : option (option A) :=
  match v with JNull => Some None | _ => Some <$> read v end.

Definition optional {A} (read : json -> option A) (k : string) (o : list (string * json)) : option (option A) :=
  match map_get k o with None => Some None | Some v => nullable read v end.

(** [#[serde(default)]]. *)
Definition defaulted {A} (read : json -> option A) (d : A) (k : string) (o : list (string * json)) : option A :=
  match map_get k o with None => Some d | Some v => read v end.

(** [#[serde(deny_unknown_fields)]]. *)
Definition only_keys (keys : list string) (o : list (string * json)) : option () :=
  if forallb (fun p => bool_decide (p.1 ∈ keys)) o then Some () else None.

Definition read_list {A} (read : json -> option A) (v : json) : option (list A) :=
  l ← as_array v; mapM read l.

(** The fields of a derived reader in either form: an object, or an array in the
    order of the type's fields.  A field that is missing has its default if it has
    one; an [Option] without one may be missing only in an object. *)
Definition fields (names : list string) (v : json) : option (bool * list (string * json)) :=
  match v with
  | JObject o => Some (true, o)
  | JArray l => if (length l <=? length names)%nat then Some (false, zip names l) else None
  | _ => None
  end.
Definition field {A} (read : json -> option A) (k : string) (f : bool * list (string * json)) : option A :=
  required read k f.2.
Definition field_option {A} (read : json -> option A) (k : string) (f : bool * list (string * json)) :
    option (option A) :=
  match map_get k f.2 with Some v => nullable read v | None => if f.1 then Some None else None end.
Definition field_default {A} (read : json -> option A) (d : A) (k : string) (f : bool * list (string * json)) :
    option A :=
  defaulted read d k f.2.

(** Unsigned numbers of a width. *)
Definition read_uint (limit : Z) (v : json) : option Z :=
  n ← as_u64 v; if n <=? limit then Some n else None.

Definition of_option {A} (write : A -> json) (o : option A) : json :=
  match o with Some a => write a | None => JNull end.

(** ** [RunRequest] *)

Definition request_to_value (r : RunRequest) : json :=
  jobject [("provider", JString (rq_provider r)); ("model", JString (rq_model r)); ("input", rq_input r);
           ("agent", of_option JString (rq_agent r)); ("variant", of_option JString (rq_variant r));
           ("body", rq_body r)].

Definition request_from_value (v : json) : option RunRequest :=
  match v with
  | JObject o =>
      provider ← required as_str "provider" o;
      model ← required as_str "model" o;
      input ← map_get "input" o;
      agent ← optional as_str "agent" o;
      variant ← optional as_str "variant" o;
      body ← defaulted Some JNull "body" o;
      Some (mkRequest provider model input agent variant body)
  | JArray (provider :: model :: input :: agent :: variant :: rest) =>
      provider ← as_str provider;
      model ← as_str model;
      agent ← nullable as_str agent;
      variant ← nullable as_str variant;
      body ← match rest with [] => Some JNull | [body] => Some body | _ => None end;
      Some (mkRequest provider model input agent variant body)
  | _ => None
  end.

(** A run request survives being stored in its event. *)
Lemma request_round_trip r : request_from_value (request_to_value r) = Some r.
Proof. by destruct r as [? ? ? [] [] ?]. Qed.

(** ** [AgentPermissions] *)

Definition setting_to_value (s : PermissionSetting) : json :=
  JString match s with SAllow => "allow" | SAsk => "ask" | SDeny => "deny" end.
Definition setting_from_value (v : json) : option PermissionSetting :=
  s ← as_str v;
  if String.eqb s "allow" then Some SAllow else if String.eqb s "ask" then Some SAsk
  else if String.eqb s "deny" then Some SDeny else None.

Definition settings_to_value (m : gmap string PermissionSetting) : json :=
  JObject ((fun p => (p.1, setting_to_value p.2)) <$> btree_entries m).
Definition settings_from_value (v : json) : option (gmap string PermissionSetting) :=
  o ← as_object v; l ← mapM (fun p => s ← setting_from_value p.2; Some (p.1, s)) o; Some (list_to_map l).

Definition permissions_to_value (p : AgentPermissions) : json :=
  jobject [("read", of_option setting_to_value (perm_read p)); ("write", of_option setting_to_value (perm_write p));
           ("bash", of_option setting_to_value (perm_bash p)); ("mcp", of_option setting_to_value (perm_mcp p));
           ("tools", settings_to_value (perm_tools p))].

Definition permissions_from_value (v : json) : option AgentPermissions :=
  match v with
  | JObject o =>
      _ ← only_keys ["read"; "write"; "bash"; "mcp"; "tools"] o;
      read ← optional setting_from_value "read" o;
      write ← optional setting_from_value "write" o;
      bash ← optional setting_from_value "bash" o;
      mcp ← optional setting_from_value "mcp" o;
      tools ← defaulted settings_from_value ∅ "tools" o;
      Some (mkAgentPermissions read write bash mcp tools)
  | JArray (read :: write :: bash :: mcp :: rest) =>
      read ← nullable setting_from_value read;
      write ← nullable setting_from_value write;
      bash ← nullable setting_from_value bash;
      mcp ← nullable setting_from_value mcp;
      tools ← match rest with [] => Some ∅ | [tools] => settings_from_value tools | _ => None end;
      Some (mkAgentPermissions read write bash mcp tools)
  | _ => None
  end.

Lemma setting_round_trip s : setting_from_value (setting_to_value s) = Some s.
Proof. by destruct s. Qed.

Lemma settings_round_trip m : settings_from_value (settings_to_value m) = Some m.
Proof.
  unfold settings_from_value, settings_to_value. simpl.
  assert (Hl : mapM (fun p => s ← setting_from_value p.2; Some (p.1, s))
    ((fun p => (p.1, setting_to_value p.2)) <$> btree_entries m) = Some (btree_entries m)).
  { induction (btree_entries m) as [|[k s] l IH]; [done|]. rewrite fmap_cons. cbn [mapM]. simpl fst. simpl snd.
    by rewrite setting_round_trip, IH. }
  rewrite Hl. simpl. f_equal. apply map_eq. intros k. unfold btree_entries.
  rewrite <- (list_to_map_to_list m) at 2. f_equal. symmetry. apply list_to_map_proper.
  - apply NoDup_fst_map_to_list.
  - symmetry. apply sort_by_perm.
Qed.

(** A permission ceiling survives being stored in an agent link. *)
Lemma permissions_round_trip p : permissions_from_value (permissions_to_value p) = Some p.
Proof.
  destruct p as [r w b m t]. unfold permissions_to_value, permissions_from_value.
  cbn [jobject foldl map_insert String.compare]. simpl.
  assert (Hn : forall s, nullable setting_from_value (of_option setting_to_value s) = Some s)
    by (intros [[]|]; done).
  unfold optional, defaulted. simpl. rewrite !Hn. simpl. unfold defaulted. simpl.
  by rewrite settings_round_trip.
Qed.

(** ** [DelegationRequest] *)

Record DelegationRequest := mkDelegation {
  dr_agent : string; dr_task : string; dr_context_message_ids : list string }.

Definition delegation_from_value (v : json) : option DelegationRequest :=
  match v with
  | JObject o =>
      _ ← only_keys ["agent"; "task"; "context_message_ids"] o;
      agent ← required as_str "agent" o;
      task ← required as_str "task" o;
      ids ← required (read_list as_str) "context_message_ids" o;
      Some (mkDelegation agent task ids)
  | JArray [agent; task; ids] =>
      agent ← as_str agent; task ← as_str task; ids ← read_list as_str ids;
      Some (mkDelegation agent task ids)
  | _ => None
  end.

(** ** [AgentResult] *)

Definition status_name (s : AgentTerminalStatus) : string :=
  match s with
  | ATCompleted => "completed" | ATFailed => "failed" | ATCancelled => "cancelled" | ATInterrupted => "interrupted"
  end.

Definition agent_result_to_value (r : AgentResult) : json :=
  jobject [("instance_id", JString (ar_instance_id r)); ("profile_id", JString (ar_profile_id r));
           ("child_session_id", JString (ar_child_session_id r)); ("child_run_id", JString (ar_child_run_id r));
           ("status", JString (status_name (ar_status r))); ("output", of_option id (ar_output r));
           ("output_truncated", JBool (ar_output_truncated r)); ("usage", of_option id (ar_usage r));
           ("error", of_option JString (ar_error r))].

(** ** [MessageProjection]'s blocks *)

Definition block_to_value (b : ContentBlock) : json :=
  match b with
  | Text s => jobject [("kind", JString "text"); ("value", JString s)]
  | JsonBlock v => jobject [("kind", JString "json"); ("value", v)]
  end.
Definition blocks_to_value (l : list ContentBlock) : json := JArray (block_to_value <$> l).
