(* ===== verification/Wire.v ===== *)
(** What clients see: the response types of [piqo-server/src/lib.rs] and the JSON
    form of events ([piqo-core/src/event_log.rs]).

    A response type and its [From] conversion are one definition here, the JSON
    value that [serde] writes for the converted value: an object with the fields
    of the type, [null] for an absent option. *)

From S2P Require Export Requests.
From S2P Require Export World.

Definition strings (l : list string) : json := JArray (JString <$> l).
(** [i64] numbers. *)
Definition jint (n : Z) : json := if n <? 0 then JNumber (NegInt n) else jnum n.
(** A [BTreeMap<String, V>]. *)
Definition jmap {V} (write : V -> json) (m : gmap string V) : json :=
  JObject ((fun e => (e.1, write e.2)) <$> btree_entries m).

(** ** Names *)

Definition session_phase_name (p : SessionPhase) : string :=
  match p with
  | Created => "created" | Running => "running" | Interrupted => "interrupted"
  | Finished => "finished" | Failed => "failed"
  end.
Definition agent_phase_name (p : AgentPhase) : string :=
  match p with
  | APCreated => "created" | APRunning => "running" | APWaitingForPermission => "waiting_for_permission"
  | APFinished => "finished" | APFailed => "failed"
  end.
Definition message_role_name (r : MessageRole) : string :=
  match r with System => "system" | User => "user" | Assistant => "assistant" | Tool => "tool" end.
Definition permission_decision_name (d : PermissionDecision) : string :=
  match d with Allow => "allow" | Ask => "ask" | Deny => "deny" end.
Definition agent_terminal_status_name (s : AgentTerminalStatus) : string :=
  match s with
  | ATCompleted => "completed" | ATFailed => "failed" | ATCancelled => "cancelled" | ATInterrupted => "interrupted"
  end.
Definition compaction_strategy_name (s : CompactionStrategy) : string :=
  match s with Deterministic => "deterministic" | Llm => "llm" end.
Definition mcp_server_state_name (s : McpServerState) : string :=
  match s with McpStarting => "starting" | McpHealthy => "healthy" | McpFailed => "failed" | McpStopped => "stopped" end.
Definition run_status_name (s : RunStatus) : string :=
  match s with
  | RQueued => "queued" | RRunning => "running" | RRequiresAction => "requires_action" | RCompleted => "completed"
  | RFailed => "failed" | RCancelled => "cancelled" | RInterrupted => "interrupted"
  end.
(** [HistoryRetention::as_str], also its [serde] name. *)
Definition retention_name (h : HistoryRetention) : string :=
  match h with
  | Forever => "forever" | OneYear => "one_year" | SixMonths => "six_months"
  | ThreeMonths => "three_months" | OneMonth => "one_month"
  end.
Definition retention_from_name (s : string) : option HistoryRetention :=
  List.find (fun h => String.eqb (retention_name h) s) [Forever; OneYear; SixMonths; ThreeMonths; OneMonth].

(** ** Parts of projections *)

Definition api_author (a : MessageAuthor) : json :=
  match a with
  | AuthorSystem => jobject [("kind", JString "system")]
  | AuthorUser => jobject [("kind", JString "user")]
  | AuthorAgent id => jobject [("kind", JString "agent"); ("id", JString id)]
  | AuthorTool id => jobject [("kind", JString "tool"); ("id", JString id)]
  end.

(** [ApiContentBlock] is written as [ContentBlock] is. *)
Definition api_block (b : ContentBlock) : json := block_to_value b.

Definition api_message (m : MessageProjection) : json :=
  jobject [("message_id", JString (mp_message_id m)); ("role", JString (message_role_name (mp_role m)));
           ("agent_id", of_option JString (mp_agent_id m)); ("author", api_author (mp_author m));
           ("blocks", JArray (api_block <$> mp_blocks m)); ("completed", JBool (mp_completed m));
           ("interrupted", JBool (mp_interrupted m)); ("first_event_id", jnum (mp_first_event_id m));
           ("last_event_id", jnum (mp_last_event_id m))].

Definition api_tool_call (c : ToolCallProjection) : json :=
  jobject [("call_id", JString (tc_call_id c)); ("assistant_message_id", JString (tc_assistant_message_id c));
           ("agent_id", JString (tc_agent_id c)); ("tool_name", JString (tc_tool_name c));
           ("arguments", tc_arguments c); ("raw_arguments", JString (tc_raw_arguments c));
           ("native", JBool (tc_native c)); ("execution_id", of_option JString (tc_execution_id c));
           ("result", of_option id (tc_result c))].

Definition api_run (r : RunProjection) : json :=
  jobject [("run_id", JString (rp_run_id r)); ("retry_of", of_option JString (rp_retry_of r));
           ("provider", JString (rp_provider r)); ("model", JString (rp_model r)); ("request", rp_request r);
           ("status", JString (run_status_name (rp_status r))); ("attempt_id", of_option JString (rp_attempt_id r));
           ("attempts", jnum (rp_attempts r)); ("error", of_option JString (rp_error r));
           ("usage", of_option id (rp_usage r)); ("queue_priority", jint (rp_queue_priority r));
           ("tool_calls", jmap api_tool_call (rp_tool_calls r))].

Definition api_permission (q : PermissionProjection) : json :=
  jobject [("request_id", JString (pp_request_id q)); ("run_id", JString (pp_run_id q));
           ("call_id", of_option JString (pp_call_id q)); ("agent_id", JString (pp_agent_id q));
           ("tool_name", JString (pp_tool_name q)); ("arguments", pp_arguments q);
           ("decision", of_option (fun d => JString (permission_decision_name d)) (pp_decision q))].

Definition api_budget (b : AgentBudget) : json :=
  jobject [("max_model_turns", jnum (max_model_turns b)); ("max_duration_seconds", jnum (max_duration_seconds b));
           ("max_tree_duration_seconds", jnum (max_tree_duration_seconds b));
           ("max_tree_tokens", jnum (max_tree_tokens b)); ("max_context_bytes", jnum (max_context_bytes b));
           ("max_result_bytes", jnum (max_result_bytes b))].

Definition api_link (l : AgentLink) : json :=
  jobject [("instance_id", JString (al_instance_id l)); ("profile_id", JString (al_profile_id l));
           ("parent_session_id", JString (al_parent_session_id l)); ("parent_run_id", JString (al_parent_run_id l));
           ("parent_call_id", JString (al_parent_call_id l)); ("child_session_id", JString (al_child_session_id l));
           ("child_run_id", JString (al_child_run_id l)); ("depth", jnum (al_depth l));
           ("budget", api_budget (al_budget l)); ("permission_ceiling", al_permission_ceiling l)].

Definition api_tree_link (l : AgentLinkRecord) : json :=
  jobject [("instance_id", JString (lr_instance_id l)); ("profile_id", JString (lr_profile_id l));
           ("parent_session_id", JString (lr_parent_session_id l)); ("parent_run_id", JString (lr_parent_run_id l));
           ("parent_call_id", JString (lr_parent_call_id l)); ("child_session_id", JString (lr_child_session_id l));
           ("child_run_id", JString (lr_child_run_id l)); ("depth", jnum (lr_depth l));
           ("budget", api_budget (lr_budget l)); ("permission_ceiling", lr_permission_ceiling l);
           ("created_at", JString (lr_created_at l))].

Definition api_context_ref (r : DelegatedContextRef) : json :=
  jobject [("source_session_id", JString (cr_source_session_id r)); ("message_id", JString (cr_message_id r));
           ("last_event_id", jnum (cr_last_event_id r))].

Definition api_agent_result (r : AgentResult) : json :=
  jobject [("instance_id", JString (ar_instance_id r)); ("profile_id", JString (ar_profile_id r));
           ("child_session_id", JString (ar_child_session_id r)); ("child_run_id", JString (ar_child_run_id r));
           ("status", JString (agent_terminal_status_name (ar_status r))); ("output", of_option id (ar_output r));
           ("output_truncated", JBool (ar_output_truncated r)); ("usage", of_option id (ar_usage r));
           ("error", of_option JString (ar_error r))].

Definition api_agent (a : AgentProjection) : json :=
  jobject [("agent_id", JString (ap_agent_id a)); ("parent_id", of_option JString (ap_parent_id a));
           ("link", of_option api_link (ap_link a)); ("config_revision", of_option jnum (ap_config_revision a));
           ("context", JArray (api_context_ref <$> ap_context a)); ("result", of_option api_agent_result (ap_result a))].

Definition api_fact (f : ContextFact) : json :=
  jobject [("fact_id", JString (fact_id f)); ("value", JString (fact_value f))].
Definition api_correlation (c : ToolCorrelation) : json :=
  jobject [("call_id", JString (tcor_call_id c)); ("tool_name", JString (tcor_tool_name c));
           ("run_id", JString (tcor_run_id c))].

Definition api_artifact (a : ContextArtifact) : json :=
  jobject [("artifact_id", JString (ca_artifact_id a));
           ("supersedes_artifact_id", of_option JString (ca_supersedes_artifact_id a));
           ("strategy", JString (compaction_strategy_name (ca_strategy a)));
           ("strategy_version", jnum (ca_strategy_version a));
           ("source_start_event_id", jnum (ca_source_start_event_id a));
           ("source_end_event_id", jnum (ca_source_end_event_id a));
           ("context_window_tokens", jnum (ca_context_window_tokens a));
           ("output_reserve_tokens", jnum (ca_output_reserve_tokens a));
           ("estimated_input_tokens", jnum (ca_estimated_input_tokens a));
           ("target_input_tokens", jnum (ca_target_input_tokens a));
           ("estimator_version", JString (ca_estimator_version a)); ("summary", JString (ca_summary a));
           ("tool_correlations", JArray (api_correlation <$> ca_tool_correlations a))].

Definition api_context (c : ContextProjection) : json :=
  jobject [("durable_facts", JArray (api_fact <$> cp_durable_facts c));
           ("active_artifact", of_option api_artifact (cp_active_artifact c));
           ("last_failure", of_option JString (cp_last_failure c));
           ("last_bypass_reason", of_option JString (cp_last_bypass_reason c))].

Definition api_projection (p : SessionProjection) : json :=
  jobject [("state", jobject [("session_id", JString (ss_session_id (sp_state p)));
                              ("phase", JString (session_phase_name (ss_phase (sp_state p))));
                              ("revision", jnum (ss_revision (sp_state p)));
                              ("last_event_id", of_option jnum (ss_last_event_id (sp_state p)))]);
           ("messages", JArray (api_message <$> sp_messages p));
           ("agents", jmap (fun a => JString (agent_phase_name a)) (sp_agents p));
           ("agent_instances", jmap api_agent (sp_agent_instances p));
           ("pending_permissions", jmap api_permission (sp_pending_permissions p));
           ("runs", jmap api_run (sp_runs p)); ("queue_paused", JBool (sp_queue_paused p));
           ("context", api_context (sp_context p))].

(** ** Summaries, projects, servers *)

Definition api_summary (s : SessionSummary) (projection : option SessionProjection) : json :=
  let '(id, r) := s in
  jobject [("id", JString id); ("title", of_option JString (sr_title r));
           ("project_id", of_option JString (sr_project_id r));
           ("parent_session_id", of_option JString (sr_parent_session_id r));
           ("forked_at_event_id", of_option jnum (sr_forked_at_event_id r));
           ("created_at", JString (sr_created_at r)); ("updated_at", JString (sr_updated_at r));
           ("phase", JString (session_phase_name (sr_phase r))); ("revision", jnum (sr_revision r));
           ("last_event_id", jnum (sr_last_event_id r));
           ("history_retention", JString (retention_name (sr_history_retention r)));
           ("projection", of_option api_projection projection)].

Definition api_project (p : string * Project) : json :=
  jobject [("id", JString p.1); ("name", JString (pj_name p.2)); ("path", JString (pj_path p.2));
           ("created_at", JString (pj_created_at p.2)); ("updated_at", JString (pj_updated_at p.2))].

Definition api_mcp_tool (t : McpToolDefinition) : json :=
  jobject [("name", JString (mt_name t)); ("server_id", JString (mt_server_id t));
           ("server_tool_name", JString (mt_server_tool_name t)); ("description", of_option JString (mt_description t));
           ("input_schema", mt_input_schema t)].
Definition api_mcp_server (d : McpServerDiagnostics) : json :=
  jobject [("id", JString (dg_id d)); ("enabled", JBool (dg_enabled d));
           ("state", JString (mcp_server_state_name (dg_state d))); ("tools", JArray (api_mcp_tool <$> dg_tools d));
           ("last_error", of_option JString (dg_last_error d)); ("restart_attempts", jnum (dg_restart_attempts d))].

(** ** Events

    [SemanticEvent] is written with its name as [type] and its fields as [data];
    the two events without fields have no [data].  The types of its fields derive
    the forms above. *)

Definition scope_name (s : PermissionScope) : string :=
  match s with
  | ScopeOnce => "once" | ScopeSession => "session" | ScopeProject => "project" | ScopeConfiguration => "configuration"
  end.
Definition source_name (s : PermissionDecisionSource) : string :=
  match s with
  | SourceDefault => "default" | SourceConfiguration => "configuration"
  | SourceInteractiveConfiguration => "interactive_configuration" | SourceProjectRule => "project_rule"
  | SourceSessionRule => "session_rule" | SourceRequestApproval => "request_approval"
  end.

(** [PermissionDecision] is written by its constructors' own names, unlike in the
    response types. *)
Definition recorded_decision_name (d : PermissionDecision) : string :=
  match d with Allow => "Allow" | Ask => "Ask" | Deny => "Deny" end.

Definition event_type (e : SemanticEvent) : string :=
  match e with
  | SessionCreated _ => "session_created"
  | SessionPhaseChanged _ _ _ => "session_phase_changed"
  | SessionInterrupted _ => "session_interrupted"
  | SessionForked _ _ => "session_forked"
  | MessageStarted _ _ _ _ => "message_started"
  | MessageContentAppended _ _ => "message_content_appended"
  | MessageCompleted _ => "message_completed"
  | MessageInterrupted _ => "message_interrupted"
  | RunQueued _ _ _ _ _ => "run_queued"
  | RunStarted _ _ _ => "run_started"
  | RunAttemptStarted _ _ _ => "run_attempt_started"
  | RunAttemptFailed _ _ _ _ => "run_attempt_failed"
  | RunCompleted _ _ => "run_completed"
  | RunFailed _ _ => "run_failed"
  | RunCancelled _ _ => "run_cancelled"
  | RunInterrupted _ _ => "run_interrupted"
  | RunRequiresAction _ _ => "run_requires_action"
  | QueuePaused => "queue_paused"
  | QueueResumed => "queue_resumed"
  | ToolCallEmitted _ _ _ _ _ _ _ _ => "tool_call_emitted"
  | ToolExecutionStarted _ _ _ => "tool_execution_started"
  | ToolResult _ _ _ _ _ => "tool_result"
  | AgentPhaseChanged _ _ => "agent_phase_changed"
  | PermissionRequested _ _ _ _ _ _ => "permission_requested"
  | PermissionResolved _ _ _ _ _ _ => "permission_resolved"
  | AgentSpawned _ _ _ _ => "agent_spawned"
  | AgentFinished _ _ => "agent_finished"
  | AgentContextCaptured _ _ => "agent_context_captured"
  | AgentResultDelivered _ _ _ _ => "agent_result_delivered"
  | ContextFactRecorded _ => "context_fact_recorded"
  | ContextCompactionStarted _ _ _ _ _ => "context_compaction_started"
  | ContextCompacted _ _ => "context_compacted"
  | ContextCompactionFailed _ _ _ => "context_compaction_failed"
  | ContextCompactionBypassed _ _ => "context_compaction_bypassed"
  end.

Definition event_fields (e : SemanticEvent) : list (string * json) :=
  let str k v := (k, JString v) in
  match e with
  | SessionCreated title => [("title", of_option JString title)]
  | SessionPhaseChanged from to reason =>
      [str "from" (session_phase_name from); str "to" (session_phase_name to); ("reason", of_option JString reason)]
  | SessionInterrupted reason => [str "reason" reason]
  | SessionForked parent n => [str "parent_session_id" parent; ("at_event_id", jnum n)]
  | MessageStarted m a role author =>
      [str "message_id" m; str "agent_id" a; str "role" (message_role_name role); ("author", api_author author)]
  | MessageContentAppended m block => [str "message_id" m; ("block", block_to_value block)]
  | MessageCompleted m | MessageInterrupted m => [str "message_id" m]
  | RunQueued r retry_of provider model request =>
      [str "run_id" r; ("retry_of", of_option JString retry_of); str "provider" provider; str "model" model;
       ("request", request)]
  | RunStarted r a n | RunAttemptStarted r a n => [str "run_id" r; str "attempt_id" a; ("attempt", jnum n)]
  | RunAttemptFailed r a error retryable =>
      [str "run_id" r; str "attempt_id" a; str "error" error; ("retryable", JBool retryable)]
  | RunCompleted r usage => [str "run_id" r; ("usage", of_option id usage)]
  | RunFailed r error => [str "run_id" r; str "error" error]
  | RunCancelled r reason => [str "run_id" r; ("reason", of_option JString reason)]
  | RunInterrupted r reason => [str "run_id" r; str "reason" reason]
  | RunRequiresAction r ids => [str "run_id" r; ("call_ids", strings ids)]
  | QueuePaused | QueueResumed => []
  | ToolCallEmitted r m c a tool arguments raw native =>
      [str "run_id" r; str "assistant_message_id" m; str "call_id" c; str "agent_id" a; str "tool_name" tool;
       ("arguments", arguments); str "raw_arguments" raw; ("native", JBool native)]
  | ToolExecutionStarted r c x => [str "run_id" r; str "call_id" c; str "execution_id" x]
  | ToolResult r c a tool v =>
      [str "run_id" r; str "call_id" c; str "agent_id" a; str "tool_name" tool; ("result", v)]
  | AgentPhaseChanged a phase => [str "agent_id" a; str "phase" (agent_phase_name phase)]
  | PermissionRequested q r c a tool arguments =>
      [str "request_id" q; str "run_id" r; ("call_id", of_option JString c); str "agent_id" a; str "tool_name" tool;
       ("arguments", arguments)]
  | PermissionResolved q d source scope rule_id reason =>
      [str "request_id" q; str "decision" (recorded_decision_name d);
       ("source", of_option (fun s => JString (source_name s)) source);
       ("scope", of_option (fun s => JString (scope_name s)) scope);
       ("rule_id", of_option JString rule_id); ("reason", of_option JString reason)]
  | AgentSpawned a parent link revision =>
      [str "agent_id" a; ("parent_id", of_option JString parent); ("link", of_option api_link link);
       ("config_revision", of_option jnum revision)]
  | AgentFinished a r => [str "agent_id" a; ("result", of_option agent_result_to_value r)]
  | AgentContextCaptured a refs => [str "agent_id" a; ("references", JArray (api_context_ref <$> refs))]
  | AgentResultDelivered a r c v =>
      [str "agent_id" a; str "parent_run_id" r; str "parent_call_id" c; ("result", agent_result_to_value v)]
  | ContextFactRecorded f => [("fact", api_fact f)]
  | ContextCompactionStarted r a strategy first last =>
      [str "run_id" r; str "artifact_id" a; str "strategy" (compaction_strategy_name strategy);
       ("source_start_event_id", jnum first); ("source_end_event_id", jnum last)]
  | ContextCompacted r a => [str "run_id" r; ("artifact", api_artifact a)]
  | ContextCompactionFailed r a code => [str "run_id" r; str "artifact_id" a; str "code" code]
  | ContextCompactionBypassed r reason => [str "run_id" r; str "reason" reason]
  end.

Definition event_to_value (e : SemanticEvent) : json :=
  match e with
  | QueuePaused | QueueResumed => jobject [("type", JString (event_type e))]
  | _ => jobject [("type", JString (event_type e)); ("data", jobject (event_fields e))]
  end.

(** [ApiEvent::try_from]: the recorded data as it is stored, if it was read from
    the store. *)
Definition api_event (e : RecordedEvent) : result StoreError json :=
  let value := event_to_value (re_event e) in
  event_type ← ok_or (CorruptSession (re_session_id e) "event has no type") (v ← get "type" value; as_str v);
  Ok (jobject [("id", jnum (re_id e)); ("session_id", JString (re_session_id e));
               ("schema_version", jnum (re_schema_version e)); ("occurred_at", JString (re_occurred_at e));
               ("type", JString event_type);
               ("data", default (default JNull (get "data" value)) (re_raw_data e))]).
