(* ===== verification/Codec.v ===== *)
(** The JSON of events and the columns of rows (serde's derives in [piqo-core],
    [insert_event_row] and [*_from_row] in [piqo-server/src/storage.rs]).

    [Codec] is a [Serialize] with its [Deserialize] for one type: what is written,
    how it is read, which values survive.  File Store works with events as an
    interface ([EventCodec]); here is what the program does to implement it.  Of
    the forms that serde reads, those that it writes are modelled, with the
    [default]s of fields that are missing: not an array for a struct, nor an object
    for a variant without fields.  The text of JSON is serde_json's ([JsonText]). *)

From S2P Require Export Wire Store World.

(** ** Values that survive being printed and parsed

    A float may come back with its last bit changed: the workspace does not enable
    [float_roundtrip]. *)
Fixpoint plain (v : json) : Prop :=
  match v with
  | JNull | JBool _ | JString _ => True
  | JNumber (PosInt n) => 0 <= n <= u64_max
  | JNumber (NegInt n) => - 2 ^ 63 <= n < 0
  | JNumber (Float _ _) => False
  | JArray l => foldr (fun v P => plain v /\ P) True l
  | JObject o => map_wf o /\ foldr (fun p P => plain p.2 /\ P) True o
  end.

Class JsonText := {
  document : Type;
  print : json -> document;
  parse : document -> option json;
  parse_print : forall v, plain v -> parse (print v) = Some v;
  (** a text in quotation marks; the names of phases need no escapes *)
  quoted : string -> document;
  parse_quoted : forall p, parse (quoted (session_phase_name p)) = Some (JString (session_phase_name p)) }.

(** Documents kept as they are: an instance for concrete rows. *)
Definition plain_text : JsonText :=
  {| document := json; print := fun v => v; parse := Some; parse_print := fun v _ => eq_refl;
     quoted := JString; parse_quoted := fun p => eq_refl |}.

(** ** Codecs *)

Record Codec (A : Type) := mkCodec {
  put : A -> json;
  take_json : json -> option A;
  fits : A -> Prop;
  take_put : forall a, fits a -> take_json (put a) = Some a;
  put_plain : forall a, fits a -> plain (put a) }.
Arguments put {A} c a.
Arguments take_json {A} c v.
Arguments fits {A} c a.
Arguments take_put {A} c a.
Arguments put_plain {A} c a.

Program Definition text : Codec string := mkCodec _ JString as_str (fun _ => True) _ _.
Next Obligation. done. Qed.
Next Obligation. done. Qed.

Program Definition flag : Codec bool := mkCodec _ JBool as_bool (fun _ => True) _ _.
Next Obligation. done. Qed.
Next Obligation. done. Qed.

(** [serde_json::Value]. *)
Program Definition value : Codec json := mkCodec _ id Some plain _ _.
Next Obligation. done. Qed.
Next Obligation. done. Qed.

(** [u8], [u16], [u32], [u64]. *)
Definition uint_from_value (max : Z) (v : json) : option Z :=
  n ← as_u64 v; if (0 <=? n) && (n <=? max) then Some n else None.

Program Definition uint (max : Z) : Codec Z :=
  mkCodec _ jnum (uint_from_value max) (fun n => 0 <= n <= max /\ n <= u64_max) _ _.
Next Obligation.
  intros max n [Hn _]. unfold uint_from_value, jnum. simpl. by rewrite (proj2 (Z.leb_le 0 n)), (proj2 (Z.leb_le n max)) by lia.
Qed.
Next Obligation. intros max n [[H0 _] H1]. by split. Qed.

(** [Option<T>]: nothing is [null], and so is a value that is written as [null]. *)
Definition option_from_value {A} (c : Codec A) (v : json) : option (option A) :=
  match v with JNull => Some None | v => Some <$> take_json c v end.

Program Definition option_of {A} (c : Codec A) : Codec (option A) :=
  mkCodec _ (of_option (put c)) (option_from_value c)
    (fun o => match o with Some a => fits c a /\ put c a <> JNull | None => True end) _ _.
Next Obligation.
  intros A c [a|]; [|done]. intros [Ha Hn]. unfold option_from_value, of_option. rewrite (take_put c a Ha).
  by destruct (put c a).
Qed.
Next Obligation. intros A c [a|]; [|done]. intros [Ha _]. by apply put_plain. Qed.

(** [Vec<T>]. *)
Definition list_from_value {A} (c : Codec A) (v : json) : option (list A) := l ← as_array v; mapM (take_json c) l.

Program Definition list_of {A} (c : Codec A) : Codec (list A) :=
  mkCodec _ (fun l => JArray (put c <$> l)) (list_from_value c) (Forall (fits c)) _ _.
Next Obligation.
  intros A c l Hl. unfold list_from_value. simpl. apply mapM_Some. induction Hl as [|a l Ha Hl IH]; [constructor|].
  rewrite fmap_cons. constructor; [by apply take_put|done].
Qed.
Next Obligation.
  intros A c l Hl. simpl. induction Hl as [|a l Ha Hl IH]; [done|]. rewrite fmap_cons. simpl. split; [by apply put_plain|done].
Qed.

(** An enumeration without fields is its variant's name. *)
Definition name_from_value {A} (name : A -> string) (all : list A) (v : json) : option A :=
  s ← as_str v; List.find (fun a => String.eqb (name a) s) all.

Program Definition named {A} (name : A -> string) (all : list A)
    (Hall : forall a, List.find (fun b => String.eqb (name b) (name a)) all = Some a) : Codec A :=
  mkCodec _ (fun a => JString (name a)) (name_from_value name all) (fun _ => True) _ _.
Next Obligation. intros A name all Hall a _. unfold name_from_value. simpl. apply Hall. Qed.
Next Obligation. done. Qed.

(** ** Fields *)

Section fields.
  Context {A : Type} (c : Codec A).

Definition field (k : string) (v : json) : option A := o ← as_object v; x ← map_get k o; take_json c x.

(** [#[serde(default)]]. *)
Definition field_or (d : A) (k : string) (v : json) : option A :=
  o ← as_object v; match map_get k o with Some x => take_json c x | None => Some d end.

(** A field of type [Option<T>], which may be missing. *)
Definition optional_field (k : string) (v : json) : option (option A) :=
  o ← as_object v; match map_get k o with Some x => option_from_value c x | None => Some None end.
End fields.

Fixpoint assoc (k : string) (l : list (string * json)) : option json :=
  match l with
  | [] => None
  | (k', v) :: l => if String.eqb k' k then Some v else assoc k l
  end.

Fixpoint distinct (l : list string) : bool :=
  match l with [] => true | k :: l => negb (existsb (String.eqb k) l) && distinct l end.

Lemma get_inserts k l : forall o, distinct l.*1 = true ->
  map_get k (foldl (fun o p => map_insert p.1 p.2 o) o l) = match assoc k l with Some v => Some v | None => map_get k o end.
Proof.
  induction l as [|[k' v] l IH]; intros o Hd; [done|]. simpl in Hd. apply andb_true_iff in Hd as [Hk Hd].
  simpl. rewrite IH by done. destruct (String.eqb_spec k' k) as [->|Hne].
  - assert (assoc k l = None) as ->; [|by rewrite map_get_insert].
    apply negb_true_iff in Hk. clear -Hk. induction l as [|[j w] l IH]; [done|]. simpl in *.
    apply orb_false_iff in Hk as [Hj Hk]. rewrite String.eqb_sym, Hj. by apply IH.
  - destruct (assoc k l); [done|]. by rewrite map_get_insert_ne.
Qed.

Lemma get_field k l : distinct l.*1 = true -> map_get k (foldl (fun o p => map_insert p.1 p.2 o) [] l) = assoc k l.
Proof. intros Hd. rewrite get_inserts by done. by destruct (assoc k l). Qed.

Section written.
  Context {A : Type} (c : Codec A) (l : list (string * json)) (Hl : distinct l.*1 = true).

Lemma field_put k a : assoc k l = Some (put c a) -> fits c a -> field c k (jobject l) = Some a.
Proof. intros Hk Ha. unfold field. simpl. rewrite get_field, Hk by done. by apply take_put. Qed.
Lemma field_or_put d k a : assoc k l = Some (put c a) -> fits c a -> field_or c d k (jobject l) = Some a.
Proof. intros Hk Ha. unfold field_or. simpl. rewrite get_field, Hk by done. by apply take_put. Qed.
Lemma optional_put k o : assoc k l = Some (put (option_of c) o) -> fits (option_of c) o -> optional_field c k (jobject l) = Some o.
Proof. intros Hk Ho. unfold optional_field. simpl. rewrite get_field, Hk by done. by apply (take_put (option_of c)). Qed.
End written.

Lemma plain_insert k v o : plain v -> plain (JObject o) -> plain (JObject (map_insert k v o)).
Proof.
  intros Hv [Hw Ho]. split; [by apply map_insert_wf|]. clear Hw. induction o as [|[k' v'] o IH]; [done|].
  simpl in *. destruct Ho as [H1 H2]. destruct (String.compare k k'); simpl; auto.
Qed.

Lemma plain_jobject l : Forall (fun p => plain p.2) l -> plain (jobject l).
Proof.
  intros Hl. unfold jobject. assert (Ho : plain (JObject [])) by (split; [constructor|done]). revert Ho.
  generalize (@nil (string * json)) as o. induction Hl as [|[k v] l Hv Hl IH]; intros o Ho; [done|].
  simpl. by apply IH, plain_insert.
Qed.

(** ** The types of an event's fields *)

Definition session_phase : Codec SessionPhase :=
  named session_phase_name [Created; Running; Interrupted; Finished; Failed] ltac:(by intros []).
Definition agent_phase : Codec AgentPhase :=
  named agent_phase_name [APCreated; APRunning; APWaitingForPermission; APFinished; APFailed] ltac:(by intros []).
Definition message_role : Codec MessageRole := named message_role_name [System; User; Assistant; Tool] ltac:(by intros []).
Definition terminal_result : Codec AgentTerminalStatus :=
  named agent_terminal_status_name [ATCompleted; ATFailed; ATCancelled; ATInterrupted] ltac:(by intros []).
Definition compaction_strategy : Codec CompactionStrategy :=
  named compaction_strategy_name [Deterministic; Llm] ltac:(by intros []).
Definition permission_scope : Codec PermissionScope :=
  named scope_name [ScopeOnce; ScopeSession; ScopeProject; ScopeConfiguration] ltac:(by intros []).
Definition decision_source : Codec PermissionDecisionSource :=
  named source_name [SourceDefault; SourceConfiguration; SourceInteractiveConfiguration; SourceProjectRule;
                     SourceSessionRule; SourceRequestApproval] ltac:(by intros []).
Definition permission_decision : Codec PermissionDecision :=
  named recorded_decision_name [Allow; Ask; Deny] ltac:(by intros []).

Definition u8 : Codec Z := uint u8_max.
Definition u16 : Codec Z := uint u16_max.
Definition u32 : Codec Z := uint u32_max.
Definition u64 : Codec Z := uint u64_max.

Lemma plain_uint max n : fits (uint max) n -> plain (jnum n).
Proof. apply put_plain. Qed.
Lemma plain_option {A} (c : Codec A) o : fits (option_of c) o -> plain (of_option (put c) o).
Proof. apply (put_plain (option_of c)). Qed.
Lemma plain_list {A} (c : Codec A) l : fits (list_of c) l -> plain (JArray (put c <$> l)).
Proof. apply (put_plain (list_of c)). Qed.

Lemma fits_option_text o : fits (option_of text) o.
Proof. by destruct o. Qed.
Lemma fits_option_named {A} name all H o : fits (option_of (@named A name all H)) o.
Proof. by destruct o. Qed.

Lemma plain_option_text o : plain (of_option JString o).
Proof. by destruct o. Qed.
Lemma plain_option_value o : fits (option_of value) o -> plain (of_option id o).
Proof. apply (put_plain (option_of value)). Qed.

Create HintDb codec.
#[local] Hint Resolve plain_uint plain_option plain_list plain_option_text plain_option_value fits_option_text fits_option_named : codec.
#[local] Hint Extern 1 (fits text _) => exact I : codec.
#[local] Hint Extern 1 (fits flag _) => exact I : codec.
#[local] Hint Extern 1 (fits (option_of _) _) => apply fits_option_named : codec.
#[local] Hint Extern 1 (fits _ _) => exact I : codec.

(** [codec_fields] reads the fields that were written one by one; [plain_fields]
    goes through them. *)
Ltac codec_fields :=
  repeat first
    [ erewrite field_put; [cbn [mbind option_bind]|reflexivity|reflexivity|eassumption || solve [auto with codec]]
    | erewrite field_or_put; [cbn [mbind option_bind]|reflexivity|reflexivity|eassumption || solve [auto with codec]]
    | erewrite optional_put; [cbn [mbind option_bind]|reflexivity|reflexivity|eassumption || solve [auto with codec]] ].
Ltac plain_fields :=
  apply plain_jobject; repeat (apply Forall_cons; split; cbn [snd]); try apply Forall_nil;
  try first [ exact I | assumption | eapply plain_uint; eassumption
            | eapply plain_option; eassumption || solve [auto with codec]
            | eapply plain_list; eassumption | solve [eauto with codec] ].

(** The name of a variant and the content beside it. *)
Definition author_from_value (v : json) : option MessageAuthor :=
  kind ← field text "kind" v;
  match kind with
  | "system" => Some AuthorSystem
  | "user" => Some AuthorUser
  | "agent" => AuthorAgent <$> field text "id" v
  | "tool" => AuthorTool <$> field text "id" v
  | _ => None
  end.

Program Definition author : Codec MessageAuthor := mkCodec _ api_author author_from_value (fun _ => True) _ _.
Next Obligation. by intros [] _. Qed.
Next Obligation. intros [] _; plain_fields. Qed.

Definition block_from_value (v : json) : option ContentBlock :=
  kind ← field text "kind" v;
  match kind with
  | "text" => Text <$> field text "value" v
  | "json" => JsonBlock <$> field value "value" v
  | _ => None
  end.

Program Definition block : Codec ContentBlock :=
  mkCodec _ block_to_value block_from_value (fun b => match b with Text _ => True | JsonBlock v => plain v end) _ _.
Next Obligation. by intros [] _. Qed.
Next Obligation. intros [] Hb; plain_fields. Qed.

Definition budget_from_value (v : json) : option AgentBudget :=
  turns ← field u32 "max_model_turns" v;
  duration ← field u64 "max_duration_seconds" v;
  tree_duration ← field u64 "max_tree_duration_seconds" v;
  tokens ← field u64 "max_tree_tokens" v;
  context ← field u64 "max_context_bytes" v;
  output ← field u64 "max_result_bytes" v;
  Some (mkBudget turns duration tree_duration tokens context output).

Definition budget_fits (b : AgentBudget) : Prop :=
  fits u32 (max_model_turns b) /\ fits u64 (max_duration_seconds b) /\ fits u64 (max_tree_duration_seconds b)
  /\ fits u64 (max_tree_tokens b) /\ fits u64 (max_context_bytes b) /\ fits u64 (max_result_bytes b).

Program Definition budget : Codec AgentBudget := mkCodec _ api_budget budget_from_value budget_fits _ _.
Next Obligation.
  intros [] (H1 & H2 & H3 & H4 & H5 & H6). unfold budget_from_value, api_budget. simpl in *. by codec_fields.
Qed.
Next Obligation. intros [] (H1 & H2 & H3 & H4 & H5 & H6). unfold api_budget. plain_fields. Qed.

Lemma plain_budget b : fits budget b -> plain (api_budget b).
Proof. apply (put_plain budget). Qed.
#[local] Hint Resolve plain_budget : codec.

Definition link_from_value (v : json) : option AgentLink :=
  instance_id ← field text "instance_id" v;
  profile_id ← field text "profile_id" v;
  parent_session_id ← field text "parent_session_id" v;
  parent_run_id ← field text "parent_run_id" v;
  parent_call_id ← field text "parent_call_id" v;
  child_session_id ← field text "child_session_id" v;
  child_run_id ← field text "child_run_id" v;
  depth ← field u8 "depth" v;
  b ← field budget "budget" v;
  ceiling ← field value "permission_ceiling" v;
  Some (mkLink instance_id profile_id parent_session_id parent_run_id parent_call_id child_session_id child_run_id
          depth b ceiling).

Definition link_fits (l : AgentLink) : Prop :=
  fits u8 (al_depth l) /\ fits budget (al_budget l) /\ fits value (al_permission_ceiling l).

Program Definition link : Codec AgentLink := mkCodec _ api_link link_from_value link_fits _ _.
Next Obligation. intros [] (H1 & H2 & H3). unfold link_from_value, api_link. cbn in H1, H2, H3. cbn -[put fits field]. by codec_fields. Qed.
Next Obligation. intros [] (H1 & H2 & H3). unfold api_link. plain_fields. Qed.

Definition context_ref_from_value (v : json) : option DelegatedContextRef :=
  session ← field text "source_session_id" v;
  message ← field text "message_id" v;
  event ← field u64 "last_event_id" v;
  Some (mkContextRef session message event).

Program Definition context_ref : Codec DelegatedContextRef :=
  mkCodec _ api_context_ref context_ref_from_value (fun r => fits u64 (cr_last_event_id r)) _ _.
Next Obligation. intros [] H1. unfold context_ref_from_value, api_context_ref. by codec_fields. Qed.
Next Obligation. intros [] H1. unfold api_context_ref. plain_fields. Qed.

Definition result_from_value (v : json) : option AgentResult :=
  instance_id ← field text "instance_id" v;
  profile_id ← field text "profile_id" v;
  child_session_id ← field text "child_session_id" v;
  child_run_id ← field text "child_run_id" v;
  status ← field terminal_result "status" v;
  output ← optional_field value "output" v;
  truncated ← field flag "output_truncated" v;
  usage ← optional_field value "usage" v;
  error ← optional_field text "error" v;
  Some (mkAgentResult instance_id profile_id child_session_id child_run_id status output truncated usage error).

Program Definition result_codec : Codec AgentResult :=
  mkCodec _ agent_result_to_value result_from_value
    (fun r => fits (option_of value) (ar_output r) /\ fits (option_of value) (ar_usage r)) _ _.
Next Obligation. intros [] [H1 H2]. unfold result_from_value, agent_result_to_value. by codec_fields. Qed.
Next Obligation. intros [] [H1 H2]. unfold agent_result_to_value. plain_fields. Qed.

Definition fact_from_value (v : json) : option ContextFact :=
  id ← field text "fact_id" v; fact ← field text "value" v; Some (mkFact id fact).

Program Definition fact : Codec ContextFact := mkCodec _ api_fact fact_from_value (fun _ => True) _ _.
Next Obligation. intros [] _. unfold fact_from_value, api_fact. by codec_fields. Qed.
Next Obligation. intros [] _. unfold api_fact. plain_fields. Qed.

Definition correlation_from_value (v : json) : option ToolCorrelation :=
  call ← field text "call_id" v; tool ← field text "tool_name" v; run ← field text "run_id" v;
  Some (mkCorrelation call tool run).

Program Definition correlation : Codec ToolCorrelation := mkCodec _ api_correlation correlation_from_value (fun _ => True) _ _.
Next Obligation. intros [] _. unfold correlation_from_value, api_correlation. by codec_fields. Qed.
Next Obligation. intros [] _. unfold api_correlation. plain_fields. Qed.

Definition artifact_from_value (v : json) : option ContextArtifact :=
  id ← field text "artifact_id" v;
  supersedes ← optional_field text "supersedes_artifact_id" v;
  strategy ← field compaction_strategy "strategy" v;
  version ← field u16 "strategy_version" v;
  first ← field u64 "source_start_event_id" v;
  last ← field u64 "source_end_event_id" v;
  window ← field u64 "context_window_tokens" v;
  reserve ← field u64 "output_reserve_tokens" v;
  estimated ← field u64 "estimated_input_tokens" v;
  target ← field u64 "target_input_tokens" v;
  estimator ← field text "estimator_version" v;
  summary ← field text "summary" v;
  correlations ← field_or (list_of correlation) [] "tool_correlations" v;
  Some (mkArtifact id supersedes strategy version first last window reserve estimated target estimator summary correlations).

Definition artifact_fits (a : ContextArtifact) : Prop :=
  fits u16 (ca_strategy_version a) /\ fits u64 (ca_source_start_event_id a) /\ fits u64 (ca_source_end_event_id a)
  /\ fits u64 (ca_context_window_tokens a) /\ fits u64 (ca_output_reserve_tokens a)
  /\ fits u64 (ca_estimated_input_tokens a) /\ fits u64 (ca_target_input_tokens a).

Lemma fits_correlations l : fits (list_of correlation) l.
Proof. by apply Forall_true. Qed.
#[local] Hint Resolve fits_correlations : codec.

Program Definition artifact : Codec ContextArtifact := mkCodec _ api_artifact artifact_from_value artifact_fits _ _.
Next Obligation. intros [] (H1 & H2 & H3 & H4 & H5 & H6 & H7). unfold artifact_from_value, api_artifact. by codec_fields. Qed.
Next Obligation.
  intros [] (H1 & H2 & H3 & H4 & H5 & H6 & H7). unfold api_artifact. plain_fields. apply (plain_list correlation), fits_correlations.
Qed.

(** ** Events

    Each variant with the fields of its [data]. *)
Definition event_readers : list (string * (json -> option SemanticEvent)) :=
  [("session_created", fun d => title ← optional_field text "title" d; Some (SessionCreated title));
   ("session_phase_changed", fun d =>
      from ← field session_phase "from" d; to ← field session_phase "to" d; reason ← optional_field text "reason" d;
      Some (SessionPhaseChanged from to reason));
   ("session_interrupted", fun d => reason ← field text "reason" d; Some (SessionInterrupted reason));
   ("session_forked", fun d =>
      parent ← field text "parent_session_id" d; event ← field u64 "at_event_id" d; Some (SessionForked parent event));
   ("message_started", fun d =>
      message ← field text "message_id" d; agent ← field text "agent_id" d; role ← field message_role "role" d;
      by_author ← field_or author AuthorSystem "author" d; Some (MessageStarted message agent role by_author));
   ("message_content_appended", fun d =>
      message ← field text "message_id" d; b ← field block "block" d; Some (MessageContentAppended message b));
   ("message_completed", fun d => message ← field text "message_id" d; Some (MessageCompleted message));
   ("message_interrupted", fun d => message ← field text "message_id" d; Some (MessageInterrupted message));
   ("run_queued", fun d =>
      run ← field text "run_id" d; retry_of ← optional_field text "retry_of" d; provider ← field text "provider" d;
      model ← field text "model" d; request ← field value "request" d; Some (RunQueued run retry_of provider model request));
   ("run_started", fun d =>
      run ← field text "run_id" d; attempt_id ← field text "attempt_id" d; attempt ← field u32 "attempt" d;
      Some (RunStarted run attempt_id attempt));
   ("run_attempt_started", fun d =>
      run ← field text "run_id" d; attempt_id ← field text "attempt_id" d; attempt ← field u32 "attempt" d;
      Some (RunAttemptStarted run attempt_id attempt));
   ("run_attempt_failed", fun d =>
      run ← field text "run_id" d; attempt_id ← field text "attempt_id" d; error ← field text "error" d;
      retryable ← field flag "retryable" d; Some (RunAttemptFailed run attempt_id error retryable));
   ("run_completed", fun d =>
      run ← field text "run_id" d; usage ← optional_field value "usage" d; Some (RunCompleted run usage));
   ("run_failed", fun d => run ← field text "run_id" d; error ← field text "error" d; Some (RunFailed run error));
   ("run_cancelled", fun d =>
      run ← field text "run_id" d; reason ← optional_field text "reason" d; Some (RunCancelled run reason));
   ("run_interrupted", fun d =>
      run ← field text "run_id" d; reason ← field text "reason" d; Some (RunInterrupted run reason));
   ("run_requires_action", fun d =>
      run ← field text "run_id" d; calls ← field (list_of text) "call_ids" d; Some (RunRequiresAction run calls));
   ("tool_call_emitted", fun d =>
      run ← field_or text "" "run_id" d; message ← field_or text "" "assistant_message_id" d;
      call ← field text "call_id" d; agent ← field text "agent_id" d; tool ← field text "tool_name" d;
      arguments ← field value "arguments" d; raw ← field_or text "" "raw_arguments" d; native ← field_or flag false "native" d;
      Some (ToolCallEmitted run message call agent tool arguments raw native));
   ("tool_execution_started", fun d =>
      run ← field text "run_id" d; call ← field text "call_id" d; execution ← field text "execution_id" d;
      Some (ToolExecutionStarted run call execution));
   ("tool_result", fun d =>
      run ← field_or text "" "run_id" d; call ← field text "call_id" d; agent ← field text "agent_id" d;
      tool ← field text "tool_name" d; res ← field value "result" d; Some (ToolResult run call agent tool res));
   ("agent_phase_changed", fun d =>
      agent ← field text "agent_id" d; phase ← field agent_phase "phase" d; Some (AgentPhaseChanged agent phase));
   ("permission_requested", fun d =>
      request ← field text "request_id" d; run ← field_or text "" "run_id" d; call ← optional_field text "call_id" d;
      agent ← field text "agent_id" d; tool ← field text "tool_name" d; arguments ← field value "arguments" d;
      Some (PermissionRequested request run call agent tool arguments));
   ("permission_resolved", fun d =>
      request ← field text "request_id" d; decision ← field permission_decision "decision" d;
      source ← optional_field decision_source "source" d; scope ← optional_field permission_scope "scope" d;
      rule ← optional_field text "rule_id" d; reason ← optional_field text "reason" d;
      Some (PermissionResolved request decision source scope rule reason));
   ("agent_spawned", fun d =>
      agent ← field text "agent_id" d; parent ← optional_field text "parent_id" d; l ← optional_field link "link" d;
      revision ← optional_field u64 "config_revision" d; Some (AgentSpawned agent parent l revision));
   ("agent_finished", fun d =>
      agent ← field text "agent_id" d; res ← optional_field result_codec "result" d; Some (AgentFinished agent res));
   ("agent_context_captured", fun d =>
      agent ← field text "agent_id" d; refs ← field (list_of context_ref) "references" d; Some (AgentContextCaptured agent refs));
   ("agent_result_delivered", fun d =>
      agent ← field text "agent_id" d; run ← field text "parent_run_id" d; call ← field text "parent_call_id" d;
      res ← field result_codec "result" d; Some (AgentResultDelivered agent run call res));
   ("context_fact_recorded", fun d => f ← field fact "fact" d; Some (ContextFactRecorded f));
   ("context_compaction_started", fun d =>
      run ← field text "run_id" d; id ← field text "artifact_id" d; strategy ← field compaction_strategy "strategy" d;
      first ← field u64 "source_start_event_id" d; last ← field u64 "source_end_event_id" d;
      Some (ContextCompactionStarted run id strategy first last));
   ("context_compacted", fun d =>
      run ← field text "run_id" d; a ← field artifact "artifact" d; Some (ContextCompacted run a));
   ("context_compaction_failed", fun d =>
      run ← field text "run_id" d; id ← field text "artifact_id" d; code ← field text "code" d;
      Some (ContextCompactionFailed run id code));
   ("context_compaction_bypassed", fun d =>
      run ← field text "run_id" d; reason ← field text "reason" d; Some (ContextCompactionBypassed run reason))].

(** The two variants without fields have no content, or [null]. *)
Definition event_from_value (v : json) : option SemanticEvent :=
  type ← field text "type" v;
  if String.eqb type "queue_paused" || String.eqb type "queue_resumed" then
    if is_null (default JNull (get "data" v))
    then Some (if String.eqb type "queue_paused" then QueuePaused else QueueResumed) else None
  else
    d ← get "data" v;
    '(_, read) ← List.find (fun r => String.eqb (fst r) type) event_readers;
    read d.

(** What the types of the fields and the reading of [Option] leave out. *)
Definition event_fits (e : SemanticEvent) : Prop :=
  match e with
  | SessionForked _ n => fits u64 n
  | MessageContentAppended _ b => fits block b
  | RunQueued _ _ _ _ v | ToolCallEmitted _ _ _ _ _ v _ _ | ToolResult _ _ _ _ v | PermissionRequested _ _ _ _ _ v => plain v
  | RunStarted _ _ n | RunAttemptStarted _ _ n => fits u32 n
  | RunCompleted _ usage => fits (option_of value) usage
  | AgentSpawned _ _ l revision => fits (option_of link) l /\ fits (option_of u64) revision
  | AgentFinished _ r => fits (option_of result_codec) r
  | AgentContextCaptured _ refs => fits (list_of context_ref) refs
  | AgentResultDelivered _ _ _ r => fits result_codec r
  | ContextCompactionStarted _ _ _ first last => fits u64 first /\ fits u64 last
  | ContextCompacted _ a => fits artifact a
  | _ => True
  end.

Definition event_data (e : SemanticEvent) : json := default JNull (get "data" (event_to_value e)).

(** ** Rows of events *)

Section rows.
  Context `{JsonText}.

Record EventColumns := mkEventColumns {
  ec_event_id : Z;
  ec_schema_version : Z;
  ec_type : string;
  ec_data : document;
  ec_occurred_at : string }.

(** The values [insert_event_row] binds. *)
Definition event_columns (session_id : string) (event_id : EventId) (occurred_at : string) (event : SemanticEvent) :
    result StoreError EventColumns :=
  let value := event_to_value event in
  event_type ← ok_or (CorruptSession session_id "event has no type") (v ← get "type" value; as_str v);
  let data := default JNull (get "data" value) in
  id ← ok_or InvalidCursor (i64_of_u64 event_id);
  Ok (mkEventColumns id EVENT_SCHEMA_VERSION event_type (print data) occurred_at).

Definition recorded_from_columns (session_id : string) (row : EventColumns) : result StoreError RecordedEvent :=
  schema_version ← (if (0 <=? ec_schema_version row) && (ec_schema_version row <=? u16_max) then Ok (ec_schema_version row)
                    else Err (UnsupportedSchemaVersion u16_max));
  if negb (schema_version =? EVENT_SCHEMA_VERSION) then Err (UnsupportedSchemaVersion schema_version)
  else
    data ← ok_or InvalidEventJson (parse (ec_data row));
    event ← ok_or InvalidEventJson (event_from_value (jobject [("type", JString (ec_type row)); ("data", data)]));
    if ec_event_id row <? 0 then Err (CorruptSession session_id "negative event id")
    else Ok (mkRecorded (ec_event_id row) session_id schema_version (ec_occurred_at row) event (Some data)).

(** ** Rows of links and rules *)

Record LinkColumns := mkLinkColumns {
  lc_instance_id : string;
  lc_profile_id : string;
  lc_parent_session_id : string;
  lc_parent_run_id : string;
  lc_parent_call_id : string;
  lc_child_session_id : string;
  lc_child_run_id : string;
  lc_depth : Z;
  lc_budget : document;
  lc_permission_ceiling : document;
  lc_created_at : string }.

(** The values [create_agent_link] binds. *)
Definition link_columns (r : AgentLinkRecord) : LinkColumns :=
  mkLinkColumns (lr_instance_id r) (lr_profile_id r) (lr_parent_session_id r) (lr_parent_run_id r) (lr_parent_call_id r)
    (lr_child_session_id r) (lr_child_run_id r) (lr_depth r) (print (put budget (lr_budget r)))
    (print (lr_permission_ceiling r)) (lr_created_at r).

Definition agent_link_from_row (c : LinkColumns) : result StoreError AgentLinkRecord :=
  depth ← (if (0 <=? lc_depth c) && (lc_depth c <=? u8_max) then Ok (lc_depth c)
           else Err (CorruptSession "agent_link" "invalid agent link depth"));
  b ← ok_or InvalidEventJson (v ← parse (lc_budget c); take_json budget v);
  ceiling ← ok_or InvalidEventJson (parse (lc_permission_ceiling c));
  Ok (mkLinkRecord (lc_instance_id c) (lc_profile_id c) (lc_parent_session_id c) (lc_parent_run_id c) (lc_parent_call_id c)
        (lc_child_session_id c) (lc_child_run_id c) depth b ceiling (lc_created_at c)).

(** ** Rows of sessions *)

Record SessionColumns := mkSessionColumns {
  sc_id : string;
  sc_title : option string;
  sc_project_id : option string;
  sc_parent_session_id : option string;
  sc_forked_at_event_id : option Z;
  sc_created_at : string;
  sc_updated_at : string;
  sc_phase : string;
  sc_revision : Z;
  sc_last_event_id : Z;
  sc_history_retention : string }.

(** The values [fork_session] binds, with the retention that [create_session] and
    [update_session_retention] bind. *)
Definition session_columns (id : string) (r : SessionRow) : result StoreError SessionColumns :=
  forked ← match sr_forked_at_event_id r with
           | Some e => Some <$> ok_or InvalidCursor (i64_of_u64 e)
           | None => Ok None
           end;
  revision ← ok_or InvalidCursor (i64_of_u64 (sr_revision r));
  last ← ok_or InvalidCursor (i64_of_u64 (sr_last_event_id r));
  Ok (mkSessionColumns id (sr_title r) (sr_project_id r) (sr_parent_session_id r) forked (sr_created_at r)
        (sr_updated_at r) (session_phase_name (sr_phase r)) revision last (retention_name (sr_history_retention r))).

Definition parse_phase (value : string) : result StoreError SessionPhase :=
  ok_or (CorruptSession "unknown" "invalid phase") (v ← parse (quoted value); take_json session_phase v).

Definition summary_from_row (c : SessionColumns) : result StoreError SessionSummary :=
  forked ← match sc_forked_at_event_id c with
           | Some e => Some <$> ok_or Database (u64_of_i64 e)
           | None => Ok None
           end;
  phase ← parse_phase (sc_phase c);
  revision ← ok_or Database (u64_of_i64 (sc_revision c));
  last ← ok_or Database (u64_of_i64 (sc_last_event_id c));
  retention ← ok_or InvalidRetention (retention_from_name (sc_history_retention c));
  Ok (sc_id c, mkSessionRow (sc_title c) (sc_project_id c) (sc_parent_session_id c) forked (sc_created_at c)
        (sc_updated_at c) phase revision last retention).

End rows.

Record RuleColumns := mkRuleColumns {
  rc_id : string;
  rc_scope : string;
  rc_session_id : option string;
  rc_project_id : option string;
  rc_agent_id : string;
  rc_tool_name : string;
  rc_created_at : string }.

(** The values [create_permission_rule] binds. *)
Definition rule_columns (r : PermissionRuleRecord) : RuleColumns :=
  mkRuleColumns (rr_id r) (scope_name (rr_scope r)) (rr_session_id r) (rr_project_id r) (rr_agent_id r) (rr_tool_name r)
    (rr_created_at r).

Definition permission_rule_from_row (c : RuleColumns) : result RuleError PermissionRuleRecord :=
  scope ← (if String.eqb (rc_scope c) "session" then Ok ScopeSession
           else if String.eqb (rc_scope c) "project" then Ok ScopeProject
           else if String.eqb (rc_scope c) "configuration" then Ok ScopeConfiguration
           else Err InvalidPermissionScope);
  Ok (mkRuleRecord (rc_id c) scope (rc_session_id c) (rc_project_id c) (rc_agent_id c) (rc_tool_name c) (rc_created_at c)).
