(* ===== verification/CodecSpec.v ===== *)
(** Round trips of events and rows (file Codec). *)

From S2P Require Export Codec.

(** ** Events *)

Lemma event_data_fields e :
  event_data e = match e with QueuePaused | QueueResumed => JNull | _ => jobject (event_fields e) end.
Proof. by destruct e. Qed.

Lemma read_variant name read e d : String.eqb name "queue_paused" || String.eqb name "queue_resumed" = false ->
  List.find (fun r => String.eqb (fst r) name) event_readers = Some (name, read) -> read d = Some e ->
  event_from_value (jobject [("type", JString name); ("data", d)]) = Some e.
Proof.
  intros Hq Hf Hd. unfold event_from_value. erewrite field_put; [cbn [mbind option_bind]|done|done|done].
  rewrite Hq. change (get "data" (jobject [("type", JString name); ("data", d)])) with (Some d). cbn [mbind option_bind].
  by rewrite Hf.
Qed.

Lemma fits_source o : fits (option_of decision_source) o.
Proof. by destruct o. Qed.
Lemma fits_scope o : fits (option_of permission_scope) o.
Proof. by destruct o. Qed.

#[local] Hint Resolve fits_option_text fits_source fits_scope : codec.
#[local] Hint Extern 1 (fits _ _) => exact I : codec.
#[local] Hint Extern 1 (fits (list_of text) _) => apply Forall_true; done : codec.

Lemma event_round_trip e : event_fits e ->
  event_from_value (jobject [("type", JString (event_type e)); ("data", event_data e)]) = Some e.
Proof.
  intros Hf. rewrite event_data_fields. destruct e; cbn [event_fits] in Hf; try match type of Hf with _ /\ _ => destruct Hf as [Hf1 Hf2] end; try reflexivity;
    (eapply read_variant; [reflexivity|reflexivity|]; cbn [event_fields]; codec_fields; reflexivity).
Qed.

Lemma plain_link l : fits (option_of link) l -> plain (of_option api_link l).
Proof. apply (put_plain (option_of link)). Qed.
Lemma plain_u64 o : fits (option_of u64) o -> plain (of_option jnum o).
Proof. apply (put_plain (option_of u64)). Qed.
Lemma plain_result r : fits (option_of result_codec) r -> plain (of_option agent_result_to_value r).
Proof. apply (put_plain (option_of result_codec)). Qed.
Lemma plain_refs l : fits (list_of context_ref) l -> plain (JArray (api_context_ref <$> l)).
Proof. apply (put_plain (list_of context_ref)). Qed.
Lemma plain_strings l : plain (strings l).
Proof. apply (put_plain (list_of text)). by apply Forall_true. Qed.
Lemma plain_source o : plain (of_option (fun s => JString (source_name s)) o).
Proof. by destruct o. Qed.
Lemma plain_scope o : plain (of_option (fun s => JString (scope_name s)) o).
Proof. by destruct o. Qed.
Lemma plain_author a : plain (api_author a).
Proof. by apply (put_plain author). Qed.
Lemma plain_block b : fits block b -> plain (block_to_value b).
Proof. apply (put_plain block). Qed.
Lemma plain_artifact a : fits artifact a -> plain (api_artifact a).
Proof. apply (put_plain artifact). Qed.
Lemma plain_fact f : plain (api_fact f).
Proof. by apply (put_plain fact). Qed.
Lemma plain_delivered r : fits result_codec r -> plain (agent_result_to_value r).
Proof. apply (put_plain result_codec). Qed.

#[local] Hint Resolve plain_link plain_u64 plain_result plain_refs plain_strings plain_source plain_scope plain_author
  plain_block plain_artifact plain_fact plain_delivered plain_option_text plain_option_value plain_uint : codec.

Lemma event_data_plain e : event_fits e -> plain (event_data e).
Proof.
  intros Hf. rewrite event_data_fields. destruct e; cbn [event_fits] in Hf; try match type of Hf with _ /\ _ => destruct Hf as [Hf1 Hf2] end;
    try exact I; cbn [event_fields]; plain_fields.
Qed.

Lemma event_typed e : (v ← get "type" (event_to_value e); as_str v) = Some (event_type e).
Proof. by destruct e. Qed.

(** ** Rows of sessions *)

Definition session_fits (r : SessionRow) : Prop :=
  0 <= sr_revision r <= i64_max /\ 0 <= sr_last_event_id r <= i64_max
  /\ match sr_forked_at_event_id r with Some e => 0 <= e <= i64_max | None => True end.

Lemma u64_back x : 0 <= x <= i64_max -> i64_of_u64 x = Some x /\ u64_of_i64 x = Some x.
Proof. intros [Hx Hm]. split; [by apply i64_of_u64_in|]. unfold u64_of_i64. by rewrite (proj2 (Z.leb_le 0 x)). Qed.

Lemma retention_read_back h : retention_from_name (retention_name h) = Some h.
Proof. by destruct h. Qed.

Lemma parse_phase_name `{JsonText} p : parse_phase (session_phase_name p) = Ok p.
Proof. unfold parse_phase. rewrite parse_quoted. by destruct p. Qed.

Lemma session_row_read_back `{JsonText} id r : session_fits r ->
  exists row, session_columns id r = Ok row /\ summary_from_row row = Ok (id, r).
Proof.
  intros (Hr & Hl & Hf). destruct r as [title project parent forked created updated phase revision last retention]. simpl in *.
  destruct (u64_back _ Hr) as [Er Er'], (u64_back _ Hl) as [El El']. unfold session_columns. simpl.
  destruct forked as [e|]; [destruct (u64_back _ Hf) as [Ef Ef']; rewrite Ef|]; simpl; rewrite Er, El; (eexists; split; [done|]);
    unfold summary_from_row; simpl; rewrite ?Ef'; simpl; rewrite parse_phase_name; simpl; rewrite Er', El', retention_read_back; done.
Qed.


(** A usage that is null, which the Responses protocol can report, is recorded, but
    is not there any more when the event is read again. *)
Lemma null_usage_is_forgotten `{JsonText} session_id id t run : 0 <= id <= i64_max ->
  exists row, event_columns session_id id t (RunCompleted run (Some JNull)) = Ok row
    /\ re_event <$> recorded_from_columns session_id row = Ok (RunCompleted run None).
Proof.
  intros Hid. unfold event_columns. rewrite event_typed, i64_of_u64_in by lia. eexists. split; [done|].
  unfold recorded_from_columns. cbn [ec_schema_version ec_data ec_type ec_event_id ec_occurred_at mbind result_mbind].
  rewrite parse_print by (apply (event_data_plain (RunCompleted run None)); exact I). simpl.
  rewrite (proj2 (Z.ltb_ge id 0)); [done|lia].
Qed.

(** Events of older versions, whose data lacks the newer fields. *)
Lemma old_events_are_read call agent tool v message role :
  let read name d := event_from_value (jobject [("type", JString name); ("data", jobject d)]) in
  read "tool_call_emitted" [("call_id", JString call); ("agent_id", JString agent); ("tool_name", JString tool); ("arguments", v)]
    = Some (ToolCallEmitted "" "" call agent tool v "" false)
  /\ read "tool_result" [("call_id", JString call); ("agent_id", JString agent); ("tool_name", JString tool); ("result", v)]
    = Some (ToolResult "" call agent tool v)
  /\ read "message_started" [("message_id", JString message); ("agent_id", JString agent); ("role", JString (message_role_name role))]
    = Some (MessageStarted message agent role AuthorSystem)
  /\ read "agent_finished" [("agent_id", JString agent)] = Some (AgentFinished agent None).
Proof. split_and!; try reflexivity. by destruct role. Qed.

#[local] Existing Instance plain_text.

Definition stored_event : SemanticEvent :=
  RunQueued "r" None "p" "m" (jobject [("input", JString "hello"); ("max_tokens", jnum 100); ("stop", JArray [JNull])]).
Lemma stored_event_fits : event_fits stored_event.
Proof. apply plain_jobject. repeat (apply Forall_cons; split; simpl); try done. Qed.

Definition stored_link : AgentLinkRecord :=
  mkLinkRecord "i" "helper" "s" "r" "call-1" "k" "c" 1 (mkBudget 8 60 600 100000 65536 16384) (jobject []) "t".
Definition stored_rule : PermissionRuleRecord := mkRuleRecord "rule-1" ScopeProject None (Some "project") "assistant" "bash" "t".

Definition stored_session : SessionRow :=
  mkSessionRow (Some "title") (Some "project") (Some "parent") (Some 7) "t" "u" Interrupted 3 9 OneYear.

