(* ===== verification/Supervisor.v ===== *)
(** The handlers of [SessionSupervisor] ([piqo-server/src/supervisor.rs]) that
    only touch the session they are called for: queueing, resuming, tool
    results, retries, project deletion, what a restart and a shutdown do to the
    runs that are left.

    The order of the statements is the source's: what is read before an event
    is appended is the projection before it. *)

From S2P Require Export Requests World.
Import SessionProjection.

Definition provider_error `{Outside} (e : ConfigError) : StoreError :=
  match e with
  | ProviderNotFound name => StoreProviderNotFound name
  | InvalidProtocol _ => ProviderProtocolError (display_config e)
  | _ => ProviderUnavailable (display_config e)
  end.

Definition bad_request_json : StoreError := InvalidEventJson.

Section supervisor.
  Context `{EventCodec} `{Outside}.

Definition resolve (name : string) : M (result ConfigError ResolvedProvider) :=
  config ← gets w_config; mret (resolve_provider env_var config name).

Definition project_is_deleting (project_id : string) : M bool :=
  gets (fun w => bool_decide (project_id ∈ w_deleting w)).

Definition ensure_session_mutable (session_id : string) : M () :=
  '(_, session) ← query (get_session session_id);
  match sr_project_id session with
  | Some project_id =>
      deleting ← project_is_deleting project_id;
      if (deleting : bool) then fail (ProjectDeleting project_id) else mret ()
  | None => mret ()
  end.

(** ** Queueing *)

Definition parse_request (v : json) : M RunRequest := lift (ok_or bad_request_json (request_from_value v)).

(** [append(..)] or [append_many(..)] of a run that was just admitted: on an error
    the reservation is given back. *)
Definition admitted {A} (run_id : string) (m : M A) : M () :=
  r ← try m;
  match r with Ok _ => mret () | Err e => _ ← release run_id; fail e end.

Definition queue_run (session_id : string) (request : RunRequest) : M string :=
  _ ← ensure_running;
  _ ← ensure_session_mutable session_id;
  p ← read_projection session_id;
  if sp_queue_paused p then fail QueueIsPaused
  else if is_empty (rq_provider request) || is_empty (rq_model request)
  then fail (Store.InvalidRequest "provider and model are required")
  else
    provider ← resolve (rq_provider request);
    _ ← lift (map_err provider_error provider);
    run_id ← fresh_id;
    _ ← reserve session_id run_id;
    _ ← admitted run_id (append session_id
          (RunQueued run_id None (rq_provider request) (rq_model request) (request_to_value request)));
    _ ← spawn_worker session_id;
    mret run_id.

Definition resume (session_id : string) : M () :=
  _ ← ensure_running;
  _ ← ensure_session_mutable session_id;
  p ← read_projection session_id;
  if negb (sp_queue_paused p) then fail QueueNotPaused
  else
    _ ← append session_id QueueResumed;
    spawn_worker session_id.

Definition retryable (s : RunStatus) : bool :=
  match s with RFailed | RInterrupted | RCancelled => true | _ => false end.

Definition retry (session_id run_id : string) : M string :=
  _ ← ensure_running;
  _ ← ensure_session_mutable session_id;
  p ← read_projection session_id;
  run ← run_of p run_id;
  if negb (retryable (rp_status run))
  then fail (StoreConflict "only failed, interrupted or cancelled runs can be retried")
  else
    request ← parse_request (rp_request run);
    new_id ← fresh_id;
    _ ← reserve session_id new_id;
    p ← read_projection session_id;
    _ ← admitted new_id (append_many session_id
          (RunQueued new_id (Some run_id) (rq_provider request) (rq_model request) (request_to_value request)
           :: if sp_queue_paused p then [QueueResumed] else []));
    _ ← spawn_worker session_id;
    mret new_id.

(** ** Tool results *)

(** The permission request of a call, in the order of request ids. *)
Definition call_permission (p : SessionProjection) (run_id call_id : string) : option PermissionProjection :=
  List.find (fun q => String.eqb (pp_run_id q) run_id && bool_decide (pp_call_id q = Some call_id))
    (btree_values (sp_pending_permissions p)).

(** Why a result of a call is refused, and otherwise whether it is new. *)
Definition check_tool_result (p : SessionProjection) (run : RunProjection) (run_id call_id : string)
    (result : json) : Prelude.result StoreError (option ToolCallProjection) :=
  if negb (bool_decide (rp_status run = RRequiresAction))
  then Err (StoreConflict "run is not awaiting tool results")
  else
    request ← ok_or bad_request_json (request_from_value (rp_request run));
    if bool_decide (is_Some (get "messages" (rq_body request)))
       || bool_decide (is_Some (get "input" (rq_body request)))
    then Err CallerOwnedTranscript
    else match rp_tool_calls run !! call_id with
    | None =>
        if existsb (fun other => bool_decide (is_Some (rp_tool_calls other !! call_id))) (btree_values (sp_runs p))
        then Err (ToolCallWrongRun call_id run_id) else Err (ToolCallNotFound call_id)
    | Some call =>
        if tc_native call
        then if starts_with "mcp__" (tc_tool_name call) then Err (McpToolManaged call_id)
             else Err (NativeToolManaged call_id)
        else match q ← call_permission p run_id call_id; pp_decision q with
        | Some Allow =>
            match tc_result call with
            | Some existing => if decide (existing = result) then Ok None else Err (ToolResultConflict call_id)
            | None => Ok (Some call)
            end
        | Some Deny => Err (StoreConflict "tool permission was denied")
        | _ => Err (StoreConflict "tool permission has not been approved")
        end
    end.

Definition other_calls_done (run : RunProjection) (call_id : string) : bool :=
  forallb (fun c => String.eqb (tc_call_id c) call_id || bool_decide (is_Some (tc_result c)))
    (btree_values (rp_tool_calls run)).

Definition submit_tool_result (session_id run_id call_id : string) (result : json) : M () :=
  _ ← ensure_running;
  _ ← ensure_session_mutable session_id;
  p ← read_projection session_id;
  run ← run_of p run_id;
  fresh ← lift (check_tool_result p run run_id call_id result);
  match fresh with
  | None => mret ()
  | Some call =>
      let all_ready := other_calls_done run call_id in
      _ ← append_many session_id
            (ToolResult run_id call_id (tc_agent_id call) (tc_tool_name call) result
             :: if all_ready then [QueueResumed] else []);
      if all_ready then spawn_worker session_id else mret ()
  end.

(** ** Deleting a project *)

Definition unfinished (s : RunStatus) : bool := negb (terminal s).

Definition cancel_session_for_project_deletion (session_id : string) : M () :=
  p ← read_projection session_id;
  let waiting := List.filter (fun r => bool_decide (rp_status r ∈ [RQueued; RRequiresAction])) (btree_values (sp_runs p)) in
  _ ← each (fun r => cancel_token (rp_run_id r))
        (List.filter (fun r => bool_decide (rp_status r = RRunning)) (btree_values (sp_runs p)));
  match waiting with
  | [] => mret ()
  | _ => _ ← append_many session_id
               ((fun r => RunCancelled (rp_run_id r) (Some "project_deleted")) <$> waiting);
         mret ()
  end.

(** The rows that go with a session or a project: [ON DELETE CASCADE]. *)
Definition cascade (project_id : string) (gone : gset string) (w : World) : World :=
  set_rules (List.filter (fun r => negb (bool_decide (rr_project_id r = Some project_id))
                     && match rr_session_id r with Some s => negb (bool_decide (s ∈ gone)) | None => true end) (w_rules w))
    (set_links (List.filter (fun l => negb (bool_decide (lr_parent_session_id l ∈ gone))
                               && negb (bool_decide (lr_child_session_id l ∈ gone))) (w_links w)) w).

Definition delete_project_rows (project_id : string) (session_ids : list string) : M () := fun w =>
  match Store.delete_project project_id (w_store w) with
  | (s, Ok _) => (cascade project_id (list_to_set session_ids) (set_store s w), Ok ())
  | (s, Err e) => (set_store s w, Err (Fail e))
  end.

(** [wait_for_session_idle] waits for the session's worker: nothing to do when
    handlers run one at a time. *)
Definition delete_project_body (project_id : string) : M () :=
  session_ids ← query (fun db =>
    if bool_decide (is_Some (db_projects db !! project_id))
    then Ok (sort_by String.leb (elements (project_session_ids project_id db)))
    else Err (ProjectNotFound project_id));
  _ ← each cancel_session_for_project_deletion session_ids;
  _ ← modify (fun w => set_hub (EventHub.close_sessions session_ids (w_hub w)) w);
  delete_project_rows project_id session_ids.

Definition delete_project (project_id : string) : M () :=
  deleting ← project_is_deleting project_id;
  if (deleting : bool) then fail (ProjectDeleting project_id)
  else
    _ ← modify (fun w => set_deleting ({[project_id]} ∪ w_deleting w) w);
    r ← try (delete_project_body project_id);
    _ ← modify (fun w => set_deleting (w_deleting w ∖ {[project_id]}) w);
    lift r.

(** ** Restart and shutdown *)

Definition uncertain_native (call : ToolCallProjection) : bool :=
  tc_native call && bool_decide (is_Some (tc_execution_id call)) && negb (bool_decide (is_Some (tc_result call))).

Definition interrupted_native_runs (p : SessionProjection) : list RunProjection :=
  List.filter (fun r => bool_decide (rp_status r = RRequiresAction)
                        && existsb uncertain_native (btree_values (rp_tool_calls r))) (btree_values (sp_runs p)).

Definition resume_session_after_restart (session_id : string) : M () :=
  p ← read_projection session_id;
  match interrupted_native_runs p with
  | [] => if bool_decide (is_Some (ready_action_run p)) then spawn_worker session_id else mret ()
  | runs =>
      _ ← append_many session_id
            ((fun r => RunInterrupted (rp_run_id r) "native_execution_interrupted_by_restart") <$> runs);
      mret ()
  end.

Definition resume_ready_actions_after_restart : M () :=
  ids ← store_session_ids; each resume_session_after_restart ids.

Definition shutdown_events (reason : string) (p : SessionProjection) : list SemanticEvent :=
  ((fun r => RunInterrupted (rp_run_id r) reason)
     <$> List.filter (fun r => unfinished (rp_status r)) (btree_values (sp_runs p)))
  ++ if bool_decide (ss_phase (sp_state p) = Running)
     then [SessionPhaseChanged Running Interrupted (Some reason)] else [].

Definition interrupt_session_runs (reason session_id : string) : M () :=
  p ← read_projection session_id;
  match shutdown_events reason p with
  | [] => mret ()
  | events => _ ← append_many session_id events; mret ()
  end.

Definition interrupt_remaining_runs (reason : string) : M () :=
  ids ← store_session_ids; each (interrupt_session_runs reason) ids.

(** ** Messages *)

Definition open_assistant (m : MessageProjection) : bool :=
  bool_decide (mp_role m = Assistant) && negb (mp_completed m) && negb (mp_interrupted m).

(** [messages.iter().rev().find(..)]. *)
Definition last_message (f : MessageProjection -> bool) (p : SessionProjection) : option MessageProjection :=
  List.find f (rev (sp_messages p)).

Definition interrupt_message (session_id : string) : M () :=
  p ← read_projection session_id;
  match last_message open_assistant p with
  | Some m => _ ← append session_id (MessageInterrupted (mp_message_id m)); mret ()
  | None => mret ()
  end.

Definition resume_if_tool_results_ready (session_id run_id : string) : M bool :=
  p ← read_projection session_id;
  run ← run_of p run_id;
  if bool_decide (rp_status run = RRequiresAction)
     && forallb (fun c => bool_decide (is_Some (tc_result c))) (btree_values (rp_tool_calls run))
  then _ ← append session_id QueueResumed; mret true
  else mret false.

End supervisor.
