(* ===== verification/Delegation.v ===== *)
(** Permissions and tools in the supervisor ([piqo-server/src/supervisor.rs]):
    which calls the server executes itself, the evaluation of permissions after a
    response, the execution of approved calls, delegation to child sessions and
    the answers of clients to permission requests. *)

From S2P Require Export Supervisor.
Import SessionProjection.

(** ** Finding the workspace and the shell *)

(** [fs::canonicalize]: a component at a time, [..] after the links before it. *)
Fixpoint canonicalize_from (fs : file_system) (dir : path) (l : list component) : result io_error path :=
  match l with
  | [] => Ok dir
  | RootDir :: l => canonicalize_from fs [] l
  | CurDir :: l => canonicalize_from fs dir l
  | ParentDir :: l =>
      if path_is_dir fs dir then canonicalize_from fs (removelast dir) l else Err IoOther
  | Normal part :: l => q ← realpath fs (dir ++ [part]); canonicalize_from fs q l
  end.
Definition canonicalize (cwd : path) (fs : file_system) (s : string) : result io_error path :=
  canonicalize_from fs cwd (components s).

Definition path_is_file (cwd : path) (fs : file_system) (s : string) : bool :=
  match canonicalize cwd fs s with
  | Ok p => match node_at fs p with Some (File _) => true | _ => false end
  | Err _ => false
  end.

Fixpoint split_colon (s : string) : list string :=
  match s with
  | "" => [""]
  | String c s =>
      if (c =? ":")%char then "" :: split_colon s
      else match split_colon s with [] => [String c ""] | l :: ls => String c l :: ls end
  end.

Section shell.
  Context (env : string -> option string) (cwd : path) (fs : file_system).

(** [directory.join(name)]. *)
Definition join_path (directory name : string) : string :=
  if is_empty directory then name
  else if ends_with "/" directory then directory ++s name else directory ++s "/" ++s name.

Definition find_in_path (name : string) : option string :=
  paths ← env "PATH";
  List.find (path_is_file cwd fs) ((fun directory => join_path directory name) <$> split_colon paths).

(** [ShellProgram::discover] on Linux. *)
Definition discover (configured : option string) : result NativeToolError string :=
  match configured with
  | Some configured =>
      if path_is_absolute configured && path_is_file cwd fs configured then Ok configured else Err Unavailable
  | None =>
      match env "SHELL" with
      | Some shell =>
          if path_is_absolute shell && path_is_file cwd fs shell then Ok shell
          else ok_or Unavailable (or_else (find_in_path "bash")
                 (if path_is_file cwd fs "/bin/sh" then Some "/bin/sh" else None))
      | None =>
          ok_or Unavailable (or_else (find_in_path "bash")
            (if path_is_file cwd fs "/bin/sh" then Some "/bin/sh" else None))
      end
  end.

(** [NativeExecutor::new]: the canonical workspace. *)
Definition new_executor (workspace : string) : result NativeToolError path :=
  p ← map_err (fun _ => NotFound) (canonicalize cwd fs workspace);
  if path_is_dir fs p then Ok p else Err NotDirectory.

End shell.

Section delegation.
  Context `{EventCodec} `{Outside}.

(** ** Which calls are the server's *)

Definition mcp_catalog : M (list McpToolDefinition) :=
  n ← tick;
  m ← gets w_mcp;
  let '(m, tools) := catalog schema_ok (mcp_behaviour n) m in
  _ ← modify (set_mcp m);
  mret tools.

Definition native_setting (p : AgentPermissions) (tool : option NativeTool) (tool_name : string) :
    option PermissionSetting :=
  match tool with
  | Some Read => perm_read p
  | Some Write | Some Edit => perm_write p
  | Some Bash => perm_bash p
  | None => or_else (perm_tools p !! tool_name) (perm_mcp p)
  end.

Definition is_native_call (session_id run_id tool_name : string) : M bool :=
  if String.eqb tool_name "delegate" then
    p ← read_projection session_id;
    run ← run_of p run_id;
    request ← parse_request (rp_request run);
    config ← gets w_config;
    mret (configured_delegate config request)
  else
    let tool := NativeTool.parse tool_name in
    '(_, session) ← query (get_session session_id);
    if bool_decide (sr_project_id session = None) && bool_decide (is_Some tool) then mret false
    else
      p ← read_projection session_id;
      run ← run_of p run_id;
      request ← parse_request (rp_request run);
      if bool_decide (is_Some (get "tools" (rq_body request))) then mret false
      else
        config ← gets w_config;
        let decision := a ← ok (agent config (default "assistant" (rq_agent request)));
                        native_setting (ad_permissions a) tool tool_name in
        match tool with
        | Some _ => mret (enabled decision)
        | None =>
            tools ← mcp_catalog;
            mret (existsb (fun t => String.eqb (mt_name t) tool_name) tools && enabled decision)
        end.

(** ** Delegation *)

Definition delegated_message (m : MessageProjection) : json :=
  jobject [("message_id", JString (mp_message_id m)); ("role", JString (role_name (mp_role m)));
           ("blocks", blocks_to_value (mp_blocks m))].

Definition find_context (p : SessionProjection) (message_id : string) : result StoreError MessageProjection :=
  match List.find (fun m => String.eqb (mp_message_id m) message_id) (sp_messages p) with
  | Some m =>
      if closed m then Ok m
      else Err (Store.InvalidRequest "delegated context message is unknown or open")
  | None => Err (Store.InvalidRequest "delegated context message is unknown or open")
  end.

(** The checks before the child session is created: the child's agent with its
    provider and model, its depth, the ceiling and the context it is given. *)
Record Delegation := mkDelegationPlan {
  dl_request : DelegationRequest;
  dl_child : AgentDefinition;
  dl_provider : string;
  dl_model : string;
  dl_depth : Z;
  dl_ceiling : json;
  dl_context : list MessageProjection }.

Definition u8_sat_succ (n : Z) : Z := Z.min u8_max (n + 1).

Definition delegation_provider_error (e : ConfigError) : StoreError :=
  match e with
  | ProviderNotFound name => StoreProviderNotFound name
  | _ => ProviderUnavailable (display_config e)
  end.

Definition child_link (session_id : string) (links : list AgentLinkRecord) : option AgentLinkRecord :=
  List.find (fun l => String.eqb (lr_child_session_id l) session_id) links.

Definition parent_permissions (config : PiqoConfig) (request : RunRequest) : AgentPermissions :=
  default permissions_default
    (name ← rq_agent request; a ← ok (agent config name); Some (ad_permissions a)).

Definition plan_delegation (parent_session_id parent_run_id : string) (arguments : json) : M Delegation :=
  request ← lift (ok_or (Store.InvalidRequest "delegate requires agent, task, and context_message_ids")
                    (delegation_from_value arguments));
  config ← gets w_config;
  child ← lift (map_err (fun e => Store.InvalidRequest (display_config e)) (agent config (dr_agent request)));
  provider ← lift (ok_or (Store.InvalidRequest "delegated agent must configure a provider") (ad_provider child));
  model ← lift (ok_or (Store.InvalidRequest "delegated agent must configure a model") (ad_model child));
  resolved ← resolve provider;
  _ ← lift (map_err delegation_provider_error resolved);
  let limits := orchestration config in
  links ← agent_links parent_session_id;
  let parent_depth := default 0 (lr_depth <$> child_link parent_session_id links) in
  if oc_max_depth limits <=? parent_depth
  then fail (Store.InvalidRequest "delegated agent depth limit exceeded")
  else if oc_max_context_message_ids limits <? Z.of_nat (length (dr_context_message_ids request))
  then fail (Store.InvalidRequest "delegated context has too many messages")
  else
    p ← read_projection parent_session_id;
    run ← run_of p parent_run_id;
    parent_request ← parse_request (rp_request run);
    context ← lift (collect (find_context p) (dr_context_message_ids request));
    if oc_max_context_bytes limits <? to_vec_len (JArray (delegated_message <$> context))
    then fail (Store.InvalidRequest "delegated context exceeds the byte limit")
    else
      mret (mkDelegationPlan request child provider model (u8_sat_succ parent_depth)
              (permissions_to_value (parent_permissions config parent_request)) context).

Definition child_budget_of (limits : OrchestrationConfig) : AgentBudget :=
  mkBudget (oc_max_child_model_turns limits) (oc_max_child_duration_seconds limits)
    (oc_max_tree_duration_seconds limits) (oc_max_tree_tokens limits) (oc_max_context_bytes limits)
    (oc_max_result_bytes limits).

Definition link_of_record (r : AgentLinkRecord) : AgentLink :=
  mkLink (lr_instance_id r) (lr_profile_id r) (lr_parent_session_id r) (lr_parent_run_id r)
    (lr_parent_call_id r) (lr_child_session_id r) (lr_child_run_id r) (lr_depth r) (lr_budget r)
    (lr_permission_ceiling r).

Definition context_refs (parent_session_id : string) (context : list MessageProjection) : list DelegatedContextRef :=
  (fun m => mkContextRef parent_session_id (mp_message_id m) (mp_last_event_id m)) <$> context.

(** The events that prepare the child session: who it works for, what it was
    given, and the message that carries it. *)
Definition child_start (parent_agent_id context_message : string) (r : AgentLinkRecord)
    (references : list DelegatedContextRef) : list SemanticEvent :=
  [AgentSpawned (lr_instance_id r) (Some parent_agent_id) (Some (link_of_record r)) None;
   AgentContextCaptured (lr_instance_id r) references;
   MessageStarted context_message parent_agent_id System (AuthorAgent parent_agent_id)].

Definition child_run (d : Delegation) (r : AgentLinkRecord) (context_message : string) : list SemanticEvent :=
  [MessageContentAppended context_message
     (JsonBlock (jobject [("delegated_from", JString (lr_parent_session_id r));
                          ("messages", JArray (delegated_message <$> dl_context d))]));
   MessageCompleted context_message;
   RunQueued (lr_child_run_id r) None (dl_provider d) (dl_model d)
     (request_to_value (mkRequest (default "" (ad_provider (dl_child d))) (default "" (ad_model (dl_child d)))
        (JString (dr_task (dl_request d))) (Some (dr_agent (dl_request d))) None (JObject [])))].

Definition spawn_delegated_child (parent_session_id parent_run_id parent_call_id parent_agent_id : string)
    (arguments : json) : M () :=
  d ← plan_delegation parent_session_id parent_run_id arguments;
  config ← gets w_config;
  '(_, parent_session) ← query (get_session parent_session_id);
  session_id ← fresh_id;
  timestamp ← now;
  '(child_session_id, _) ← on_store (create_session session_id timestamp
      (Some ("Delegated: " ++s dr_agent (dl_request d))) (sr_project_id parent_session) Forever);
  instance_id ← fresh_id;
  child_run_id ← fresh_id;
  created_at ← now;
  let record := mkLinkRecord instance_id (dr_agent (dl_request d)) parent_session_id parent_run_id
    parent_call_id child_session_id child_run_id (dl_depth d) (child_budget_of (orchestration config))
    (dl_ceiling d) created_at in
  _ ← create_agent_link record;
  _ ← append parent_session_id
        (AgentSpawned instance_id (Some parent_agent_id) (Some (link_of_record record)) None);
  message_id ← fresh_id;
  _ ← append_many child_session_id
        (child_start parent_agent_id message_id record (context_refs parent_session_id (dl_context d)));
  p ← read_projection child_session_id;
  context_message ← lift (ok_or (CorruptSession child_session_id "delegated context message was not projected")
                            (mp_message_id <$> last (sp_messages p)));
  _ ← append_many child_session_id (child_run d record context_message);
  spawn_worker child_session_id.

(** ** Executing approved calls *)

(** [run.tool_calls.values().find(..)]: the next approved call of the server's
    own tools that was not started. *)
Definition approved (p : SessionProjection) (run_id call_id : string) : bool :=
  existsb (fun q => String.eqb (pp_run_id q) run_id && bool_decide (pp_call_id q = Some call_id)
                    && bool_decide (pp_decision q = Some Allow)) (btree_values (sp_pending_permissions p)).

Definition next_native_call (p : SessionProjection) (run_id : string) (run : RunProjection) :
    option ToolCallProjection :=
  List.find (fun c => tc_native c && negb (bool_decide (is_Some (tc_result c)))
                      && negb (bool_decide (is_Some (tc_execution_id c))) && approved p run_id (tc_call_id c))
    (btree_values (rp_tool_calls run)).

Definition error_json (fields : list (string * json)) : json := jobject [("error", jobject fields)].

Definition native_error (e : NativeToolError) : StoreError := Store.InvalidRequest (code e).

Definition run_native (project : option Project) (tool : NativeTool) (arguments : json) : M json :=
  project ← lift (ok_or (Store.InvalidRequest "native tools require a project-backed session") project);
  config ← gets w_config;
  fs ← gets w_fs;
  _ ← lift (map_err native_error (discover env_var current_dir fs (nt_shell (native_tools config))));
  workspace ← lift (map_err native_error (new_executor current_dir fs (pj_path project)));
  n ← tick;
  temporary ← fresh_id;
  let '(fs, value) := Tools.execute (limits (native_tools config)) workspace (spawn_process n) temporary fs
                        tool arguments in
  _ ← modify (set_fs fs);
  mret value.

Definition mcp_error (e : McpError) : json :=
  match e with
  | McpInvalidArguments => error_json [("code", JString "invalid_tool_arguments")]
  | McpResultTooLarge => error_json [("code", JString "mcp_result_too_large")]
  | _ => error_json [("code", JString "mcp_execution_uncertain")]
  end.

Definition run_mcp (tool_name : string) (arguments : json) : M json :=
  n ← tick;
  m ← gets w_mcp;
  let '(m, r) := call schema_ok conforms to_vec_len (mcp_behaviour n "") (mcp_outcome n) tool_name arguments m in
  _ ← modify (set_mcp m);
  mret match r with Ok value => value | Err e => mcp_error e end.

(** One round of the loop: the result a call gets, or nothing when a child
    session will deliver it. *)
Definition execute_call (session_id run_id : string) (project : option Project) (c : ToolCallProjection) : M () :=
  execution_id ← fresh_id;
  _ ← append session_id (ToolExecutionStarted run_id (tc_call_id c) execution_id);
  let finish value :=
    _ ← append session_id (ToolResult run_id (tc_call_id c) (tc_agent_id c) (tc_tool_name c) value); mret () in
  if String.eqb (tc_tool_name c) "delegate" then
    r ← try (spawn_delegated_child session_id run_id (tc_call_id c) (tc_agent_id c) (tc_arguments c));
    match r with
    | Ok _ => mret ()
    | Err e => finish (error_json [("code", JString "delegate_rejected"); ("message", JString (display_store e))])
    end
  else
    value ← match NativeTool.parse (tc_tool_name c) with
            | Some tool => run_native project tool (tc_arguments c)
            | None => run_mcp (tc_tool_name c) (tc_arguments c)
            end;
    finish value.

(** The loop: every round starts one more call, so the number of calls is enough
    fuel ([execute_approved_ends] in DelegationSpec). *)
Fixpoint execute_approved (fuel : nat) (session_id run_id : string) (project : option Project) : M () :=
  p ← read_projection session_id;
  run ← run_of p run_id;
  match next_native_call p run_id run with
  | None => mret ()
  | Some c =>
      match fuel with
      | O => out_of_fuel
      | S fuel => _ ← execute_call session_id run_id project c; execute_approved fuel session_id run_id project
      end
  end.

Definition get_project (project_id : string) (db : database) : result StoreError Project :=
  ok_or (ProjectNotFound project_id) (db_projects db !! project_id).

Definition session_project (session_id : string) : M (option Project) :=
  '(_, session) ← query (get_session session_id);
  match sr_project_id session with
  | Some project_id => project ← query (get_project project_id); mret (Some project)
  | None => mret None
  end.

Definition calls_of_run (p : SessionProjection) (run_id : string) : nat :=
  match sp_runs p !! run_id with Some run => size (rp_tool_calls run) | None => 0 end.

Definition execute_approved_native_calls (session_id run_id : string) : M bool :=
  project ← session_project session_id;
  p ← read_projection session_id;
  _ ← execute_approved (calls_of_run p run_id) session_id run_id project;
  resume_if_tool_results_ready session_id run_id.

(** ** Permissions *)

(** The ceiling a parent left for a child session; one that cannot be read is an
    error. *)
Definition ceiling_of (session_id : string) (links : list AgentLinkRecord) :
    result StoreError (option AgentPermissions) :=
  match child_link session_id links with
  | None => Ok None
  | Some l => Some <$> ok_or bad_request_json (permissions_from_value (lr_permission_ceiling l))
  end.

(** The request id of the [i]-th unanswered call. *)
Definition request_ids (first : N) (run : RunProjection) (call_id : string) : string :=
  uuid (first + match list_find (fun c => tc_call_id c = call_id) (unanswered run) with
                | Some (i, _) => N.of_nat i
                | None => 0
                end)%N.

Definition evaluate_permissions (session_id run_id : string) (request_value : json) : M () :=
  request ← parse_request request_value;
  let agent_id := default "assistant" (rq_agent request) in
  config ← gets w_config;
  let configured := ad_permissions <$> ok (agent config agent_id) in
  links ← agent_links session_id;
  ceiling ← lift (ceiling_of session_id links);
  '(_, session) ← query (get_session session_id);
  p ← read_projection session_id;
  run ← run_of p run_id;
  rules ← gets w_rules;
  first ← gets w_ticks;
  _ ← modify (fun w => set_ticks (w_ticks w + N.of_nat (length (unanswered run))) w);
  let '(events, pending) := Permissions.evaluate_tool_permissions rules session_id (sr_project_id session)
        agent_id configured ceiling (request_ids first run) run in
  _ ← append_many session_id events;
  if pending then mret ()
  else _ ← execute_approved_native_calls session_id run_id; mret ().

(** ** Answers of clients *)

Definition create_rule (scope : PermissionScope) (session_id project_id : option string)
    (agent_id tool_name : string) : M PermissionRuleRecord :=
  id ← fresh_id;
  timestamp ← now;
  rules ← gets w_rules;
  match create_permission_rule id timestamp scope session_id project_id agent_id tool_name rules with
  | Ok (record, rules) => _ ← modify (set_rules rules); mret record
  | Err _ => fail StoreInvalidScope
  end.

(** The durable rule an approval asks for. *)
Definition approval_rule (scope : option PermissionScope) (session_id : string) (project_id : option string)
    (request : PermissionProjection) : M (option PermissionRuleRecord) :=
  match scope with
  | None | Some ScopeOnce => mret None
  | Some ScopeSession =>
      rule ← create_rule ScopeSession (Some session_id) None (pp_agent_id request) (pp_tool_name request);
      mret (Some rule)
  | Some ScopeProject =>
      match project_id with
      | None => fail StoreInvalidScope
      | Some project_id =>
          rule ← create_rule ScopeProject None (Some project_id) (pp_agent_id request) (pp_tool_name request);
          mret (Some rule)
      end
  | Some ScopeConfiguration =>
      rule ← create_rule ScopeConfiguration None None (pp_agent_id request) (pp_tool_name request);
      mret (Some rule)
  end.

Definition denial_result (run_id : string) (request : PermissionProjection) :
    result StoreError (list SemanticEvent) :=
  call_id ← ok_or (Store.InvalidRequest "permission request has no tool call") (pp_call_id request);
  Ok [ToolResult run_id call_id (pp_agent_id request) (pp_tool_name request) permission_denied].

Definition resolve_permission (session_id run_id request_id : string) (decision : PermissionDecision)
    (scope : option PermissionScope) : M () :=
  _ ← ensure_running;
  _ ← ensure_session_mutable session_id;
  p ← read_projection session_id;
  request ← lift (ok_or (Store.InvalidRequest "permission request was not found")
                    (sp_pending_permissions p !! request_id));
  if negb (String.eqb (pp_run_id request) run_id)
  then fail (Store.InvalidRequest "permission request does not belong to run")
  else match pp_decision request with
  | Some existing =>
      if decide (existing = decision) then mret ()
      else fail (StoreConflict "permission resolution conflicts with the recorded decision")
  | None =>
      if bool_decide (decision = Deny) && bool_decide (is_Some scope) then fail StoreInvalidScope
      else
        '(_, session) ← query (get_session session_id);
        rule ← approval_rule scope session_id (sr_project_id session) request;
        denial ← (if bool_decide (decision = Deny) then lift (denial_result run_id request) else mret []);
        _ ← append_many session_id
              (PermissionResolved request_id decision (Some SourceRequestApproval) scope
                 (rr_id <$> rule) None :: denial);
        ready ← match decision with
                | Allow => execute_approved_native_calls session_id run_id
                | Deny => resume_if_tool_results_ready session_id run_id
                | Ask => mret false
                end;
        if (ready : bool) then spawn_worker session_id else mret ()
  end.

Definition approve_permission (session_id run_id request_id : string) (scope : PermissionScope) : M () :=
  resolve_permission session_id run_id request_id Allow (Some scope).
Definition deny_permission (session_id run_id request_id : string) : M () :=
  resolve_permission session_id run_id request_id Deny None.

End delegation.
