(* ===== verification/Compaction.v ===== *)
(** Context compaction: [body_token_estimate], [truncate_utf8],
    [deterministic_summary], [summarize_context] and [build_compacted_body] of
    [piqo-server/src/supervisor.rs]. *)

From S2P Require Export Delegation.
Import SessionProjection.

(** ** Pure parts *)

Definition body_token_estimate (to_vec_len : json -> Z) (body : json) : Z :=
  let transcript_items :=
    match or_else (get "messages" body) (get "input" body) with
    | Some v => Z.of_nat (length (default [] (as_array v)))
    | None => 0
    end in
  let tool_definitions :=
    match get "tools" body with Some v => Z.of_nat (length (default [] (as_array v))) | None => 0 end in
  estimate_tokens (to_vec_len body) transcript_items tool_definitions.

(** [str::is_char_boundary]: the end of the text, or a byte that starts a
    character. *)
Definition is_char_boundary (s : string) (i : nat) : bool :=
  match String.get i s with
  | Some c => negb (is_continuation c)
  | None => (i =? String.length s)%nat
  end.

(** [while !value.is_char_boundary(end) { end -= 1; }]: the beginning is a
    boundary. *)
Fixpoint floor_boundary (s : string) (i : nat) : nat :=
  match i with
  | O => O
  | S j => if is_char_boundary s i then i else floor_boundary s j
  end.

Definition truncate_utf8 (value : string) (max_bytes : Z) : string * bool :=
  if blen value <=? max_bytes then (value, false)
  else (str_take (floor_boundary value (Z.to_nat max_bytes)) value, true).

Definition deterministic_summary (messages : list MessageProjection) : string :=
  show_u64 (Z.of_nat (length messages))
  ++s " earlier messages were compacted deterministically; inspect the durable event log for verbatim history.".

(** The closed messages after the active artifact, and all but the last four of
    them. *)
Definition compactable (p : SessionProjection) : list MessageProjection :=
  List.filter (after_artifact (cp_active_artifact (sp_context p))) (List.filter closed (sp_messages p)).
Definition selected (p : SessionProjection) : list MessageProjection :=
  take (length (compactable p) - 4) (compactable p).

(** The calls whose message lies before the end of the artifact. *)
Definition correlations (p : SessionProjection) (source_end_event_id : Z) : list ToolCorrelation :=
  concat ((fun r => (fun c => mkCorrelation (tc_call_id c) (tc_tool_name c) (rp_run_id r)) <$>
      List.filter (fun c =>
        match List.find (fun m => String.eqb (mp_message_id m) (tc_assistant_message_id c)) (sp_messages p) with
        | Some m => mp_last_event_id m <=? source_end_event_id
        | None => false
        end) (btree_values (rp_tool_calls r))) <$> btree_values (sp_runs p)).

Definition set_artifact (a : ContextArtifact) (p : SessionProjection) : SessionProjection :=
  set_context (mkContext (cp_durable_facts (sp_context p)) (Some a) (cp_last_failure (sp_context p))
                 (cp_last_bypass_reason (sp_context p))) p.

Section compaction.
  Context `{EventCodec} `{Outside}.

(** ** A summary by a model *)

Definition COMPACTION_FAILED : StoreError := Store.InvalidRequest "context_compaction_failed".

Definition summary_prompt (messages : list MessageProjection) : string :=
  "Return JSON only: {" ++s DQ ++s "summary" ++s DQ ++s ":" ++s DQ ++s "..." ++s DQ
  ++s "}. Summarize this closed conversation faithfully, retaining decisions, facts, and unfinished work: "
  ++s to_string (JArray ((fun m => jobject [("role", JString (role_name (mp_role m)));
                                            ("content", blocks_to_value (mp_blocks m))]) <$> messages)).

Definition summary_body (c : CompactionConfig) (protocol : ProviderProtocol) (request : RunRequest)
    (messages : list MessageProjection) : result StoreError json :=
  object ← ok_or (Store.InvalidRequest "context compaction summary_body must be an object")
             (as_object (if is_null (cc_summary_body c) then JObject [] else cc_summary_body c));
  let object := map_insert "model" (JString (default (rq_model request) (cc_summary_model c))) object in
  let object := map_insert "stream" (JBool false) object in
  let tokens := jnum (cc_summary_max_output_tokens c) in
  let prompt := JArray [jobject [("role", JString "user"); ("content", JString (summary_prompt messages))]] in
  Ok (JObject match protocol with
      | ChatCompletions => map_insert "messages" prompt (map_insert "max_tokens" tokens object)
      | Responses => map_insert "input" prompt (map_insert "max_output_tokens" tokens object)
      end).

Definition summary_text (deltas : list ProviderDelta) : string :=
  str_concat (omap (fun d => match d with TextDelta t => Some t | _ => None end) deltas).

Definition read_summary (text : string) : option string :=
  v ← from_str text; s ← get_str "summary" v; if is_empty (trim s) then None else Some s.

(** The loop of [max_retries + 1] requests.  There is no branch for a shutdown:
    one that ends the wait is a broken connection. *)
Fixpoint summarize_loop (tries : nat) (protocol : ProviderProtocol) : M string :=
  match tries with
  | O => fail COMPACTION_FAILED
  | S tries =>
      n ← tick;
      match send n with
      | SendCancelled => fail (Store.InvalidRequest "context_compaction_cancelled")
      | SendShutdown | SendError _ => fail COMPACTION_FAILED
      | SendOk response =>
          if negb (rs_success response) then summarize_loop tries protocol
          else match rs_text response with
          | TextOk text =>
              match parse_non_stream_response from_str to_string protocol text with
              | Err _ => fail COMPACTION_FAILED
              | Ok deltas =>
                  match read_summary (summary_text deltas) with
                  | Some summary => mret summary
                  | None => summarize_loop tries protocol
                  end
              end
          | _ => fail COMPACTION_FAILED
          end
      end
  end.

Definition summarize_context (provider : ResolvedProvider) (request : RunRequest) (config : PiqoConfig)
    (messages : list MessageProjection) : M string :=
  let c := compaction (context config) in
  body ← lift (summary_body c (rv_protocol provider) request messages);
  let summary_provider := default (rq_provider request) (cc_summary_provider c) in
  resolved ← (if String.eqb summary_provider (rq_provider request) then mret provider
              else r ← resolve summary_provider;
                   lift (map_err (fun e => ProviderUnavailable (display_config e)) r));
  match build_request_error (rv_endpoint resolved) body (rv_headers resolved) with
  | Some error => fail (Store.InvalidRequest error)
  | None => summarize_loop (S (Z.to_nat (cc_max_retries c))) (rv_protocol resolved)
  end.

(** ** The body of a run *)

(** [build_body(..)?]: its error is the caller's, its panic unwinds. *)
Definition run_body (config : PiqoConfig) (protocol : ProviderProtocol) (request : RunRequest)
    (p : SessionProjection) (native : list NativeTool) (mcp : list McpToolDefinition) : M json :=
  match build_body to_string config protocol request p native mcp with
  | Ok body => mret body
  | Err (Body.InvalidRequest reason) => fail (Store.InvalidRequest reason)
  | Err Panic => panic
  end.

Definition compaction_failed (session_id run_id artifact_id code : string) (e : StoreError) {A} : M A :=
  _ ← append session_id (ContextCompactionFailed run_id artifact_id code); fail e.

Definition BUDGET_EXCEEDED : StoreError := Store.InvalidRequest "context_budget_exceeded".

Definition run_budget (request : RunRequest) : M (Z * Z) :=
  config ← gets w_config;
  metadata ← gets w_metadata;
  lift (map_err (fun e => Store.InvalidRequest (display_config e))
          (context_budget pointer config (rq_provider request) (rq_model request)
             (cache ← metadata !! rq_provider request; cache !! rq_model request))).

Definition trigger_tokens (c : ContextConfig) (input_budget : Z) : Z :=
  f64_ceil_u64 (f64_mul (f64_of_u64 input_budget) (trigger_ratio c)).
Definition target_tokens (c : ContextConfig) (input_budget : Z) : Z :=
  f64_floor_u64 (f64_mul (f64_of_u64 input_budget) (target_ratio c)).

Definition compact (session_id run_id : string) (request : RunRequest) (config : PiqoConfig)
    (provider : ResolvedProvider) (native : list NativeTool) (mcp : list McpToolDefinition)
    (p : SessionProjection) (estimate window reserve input_budget : Z) (first : MessageProjection) : M json :=
  artifact_id ← fresh_id;
  let active := cp_active_artifact (sp_context p) in
  let messages := selected p in
  let source_start_event_id := default (mp_first_event_id first) (ca_source_start_event_id <$> active) in
  let source_end_event_id := default (mp_last_event_id first) (mp_last_event_id <$> last messages) in
  let strategy := cc_strategy (compaction (context config)) in
  _ ← append session_id
        (ContextCompactionStarted run_id artifact_id strategy source_start_event_id source_end_event_id);
  summary ← match strategy with
            | Deterministic => mret (deterministic_summary messages)
            | Llm =>
                r ← try (summarize_context provider request config messages);
                match r with
                | Ok summary => mret summary
                | Err e => compaction_failed session_id run_id artifact_id "context_compaction_failed" e
                end
            end;
  let artifact := mkArtifact artifact_id (ca_artifact_id <$> active) strategy 1 source_start_event_id
    source_end_event_id window reserve estimate (target_tokens (context config) input_budget)
    CONTEXT_ESTIMATOR_VERSION summary (correlations p source_end_event_id) in
  body ← run_body config (rv_protocol provider) request (set_artifact artifact p) native mcp;
  if input_budget <? body_token_estimate to_vec_len body
  then compaction_failed session_id run_id artifact_id "context_budget_exceeded" BUDGET_EXCEEDED
  else
    _ ← append session_id (ContextCompacted run_id artifact);
    mret body.

Definition build_compacted_body (session_id run_id : string) (request : RunRequest) (config : PiqoConfig)
    (provider : ResolvedProvider) (native : list NativeTool) (mcp : list McpToolDefinition) : M json :=
  if bool_decide (is_Some (get "messages" (rq_body request)))
     || bool_decide (is_Some (get "input" (rq_body request)))
  then
    _ ← append session_id (ContextCompactionBypassed run_id "caller_owned_transcript");
    p ← read_projection session_id;
    run_body config (rv_protocol provider) request p native mcp
  else
    p ← read_projection session_id;
    body ← run_body config (rv_protocol provider) request p native mcp;
    let estimate := body_token_estimate to_vec_len body in
    '(window, reserve) ← run_budget request;
    if window <? reserve then fail (Store.InvalidRequest "invalid context budget")
    else
      let input_budget := window - reserve in
      if estimate <? trigger_tokens (context config) input_budget then mret body
      else match selected p with
      | [] =>
          artifact_id ← fresh_id;
          compaction_failed session_id run_id artifact_id "context_budget_exceeded" BUDGET_EXCEEDED
      | first :: _ =>
          compact session_id run_id request config provider native mcp p estimate window reserve input_budget first
      end.

End compaction.
