(* ===== verification/Execution.v ===== *)
(** [execute_run] of [piqo-server/src/supervisor.rs]: one turn of a run, from
    the user's message over the request body and the attempts to reach the
    provider to the end of the response.

    The response loop is that of file Provider; here its state is the world, and
    recording a delta appends to the session.  Writing requests to the dump
    directory is tries out. *)

From S2P Require Export Compaction.
Import SessionProjection.

Section execution.
  Context `{EventCodec} `{Outside}.

(** ** Recording what a response says *)

(** [persist_delta], the deltas that are recorded. *)
Definition record_response_delta (session_id run_id assistant_message_id : string) (d : ProviderDelta) : M () :=
  match d with
  | TextDelta text =>
      _ ← append session_id (MessageContentAppended assistant_message_id (Text text)); mret ()
  | ToolCallDelta_ call_id name arguments =>
      call_id ← match call_id with Some id => mret id | None => fresh_id end;
      let tool_name := default "function" name in
      native ← try (is_native_call session_id run_id tool_name);
      _ ← append session_id
            (ToolCallEmitted run_id assistant_message_id call_id "assistant" tool_name
               (default (jobject [("raw", JString arguments)]) (from_str arguments)) arguments
               (default false (ok native)));
      mret ()
  | RequiresActionDelta => _ ← append session_id (RunRequiresAction run_id []); mret ()
  | _ => mret ()
  end.

(** The form in which the response loop calls it. *)
Definition append_delta (session_id run_id assistant_message_id : string) (d : ProviderDelta) (w : World) :
    World * result string () :=
  match record_response_delta session_id run_id assistant_message_id d w with
  | (w, Ok _) => (w, Ok ())
  | (w, Err (Fail e)) => (w, Err (display_store e))
  | (w, Err _) => (w, Err "")
  end.

(** ** Before the request *)

(** [if let Err(error) = m.await { return ExecutionResult::Failed(error.to_string(), false); }]. *)
Definition or_failed {A} (m : M A) (k : A -> M ExecutionResult) : M ExecutionResult :=
  r ← try m;
  match r with
  | Ok a => k a
  | Err e => mret (Provider.Failed (Message (display_store e)) false)
  end.

Definition input_block (request : RunRequest) : ContentBlock :=
  match as_str (rq_input request) with Some text => Text text | None => JsonBlock (rq_input request) end.

(** The user's message is recorded unless the run repeats another one or goes on
    with an assistant message. *)
Definition record_input (session_id : string) (run : RunProjection) (request : RunRequest)
    (assistant_message : option string) : M () :=
  if bool_decide (rp_retry_of run = None) && bool_decide (assistant_message = None) then
    user_message_id ← fresh_id;
    _ ← append session_id (MessageStarted user_message_id "" User AuthorUser);
    _ ← append session_id (MessageContentAppended user_message_id (input_block request));
    _ ← append session_id (MessageCompleted user_message_id);
    mret ()
  else mret ().

(** [RunExecutionConfig]. *)
Record RunExecutionConfig := mkExecution { ex_provider : ResolvedProvider; ex_body : json }.

(** The tools of the run and its body. *)
Definition prepare (session_id : string) (run : RunProjection) (request : RunRequest) (config : PiqoConfig)
    (provider : ResolvedProvider) : M RunExecutionConfig :=
  '(_, session) ← query (get_session session_id);
  let native := if bool_decide (is_Some (sr_project_id session)) then configured_native_tools config request else [] in
  let own_tools := bool_decide (is_Some (get "tools" (rq_body request))) in
  mcp ← (if own_tools then mret []
         else tools ← mcp_catalog; mret (configured_mcp_tools config request tools));
  let mcp := mcp ++ if configured_delegate config request && negb own_tools then [delegate_tool_definition] else [] in
  body ← build_compacted_body session_id (rp_run_id run) request config provider native mcp;
  mret (mkExecution provider body).

(** ** The request *)

Definition ATTEMPTS : Z := 5.

(** A wait of a run whose time is limited. *)
Definition wait_within (limit : option Z) : M () :=
  match limit with
  | None => mret ()
  | Some seconds => n ← tick; match time_is_up n seconds with Some _ => dropped | None => mret () end
  end.

(** The loop around [send_with_connect_timeout]: [tries] more attempts are allowed.
    It ends with a response and the attempt it belongs to, or with a result. *)
Fixpoint send_loop (limit : option Z) (tries : nat) (session_id : string) (run : RunProjection)
    (attempt_id : string) : M (ExecutionResult + Response * string) :=
  _ ← wait_within limit;
  n ← tick;
  match send n with
  | SendCancelled => mret (inl ExecCancelled)
  | SendShutdown => _ ← modify (World.set_shutdown true); mret (inl ExecInterrupted)
  | SendOk response => mret (inr (response, attempt_id))
  | SendError error =>
      match tries with
      | O => mret (inl (Provider.Failed (Message error) false))
      | S tries =>
          _ ← try (append session_id (RunAttemptFailed (rp_run_id run) attempt_id error true));
          next ← fresh_id;
          started ← try (append session_id (RunAttemptStarted (rp_run_id run) next
                           (u32_add (rp_attempts run) (ATTEMPTS - Z.of_nat tries))));
          match started with
          | Err e => mret (inl (Provider.Failed (Message (display_store e)) false))
          | Ok _ =>
              _ ← wait_within limit;
              n ← tick;
              if sleep_interrupted n
              then _ ← modify (World.set_shutdown true); mret (inl ExecInterrupted)
              else send_loop limit tries session_id run next
          end
      end
  end.

(** ** The response *)

Definition text_response (protocol : ProviderProtocol) (append : ProviderDelta -> World -> World * result string ())
    (response : Response) (s : StreamState World) : StreamState World :=
  match rs_text response with
  | TextCancelled => set_outcome ExecCancelled s
  | TextShutdown => set_outcome ExecInterrupted s
  | TextError error => set_outcome (Provider.Failed (Message error) true) s
  | TextOk text =>
      match parse_non_stream_response from_str to_string protocol text with
      | Err e => set_outcome (Provider.Failed (Transport e) false) s
      | Ok deltas => collect_deltas append deltas s
      end
  end.

(** The outcome of a response before the retry decision: what was returned at
    once ([inl]), or the result with the usage seen.  A run that is dropped has
    seen the first [seen] events. *)
Definition read_response (session_id run_id assistant_message_id : string) (execution : RunExecutionConfig)
    (late : nat -> bool) (seen : option nat) (response : Response) :
    M (ExecutionResult + ExecutionResult * option json) := fun w =>
  let append := append_delta session_id run_id assistant_message_id in
  let protocol := rv_protocol (ex_provider execution) in
  let streamed := body_stream_mode (ex_body execution) in
  let stream events := stream_loop from_str to_string protocol late append events "" (stream_start w) in
  match seen with
  | Some n => (st_world (if streamed then stream (take n (rs_stream response)) else stream_start w), Err Dropped)
  | None =>
      let s := if streamed then stream (rs_stream response)
               else text_response protocol append response (stream_start w) in
      if returned s then
        (match st_outcome s with ExecInterrupted => World.set_shutdown true (st_world s) | _ => st_world s end,
         Ok (inl (st_outcome s)))
      else
        let result := if streamed then stream_outcome s else st_outcome s in
        let '(s, failed) := flush_rest append s in
        (st_world s, Ok match failed with
                        | Some e => inl (Provider.Failed (Message e) (st_saw_delta s))
                        | None => inr (result, st_usage s)
                        end)
  end.

(** ** The run *)

Definition failure_text (f : Failure) : string :=
  match f with Message error => error | f => display_failure f end.

(** The first statement of a turn that follows a broken response. *)
Definition start_attempt (session_id : string) (run : RunProjection) (retry_count : Z) : M string :=
  if retry_count =? 0 then
    match rp_attempt_id run with Some id => mret id | None => fresh_id end
  else
    attempt_id ← fresh_id;
    _ ← append session_id
          (RunAttemptStarted (rp_run_id run) attempt_id (u32_add (rp_attempts run) retry_count));
    mret attempt_id.

(** The assistant message of the turn. *)
Definition start_assistant (session_id : string) (existing : option string) : M string :=
  match existing with
  | Some id => mret id
  | None =>
      id ← fresh_id;
      _ ← append session_id (MessageStarted id "assistant" Assistant (AuthorAgent "assistant"));
      mret id
  end.

(** The snapshot of the configuration a new turn works with. *)
Definition initial_config (request : RunRequest) (execution : option RunExecutionConfig) :
    M (result ConfigError (option (PiqoConfig * ResolvedProvider))) :=
  match execution with
  | Some _ => mret (Ok None)
  | None =>
      config ← gets w_config;
      provider ← resolve (rq_provider request);
      mret (p ← provider; Ok (Some (config, p)))
  end.

Definition execution_config (session_id : string) (run : RunProjection) (request : RunRequest)
    (execution : option RunExecutionConfig) (initial : option (PiqoConfig * ResolvedProvider)) : M RunExecutionConfig :=
  match execution, initial with
  | Some execution, None => mret execution
  | None, Some (config, provider) => prepare session_id run request config provider
  | _, _ => fail (Store.InvalidRequest "invalid execution snapshot")
  end.

(** [tries] is the number of retries that are still allowed, [5 - retry_count]. *)
Fixpoint execute_run (limit : option Z) (tries : nat) (session_id : string) (run : RunProjection)
    (execution : option RunExecutionConfig) (assistant_message : option string) : M ExecutionResult :=
  let retry_count := ATTEMPTS - Z.of_nat tries in
  match request_from_value (rp_request run) with
  | None => mret (Provider.Failed (Message (display_store bad_request_json)) false)
  | Some request =>
  initial ← initial_config request execution;
  match initial with
  | Err e => mret (Provider.Failed (Message (display_config e)) false)
  | Ok initial =>
  or_failed (start_attempt session_id run retry_count) (fun attempt_id =>
  or_failed (record_input session_id run request assistant_message) (fun _ =>
  or_failed (execution_config session_id run request execution initial) (fun execution =>
  config ← gets w_config;
  if max_provider_request_bytes (resource_limits config) <? to_vec_len (ex_body execution)
  then mret (Provider.Failed (Message "provider_request_too_large") false)
  else
  or_failed (start_assistant session_id assistant_message) (fun assistant_message_id =>
  match build_request_error (rv_endpoint (ex_provider execution)) (ex_body execution)
          (rv_headers (ex_provider execution)) with
  | Some error => mret (Provider.Failed (Message error) false)
  | None =>
  sent ← send_loop limit tries session_id run attempt_id;
  match sent with
  | inl result => mret result
  | inr (response, attempt_id) =>
  if negb (rs_success response)
  then mret (Provider.Failed (Message ("provider returned " ++s rs_status response)) false)
  else
  n ← tick;
  outcome ← read_response session_id (rp_run_id run) assistant_message_id execution (late n)
              (seconds ← limit; time_is_up n seconds) response;
  match outcome with
  | inl result => mret result
  | inr (Provider.Failed error true, usage) =>
      stopped ← gets w_shutdown;
      if (stopped : bool) then mret ExecInterrupted
      else match tries with
      | O => mret (Provider.Failed error true)
      | S tries =>
          _ ← try (append session_id
                (RunAttemptFailed (rp_run_id run) attempt_id (failure_text error) true));
          _ ← wait_within limit;
          n ← tick;
          if sleep_interrupted n
          then _ ← modify (World.set_shutdown true); mret ExecInterrupted
          else execute_run limit tries session_id run (Some execution) (Some assistant_message_id)
      end
  | inr (result, usage) => mret (with_usage usage result)
  end end end))))
  end end.

(** ** Budgets of child sessions *)

Definition child_budget (session_id : string) : M (option AgentBudget) :=
  links ← agent_links session_id; mret (lr_budget <$> child_link session_id links).

Definition max_turns (session_id : string) : M Z :=
  budget ← child_budget session_id;
  match budget with
  | Some b => mret (max_model_turns b)
  | None => config ← gets w_config; mret (bl_max_model_turns (defaults config))
  end.

(** [timeout(..)] around a turn of a child session. *)
Definition within {A} (m : M A) : M (option A) := fun w =>
  match m w with
  | (w, Ok a) => (w, Ok (Some a))
  | (w, Err Dropped) => (w, Ok None)
  | (w, Err f) => (w, Err f)
  end.

Definition execute_run_with_child_timeout (session_id : string) (run : RunProjection) : M ExecutionResult :=
  or_failed (child_budget session_id) (fun budget =>
  match budget with
  | None => execute_run None (Z.to_nat ATTEMPTS) session_id run None None
  | Some b =>
      r ← within (execute_run (Some (max_duration_seconds b)) (Z.to_nat ATTEMPTS) session_id run None None);
      match r with
      | Some result => mret result
      | None => _ ← cancel_token (rp_run_id run); mret (Provider.Failed (Message "child_timeout") false)
      end
  end).

End execution.
