(* ===== verification/Worker.v ===== *)
(** The worker of a session in [piqo-server/src/supervisor.rs]: [finish_run],
    [deliver_child_result], [process_session], and the handlers that need them,
    [cancel] and [shutdown].

    [process_session] and [deliver_child_result] call each other: the worker of
    a child session goes on with its parent.  [fuel] bounds the rounds of all
    workers nested that way.  A handler that runs alone never waits for a lock
    or a permit of active runs; those that do are file Locks'. *)

From S2P Require Export Execution.
Import SessionProjection.

Section worker.
  Context `{EventCodec} `{Outside}.

(** ** The end of a turn *)

Definition open_calls (p : SessionProjection) (run_id : string) : list string :=
  match sp_runs p !! run_id with
  | Some run => tc_call_id <$> List.filter (fun c => negb (bool_decide (is_Some (tc_result c)))) (btree_values (rp_tool_calls run))
  | None => []
  end.

(** A completed response with open tool calls pauses the run and has the calls
    judged. *)
Definition pause_for_calls (session_id : string) (run : RunProjection) (result : ExecutionResult) : M ExecutionResult :=
  match result with
  | Completed =>
      or_failed (read_projection session_id) (fun p =>
      match open_calls p (rp_run_id run) with
      | [] => mret Completed
      | call_ids =>
          paused ← try (append session_id (RunRequiresAction (rp_run_id run) call_ids));
          match paused with
          | Err _ => mret (Provider.Failed (Message "unable to persist required action") false)
          | Ok _ =>
              or_failed (evaluate_permissions session_id (rp_run_id run) (rp_request run))
                (fun _ => mret RequiresAction)
          end
      end)
  | result => mret result
  end.

(** [if let Some(message) = .. { append(MessageCompleted) }]. *)
Definition complete_message (session_id : string) (f : MessageProjection -> bool) : M () :=
  p ← read_projection session_id;
  match last_message f p with
  | Some m => _ ← append session_id (MessageCompleted (mp_message_id m)); mret ()
  | None => mret ()
  end.

Definition uncompleted_assistant (m : MessageProjection) : bool :=
  bool_decide (mp_role m = Assistant) && negb (mp_completed m).

Definition leave_running (session_id : string) (to : SessionPhase) (reason : string) : M () :=
  _ ← append session_id (SessionPhaseChanged Running to (Some reason)); mret ().

Definition record_result (session_id run_id : string) (result : ExecutionResult) : M () :=
  match result with
  | CompletedWithUsage usage =>
      _ ← complete_message session_id uncompleted_assistant;
      _ ← append session_id (RunCompleted run_id usage); mret ()
  | ExecCancelled =>
      _ ← interrupt_message session_id;
      _ ← append session_id (RunCancelled run_id (Some "cancelled_by_user"));
      leave_running session_id Interrupted "run_cancelled"
  | ExecInterrupted =>
      _ ← interrupt_message session_id;
      _ ← append session_id (RunInterrupted run_id "server_shutdown");
      leave_running session_id Interrupted "server_shutdown"
  | RequiresAction =>
      _ ← complete_message session_id open_assistant;
      leave_running session_id Interrupted "requires_action"
  | Provider.Failed error _ =>
      _ ← interrupt_message session_id;
      _ ← append session_id (RunFailed run_id (failure_text error));
      leave_running session_id Failed "run_failed"
  | Completed => mret ()
  end.

(** ** Results of child sessions *)

Definition terminal_status (s : RunStatus) : option AgentTerminalStatus :=
  match s with
  | RCompleted => Some ATCompleted
  | RFailed => Some ATFailed
  | RCancelled => Some ATCancelled
  | RInterrupted => Some ATInterrupted
  | _ => None
  end.

Definition child_error (s : AgentTerminalStatus) : option string :=
  match s with
  | ATCompleted => None
  | ATFailed => Some "child_failed"
  | ATCancelled => Some "child_cancelled"
  | ATInterrupted => Some "child_interrupted"
  end.

(** The text of the last assistant message. *)
Definition last_answer (p : SessionProjection) : string :=
  match last_message (fun m => bool_decide (mp_role m = Assistant)) p with
  | Some m => str_concat (omap (fun b => match b with Text s => Some s | JsonBlock _ => None end) (mp_blocks m))
  | None => ""
  end.

Definition agent_result (l : AgentLinkRecord) (status : AgentTerminalStatus) (child : SessionProjection) : AgentResult :=
  let '(output, truncated) := truncate_utf8 (last_answer child) (max_result_bytes (lr_budget l)) in
  mkAgentResult (lr_instance_id l) (lr_profile_id l) (lr_child_session_id l) (lr_child_run_id l) status
    (if decide (status = ATCompleted) then Some (JString output) else None) truncated None (child_error status).

Definition instance_result (p : SessionProjection) (instance_id : string) : option AgentResult :=
  a ← sp_agent_instances p !! instance_id; ap_result a.

Definition delivery_events (l : AgentLinkRecord) (result : AgentResult) (all_ready : bool) : list SemanticEvent :=
  [AgentFinished (lr_instance_id l) (Some result);
   AgentResultDelivered (lr_instance_id l) (lr_parent_run_id l) (lr_parent_call_id l) result;
   ToolResult (lr_parent_run_id l) (lr_parent_call_id l) "delegate" "delegate" (agent_result_to_value result)]
  ++ if all_ready then [QueueResumed] else [].

Definition run_link (session_id run_id : string) (links : list AgentLinkRecord) : option AgentLinkRecord :=
  List.find (fun l => String.eqb (lr_child_session_id l) session_id && String.eqb (lr_child_run_id l) run_id) links.

(** [process] goes on with the parent session. *)
Definition deliver_child_result (process : string -> M ()) (session_id run_id : string) : M () :=
  links ← agent_links session_id;
  match run_link session_id run_id links with
  | None => mret ()
  | Some l =>
      child ← read_projection session_id;
      run ← run_of child run_id;
      match terminal_status (rp_status run) with
      | None => mret ()
      | Some status =>
          let result := agent_result l status child in
          _ ← (if bool_decide (instance_result child (lr_instance_id l) = None)
               then _ ← append session_id (AgentFinished (lr_instance_id l) (Some result)); mret ()
               else mret ());
          parent ← read_projection (lr_parent_session_id l);
          if bool_decide (is_Some (instance_result parent (lr_instance_id l))) then mret ()
          else
            parent_run ← run_of parent (lr_parent_run_id l);
            let all_ready := other_calls_done parent_run (lr_parent_call_id l) in
            _ ← append_many (lr_parent_session_id l) (delivery_events l result all_ready);
            if all_ready then process (lr_parent_session_id l) else mret ()
      end
  end.

Definition finish_run (process : string -> M ()) (session_id : string) (run : RunProjection)
    (result : ExecutionResult) : M () :=
  result ← pause_for_calls session_id run result;
  _ ← record_result session_id (rp_run_id run) result;
  deliver_child_result process session_id (rp_run_id run).

(** ** The worker loop *)

(** [execute_run_with_child_timeout] with its token, then [finish_run]. *)
Definition run_turn (process : string -> M ()) (session_id : string) (run : RunProjection) : M () :=
  result ← execute_run_with_child_timeout session_id run;
  _ ← remove_token (rp_run_id run);
  finish_run process session_id run result.

Definition turn_limit_error (limit : Z) : string :=
  "maximum model turns (" ++s show_u64 limit ++s ") exceeded".

(** A run whose tool results are complete goes on. *)
Definition continue_run (process : string -> M ()) (session_id : string) (run : RunProjection) : M () :=
  limit ← max_turns session_id;
  if limit <=? rp_attempts run
  then _ ← append session_id (RunFailed (rp_run_id run) (turn_limit_error limit)); mret ()
  else
    _ ← append session_id QueueResumed;
    attempt_id ← fresh_id;
    _ ← append session_id (RunStarted (rp_run_id run) attempt_id (u32_add (rp_attempts run) 1));
    _ ← insert_token (rp_run_id run);
    run_turn process session_id run.

(** The next queued run starts. *)
Definition start_run (process : string -> M ()) (session_id : string) (p : SessionProjection) (run : RunProjection) : M () :=
  _ ← (if decide (ss_phase (sp_state p) = Running) then mret ()
       else _ ← append session_id (SessionPhaseChanged (ss_phase (sp_state p)) Running (Some "run_started")); mret ());
  attempt_id ← fresh_id;
  _ ← insert_token (rp_run_id run);
  started ← try (append session_id (RunStarted (rp_run_id run) attempt_id (u32_add (rp_attempts run) 1)));
  match started with
  | Err e => _ ← remove_token (rp_run_id run); fail e
  | Ok _ => run_turn process session_id (set_attempt attempt_id (u32_add (rp_attempts run) 1) run)
  end.

(** One round; [true] is [continue]. *)
Definition process_round (process : string -> M ()) (session_id : string) : M bool :=
  stopped ← gets w_shutdown;
  if (stopped : bool) then mret false
  else
    p ← read_projection session_id;
    if bool_decide (is_Some (active_run p)) then mret false
    else match ready_action_run p with
    | Some run => _ ← continue_run process session_id run; mret true
    | None =>
        if sp_queue_paused p then mret false
        else match queued_runs p with
        | [] =>
            _ ← (if decide (ss_phase (sp_state p) = Running)
                 then leave_running session_id Finished "queue_empty" else mret ());
            mret false
        | run :: _ => _ ← start_run process session_id p run; mret true
        end
    end.

Fixpoint process_session (fuel : nat) (session_id : string) : M () :=
  match fuel with
  | O => out_of_fuel
  | S fuel =>
      again ← process_round (process_session fuel) session_id;
      if (again : bool) then process_session fuel session_id else mret ()
  end.

(** ** Cancellation *)

(** The children of a run are cancelled with it, their errors ignored. *)
Fixpoint cancel_run (process : string -> M ()) (depth : nat) (session_id run_id : string) : M () :=
  match depth with
  | O => out_of_fuel
  | S depth =>
      _ ← ensure_running;
      _ ← ensure_session_mutable session_id;
      p ← read_projection session_id;
      run ← run_of p run_id;
      match rp_status run with
      | RQueued | RRequiresAction =>
          _ ← append session_id (RunCancelled run_id (Some "cancelled_by_user"));
          links ← agent_links session_id;
          _ ← each (fun l => _ ← try (cancel_run process depth (lr_child_session_id l) (lr_child_run_id l)); mret ())
                (List.filter (fun l => String.eqb (lr_parent_session_id l) session_id
                                       && String.eqb (lr_parent_run_id l) run_id) links);
          deliver_child_result process session_id run_id
      | RRunning =>
          tokens ← gets w_cancellations;
          match tokens !! run_id with
          | Some _ => cancel_token run_id
          | None => fail (StoreConflict "run is stopping")
          end
      | _ => fail (StoreConflict "run is already terminal")
      end
  end.

Definition cancel (fuel : nat) (session_id run_id : string) : M () :=
  links ← gets w_links;
  cancel_run (process_session fuel) (S (length links)) session_id run_id.

(** ** Workers and shutdown *)

(** The oldest spawned worker runs; its error is logged. *)
Definition run_worker (fuel : nat) : M () := fun w =>
  match w_workers w with
  | [] => (w, Ok ())
  | session_id :: rest =>
      match process_session fuel session_id (set_workers rest w) with
      | (w, Err OutOfFuel) => (w, Err OutOfFuel)
      | (w, _) => (w, Ok ())
      end
  end.

(** [shutdown]: the workers have ended by themselves or were aborted. *)
Definition shutdown (workers_finished : bool) : M () :=
  _ ← modify (World.set_shutdown true);
  _ ← modify (set_workers []);
  _ ← interrupt_remaining_runs "server_shutdown";
  if workers_finished then mret () else fail ShutdownTimeout.

End worker.
