(* ===== verification/Api.v ===== *)
(** The handlers of the HTTP API ([piqo-server/src/lib.rs]): the shared state of
    the server, the errors with their status codes, and what each route does once
    its parameters have been read.  Routes, parameters and the layers around the
    handlers are in file Router.

    [AppState] holds the world of the supervisor, the configuration manager, the
    slots of the streams, the counters and the state of a shutdown.  The
    supervisor reads the manager's snapshot and discovery results and works on the
    same files, so [enter_world] hands them to the world for the time of a handler.  A
    handler runs without other tasks in between. *)

From S2P Require Export Wire Listing Stream Manager Worker.

Definition API_VERSION : string := "v1".

(** ** Errors *)

Inductive ApiError :=
  | AStore (e : StoreError)
  | AConfig (e : ConfigError)
  | BadRequest (code message : string)
  | InvalidConfig (message : string)
  | PayloadTooLarge.

(** Why axum does not read a JSON body. *)
Inductive Rejection := LengthLimit | ContentType | Syntax | Shape.

Record ListQuery := mkListQuery { lq_cursor : option string; lq_limit : option Z; lq_unassigned : option bool }.
Record EventsQuery := mkEventsQuery { eq_after : option Z; eq_limit : option Z }.

(** What the handlers use of axum, utoipa and SQLite: the texts of its rejections,
    the query parser, the decoder of path segments, the API document, a copy of
    the database, and the texts of errors the models keep without their source. *)
Class Http := {
  rejection_text : Rejection -> string -> string;
  list_query : string -> result string ListQuery;
  events_query : string -> result string EventsQuery;
  decode_segment : string -> result string string;
  SERVER_VERSION : string;
  openapi_document : json;
  vacuum : N -> option string;
  display_transition : ProjectionError -> string;
  display_protocol : ConfigError -> string;
  display_mcp : McpError -> string;
  display_io : io_error -> string }.

Inductive HttpBody := NoBody | JsonBody (v : json) | EventStream (session_id : string) (receiver : N) (st : SseStream).

Record HttpResponse := mkHttpResponse {
  http_status : Z;
  http_headers : list (string * string);
  http_body : HttpBody }.

Definition error_response (status : Z) (headers : list (string * string)) (code message : string) : HttpResponse :=
  mkHttpResponse status headers
    (JsonBody (jobject [("error", jobject [("code", JString code); ("message", JString message)])])).

Section errors.
  Context `{Http}.

(** The table of [ApiError::into_response]. *)
Definition config_error_parts (e : ConfigError) : Z * string * string :=
  match e with
  | ProviderNotFound name => (404, "provider_not_found", "provider " ++s name ++s " was not found")
  | AgentNotFound name => (400, "agent_not_found", "agent " ++s name ++s " was not found")
  | ProviderAlreadyExists name => (409, "provider_already_exists", "provider " ++s name ++s " already exists")
  | ManualModelOverride name =>
      (409, "manual_model_override", "provider " ++s name ++s " has a manual model override")
  | InvalidProvider message => (400, "invalid_request", message)
  | InvalidProtocol _ => (400, "invalid_request", display_protocol e)
  | ConflictingCredentials name => (400, "invalid_request", "provider " ++s name ++s " has conflicting credentials")
  | ReadOnly => (503, "configuration_read_only", "provider configuration is read-only")
  | _ => (503, "configuration_unavailable", "provider configuration is temporarily unavailable")
  end.

Definition store_error_parts (e : StoreError) : Z * string * string :=
  match e with
  | SessionNotFound id => (404, "session_not_found", "session " ++s id ++s " was not found")
  | ProjectNotFound id => (404, "project_not_found", "project " ++s id ++s " was not found")
  | ProjectPathConflict path => (409, "project_path_conflict", "a project already uses path " ++s path)
  | ProjectDeleting id => (409, "project_deleting", "project " ++s id ++s " is being deleted")
  | EventNotFound session_id event_id =>
      (404, "event_not_found",
       "event " ++s show_u64 event_id ++s " was not found in session " ++s session_id)
  | InvalidCursor => (400, "invalid_cursor", "invalid pagination cursor")
  | InvalidSessionTransition e => (409, "invalid_transition", display_transition e)
  | Store.InvalidRequest message => (400, "invalid_request", message)
  | StoreConflict message => (409, "conflict", message)
  | QueueIsPaused => (409, "queue_paused", "session queue is paused")
  | QueueNotPaused => (409, "conflict", "session queue is not paused")
  | BackupUnavailable => (409, "backup_unavailable", "a backup cannot be created for this database")
  | ShuttingDown => (503, "server_shutting_down", "server is shutting down")
  | ShutdownTimeout => (503, "server_shutdown_timeout", "server shutdown timed out")
  | RunNotFound id => (404, "run_not_found", "run " ++s id ++s " was not found")
  | ToolCallNotFound id => (404, "tool_call_not_found", "tool call " ++s id ++s " was not found")
  | ToolCallWrongRun call_id run_id =>
      (409, "tool_call_wrong_run", "tool call " ++s call_id ++s " does not belong to run " ++s run_id)
  | ToolResultConflict id =>
      (409, "tool_result_conflict", "tool result for " ++s id ++s " conflicts with the recorded result")
  | NativeToolManaged id =>
      (409, "native_tool_managed", "native tool call " ++s id ++s " is executed by the server")
  | McpToolManaged id => (409, "mcp_tool_managed", "MCP tool call " ++s id ++s " is executed by the server")
  | CallerOwnedTranscript =>
      (409, "caller_owned_transcript", "tool results cannot be submitted when body owns messages or input")
  | StoreProviderNotFound name => (404, "provider_not_found", "provider " ++s name ++s " was not found")
  | ProviderUnavailable message => (503, "provider_unavailable", message)
  | ProviderProtocolError message => (502, "provider_protocol_error", message)
  | _ => (503, "storage_unavailable", "storage is temporarily unavailable")
  end.

(** [IntoResponse for ApiError]. *)
Definition into_response (e : ApiError) : HttpResponse :=
  match e with
  | PayloadTooLarge => error_response 413 [] "payload_too_large" "request body exceeds the configured limit"
  | AStore RunCapacityExceeded =>
      error_response 429 [("retry-after", "1")] "run_capacity_exceeded" "run capacity has been reached"
  | AStore SseCapacityExceeded =>
      error_response 429 [("retry-after", "1")] "sse_capacity_exceeded" "SSE connection capacity has been reached"
  | BadRequest code message => error_response 400 [] code message
  | InvalidConfig message => error_response 422 [] "config_invalid" message
  | AConfig e => let '(status, code, message) := config_error_parts e in error_response status [] code message
  | AStore e => let '(status, code, message) := store_error_parts e in error_response status [] code message
  end.

End errors.

(** ** The state of the server *)

Record Metrics := mkMetrics {
  requests_total : Z; run_capacity_rejections : Z; sse_capacity_rejections : Z }.

Section state.
  Context `{EventCodec}.

Record AppState := mkApp {
  app_world : World;
  app_manager : ConfigManager;
  app_slots : SseSlots;
  app_metrics : Metrics;
  app_fatal_reload_error : option string;
  app_shutting_down : bool;
  app_database_url : string }.

Definition set_app_world (w : World) (s : AppState) : AppState :=
  mkApp w (app_manager s) (app_slots s) (app_metrics s) (app_fatal_reload_error s) (app_shutting_down s)
    (app_database_url s).
Definition set_app_manager (m : ConfigManager) (s : AppState) : AppState :=
  mkApp (app_world s) m (app_slots s) (app_metrics s) (app_fatal_reload_error s) (app_shutting_down s)
    (app_database_url s).
Definition set_app_slots (l : SseSlots) (s : AppState) : AppState :=
  mkApp (app_world s) (app_manager s) l (app_metrics s) (app_fatal_reload_error s) (app_shutting_down s)
    (app_database_url s).
Definition set_app_metrics (m : Metrics) (s : AppState) : AppState :=
  mkApp (app_world s) (app_manager s) (app_slots s) m (app_fatal_reload_error s) (app_shutting_down s)
    (app_database_url s).
Definition set_app_fatal (e : option string) (s : AppState) : AppState :=
  mkApp (app_world s) (app_manager s) (app_slots s) (app_metrics s) e (app_shutting_down s) (app_database_url s).
Definition begin_shutdown (s : AppState) : AppState :=
  mkApp (app_world s) (app_manager s) (app_slots s) (app_metrics s) (app_fatal_reload_error s) true
    (app_database_url s).

(** [AppState::with_config_manager_and_shutdown]; the configuration has been
    validated, so its MCP servers make a manager. *)
Definition with_config_manager (store : SqliteStore) (rules : list PermissionRuleRecord)
    (links : list AgentLinkRecord) (m : ConfigManager) (database_url : string) : option AppState :=
  let config := ConfigManager.snapshot m in
  mcp ← ok (new_manager (mcp_servers config));
  let w := set_rules rules (set_links links (set_mcp mcp (set_fs (cm_fs m) (new_world store config)))) in
  Some (mkApp w m (new_slots (resource_limits config)) (mkMetrics 0 0 0) None false database_url).

(** The snapshot, the discovered metadata and the files, as the supervisor sees
    them; and the files after it has run. *)
Definition enter_world (s : AppState) : World :=
  let w := app_world s in
  let m := app_manager s in
  mkWorld (w_store w) (w_rules w) (w_links w) (ConfigManager.snapshot m) (dc_metadata <$> cm_discovery m) (w_mcp w)
    (w_limits w) (w_admission w) (w_hub w) (w_cancellations w) (w_deleting w) (w_shutdown w) (w_workers w)
    (cm_fs m) (w_ticks w).
Definition leave_world (w : World) (s : AppState) : AppState :=
  set_app_manager (ConfigManager.set_files (w_fs w) (app_manager s)) (set_app_world w s).

(** A handler answers, refuses with an error, or the task it runs in unwinds. *)
Inductive HandlerFault := Refused (e : ApiError) | Broken (f : Fault).
Definition Handler (A : Type) : Type := AppState -> AppState * result HandlerFault A.

#[export] Instance Handler_ret : MRet Handler := fun A a s => (s, Ok a).
#[export] Instance Handler_bind : MBind Handler := fun A B f m s =>
  match m s with
  | (s, Ok a) => f a s
  | (s, Err e) => (s, Err e)
  end.

Definition refuse {A} (e : ApiError) : Handler A := fun s => (s, Err (Refused e)).
Definition on_app {A} (f : AppState -> AppState * A) : Handler A := fun s => let '(s, a) := f s in (s, Ok a).
Definition accept {A} (r : result ApiError A) : Handler A := fun s => (s, map_err Refused r).

(** The errors of [?] on a [StoreError] and on a [ConfigError]. *)
Definition from_fault (f : Fault) : HandlerFault :=
  match f with Fail e => Refused (AStore e) | _ => Broken f end.
Definition on_world {A} (m : M A) : Handler A := fun s =>
  let '(w, r) := m (enter_world s) in (leave_world w s, map_err from_fault r).
Definition config_query {A} (f : ConfigManager -> result ConfigError A) : Handler A := fun s =>
  (s, map_err (fun e => Refused (AConfig e)) (f (app_manager s))).
Definition on_config {A} (f : ConfigManager -> ConfigManager * result ConfigError A) : Handler A := fun s =>
  let '(m, r) := f (app_manager s) in
  (set_app_manager m s, map_err (fun e => Refused (AConfig e)) r).

End state.
Arguments AppState {_}.
Arguments Handler {_} A.

(** ** Bodies of requests

    An object that repeats a key, which [serde] refuses, is read with the last
    value. *)

Record CreateSessionRequest := mkCreateSession {
  cs_title : option string; cs_project_id : option string; cs_history_retention : option HistoryRetention }.
Record UpdateProjectRequest := mkUpdateProject { upj_name : option string; upj_path : option string }.
Record ForkSessionRequest := mkForkSession { fs_at_event_id : Z; fs_title : option string }.
Record CreateRunRequest := mkCreateRun {
  crr_provider : option string; crr_model : option string; crr_input : json;
  crr_agent : option string; crr_variant : option string; crr_body : json }.

Definition read_retention (v : json) : option HistoryRetention := s ← as_str v; retention_from_name s.

Definition read_create_project (v : json) : option (string * string) :=
  f ← fields ["name"; "path"] v;
  name ← field as_str "name" f; path ← field as_str "path" f; Some (name, path).
Definition read_update_project (v : json) : option UpdateProjectRequest :=
  f ← fields ["name"; "path"] v;
  name ← field_option as_str "name" f; path ← field_option as_str "path" f; Some (mkUpdateProject name path).
Definition read_create_session (v : json) : option CreateSessionRequest :=
  f ← fields ["title"; "project_id"; "history_retention"] v;
  title ← field_option as_str "title" f;
  project_id ← field_option as_str "project_id" f;
  retention ← field_option read_retention "history_retention" f;
  Some (mkCreateSession title project_id retention).
Definition read_update_retention (v : json) : option HistoryRetention :=
  f ← fields ["history_retention"] v; field read_retention "history_retention" f.
Definition read_fork_session (v : json) : option ForkSessionRequest :=
  f ← fields ["at_event_id"; "title"] v;
  id ← field as_u64 "at_event_id" f; title ← field_option as_str "title" f; Some (mkForkSession id title).
Definition read_create_run (v : json) : option CreateRunRequest :=
  f ← fields ["provider"; "model"; "input"; "agent"; "variant"; "body"] v;
  provider ← field_option as_str "provider" f;
  model ← field_option as_str "model" f;
  input ← field Some "input" f;
  agent ← field_option as_str "agent" f;
  variant ← field_option as_str "variant" f;
  body ← field_default Some JNull "body" f;
  Some (mkCreateRun provider model input agent variant body).
Definition read_tool_result (v : json) : option json := f ← fields ["result"] v; field Some "result" f.
Definition read_approval (v : json) : option string := f ← fields ["scope"] v; field as_str "scope" f.

(** [ProviderCredentialInput], tagged by [type]; read from objects. *)
Definition read_credentials (v : json) : option ProviderCredentialInput :=
  o ← as_object v;
  tag ← required as_str "type" o;
  if String.eqb tag "none" then Some NoCredential
  else if String.eqb tag "api_key" then value ← required as_str "value" o; Some (ApiKey value)
  else if String.eqb tag "environment" then variable ← required as_str "variable" o; Some (Environment variable)
  else None.
Definition read_headers (v : json) : option (gmap string string) :=
  o ← as_object v; l ← mapM (fun p => s ← as_str p.2; Some (p.1, s)) o; Some (list_to_map l).
Definition read_create_provider (v : json) : option CreateProviderRequest :=
  f ← fields ["name"; "base_url"; "protocol"; "credentials"; "headers"; "connect_timeout_seconds"] v;
  name ← field as_str "name" f;
  base_url ← field as_str "base_url" f;
  protocol ← field_option as_str "protocol" f;
  credentials ← field_option read_credentials "credentials" f;
  headers ← field_option read_headers "headers" f;
  timeout ← field_option as_u64 "connect_timeout_seconds" f;
  Some (mkCreateProvider name base_url protocol credentials headers timeout).
Definition read_update_provider (v : json) : option UpdateProviderRequest :=
  f ← fields ["base_url"; "protocol"; "credentials"; "headers"; "connect_timeout_seconds"] v;
  base_url ← field_option as_str "base_url" f;
  protocol ← field_option as_str "protocol" f;
  credentials ← field_option read_credentials "credentials" f;
  headers ← field_option read_headers "headers" f;
  timeout ← field_option as_u64 "connect_timeout_seconds" f;
  Some (mkUpdateProvider base_url protocol credentials headers timeout).
Definition read_replace_models (v : json) : option (list string) :=
  f ← fields ["models"] v; field (read_list as_str) "models" f.

(** ** Handlers *)

Definition ok_json (v : json) : HttpResponse := mkHttpResponse 200 [] (JsonBody v).
Definition created (v : json) : HttpResponse := mkHttpResponse 201 [] (JsonBody v).
Definition accepted_json (v : json) : HttpResponse := mkHttpResponse 202 [] (JsonBody v).
Definition accepted : HttpResponse := mkHttpResponse 202 [] NoBody.
Definition no_content : HttpResponse := mkHttpResponse 204 [] NoBody.

Definition invalid_request (message : string) : ApiError := BadRequest "invalid_request" message.

Section handlers.
  Context `{EventCodec} `{Outside} `{Documents} `{Http}.

(** *** Projects *)

Definition validated_project_name (name : string) : result ApiError string :=
  let name := trim name in
  if is_empty name then Err (invalid_request "project name must not be empty") else Ok name.

Definition canonical_project_path (fs : file_system) (path : string) : result ApiError string :=
  if negb (path_is_absolute path) then Err (invalid_request "project path must be absolute")
  else
    canonical ← map_err (fun e => invalid_request ("project path cannot be resolved: " ++s display_io e))
                  (canonicalize current_dir fs path);
    node ← ok_or (invalid_request ("project path cannot be inspected: " ++s display_io IoNotFound))
             (node_at fs canonical);
    match node with
    | Dir => Ok (from_utf8_lossy (path_display canonical))
    | _ => Err (invalid_request "project path must be a directory")
    end.

Definition project_path (path : string) : Handler string := fun s =>
  accept (canonical_project_path (cm_fs (app_manager s)) path) s.

Definition create_project (request : string * string) : Handler HttpResponse :=
  name ← accept (validated_project_name request.1);
  path ← project_path request.2;
  project ← on_world (id ← fresh_id; timestamp ← now;
                      project ← on_store (Store.create_project id timestamp name path); mret (id, project));
  mret (created (api_project project)).

Definition list_projects (query : ListQuery) : Handler HttpResponse :=
  '(projects, next_cursor) ← on_world (World.query
     (Listing.list_projects (lq_cursor query) (default 50 (lq_limit query))));
  mret (ok_json (jobject [("projects", JArray (api_project <$> projects));
                          ("next_cursor", of_option JString next_cursor)])).

Definition get_project (project_id : string) : Handler HttpResponse :=
  project ← on_world (World.query (Delegation.get_project project_id));
  mret (ok_json (api_project (project_id, project))).

Definition update_project (project_id : string) (request : UpdateProjectRequest) : Handler HttpResponse :=
  match request with
  | mkUpdateProject None None => refuse (invalid_request "at least one of name or path is required")
  | mkUpdateProject name path =>
      name ← match name with
             | Some name => name ← accept (validated_project_name name); mret (Some name)
             | None => mret None
             end;
      path ← match path with Some path => path ← project_path path; mret (Some path) | None => mret None end;
      project ← on_world (timestamp ← now; on_store (Store.update_project project_id timestamp name path));
      mret (ok_json (api_project (project_id, project)))
  end.

Definition delete_project (project_id : string) : Handler HttpResponse :=
  _ ← on_world (Supervisor.delete_project project_id); mret no_content.

(** *** Sessions *)

Definition session_list (page : list SessionSummary * option string) : HttpResponse :=
  ok_json (jobject [("sessions", JArray ((fun s => api_summary s None) <$> page.1));
                    ("next_cursor", of_option JString page.2)]).

Definition list_project_sessions (project_id : string) (query : ListQuery) : Handler HttpResponse :=
  page ← on_world (World.query
           (Listing.list_project_sessions project_id (lq_cursor query) (default 50 (lq_limit query))));
  mret (session_list page).

Definition list_sessions (query : ListQuery) : Handler HttpResponse :=
  let limit := Z.max 1 (Z.min (default 50 (lq_limit query)) 200) in
  page ← on_world (World.query
           (if default false (lq_unassigned query) then list_unassigned_sessions (lq_cursor query) limit
            else Listing.list_sessions (lq_cursor query) limit));
  mret (session_list page).

Definition refuse_deleting (project_id : option string) : Handler () :=
  match project_id with
  | Some project_id =>
      deleting ← on_world (project_is_deleting project_id);
      if (deleting : bool) then refuse (AStore (ProjectDeleting project_id)) else mret ()
  | None => mret ()
  end.

Definition create_session (request : CreateSessionRequest) : Handler HttpResponse :=
  _ ← refuse_deleting (cs_project_id request);
  summary ← on_world (id ← fresh_id; timestamp ← now;
    on_store (Store.create_session id timestamp (cs_title request) (cs_project_id request)
                (default Forever (cs_history_retention request))));
  mret (created (api_summary summary None)).

Definition update_session_retention (session_id : string) (h : HistoryRetention) : Handler HttpResponse :=
  summary ← on_world (on_store (Store.update_session_retention session_id h));
  mret (ok_json (api_summary summary None)).

Definition get_session (session_id : string) : Handler HttpResponse :=
  '(summary, p) ← on_world (World.query (session_snapshot session_id));
  mret (ok_json (api_summary summary (Some p))).

Definition u32_limit (n : Z) : option Z := if n =? u32_max then None else Some n.

Definition get_events (session_id : string) (query : EventsQuery) : Handler HttpResponse :=
  events ← on_world (World.query
    (events_after session_id (default 0 (eq_after query)) (u32_limit (default 200 (eq_limit query)))));
  events ← accept (map_err AStore (collect api_event events));
  mret (ok_json (JArray events)).

Definition fork_session (session_id : string) (request : ForkSessionRequest) : Handler HttpResponse :=
  '(_, session) ← on_world (World.query (Store.get_session session_id));
  _ ← refuse_deleting (sr_project_id session);
  summary ← on_world (id ← fresh_id; timestamp ← now;
    on_store (Store.fork_session id timestamp session_id (fs_at_event_id request) (fs_title request)));
  mret (created (api_summary summary None)).

(** *** The event stream: up to the response whose body is the stream of file
    Stream *)

Definition cursor_error (e : CursorError) : ApiError :=
  BadRequest "invalid_cursor"
    match e with
    | NotText => "Last-Event-ID is not valid UTF-8"
    | NotInteger => "Last-Event-ID must be an integer"
    end.

Definition acquire_stream (session_id : string) : Handler () := fun s =>
  let '(slots, r) := acquire_sse_connection (w_limits (app_world s)) session_id (app_slots s) in
  (set_app_slots slots s, map_err (fun e => Refused (AStore e)) r).

(** The permits and the receiver of a stream are dropped. *)
Definition drop_stream (session_id : string) (receiver : N) (s : AppState) : AppState :=
  let w := app_world s in
  set_app_slots (release_sse_connection session_id (app_slots s))
    (set_app_world (set_hub (EventHub.drop_receiver receiver (w_hub w)) w) s).

(** When the replay fails they are dropped with the request. *)
Definition replay_stream (session_id : string) (after : EventId) (receiver : N) : Handler SseStream := fun s =>
  match open_stream session_id after (st_db (w_store (app_world s))) (subscribed after) with
  | Ok st => (s, Ok st)
  | Err e => (drop_stream session_id receiver s, Err (Refused (AStore e)))
  end.

Definition stream_events (session_id : string) (last_event_id : option string) : Handler HttpResponse :=
  _ ← on_world (World.query (Store.get_session session_id));
  after ← accept (map_err cursor_error (parse_last_event_id last_event_id));
  _ ← acquire_stream session_id;
  receiver ← on_world (n ← tick; _ ← modify (fun w => set_hub (EventHub.subscribe session_id n (w_hub w)) w); mret n);
  st ← replay_stream session_id after receiver;
  mret (mkHttpResponse 200 [("content-type", "text/event-stream")] (EventStream session_id receiver st)).

(** The end of the stream's loop; the receiver is still alive at its last
    statement. *)
Definition end_stream (session_id : string) (receiver : N) (s : AppState) : AppState :=
  let w := app_world s in
  drop_stream session_id receiver (set_app_world (set_hub (EventHub.remove_if_unused session_id (w_hub w)) w) s).

(** *** Configuration, providers, models *)

Definition api_credentials (c : ProviderCredentialSummary) : json :=
  match c with
  | SummaryNone => jobject [("type", JString "none")]
  | SummaryApiKey => jobject [("type", JString "api_key")]
  | SummaryEnvironment variable => jobject [("type", JString "environment"); ("variable", JString variable)]
  end.
Definition api_model_source (s : ModelSource) : json :=
  JString match s with Manual => "manual" | Discovery => "discovery" end.
Definition api_discovery (d : ModelDiscovery) : json :=
  jobject [("status", JString match md_status d with
                              | DPending => "pending" | DSucceeded => "succeeded" | DFailed => "failed"
                              | DNotApplicable => "not_applicable"
                              end);
           ("last_attempt_at", of_option JString (md_last_attempt_at d)); ("error", of_option JString (md_error d))].
Definition api_provider (p : ProviderCatalogEntry) : json :=
  jobject [("name", JString (pe_name p)); ("base_url", JString (pe_base_url p)); ("protocol", JString (pe_protocol p));
           ("connect_timeout_seconds", jnum (pe_connect_timeout_seconds p));
           ("credentials", api_credentials (pe_credentials p)); ("header_names", strings (pe_header_names p));
           ("streaming", JBool (pe_streaming p)); ("non_streaming", JBool (pe_non_streaming p));
           ("models", strings (pe_models p)); ("model_source", api_model_source (pe_model_source p));
           ("discovery", api_discovery (pe_discovery p))].
Definition api_models (r : ProviderModelsResponse) : json :=
  jobject [("provider", JString (pm_provider r)); ("models", strings (pm_models r));
           ("source", api_model_source (pm_source r)); ("discovery", api_discovery (pm_discovery r))].
Definition api_agent_entry (a : AgentDefinition) : json :=
  jobject [("id", JString (ad_id a)); ("description", of_option JString (ad_description a));
           ("provider", of_option JString (ad_provider a)); ("model", of_option JString (ad_model a));
           ("permissions", permissions_to_value (ad_permissions a))].

Definition list_providers : Handler HttpResponse :=
  providers ← config_query (fun m => Ok (ConfigManager.catalog m));
  mret (ok_json (jobject [("providers", JArray (api_provider <$> providers))])).

Definition list_agents : Handler HttpResponse :=
  agents ← config_query (fun m => Ok (agents (ConfigManager.snapshot m)));
  mret (ok_json (jobject [("agents", JArray (api_agent_entry <$> agents))])).

(** [AppState::reload_config]: the servers of the new configuration replace the
    old ones. *)
Definition reconcile_servers : Handler () := fun s =>
  let w := app_world s in
  let '(mcp, r) := reconcile schema_ok (mcp_behaviour (w_ticks w)) (mcp_servers (ConfigManager.snapshot (app_manager s))) (w_mcp w) in
  (set_app_world (set_ticks (w_ticks w + 1) (set_mcp mcp w)) s,
   map_err (fun e => Refused (AConfig (InvalidMcp (display_mcp e)))) r).
Definition reload_state : Handler ConfigSnapshot :=
  timestamp ← on_world now;
  snapshot ← on_config (ConfigManager.reload timestamp);
  _ ← reconcile_servers;
  mret snapshot.

(** The first message is kept; the token of the supervisor is cancelled. *)
Definition request_fatal_reload_shutdown (message : string) (s : AppState) : AppState :=
  let fatal := match app_fatal_reload_error s with Some e => Some e | None => Some message end in
  set_app_fatal fatal (set_app_world (World.set_shutdown true (app_world s)) s).

(** The discovery it starts is [background_discovery], a step of its own. *)
Definition reload_config : Handler HttpResponse := fun s =>
  match reload_state s with
  | (s, Ok snapshot) =>
      (s, Ok (ok_json (jobject [("revision", jnum (cs_revision snapshot)); ("loaded_at", JString (cs_loaded_at snapshot));
                                ("providers", JArray (api_provider <$> ConfigManager.catalog (app_manager s)))])))
  | (s, Err (Refused (AConfig e))) =>
      (request_fatal_reload_shutdown (display_config e) s, Err (Refused (InvalidConfig (display_config e))))
  | (s, Err e) => (s, Err e)
  end.

Definition background_discovery (s : AppState) : AppState :=
  let w := app_world s in
  set_app_world (set_ticks (w_ticks w + 1) w)
    (set_app_manager (ConfigManager.discover_all (w_ticks w) (clock (w_ticks w)) (app_manager s)) s).

(** [write_atomic]'s temporary file, beside the configuration file. *)
Definition temporary_file (id : string) (m : ConfigManager) : string :=
  "." ++s List.last (default [] (cm_path m)) "piqo.toml" ++s "." ++s id ++s ".tmp".

(** An operation that edits the file or asks a provider for its models. *)
Definition manage {A} (f : N -> string -> string -> ConfigManager -> ConfigManager * result ConfigError A) : Handler A :=
  '(request, timestamp, id) ← on_world (request ← tick; timestamp ← now; id ← fresh_id; mret (request, timestamp, id));
  on_config (fun m => f request timestamp (temporary_file id m) m).

Definition create_provider (r : CreateProviderRequest) : Handler HttpResponse :=
  p ← manage (fun n t tmp => ConfigManager.create_provider n t tmp r); mret (created (api_provider p)).
Definition get_provider (name : string) : Handler HttpResponse :=
  p ← config_query (fun m => ConfigManager.provider m name); mret (ok_json (api_provider p)).
Definition update_provider (name : string) (r : UpdateProviderRequest) : Handler HttpResponse :=
  p ← manage (fun n t tmp => ConfigManager.update_provider n t tmp name r); mret (ok_json (api_provider p)).
Definition delete_provider (name : string) : Handler HttpResponse :=
  _ ← manage (fun n t tmp => ConfigManager.delete_provider t tmp name); mret no_content.
Definition list_provider_models (name : string) : Handler HttpResponse :=
  p ← config_query (fun m => ConfigManager.models m name); mret (ok_json (api_models p)).
Definition replace_provider_models (name : string) (models : list string) : Handler HttpResponse :=
  p ← manage (fun n t tmp => ConfigManager.replace_models t tmp name models); mret (ok_json (api_models p)).
Definition clear_provider_models (name : string) : Handler HttpResponse :=
  p ← manage (fun n t tmp => ConfigManager.clear_models n t tmp name); mret (ok_json (api_models p)).
Definition refresh_provider_models (name : string) : Handler HttpResponse :=
  p ← manage (fun n t tmp => ConfigManager.refresh_models n t name); mret (ok_json (api_models p)).

(** *** Backups, MCP servers *)

(** The path of an absolute name without [..]. *)
Definition directory_of (s : string) : path :=
  omap (fun c => match c with Normal part => Some part | _ => None end) (components s).

Definition backup_directory_of (m : ConfigManager) : option path :=
  match backup_directory (storage (ConfigManager.snapshot m)) with
  | Some directory => Some (directory_of directory)
  | None => p ← cm_path m; Some (parent p ++ ["backups"])
  end.

(** [backup_to]. *)
Definition backup_to (destination : path) : Handler Z := fun s =>
  let m := app_manager s in
  let n := w_ticks (app_world s) in
  let s' := set_app_world (set_ticks (n + 1) (app_world s)) s in
  if contains_str ":memory:" (app_database_url s) || path_exists (cm_fs m) destination
  then (s, Err (Refused (AStore BackupUnavailable)))
  else match vacuum n with
  | Some content =>
      (set_app_manager (ConfigManager.set_files (<[destination := File content]> (cm_fs m)) m) s', Ok (blen content))
  | None => (s', Err (Refused (AStore Database)))
  end.

Definition ensure_private_directory (directory : path) : Handler () := fun s =>
  let m := app_manager s in
  match create_dir_all (cm_fs m) [] directory with
  | Ok fs => (set_app_manager (ConfigManager.set_files fs m) s, Ok ())
  | Err _ => (s, Err (Refused (AStore StoreIo)))
  end.

Definition create_backup : Handler HttpResponse :=
  directory ← (fun s => accept (ok_or (BadRequest "backup_unavailable"
                                         "a configuration-backed database is required for backups")
                                 (backup_directory_of (app_manager s))) s);
  _ ← ensure_private_directory directory;
  id ← on_world fresh_id;
  let file_name := "piqo-" ++s id ++s ".sqlite" in
  bytes ← backup_to (directory ++ [file_name]);
  mret (created (jobject [("file_name", JString file_name); ("bytes", jnum bytes)])).

Definition list_mcp_servers : Handler HttpResponse :=
  servers ← on_world (gets (fun w => diagnostics (w_mcp w)));
  mret (ok_json (JArray (api_mcp_server <$> servers))).

(** *** Runs *)

(** A field of the request, or of the agent it names; an empty one counts as
    missing. *)
Definition run_field (what : string) (given : option string) (of_agent : option AgentDefinition -> option string)
    (agent : option AgentDefinition) : result ApiError string :=
  match or_else given (of_agent agent) with
  | Some v => if is_empty v then Err (invalid_request (what ++s " is required unless supplied by the selected agent"))
              else Ok v
  | None => Err (invalid_request (what ++s " is required unless supplied by the selected agent"))
  end.

Definition run_request (config : PiqoConfig) (r : CreateRunRequest) : result ApiError RunRequest :=
  agent ← match crr_agent r with
          | Some name => a ← map_err AConfig (agent config name); Ok (Some a)
          | None => Ok None
          end;
  provider ← run_field "provider" (crr_provider r) (fun a => a ← a; ad_provider a) agent;
  model ← run_field "model" (crr_model r) (fun a => a ← a; ad_model a) agent;
  Ok (mkRequest provider model (crr_input r) (crr_agent r) (crr_variant r) (crr_body r)).

Definition run_accepted (session_id run_id : string) : HttpResponse :=
  let events_url := "/api/v1/sessions/" ++s session_id ++s "/events" in
  accepted_json (jobject [("session_id", JString session_id); ("run_id", JString run_id); ("status", JString "queued");
                          ("events_url", JString events_url); ("stream_url", JString (events_url ++s "/stream"))]).

Definition create_run (session_id : string) (r : CreateRunRequest) : Handler HttpResponse :=
  request ← (fun s => accept (run_request (ConfigManager.snapshot (app_manager s)) r) s);
  run_id ← on_world (queue_run session_id request);
  mret (run_accepted session_id run_id).

Definition find_run (session_id run_id : string) : Handler (SessionProjection * RunProjection) :=
  on_world (p ← read_projection session_id; run ← run_of p run_id; mret (p, run)).

Definition get_run (session_id run_id : string) : Handler HttpResponse :=
  '(_, run) ← find_run session_id run_id;
  mret (ok_json (jobject [("session_id", JString session_id); ("run", api_run run)])).

Definition get_agent_tree (session_id : string) : Handler HttpResponse :=
  links ← on_world (agent_links session_id);
  mret (ok_json (jobject [("session_id", JString session_id); ("links", JArray (api_tree_link <$> links))])).

(** [fuel] bounds the worker a cancelled child continues; see file Worker. *)
Definition cancel_run (fuel : nat) (session_id run_id : string) : Handler HttpResponse :=
  _ ← on_world (Worker.cancel fuel session_id run_id); mret accepted.

Definition retry_run (session_id run_id : string) : Handler HttpResponse :=
  new_id ← on_world (retry session_id run_id); mret (run_accepted session_id new_id).

Definition submit_tool_result (session_id run_id call_id : string) (v : json) : Handler HttpResponse :=
  _ ← on_world (Supervisor.submit_tool_result session_id run_id call_id v); mret accepted.

Definition resume_queue (session_id : string) : Handler HttpResponse :=
  _ ← on_world (resume session_id); mret accepted.

(** *** Permissions *)

Definition api_permission_request (session_id : string) (q : PermissionProjection) : json :=
  jobject [("request_id", JString (pp_request_id q)); ("session_id", JString session_id);
           ("run_id", JString (pp_run_id q)); ("call_id", of_option JString (pp_call_id q));
           ("agent_id", JString (pp_agent_id q)); ("tool_name", JString (pp_tool_name q));
           ("arguments", pp_arguments q);
           ("decision", of_option (fun d => JString (permission_decision_name d)) (pp_decision q))].

Definition list_permission_requests (session_id run_id : string) : Handler HttpResponse :=
  '(p, _) ← find_run session_id run_id;
  let requests := List.filter (fun q => String.eqb (pp_run_id q) run_id) (btree_values (sp_pending_permissions p)) in
  mret (ok_json (jobject [("requests", JArray (api_permission_request session_id <$> requests))])).

Definition parse_scope (s : string) : result ApiError PermissionScope :=
  if String.eqb s "once" then Ok ScopeOnce else if String.eqb s "session" then Ok ScopeSession
  else if String.eqb s "project" then Ok ScopeProject
  else if String.eqb s "configuration" then Ok ScopeConfiguration
  else Err (BadRequest "invalid_permission_scope" "scope must be once, session, project, or configuration").

Definition approve_permission (session_id run_id request_id scope : string) : Handler HttpResponse :=
  scope ← accept (parse_scope scope);
  _ ← on_world (Delegation.approve_permission session_id run_id request_id scope);
  mret accepted.

Definition deny_permission (session_id run_id request_id : string) : Handler HttpResponse :=
  _ ← on_world (Delegation.deny_permission session_id run_id request_id); mret accepted.

Definition api_rule (r : PermissionRuleRecord) : json :=
  jobject [("id", JString (rr_id r)); ("scope", JString (scope_name (rr_scope r)));
           ("session_id", of_option JString (rr_session_id r)); ("project_id", of_option JString (rr_project_id r));
           ("agent_id", JString (rr_agent_id r)); ("tool_name", JString (rr_tool_name r));
           ("created_at", JString (rr_created_at r))].

Definition list_permission_rules : Handler HttpResponse :=
  rules ← on_world (gets w_rules); mret (ok_json (JArray (api_rule <$> permission_rules rules))).

Definition rule_error (e : RuleError) : StoreError :=
  match e with InvalidPermissionScope => StoreInvalidScope | PermissionRuleNotFound id => StoreRuleNotFound id end.
Definition delete_permission_rule (rule_id : string) : Handler HttpResponse :=
  _ ← on_world (rules ← gets w_rules;
                rules ← lift (map_err rule_error (Permissions.delete_permission_rule rule_id rules));
                modify (set_rules rules));
  mret no_content.

(** *** The server *)

Definition health : HttpResponse :=
  ok_json (jobject [("status", JString "ok"); ("server_version", JString SERVER_VERSION);
                    ("api_version", JString API_VERSION)]).
Definition metrics : Handler HttpResponse := fun s =>
  let m := app_metrics s in
  (s, Ok (ok_json (jobject [("requests_total", jnum (requests_total m));
                            ("run_capacity_rejections", jnum (run_capacity_rejections m));
                            ("sse_capacity_rejections", jnum (sse_capacity_rejections m))]))).
Definition openapi : HttpResponse := ok_json openapi_document.

End handlers.
