(* ===== verification/Router.v ===== *)
(** The router of [piqo-server/src/lib.rs]: the table of routes, how their
    parameters and bodies are read, and the layers every request goes through:
    authentication, the counter and the request id, the refusal during a
    shutdown.

    [serve] is a request from its arrival to its response; there is none when the
    handler's task unwinds.  Only the headers the source sets are kept. *)

From S2P Require Export Api.

(** ** Requests *)

Inductive Method := GET | HEAD | POST | PATCH | PUT | DELETE | OtherMethod.
#[export] Instance Method_eq_dec : EqDecision Method.
Proof. solve_decision. Defined.

Record HttpRequest := mkHttpRequest {
  hr_method : Method;
  hr_path : string;
  hr_query : string;
  hr_authorization : option string;
  hr_last_event_id : option string;
  hr_json : bool;
  hr_body : string }.

(** ** Routes *)

Inductive Segment := Lit (s : string) | Param.

Inductive Endpoint :=
  | EHealth | EMetrics | EOpenapi
  | ECreateProject | EListProjects | EGetProject | EUpdateProject | EDeleteProject | EListProjectSessions
  | ECreateSession | EListSessions | EUpdateRetention | EGetSession | EGetEvents | EStreamEvents | EForkSession
  | EGetAgentTree | EListProviders | ECreateProvider | EListAgents | EGetProvider | EUpdateProvider
  | EDeleteProvider | EListModels | EReplaceModels | EClearModels | ERefreshModels | EReloadConfig
  | ECreateBackup | EListMcpServers | ECreateRun | EGetRun | ECancelRun | ERetryRun | ESubmitToolResult
  | EListPermissionRequests | EApprovePermission | EDenyPermission | EListRules | EDeleteRule | EResumeQueue.
#[export] Instance Endpoint_eq_dec : EqDecision Endpoint.
Proof. solve_decision. Defined.

Definition sessions_path (rest : list Segment) : list Segment := Lit "sessions" :: Param :: rest.
Definition run_path (rest : list Segment) : list Segment := sessions_path (Lit "runs" :: Param :: rest).
Definition provider_path (rest : list Segment) : list Segment := Lit "providers" :: Param :: rest.

(** The paths below [/api/v1] in the order of the source. *)
Definition routes : list (list Segment * list (Method * Endpoint)) :=
  [([Lit "health"], [(GET, EHealth)]);
   ([Lit "metrics"], [(GET, EMetrics)]);
   ([Lit "openapi.json"], [(GET, EOpenapi)]);
   ([Lit "projects"], [(POST, ECreateProject); (GET, EListProjects)]);
   ([Lit "projects"; Param], [(GET, EGetProject); (PATCH, EUpdateProject); (DELETE, EDeleteProject)]);
   ([Lit "projects"; Param; Lit "sessions"], [(GET, EListProjectSessions)]);
   ([Lit "sessions"], [(POST, ECreateSession); (GET, EListSessions)]);
   (sessions_path [Lit "retention"], [(PATCH, EUpdateRetention)]);
   (sessions_path [], [(GET, EGetSession)]);
   (sessions_path [Lit "events"], [(GET, EGetEvents)]);
   (sessions_path [Lit "events"; Lit "stream"], [(GET, EStreamEvents)]);
   (sessions_path [Lit "forks"], [(POST, EForkSession)]);
   (sessions_path [Lit "agent-tree"], [(GET, EGetAgentTree)]);
   ([Lit "providers"], [(GET, EListProviders); (POST, ECreateProvider)]);
   ([Lit "agents"], [(GET, EListAgents)]);
   (provider_path [], [(GET, EGetProvider); (PATCH, EUpdateProvider); (DELETE, EDeleteProvider)]);
   (provider_path [Lit "models"], [(GET, EListModels); (PUT, EReplaceModels); (DELETE, EClearModels)]);
   (provider_path [Lit "models"; Lit "refresh"], [(POST, ERefreshModels)]);
   ([Lit "config"; Lit "reload"], [(POST, EReloadConfig)]);
   ([Lit "storage"; Lit "backups"], [(POST, ECreateBackup)]);
   ([Lit "mcp"; Lit "servers"], [(GET, EListMcpServers)]);
   (sessions_path [Lit "runs"], [(POST, ECreateRun)]);
   (run_path [], [(GET, EGetRun)]);
   (run_path [Lit "cancel"], [(POST, ECancelRun)]);
   (run_path [Lit "retries"], [(POST, ERetryRun)]);
   (run_path [Lit "tool_calls"; Param; Lit "result"], [(POST, ESubmitToolResult)]);
   (run_path [Lit "permission_requests"], [(GET, EListPermissionRequests)]);
   (run_path [Lit "permission_requests"; Param; Lit "approve"], [(POST, EApprovePermission)]);
   (run_path [Lit "permission_requests"; Param; Lit "deny"], [(POST, EDenyPermission)]);
   ([Lit "permission-rules"], [(GET, EListRules)]);
   ([Lit "permission-rules"; Param], [(DELETE, EDeleteRule)]);
   (sessions_path [Lit "queue"; Lit "resume"], [(POST, EResumeQueue)])].

(** The values of the parameters, as written in the path. *)
Fixpoint match_path (pattern : list Segment) (segments : list string) : option (list string) :=
  match pattern, segments with
  | [], [] => Some []
  | Lit s :: pattern, t :: segments => if String.eqb s t then match_path pattern segments else None
  | Param :: pattern, t :: segments => if is_empty t then None else params ← match_path pattern segments; Some (t :: params)
  | _, _ => None
  end.

Fixpoint find_route (segments : list string) (table : list (list Segment * list (Method * Endpoint))) :
    option (list string * list (Method * Endpoint)) :=
  match table with
  | [] => None
  | (pattern, methods) :: table =>
      match match_path pattern segments with
      | Some params => Some (params, methods)
      | None => find_route segments table
      end
  end.

(** [get] answers [HEAD] too. *)
Definition serves (m : Method) (route : Method * Endpoint) : bool :=
  bool_decide (m = route.1) || (bool_decide (m = HEAD) && bool_decide (route.1 = GET)).

Inductive Routed :=
  | NoRoute
  | NoMethod
  | Found (endpoint : Endpoint) (params : list string).

Definition route (m : Method) (path : string) : Routed :=
  match rest ← strip_prefix "/api/v1/" path; find_route (split_slash rest) routes with
  | None => NoRoute
  | Some (params, methods) =>
      match List.find (serves m) methods with
      | Some (_, endpoint) => Found endpoint params
      | None => NoMethod
      end
  end.

Definition api_not_found : HttpResponse := error_response 404 [] "not_found" "route not found".
Definition api_method_not_allowed : HttpResponse := error_response 405 [] "invalid_request" "method not allowed".

(** ** Extractors *)

Section router.
  Context `{EventCodec} `{Outside} `{Documents} `{Http}.

(** [ApiJson]: the rejection of axum, recognised by its text. *)
Definition json_rejection (reason : Rejection) (body : string) : ApiError :=
  let message := rejection_text reason body in
  if contains_str "length limit" message then PayloadTooLarge else invalid_request message.

Definition read_json {A} (read : json -> option A) (limit : Z) (request : HttpRequest) : result ApiError A :=
  let reject reason := json_rejection reason (hr_body request) in
  if negb (hr_json request) then Err (reject ContentType)
  else if limit <? blen (hr_body request) then Err (reject LengthLimit)
  else
    v ← ok_or (reject Syntax) (from_str (hr_body request));
    ok_or (reject Shape) (read v).

(** The body, with the limit the router was built with. *)
Definition with_body {A} (read : json -> option A) (request : HttpRequest) (f : A -> Handler HttpResponse) :
    Handler HttpResponse :=
  a ← (fun s => accept (read_json read (max_http_body_bytes (w_limits (app_world s))) request) s); f a.

(** [ApiPath] and [ApiQuery]. *)
Definition with_params (params : list string) (f : list string -> Handler HttpResponse) : Handler HttpResponse :=
  params ← accept (map_err invalid_request (collect decode_segment params)); f params.
Definition with_query {Q} (parse : string -> result string Q) (request : HttpRequest)
    (f : Q -> Handler HttpResponse) : Handler HttpResponse :=
  q ← accept (map_err invalid_request (parse (hr_query request))); f q.

Definition respond (r : HttpResponse) : Handler HttpResponse := mret r.

(** The handlers with their extractors, by the number of path parameters. *)
Definition dispatch0 (endpoint : Endpoint) (request : HttpRequest) : Handler HttpResponse :=
  match endpoint with
  | EHealth => respond health
  | EMetrics => metrics
  | EOpenapi => respond openapi
  | ECreateProject => with_body read_create_project request create_project
  | EListProjects => with_query list_query request list_projects
  | ECreateSession => with_body read_create_session request create_session
  | EListSessions => with_query list_query request list_sessions
  | EListProviders => list_providers
  | ECreateProvider => with_body read_create_provider request create_provider
  | EListAgents => list_agents
  | EReloadConfig => reload_config
  | ECreateBackup => create_backup
  | EListMcpServers => list_mcp_servers
  | EListRules => list_permission_rules
  | _ => respond api_not_found
  end.

Definition dispatch1 (endpoint : Endpoint) (a : string) (request : HttpRequest) : Handler HttpResponse :=
  match endpoint with
  | EGetProject => get_project a
  | EUpdateProject => with_body read_update_project request (update_project a)
  | EDeleteProject => delete_project a
  | EListProjectSessions => with_query list_query request (list_project_sessions a)
  | EUpdateRetention => with_body read_update_retention request (update_session_retention a)
  | EGetSession => get_session a
  | EGetEvents => with_query events_query request (get_events a)
  | EStreamEvents => stream_events a (hr_last_event_id request)
  | EForkSession => with_body read_fork_session request (fork_session a)
  | EGetAgentTree => get_agent_tree a
  | EGetProvider => get_provider a
  | EUpdateProvider => with_body read_update_provider request (update_provider a)
  | EDeleteProvider => delete_provider a
  | EListModels => list_provider_models a
  | EReplaceModels => with_body read_replace_models request (replace_provider_models a)
  | EClearModels => clear_provider_models a
  | ERefreshModels => refresh_provider_models a
  | ECreateRun => with_body read_create_run request (create_run a)
  | EDeleteRule => delete_permission_rule a
  | EResumeQueue => resume_queue a
  | _ => respond api_not_found
  end.

Definition dispatch2 (fuel : nat) (endpoint : Endpoint) (a b : string) : Handler HttpResponse :=
  match endpoint with
  | EGetRun => get_run a b
  | ECancelRun => cancel_run fuel a b
  | ERetryRun => retry_run a b
  | EListPermissionRequests => list_permission_requests a b
  | _ => respond api_not_found
  end.

Definition dispatch3 (endpoint : Endpoint) (a b c : string) (request : HttpRequest) : Handler HttpResponse :=
  match endpoint with
  | ESubmitToolResult => with_body read_tool_result request (submit_tool_result a b c)
  | EApprovePermission => with_body read_approval request (approve_permission a b c)
  | EDenyPermission => deny_permission a b c
  | _ => respond api_not_found
  end.

Definition dispatch (fuel : nat) (endpoint : Endpoint) (params : list string) (request : HttpRequest) :
    Handler HttpResponse :=
  match params with
  | [] => dispatch0 endpoint request
  | _ => with_params params (fun params =>
      match params with
      | [a] => dispatch1 endpoint a request
      | [a; b] => dispatch2 fuel endpoint a b
      | [a; b; c] => dispatch3 endpoint a b c request
      | _ => respond api_not_found
      end)
  end.

(** ** Layers *)

(** The response to [HEAD] keeps no body; a stream is dropped with it. *)
Definition drop_body (r : HttpResponse) (s : AppState) : AppState :=
  match http_body r with
  | EventStream session_id receiver _ => drop_stream session_id receiver s
  | _ => s
  end.

Definition reply (m : Method) (r : HttpResponse) (s : AppState) : AppState * option HttpResponse :=
  if decide (m = HEAD)
  then (drop_body r s, Some (mkHttpResponse (http_status r) (http_headers r) NoBody))
  else (s, Some r).

Definition handle (fuel : nat) (request : HttpRequest) (s : AppState) : AppState * option HttpResponse :=
  match route (hr_method request) (hr_path request) with
  | NoRoute => (s, Some api_not_found)
  | NoMethod => (s, Some api_method_not_allowed)
  | Found endpoint params =>
      match dispatch fuel endpoint params request s with
      | (s, Ok r) => reply (hr_method request) r s
      | (s, Err (Refused e)) => reply (hr_method request) (into_response e) s
      | (s, Err (Broken _)) => (s, None)
      end
  end.

Definition shutting_down_response : HttpResponse :=
  error_response 503 [] "server_shutting_down" "server is shutting down".

Definition refuse_in_shutdown (fuel : nat) (request : HttpRequest) (s : AppState) : AppState * option HttpResponse :=
  if app_shutting_down s then (s, Some shutting_down_response) else handle fuel request s.

(** [fetch_add] wraps around. *)
Definition count_request (m : Metrics) : Metrics :=
  mkMetrics (u64_add (requests_total m) 1) (run_capacity_rejections m) (sse_capacity_rejections m).

Definition add_header (name value : string) (r : HttpResponse) : HttpResponse :=
  mkHttpResponse (http_status r) (http_headers r ++ [(name, value)]) (http_body r).

(** An id is always a valid header value. *)
Definition number_request (fuel : nat) (request : HttpRequest) (s : AppState) : AppState * option HttpResponse :=
  let s := set_app_metrics (count_request (app_metrics s)) s in
  let w := app_world s in
  let request_id := uuid (w_ticks w) in
  let '(s, r) := refuse_in_shutdown fuel request (set_app_world (set_ticks (w_ticks w + 1) w) s) in
  (s, add_header "x-request-id" request_id <$> r).

Definition byte_at (s : string) (i : nat) : Z :=
  match String.get i s with Some c => byte c | None => 0 end.
Definition constant_time_equal (left right : string) : bool :=
  let length := Nat.max (String.length left) (String.length right) in
  let difference := Z.lxor (blen left) (blen right) in
  foldl (fun difference i => Z.lor difference (Z.lxor (byte_at left i) (byte_at right i))) difference (seq 0 length) =? 0.

Definition bearer (header : option string) : option string :=
  value ← header; if header_text value then strip_prefix "Bearer " value else None.

Definition unauthorized : HttpResponse :=
  error_response 401 [("www-authenticate", "Bearer")] "unauthorized" "a valid bearer token is required".

(** [router_with_token]: the outermost layer exists when there is a token. *)
Definition serve (token : option string) (fuel : nat) (request : HttpRequest) (s : AppState) :
    AppState * option HttpResponse :=
  match token with
  | None => number_request fuel request s
  | Some expected =>
      match bearer (hr_authorization request) with
      | Some candidate =>
          if constant_time_equal candidate expected then number_request fuel request s else (s, Some unauthorized)
      | None => (s, Some unauthorized)
      end
  end.

End router.
