(* ===== verification/Startup.v ===== *)
(** Starting and stopping the server: [piqo-server/src/runtime.rs], the connection
    to the database ([SqliteStore::connect] of [storage.rs]) and the sidecar
    program [piqo-server/src/main.rs].

    [Machine] is what outlives a server: the files, the databases and the locks
    that running processes hold.  [prepare_server] goes through the steps of the
    source in their order; a lock that was taken is released when a later step
    fails.  What a running server does to the machine is in its [AppState] until
    [left_machine] gives it back. *)

From S2P Require Export Router.

(** ** Addresses *)

Inductive IpAddr := V4 (a b c d : Z) | V6 (address : Z).
Record SocketAddr := mkSocketAddr { sa_ip : IpAddr; sa_port : Z }.

(** [IpAddr::is_loopback]. *)
Definition is_loopback (ip : IpAddr) : bool :=
  match ip with V4 a _ _ _ => a =? 127 | V6 address => address =? 1 end.

Definition validate_bind_address (bind : SocketAddr) : result SocketAddr () :=
  if is_loopback (sa_ip bind) then Ok () else Err bind.

(** ** Errors *)

Inductive ServerError :=
  | SConfig (e : ConfigError)
  | SStore (e : StoreError)
  | SIo
  | SBindIo
  | SBind (bind : SocketAddr)
  | InstanceLocked (lock : path)
  | SShutdownTimeout
  | SConfigReload (message : string).

Definition startup_code (e : ServerError) : string :=
  match e with
  | InstanceLocked _ => "instance_already_running"
  | SConfig _ => "config_invalid"
  | SStore CorruptDatabase => "storage_corrupt"
  | SStore _ => "storage_unavailable"
  | SBind _ | SBindIo => "bind_failed"
  | SIo => "storage_unavailable"
  | SShutdownTimeout => "storage_unavailable"
  | SConfigReload _ => "config_invalid"
  end.

Definition map_shutdown_error (e : StoreError) : ServerError :=
  match e with ShutdownTimeout => SShutdownTimeout | e => SStore e end.

(** ** The machine *)

Section machine.
  Context `{EventCodec}.

(** A database as SQLite and the migrations report it. *)
Record DatabaseFile := mkDatabaseFile {
  df_readable : bool;
  df_integrity : string;
  df_foreign_keys : nat;
  df_migrates : bool;
  df_content : database;
  df_rules : list PermissionRuleRecord;
  df_links : list AgentLinkRecord }.

(** [create_if_missing]. *)
Definition new_database : DatabaseFile := mkDatabaseFile true "ok" 0 true (mkDatabase ∅ ∅ ∅) [] [].

Record Machine := mkMachine {
  mc_files : file_system;
  mc_locks : gset path;
  mc_databases : gmap string DatabaseFile;
  mc_ticks : N }.

Definition set_mc_files (fs : file_system) (m : Machine) : Machine :=
  mkMachine fs (mc_locks m) (mc_databases m) (mc_ticks m).
Definition set_mc_locks (l : gset path) (m : Machine) : Machine :=
  mkMachine (mc_files m) l (mc_databases m) (mc_ticks m).

End machine.
Arguments DatabaseFile {_}.
Arguments Machine {_}.

(** What the server asks of the kernel, the crates and the operating system: the
    options of a database URL, listening on an address, the number of the process,
    its home directory, random bytes as text, and the texts of errors. *)
Class Process := {
  database_options : string -> bool;
  bind_listener : SocketAddr -> option SocketAddr;
  process_id : Z;
  home : option string;
  random_token : result string string;
  show_address : SocketAddr -> string;
  display_server : ServerError -> string }.

Record ServerOptions := mkOptions {
  so_bind : SocketAddr;
  so_database : string;
  so_config : path;
  so_auth_token : option string;
  so_instance_lock : option path }.

Record PreparedServer `{EventCodec} := mkPrepared {
  ps_address : SocketAddr;
  ps_state : AppState;
  ps_token : option string;
  ps_lock : option path }.
Arguments PreparedServer {_}.
Arguments mkPrepared {_}.

Section startup.
  Context `{EventCodec} `{Outside} `{Documents} `{Process}.

(** ** The instance lock *)

(** [OpenOptions] with [create], without [truncate]; a name that does not exist is
    created in the directory its parent leads to. *)
Definition open_or_create (fs : file_system) (p : path) : option (file_system * path) :=
  match realpath fs p with
  | Ok q => match node_at fs q with Some (File _) => Some (fs, q) | _ => None end
  | Err _ =>
      match realpath fs (parent p) with
      | Ok d =>
          let q := d ++ [List.last p ""] in
          match node_at fs d, node_at fs q with
          | Some Dir, None => Some (<[q := File ""]> fs, q)
          | _, _ => None
          end
      | Err _ => None
      end
  end.

(** The lock belongs to the file, not to its name.  The loser leaves what the
    winner wrote. *)
Definition acquire_lock (lock : path) (m : Machine) : Machine * result ServerError path :=
  match open_or_create (mc_files m) lock with
  | None => (m, Err SIo)
  | Some (fs, file) =>
      if decide (file ∈ mc_locks m) then (set_mc_files fs m, Err (InstanceLocked lock))
      else (set_mc_locks ({[file]} ∪ mc_locks m) (set_mc_files (<[file := File (show_u64 process_id ++s NL)]> fs) m), Ok file)
  end.

Definition release_lock (lock : option path) (m : Machine) : Machine :=
  match lock with Some file => set_mc_locks (mc_locks m ∖ {[file]}) m | None => m end.

(** ** The database *)

(** [SqliteStore::connect]. *)
Definition connect (url : string) (m : Machine) : result StoreError (DatabaseFile * SqliteStore) :=
  if negb (database_options url) then Err Database
  else
    let f := default new_database (mc_databases m !! url) in
    if negb (df_readable f) then Err Database
    else if negb (String.eqb (df_integrity f) "ok") then Err CorruptDatabase
    else if negb (Nat.eqb (df_foreign_keys f) 0) then Err CorruptDatabase
    else if negb (df_migrates f) then Err Migration
    else
      _ ← validate_all (df_content f);
      Ok (f, mkStore (df_content f) ∅).

(** What the server wrote is in the database. *)
Definition write_database (url : string) (db : database) (rules : list PermissionRuleRecord)
    (links : list AgentLinkRecord) (m : Machine) : Machine :=
  mkMachine (mc_files m) (mc_locks m)
    (<[url := mkDatabaseFile true "ok" 0 true db rules links]> (mc_databases m)) (mc_ticks m).

(** ** [prepare_server] *)

Inductive StartFault := StartFailed (e : ServerError) | StartBroken (f : Fault).

Definition fault_of (f : Fault) : StartFault :=
  match f with Fail e => StartFailed (SStore e) | _ => StartBroken f end.

(** From the configuration on: with the lock, if there is one. *)
Definition prepare_locked (o : ServerOptions) (lock : option path) (m : Machine) :
    Machine * result StartFault PreparedServer :=
  match load (mc_files m) (so_config o) with
  | Err e => (m, Err (StartFailed (SConfig e)))
  | Ok config =>
      let manager := ConfigManager.new (Some (so_config o)) config (clock (mc_ticks m)) (mc_files m) in
      match connect (so_database o) m with
      | Err e => (m, Err (StartFailed (SStore e)))
      | Ok (f, store) =>
          let '(store, recovered) := recover_running_sessions (clock (mc_ticks m)) store in
          let m := write_database (so_database o) (st_db store) (df_rules f) (df_links f) m in
          match recovered with
          | Err e => (m, Err (StartFailed (SStore e)))
          | Ok _ =>
              match bind_listener (so_bind o) with
              | None => (m, Err (StartFailed SBindIo))
              | Some address =>
                  match with_config_manager store (df_rules f) (df_links f) manager (so_database o) with
                  | None => (m, Err (StartBroken (Panicked)))
                  | Some s =>
                      let w := set_ticks (mc_ticks m) (enter_world s) in
                      let '(w, r) := resume_ready_actions_after_restart w in
                      let s := leave_world w s in
                      let m := write_database (so_database o) (st_db (w_store w)) (w_rules w) (w_links w) m in
                      (m, _ ← map_err fault_of r; Ok (mkPrepared address s (so_auth_token o) lock))
                  end
              end
          end
      end
  end.

Definition take_lock (o : ServerOptions) (m : Machine) : Machine * result ServerError (option path) :=
  match so_instance_lock o with
  | None => (m, Ok None)
  | Some lock =>
      match acquire_lock lock m with
      | (m, Ok file) => (m, Ok (Some file))
      | (m, Err e) => (m, Err e)
      end
  end.

Definition prepare_server (o : ServerOptions) (m : Machine) : Machine * result StartFault PreparedServer :=
  match validate_bind_address (so_bind o) with
  | Err bind => (m, Err (StartFailed (SBind bind)))
  | Ok _ =>
      match take_lock o m with
      | (m, Err e) => (m, Err (StartFailed e))
      | (m, Ok lock) =>
          match prepare_locked o lock m with
          | (m, Ok p) => (m, Ok p)
          | (m, Err e) => (release_lock lock m, Err e)
          end
      end
  end.

(** The task that is spawned at the end. *)
Definition discovery_task (s : AppState) : AppState :=
  let w := app_world s in
  let s := background_discovery s in
  set_app_world (set_mcp (start_enabled schema_ok (mcp_behaviour (w_ticks w)) (w_mcp w)) (app_world s)) s.

(** ** [run] *)

(** From the moment the token of the shutdown is cancelled, or the server has
    ended: [served] is how it ended, [finished] whether the workers ended in time.
    [close_streams] is the end of every stream, a step of its own. *)
Definition run (served : result io_error ()) (finished : bool) (s : AppState) :
    AppState * result StartFault () :=
  let s := begin_shutdown s in
  let '(w, cleanup) := shutdown finished (enter_world s) in
  let s := leave_world (set_mcp (shutdown_manager (w_mcp w)) w) s in
  match cleanup with
  | Err (Fail e) => (s, Err (StartFailed (map_shutdown_error e)))
  | Err f => (s, Err (StartBroken f))
  | Ok _ =>
      match served with
      | Err _ => (s, Err (StartFailed SIo))
      | Ok _ =>
          match app_fatal_reload_error s with
          | Some message => (set_app_fatal None s, Err (StartFailed (SConfigReload message)))
          | None => (s, Ok ())
          end
      end
  end.

(** The machine a server leaves behind. *)
Definition left_machine (o : ServerOptions) (lock : option path) (s : AppState) (m : Machine) : Machine :=
  let w := app_world s in
  release_lock lock
    (mkMachine (cm_fs (app_manager s)) (mc_locks m)
       (mc_databases (write_database (so_database o) (st_db (w_store w)) (w_rules w) (w_links w) m)) (w_ticks w)).

(** ** The sidecar *)

(** [home_data_dir]. *)
Definition home_data_dir : result string path :=
  match home with
  | Some home => Ok (directory_of home ++ [".config"; "piqo"])
  | None => Err "HOME is not set"
  end.

Definition fatal (code message : string) : json * Z :=
  (jobject [("type", JString "fatal"); ("protocol_version", jnum 1); ("code", JString code);
            ("message", JString message)], 2).

Definition sidecar_options (data_dir : path) (token : string) : ServerOptions :=
  mkOptions (mkSocketAddr (V4 127 0 0 1) 0) ("sqlite://" ++s path_display (data_dir ++ ["piqo.db"]))
    (data_dir ++ ["piqo.toml"]) (Some token) (Some (data_dir ++ ["piqo.lock"])).

(** The line that announces the server; the program that started it reads it. *)
Definition ready `{Http} (p : PreparedServer) (token : string) : json :=
  jobject [("type", JString "ready"); ("protocol_version", jnum 1); ("server_version", JString SERVER_VERSION);
           ("api_version", JString API_VERSION); ("pid", jnum process_id);
           ("base_url", JString ("http://" ++s show_address (ps_address p))); ("token", JString token)].

(** Up to the line on the standard output: the server that runs, or the end of the
    process with its exit code. *)
Definition sidecar `{Http} (m : Machine) : Machine * result (json * Z) (json * PreparedServer) :=
  match home_data_dir with
  | Err message => (m, Err (fatal "home_unavailable" message))
  | Ok data_dir =>
      match create_dir_all (mc_files m) [] data_dir with
      | Err e => (m, Err (fatal "storage_unavailable" ("unable to prepare " ++s path_display data_dir ++s ": " ++s display_io e)))
      | Ok fs =>
          let m := set_mc_files fs m in
          match random_token with
          | Err e => (m, Err (fatal "storage_unavailable" ("unable to generate auth token: " ++s e)))
          | Ok token =>
              match prepare_server (sidecar_options data_dir token) m with
              | (m, Ok p) => (m, Ok (ready p token, p))
              | (m, Err (StartFailed e)) => (m, Err (fatal (startup_code e) (display_server e)))
              | (m, Err (StartBroken _)) => (m, Err (JNull, 101))
              end
          end
      end
  end.

(** [finish_run]: the exit code. *)
Definition finish_process (r : result StartFault ()) : Z :=
  match r with Ok _ => 0 | Err (StartFailed _) => 1 | Err (StartBroken _) => 101 end.

End startup.
