(* ===== verification/Client.v ===== *)
(** The command line client ([piqo-cli/src/main.rs]): the requests its commands
    send and the loop [follow_events] that reads an event stream, prints what the
    assistant says and connects again when the stream ends.

    A request is what [reqwest] is given; the base URL of the server and the
    printing of JSON are parameters.  The n-th exchange of [follow_events] is the
    n-th value of a function from the checkpoint that was sent to what came back. *)

From S2P Require Export Startup.

(** ** Commands *)

Inductive ProjectCommand :=
  | ProjectCreate (name path : string)
  | ProjectList (limit : option Z) (cursor : option string)
  | ProjectGet (project_id : string)
  | ProjectUpdate (project_id : string) (name path : option string)
  | ProjectDelete (project_id : string) (yes : bool).
Inductive ActionCommand :=
  | ActionInspect (session_id run_id : string)
  | ActionResult (session_id run_id call_id result : string).
Inductive PermissionCommand :=
  | PermissionList (session_id run_id : string)
  | PermissionApprove (session_id run_id request_id scope : string)
  | PermissionDeny (session_id run_id request_id : string).

(** What a command sends; the query is a list of keys and values. *)
Record ClientRequest := mkClientRequest {
  hq_method : Method;
  hq_path : string;
  hq_query : list (string * string);
  hq_token : option string;
  hq_last_event_id : option string;
  hq_body : option json }.

Inductive CliError :=
  | Bail (message : string)
  | NotJson
  | Connecting
  | ErrorStatus (status : Z)
  | ReadingStream
  | NoSessionId
  | NoRunId
  | NotServing (e : StartFault).

(** The response to a request: its status and its body as JSON. *)
Inductive Exchange := NoConnection | Response (status : Z) (body : option json).

Definition api_path (rest : string) : string := "/api/v1/" ++s rest.
Definition session_path (session_id rest : string) : string := api_path ("sessions/" ++s session_id ++s rest).
Definition run_of_session (session_id run_id rest : string) : string :=
  session_path session_id ("/runs/" ++s run_id ++s rest).

Definition plain_request (m : Method) (path : string) (body : option json) : ClientRequest :=
  mkClientRequest m path [] None None body.

(** [authenticated]. *)
Definition authenticated (env_token : option string) (token : option string) (r : ClientRequest) : ClientRequest :=
  mkClientRequest (hq_method r) (hq_path r) (hq_query r) (or_else token env_token) (hq_last_event_id r) (hq_body r).

Definition nullable (o : option string) : json := of_option JString o.

(** The request of a command, or why it is not sent. *)
Definition project_request (c : ProjectCommand) : result CliError ClientRequest :=
  match c with
  | ProjectCreate name path =>
      Ok (plain_request POST (api_path "projects") (Some (jobject [("name", JString name); ("path", JString path)])))
  | ProjectList limit cursor =>
      Ok (mkClientRequest GET (api_path "projects")
            (option_list ((fun n => ("limit", show_u64 n)) <$> limit) ++ option_list ((fun c => ("cursor", c)) <$> cursor))
            None None None)
  | ProjectGet project_id => Ok (plain_request GET (api_path ("projects/" ++s project_id)) None)
  | ProjectUpdate _ None None => Err (Bail "provide at least one of --name or --path")
  | ProjectUpdate project_id name path =>
      Ok (plain_request PATCH (api_path ("projects/" ++s project_id))
            (Some (jobject [("name", nullable name); ("path", nullable path)])))
  | ProjectDelete project_id yes =>
      if yes then Ok (plain_request DELETE (api_path ("projects/" ++s project_id)) None)
      else Err (Bail "project deletion is destructive; repeat with --yes")
  end.

Section client.
  Context `{Outside}.

Definition action_request (c : ActionCommand) : result CliError ClientRequest :=
  match c with
  | ActionInspect session_id run_id => Ok (plain_request GET (run_of_session session_id run_id "") None)
  | ActionResult session_id run_id call_id result =>
      v ← ok_or NotJson (from_str result);
      Ok (plain_request POST (run_of_session session_id run_id ("/tool_calls/" ++s call_id ++s "/result"))
            (Some (jobject [("result", v)])))
  end.

Definition permission_request (c : PermissionCommand) : ClientRequest :=
  match c with
  | PermissionList session_id run_id =>
      plain_request GET (run_of_session session_id run_id "/permission_requests") None
  | PermissionApprove session_id run_id request_id scope =>
      plain_request POST (run_of_session session_id run_id ("/permission_requests/" ++s request_id ++s "/approve"))
        (Some (jobject [("scope", JString scope)]))
  | PermissionDeny session_id run_id request_id =>
      plain_request POST (run_of_session session_id run_id ("/permission_requests/" ++s request_id ++s "/deny")) None
  end.

Definition backup_request : ClientRequest := plain_request POST (api_path "storage/backups") None.

(** [send], [error_for_status]: the redirects that [reqwest] follows aside. *)
Definition accepted_body (e : Exchange) : result CliError (option json) :=
  match e with
  | NoConnection => Err Connecting
  | Response status body => if 400 <=? status then Err (ErrorStatus status) else Ok body
  end.

(** A command of one request, with what it prints: the JSON of the response, or
    nothing. *)
Definition simple_command (env_token token : option string) (prints : bool) (request : result CliError ClientRequest)
    (exchange : ClientRequest -> Exchange) : result CliError (option json) :=
  request ← request;
  body ← accepted_body (exchange (authenticated env_token token request));
  if prints then v ← ok_or NotJson body; Ok (Some v) else Ok None.

Definition project_prints (c : ProjectCommand) : bool := match c with ProjectDelete _ _ => false | _ => true end.
Definition run_project_command (env_token token : option string) (c : ProjectCommand) :=
  simple_command env_token token (project_prints c) (project_request c).
Definition action_prints (c : ActionCommand) : bool := match c with ActionInspect _ _ => true | _ => false end.
Definition run_action_command (env_token token : option string) (c : ActionCommand) :=
  simple_command env_token token (action_prints c) (action_request c).
Definition permission_prints (c : PermissionCommand) : bool := match c with PermissionList _ _ => true | _ => false end.
Definition run_permission_command (env_token token : option string) (c : PermissionCommand) :=
  simple_command env_token token (permission_prints c) (Ok (permission_request c)).

Definition validate_run_options (session project : option string) : result CliError () :=
  match session, project with
  | Some _, Some _ => Err (Bail "--project cannot be used with --session")
  | _, _ => Ok ()
  end.

Definition default_config_path (xdg_config_home home : option string) : string :=
  let directory := match xdg_config_home with
                   | Some directory => directory
                   | None => match home with Some home => home ++s "/.config" | None => "." end
                   end in
  directory ++s "/piqo/piqo.toml".

(** ** [run]: a session, unless there is one, and a run in it *)

Definition create_session_request (project : option string) : ClientRequest :=
  plain_request POST (api_path "sessions") (Some (jobject [("project_id", nullable project)])).
Definition create_run_request (session_id provider model prompt : string) : ClientRequest :=
  plain_request POST (session_path session_id "/runs")
    (Some (request_to_value (mkRequest provider model (JString prompt) None None (JObject [])))).

(** [value[key]]: null when there is none. *)
Definition at_key (key : string) (v : json) : json := default JNull (get key v).

Definition start_run (env_token token session project : option string) (provider model prompt : string)
    (exchange : N -> ClientRequest -> Exchange) : result CliError (string * string) :=
  _ ← validate_run_options session project;
  let token := or_else token env_token in
  session_id ← match session with
               | Some id => Ok id
               | None =>
                   body ← accepted_body (exchange 0%N (authenticated None token (create_session_request project)));
                   v ← ok_or NotJson body;
                   ok_or NoSessionId (as_str (at_key "id" v))
               end;
  body ← accepted_body (exchange 1%N (authenticated None token (create_run_request session_id provider model prompt)));
  v ← ok_or NotJson body;
  run_id ← ok_or NoRunId (as_str (at_key "run_id" v));
  Ok (session_id, run_id).

(** ** [follow_events] *)

Definition parse_frame_line (acc : option Z * string) (line : string) : option Z * string :=
  let '(id, data) := acc in
  match strip_prefix "id:" line with
  | Some value => (parse_u64 (trim value), data)
  | None =>
      match strip_prefix "data:" line with
      | Some value => (id, (if is_empty data then data else data ++s NL) ++s trim_start value)
      | None => acc
      end
  end.
Definition parse_frame (frame : string) : option Z * string := foldl parse_frame_line (None, "") (lines frame).

(** The event of a frame; other frames are skipped. *)
Definition event_of_frame (frame : string) : option (option Z * json) :=
  let '(id, data) := parse_frame frame in
  if is_empty data then None else v ← from_str data; Some (id, v).

Record FollowState := mkFollow {
  fl_last_seen : Z;
  fl_assistant : gset string;
  fl_active : bool;
  fl_output : list string }.

Definition is_text (v : json) (s : string) : bool := bool_decide (v = JString s).

(** The events that end a run, for the client. *)
Definition ends_run (v : json) : bool :=
  match as_str (at_key "type" v) with
  | Some t => bool_decide (t ∈ ["run_completed"; "run_failed"; "run_cancelled"; "run_interrupted"; "run_requires_action"])
  | None => false
  end.

(** One event: what is remembered, what is printed, and whether the loop returns.
    [json_output] prints every event as it is. *)
Definition see_event (json_output : bool) (until_run : option string) (event : option Z * json) (st : FollowState) :
    FollowState * bool :=
  let '(id, v) := event in
  let data := at_key "data" v in
  let event_type := at_key "type" v in
  let last_seen := match id with Some id => Z.max (fl_last_seen st) id | None => fl_last_seen st end in
  let active := fl_active st
    || (is_text event_type "run_started"
        && match until_run with Some run_id => is_text (at_key "run_id" data) run_id | None => false end) in
  let assistant :=
    if is_text event_type "message_started"
       && (is_text (at_key "role" data) "assistant" || is_text (at_key "kind" (at_key "author" data)) "agent")
    then match as_str (at_key "message_id" data) with
         | Some message_id => {[message_id]} ∪ fl_assistant st
         | None => fl_assistant st
         end
    else fl_assistant st in
  let printed :=
    if json_output then [to_string v ++s NL]
    else if active && is_text event_type "message_content_appended"
            && is_text (at_key "kind" (at_key "block" data)) "text"
            && bool_decide (default "" (as_str (at_key "message_id" data)) ∈ assistant)
    then [default "" (as_str (at_key "value" (at_key "block" data)))]
    else [] in
  let over := match until_run with
              | Some run_id => is_text (at_key "run_id" data) run_id && ends_run v
              | None => false
              end in
  (mkFollow last_seen assistant active (fl_output st ++ printed ++ if over then [NL] else []), over).

Fixpoint see_events (json_output : bool) (until_run : option string) (events : list (option Z * json))
    (st : FollowState) : FollowState * bool :=
  match events with
  | [] => (st, false)
  | event :: events =>
      match see_event json_output until_run event st with
      | (st, true) => (st, true)
      | (st, false) => see_events json_output until_run events st
      end
  end.

(** [while let Some(index) = buffer.find("\n\n")]: the frames of the buffer and
    what is left of it; every round shortens the buffer. *)
Fixpoint split_frames (fuel : nat) (buffer : string) : list string * string :=
  match fuel with
  | O => ([], buffer)
  | S fuel =>
      match find_bytes LFLF buffer with
      | None => ([], buffer)
      | Some index =>
          let '(frames, rest) := split_frames fuel (str_drop (index + 2) buffer) in
          (str_take index buffer :: frames, rest)
      end
  end.

(** What a connection delivers: bytes, an error, or the user's interrupt. *)
Inductive StreamItem := Bytes (chunk : string) | BrokenStream | CtrlC.

(** The loop over a connection: it ends with the stream ([None]), with the end of
    the run or the interrupt, or with an error. *)
Fixpoint follow_connection (json_output : bool) (until_run : option string) (buffer : string)
    (items : list StreamItem) (st : FollowState) : FollowState * option (result CliError ()) :=
  match items with
  | [] => (st, None)
  | CtrlC :: _ => (st, Some (Ok ()))
  | BrokenStream :: _ => (st, Some (Err ReadingStream))
  | Bytes chunk :: items =>
      let buffer := buffer ++s from_utf8_lossy chunk in
      let '(frames, rest) := split_frames (String.length buffer) buffer in
      match see_events json_output until_run (omap event_of_frame frames) st with
      | (st, true) => (st, Some (Ok ()))
      | (st, false) => follow_connection json_output until_run rest items st
      end
  end.

Inductive Connection := ConnectFailed | ConnectStatus (status : Z) | Connected (items : list StreamItem).

Definition stream_request (session_id : string) (token : option string) (last_seen : Z) : ClientRequest :=
  mkClientRequest GET (session_path session_id "/events/stream") [] token (Some (show_u64 last_seen)) None.

(** [fuel] is a number of connections: the source has no bound, so the result is
    [None] while it goes on. *)
Fixpoint follow_events (fuel : nat) (session_id : string) (token : option string) (json_output : bool)
    (until_run : option string) (connect : N -> ClientRequest -> Connection) (n : N) (st : FollowState) :
    FollowState * option (result CliError ()) :=
  match fuel with
  | O => (st, None)
  | S fuel =>
      match connect n (stream_request session_id token (fl_last_seen st)) with
      | ConnectFailed => (st, Some (Err Connecting))
      | ConnectStatus status => (st, Some (Err (ErrorStatus status)))
      | Connected items =>
          match follow_connection json_output until_run "" items st with
          | (st, Some r) => (st, Some r)
          | (st, None) => follow_events fuel session_id token json_output until_run connect (n + 1) st
          end
      end
  end.

Definition follow_start (until_run : option string) (after : Z) : FollowState :=
  mkFollow after ∅ (bool_decide (until_run = None)) [].

(** ** [attach] and [run] *)

Definition attach (fuel : nat) (env_token token : option string) (session_id : string) (json_output : bool)
    (connect : N -> ClientRequest -> Connection) : FollowState * option (result CliError ()) :=
  follow_events fuel session_id (or_else token env_token) json_output None connect 0 (follow_start None 0).

Definition run_command (fuel : nat) (env_token token session project : option string) (provider model prompt : string)
    (json_output : bool) (exchange : N -> ClientRequest -> Exchange) (connect : N -> ClientRequest -> Connection) :
    FollowState * option (result CliError ()) :=
  match start_run env_token token session project provider model prompt exchange with
  | Err e => (follow_start None 0, Some (Err e))
  | Ok (session_id, run_id) =>
      follow_events fuel session_id (or_else token env_token) json_output (Some run_id) connect 0
        (follow_start (Some run_id) 0)
  end.

End client.

(** ** [serve] *)

Definition serve_options (bind : SocketAddr) (database : string) (config : path) : ServerOptions :=
  mkOptions bind database config None None.
