(* ===== verification/WorldFacts.v ===== *)
(** Reasoning about handlers (file World).

    [keeps R m]: running [m] leads from a world to a related one, whatever the
    outcome.  For a preorder [R] this goes through sequencing, branching, error
    handling and loops, so a handler keeps [R] as soon as the operations it is
    made of do ([keeps_tac]). *)

From S2P Require Export World.
From S2P Require Import StoreSpec.
From S2P Require Export World.

(** ** Running a handler *)

Section run.
  Context `{EventCodec}.

Lemma bind_Ok {A B} (m : M A) (f : A -> M B) w w' a : m w = (w', Ok a) -> (a ← m; f a) w = f a w'.
Proof. unfold mbind, M_bind. by intros ->. Qed.
Lemma bind_Err {A B} (m : M A) (f : A -> M B) w w' e : m w = (w', Err e) -> (a ← m; f a) w = (w', Err e).
Proof. unfold mbind, M_bind. by intros ->. Qed.
Lemma try_Ok {A} (m : M A) w w' a : m w = (w', Ok a) -> try m w = (w', Ok (Ok a)).
Proof. unfold try. by intros ->. Qed.
Lemma try_Fail {A} (m : M A) w w' e : m w = (w', Err (Fail e)) -> try m w = (w', Ok (Err e)).
Proof. unfold try. by intros ->. Qed.
Lemma gets_bind {A B} (f : World -> A) (k : A -> M B) w : (a ← gets f; k a) w = k (f w) w.
Proof. done. Qed.
Lemma modify_bind {B} (f : World -> World) (k : () -> M B) w : (a ← modify f; k a) w = k tt (f w).
Proof. done. Qed.
Lemma lift_Ok {A B} (a : A) (k : A -> M B) w : (x ← lift (Ok a); k x) w = k a w.
Proof. done. Qed.
Lemma lift_Err {A B} e (k : A -> M B) w : (x ← lift (Err e); k x) w = (w, Err (Fail e)).
Proof. done. Qed.
End run.

(** ** Preorders *)

Section keeps.
  Context `{EventCodec} (R : relation World) `{!PreOrder R}.

Definition keeps {A} (m : M A) : Prop := forall w, R w (fst (m w)).

Lemma keeps_ret {A} (a : A) : keeps (mret a).
Proof. intros w. reflexivity. Qed.
Lemma keeps_fail {A} e : keeps (fail (A := A) e).
Proof. intros w. reflexivity. Qed.
Lemma keeps_panic {A} : keeps (panic (A := A)).
Proof. intros w. reflexivity. Qed.
Lemma keeps_dropped {A} : keeps (dropped (A := A)).
Proof. intros w. reflexivity. Qed.
Lemma keeps_out_of_fuel {A} : keeps (out_of_fuel (A := A)).
Proof. intros w. reflexivity. Qed.
Lemma keeps_gets {A} (f : World -> A) : keeps (gets f).
Proof. intros w. reflexivity. Qed.
Lemma keeps_lift {A} (r : result StoreError A) : keeps (lift r).
Proof. intros w. reflexivity. Qed.
Lemma keeps_query {A} (f : database -> result StoreError A) : keeps (query f).
Proof. intros w. reflexivity. Qed.

Lemma keeps_bind {A B} (m : M A) (f : A -> M B) :
  keeps m -> (forall a, keeps (f a)) -> keeps (a ← m; f a).
Proof.
  intros Hm Hf w. specialize (Hm w). unfold mbind, M_bind. destruct (m w) as [w' [a|e]]; simpl in *; [|done].
  etrans; [exact Hm|apply Hf].
Qed.

Lemma keeps_try {A} (m : M A) : keeps m -> keeps (try m).
Proof.
  intros Hm w. specialize (Hm w). unfold try. destruct (m w) as [w' [a|[]]]; exact Hm.
Qed.

Lemma keeps_each {A} (f : A -> M ()) l : (forall a, a ∈ l -> keeps (f a)) -> keeps (each f l).
Proof.
  induction l as [|a l IH]; intros Hf; simpl; [apply keeps_ret|].
  apply keeps_bind; [apply Hf; left|]. intros _. apply IH. intros b Hb. apply Hf. by right.
Qed.

Lemma keeps_modify f : (forall w, R w (f w)) -> keeps (modify f).
Proof. intros Hf w. apply Hf. Qed.

End keeps.

Create HintDb keeps.
#[export] Hint Extern 0 (keeps ?R (mret _)) => apply (keeps_ret R) : keeps.
#[export] Hint Extern 0 (keeps ?R (fail _)) => apply (keeps_fail R) : keeps.
#[export] Hint Extern 0 (keeps ?R panic) => apply (keeps_panic R) : keeps.
#[export] Hint Extern 0 (keeps ?R dropped) => apply (keeps_dropped R) : keeps.
#[export] Hint Extern 0 (keeps ?R out_of_fuel) => apply (keeps_out_of_fuel R) : keeps.
#[export] Hint Extern 0 (keeps ?R (gets _)) => apply (keeps_gets R) : keeps.
#[export] Hint Extern 0 (keeps ?R (lift _)) => apply (keeps_lift R) : keeps.
#[export] Hint Extern 0 (keeps ?R (query _)) => apply (keeps_query R) : keeps.

(** [keeps_tac] goes through a handler and leaves the operations that the hints do
    not know; it stops where a run is admitted. *)
Ltac keeps_tac :=
  repeat match goal with
  | |- keeps _ (mbind (fun r => mbind _ (reserve _ _)) _) => fail 1
  | |- keeps ?R (mbind _ _) => apply (keeps_bind R)
  | |- keeps ?R (try _) => apply (keeps_try R)
  | |- keeps _ (let '_ := _ in _) => case_match
  | |- keeps _ (match _ with _ => _ end) => case_match
  | |- forall _, _ => intro
  | |- keeps _ _ => solve [eauto 2 with keeps]
  end.
