(* ===== verification/Views.v ===== *)
(** A consistent store as a map from sessions to projections ([view]), and what
    the store's operations do to it (files Store, StoreSpec): the form in which
    the supervisor's theorems use the contract of the store. *)

From S2P Require Export StoreSpec SessionFacts.
From S2P Require Export SessionSpec.
From S2P Require Export Store.
Import SessionProjection.

Section views.
  Context `{EventCodec}.

Definition view (id : string) (s : SqliteStore) : option SessionProjection := ok (project id (log id s)).

(** The number of events of a session. *)
Definition log_length (id : string) (s : SqliteStore) : Z := Z.of_nat (length (log id s)).

Lemma view_row s id p : consistent s ->
  view id s = Some p <-> exists row evs, row_ok (st_db s) id row evs p.
Proof.
  intros Hcs. unfold view. split.
  - intros Hv. destruct (db_sessions (st_db s) !! id) as [row|] eqn:Hrow.
    + destruct (cs_sessions _ Hcs _ _ Hrow) as (evs & q & Hok & _).
      rewrite (row_ok_log _ _ _ _ _ Hok) in Hv.
      rewrite (proj2 (project_strip _ _ _) (ro_project _ _ _ _ _ Hok)) in Hv. simpl in Hv.
      injection Hv as <-. eauto.
    + destruct (absent_log _ _ Hcs Hrow) as [_ Hl]. rewrite Hl in Hv. done.
  - intros (row & evs & Hok). rewrite (row_ok_log _ _ _ _ _ Hok).
    by rewrite (proj2 (project_strip _ _ _) (ro_project _ _ _ _ _ Hok)).
Qed.

Lemma view_none s id : consistent s -> view id s = None <-> db_sessions (st_db s) !! id = None.
Proof.
  intros Hcs. split; intros Hv.
  - destruct (db_sessions (st_db s) !! id) as [row|] eqn:Hrow; [|done].
    destruct (cs_sessions _ Hcs _ _ Hrow) as (evs & p & Hok & _).
    assert (view id s = Some p) by (apply view_row; eauto). congruence.
  - destruct (view id s) as [p|] eqn:E; [|done]. apply view_row in E as (row & evs & Hok); [|done].
    rewrite (ro_row _ _ _ _ _ Hok) in Hv. done.
Qed.

Lemma view_session s id p : consistent s -> view id s = Some p ->
  exists row, db_sessions (st_db s) !! id = Some row /\ sr_phase row = ss_phase (sp_state p).
Proof. intros Hcs (row & evs & Hok)%view_row; [|done]. exists row. split; apply Hok. Qed.

Lemma view_wf s id p : view id s = Some p -> projection_wf p.
Proof.
  unfold view. destruct (project id (log id s)) as [q|] eqn:E; [|done]. intros [= ->].
  apply project_Ok in E as (_ & _ & Hr). by eapply replay_new_wf.
Qed.

Lemma view_db s s' id : st_db s' = st_db s -> view id s' = view id s /\ log id s' = log id s.
Proof. unfold view, log. by intros ->. Qed.

(** Reading a projection reads the view; only the cache may change. *)
Lemma view_projection s id : consistent s ->
  match view id s with
  | Some p => exists c, projection id s = (mkStore (st_db s) c, Ok p) /\ consistent (mkStore (st_db s) c)
  | None => projection id s = (s, Err (SessionNotFound id))
  end.
Proof.
  intros Hcs. destruct (view id s) as [p|] eqn:Hv.
  - pose proof (projection_consistent s id Hcs) as Hcs'.
    apply view_row in Hv as (row & evs & Hok); [|done].
    destruct (cs_sessions _ Hcs _ _ (ro_row _ _ _ _ _ Hok)) as (evs' & q & Hok' & Hq).
    assert (q = p) as ->.
    { pose proof (ro_read _ _ _ _ _ Hok). pose proof (ro_read _ _ _ _ _ Hok').
      pose proof (ro_project _ _ _ _ _ Hok). pose proof (ro_project _ _ _ _ _ Hok'). congruence. }
    destruct (projection_ok _ _ _ _ _ Hok Hq) as (c & E & _). rewrite E in Hcs'. eauto.
  - apply view_none in Hv; [|done]. unfold projection.
    rewrite (proj2 (absent_rows _ _ Hcs Hv)). unfold events_after, ensure_session.
    by rewrite bool_decide_eq_false_2 by (rewrite Hv; intros []; done).
Qed.

(** Appending applies the events to the view, all or none. *)
Lemma view_append s id now events p : consistent s -> view id s = Some p -> events <> [] ->
  match try_fold log_step (log_length id s, p) events with
  | Ok (_, p') => exists s',
      append_events id now events s = (s', Ok (record_at id now (log_length id s) events))
      /\ log id s' = log id s ++ record_at id now (log_length id s) events
      /\ view id s' = Some p' /\ consistent s' /\ frame id (st_db s) (st_db s')
  | Err e => append_events id now events s = (s, Err e)
  end.
Proof.
  intros Hcs Hv Hne. pose proof (append_refines s id now events Hcs Hne) as Hr.
  unfold append_log in Hr. unfold view in Hv. destruct (project id (log id s)) as [q|]; [|done].
  injection Hv as ->. cbn [mbind result_mbind] in Hr. fold (log_length id s) in Hr.
  destruct (try_fold log_step _ events) as [[n p']|e]; simpl in Hr; [|exact Hr].
  destruct Hr as (s' & E & Hl & Hc & Hf & Hcs'). exists s'. split_and!; try done.
  assert (is_Some (db_sessions (st_db s') !! id)) as [row Hrow].
  { destruct (db_sessions (st_db s') !! id) eqn:Hn; [by eexists|].
    apply absent_log in Hn as [_ Hn]; [|done]. rewrite Hn in Hl.
    destruct events; [done|]. simpl in Hl. by destruct (log id s). }
  destruct (cs_sessions _ Hcs' _ _ Hrow) as (evs & q & Hok & Hq). apply view_row; [done|].
  rewrite (Hq _ Hc). eauto.
Qed.

Lemma view_frame s s' id j : consistent s -> frame id (st_db s) (st_db s') -> j <> id ->
  view j s' = view j s /\ log j s' = log j s.
Proof. intros Hcs Hf Hj. unfold view. by rewrite (log_frame _ _ _ _ Hf Hj). Qed.

(** Appending to a session that does not exist. *)
Lemma append_absent s id now events : consistent s -> view id s = None -> events <> [] ->
  exists e, append_events id now events s = (s, Err e).
Proof.
  intros Hcs Hv Hne. pose proof (append_refines s id now events Hcs Hne) as Hr.
  unfold append_log in Hr. unfold view in Hv. destruct (project id (log id s)) as [q|e]; [done|].
  simpl in Hr. by exists e.
Qed.

(** Every append extends the log of its session and of no other. *)
Lemma append_grows s id now events : consistent s ->
  let s' := fst (append_events id now events s) in
  consistent s' /\ forall j, log j s `prefix_of` log j s'.
Proof.
  intros Hcs. split; [by apply append_consistent|]. intros j.
  destruct (decide (events = [])) as [->|Hne]; [done|].
  pose proof (append_refines s id now events Hcs Hne) as Hr.
  destruct (append_log _ _ _ _) as [[recorded p]|e]; [|by rewrite Hr].
  destruct Hr as (s' & -> & Hl & _ & Hf & _). simpl. destruct (decide (j = id)) as [->|Hj].
  - rewrite Hl. by exists recorded.
  - by rewrite (log_frame _ _ _ _ Hf Hj).
Qed.

Lemma projection_db s id : st_db (fst (projection id s)) = st_db s.
Proof.
  unfold projection. destruct (st_cache s !! id); [done|]. by destruct (events ← _; project id events).
Qed.

End views.
