(* ===== verification/StreamSpec.v ===== *)
(** What a client's event stream delivers, and how many streams are open. *)

From S2P Require Export Stream Views.
From S2P Require Import EventLog.
From S2P Require Export Store.

(** ** Slots *)

(** The streams that are open, by session. *)
Inductive slot_step (l : ResourceLimits) : list string * SseSlots -> list string * SseSlots -> Prop :=
  | slot_open id opened s s' : acquire_sse_connection l id s = (s', Ok ()) ->
      slot_step l (opened, s) (id :: opened, s')
  | slot_refused id opened s s' e : acquire_sse_connection l id s = (s', Err e) ->
      slot_step l (opened, s) (opened, s')
  | slot_close id before after s :
      slot_step l (before ++ id :: after, s) (before ++ after, release_sse_connection id s).

(** Free and taken slots add up. *)
Record slots_counted (l : ResourceLimits) (opened : list string) (s : SseSlots) : Prop := {
  sc_free : sl_connections s = max_sse_connections l - Z.of_nat (length opened) /\ 0 <= sl_connections s;
  sc_sessions : forall id, match sl_by_session s !! id with
    | Some n => n = max_sse_connections_per_session l - Z.of_nat (count_occ String.string_dec opened id) /\ 0 <= n
    | None => count_occ String.string_dec opened id = 0%nat
    end }.

Lemma session_free l opened s id : slots_counted l opened s ->
  default (max_sse_connections_per_session l) (sl_by_session s !! id)
  = max_sse_connections_per_session l - Z.of_nat (count_occ String.string_dec opened id).
Proof. intros [_ Hs]. specialize (Hs id). destruct (_ !! id); simpl; [by destruct Hs|lia]. Qed.

Lemma acquire_counted l id opened s s' r :
  0 <= max_sse_connections_per_session l -> slots_counted l opened s ->
  acquire_sse_connection l id s = (s', r) ->
  slots_counted l (if r then id :: opened else opened) s'
  /\ (is_ok r = true <-> Z.of_nat (length opened) < max_sse_connections l
       /\ Z.of_nat (count_occ String.string_dec opened id) < max_sse_connections_per_session l).
Proof.
  intros Hm Hc. pose proof (session_free _ _ _ id Hc) as Hfree. destruct Hc as [[Hg Hg0] Hs].
  assert (Hpos : 0 <= default (max_sse_connections_per_session l) (sl_by_session s !! id)).
  { specialize (Hs id). destruct (_ !! id); simpl; [by destruct Hs|done]. }
  unfold acquire_sse_connection.
  destruct (Z.eqb_spec (sl_connections s) 0) as [E|E]; [|destruct (Z.eqb_spec (default (max_sse_connections_per_session l) (sl_by_session s !! id)) 0) as [E'|E']];
    intros [= <- <-]; cbn [is_ok]; (split; [|split; [intros; try discriminate; lia|intros; try done; lia]]).
  - by split.
  - split; simpl; [done|]. intros j. destruct (decide (j = id)) as [->|Hj].
    + rewrite lookup_insert_eq. lia.
    + rewrite lookup_insert_ne by done. apply Hs.
  - split; simpl; [lia|]. intros j. destruct (decide (j = id)) as [->|Hj].
    + rewrite lookup_insert_eq. destruct (String.string_dec id id); [|done]. lia.
    + rewrite lookup_insert_ne by done. destruct (String.string_dec id j); [congruence|]. apply Hs.
Qed.

Lemma count_occ_middle (before after : list string) id j :
  count_occ String.string_dec (before ++ id :: after) j
  = ((if String.string_dec id j then 1 else 0) + count_occ String.string_dec (before ++ after) j)%nat.
Proof. rewrite !count_occ_app. simpl. destruct (String.string_dec id j); lia. Qed.

Lemma release_counted l id before after s :
  slots_counted l (before ++ id :: after) s -> slots_counted l (before ++ after) (release_sse_connection id s).
Proof.
  intros [[Hg Hg0] Hs]. split; simpl.
  - rewrite length_app in Hg |- *. simpl in Hg. lia.
  - intros j. specialize (Hs j). rewrite count_occ_middle in Hs. destruct (decide (j = id)) as [->|Hj].
    + rewrite lookup_alter_eq. destruct (String.string_dec id id); [|done]. destruct (_ !! id); simpl; lia.
    + rewrite lookup_alter_ne by done. destruct (String.string_dec id j); [congruence|]. exact Hs.
Qed.

Lemma slots_run l x y : 0 <= max_sse_connections_per_session l ->
  rtc (slot_step l) x y -> slots_counted l x.1 x.2 -> slots_counted l y.1 y.2.
Proof.
  intros Hm Hr. induction Hr as [|x y z Hs _ IH]; [done|]. intros Hc. apply IH. clear IH.
  destruct Hs as [id opened s s' E|id opened s s' e E|id before after s]; simpl in *.
  - by apply (acquire_counted _ _ _ _ _ _ Hm Hc) in E as [? _].
  - by apply (acquire_counted _ _ _ _ _ _ Hm Hc) in E as [? _].
  - by apply release_counted.
Qed.

(** Open streams are bounded: however streams are opened, refused and closed,
    never more than [max_sse_connections] are open, nor more than
    [max_sse_connections_per_session] of one session; and a stream is refused only
    when one of the two is reached. *)
Theorem open_streams_bounded l opened s id :
  0 <= max_sse_connections l -> 0 <= max_sse_connections_per_session l ->
  rtc (slot_step l) ([], new_slots l) (opened, s) ->
  Z.of_nat (length opened) <= max_sse_connections l
  /\ Z.of_nat (count_occ String.string_dec opened id) <= max_sse_connections_per_session l
  /\ (snd (acquire_sse_connection l id s) = Ok () <->
       Z.of_nat (length opened) < max_sse_connections l
       /\ Z.of_nat (count_occ String.string_dec opened id) < max_sse_connections_per_session l).
Proof.
  intros Hg Hm Hr. apply (slots_run _ _ _ Hm) in Hr; simpl in Hr.
  - pose proof Hr as [[Hl Hl0] Hs]. split; [lia|]. split.
    + specialize (Hs id). destruct (_ !! id); lia.
    + destruct (acquire_sse_connection l id s) as [s' r] eqn:E. simpl.
      destruct (acquire_counted _ _ _ _ _ _ Hm Hr E) as [_ Hi]. rewrite <- Hi.
      destruct r as [[]|]; simpl; split; done.
  - split; simpl; [lia|]. intros j. by rewrite lookup_empty.
Qed.

(** ** Reading and offering *)

Section delivery.
  Context `{EventCodec} (s : string) (capacity : nat).

Lemma numbered_contiguous n l : numbered n l -> contiguous n l.
Proof. revert n. induction l as [|e l IH]; intros n; simpl; [done|]. intros (? & _ & ?). auto. Qed.

Lemma contiguous_drop n l k : contiguous n l -> contiguous (n + Z.of_nat (Nat.min k (length l))) (drop k l).
Proof.
  intros Hc. rewrite <- (take_drop k l) in Hc. apply contiguous_app in Hc as [_ Hc]. by rewrite length_take in Hc.
Qed.

Lemma collect_filter {A} (f : Z * A -> result StoreError RecordedEvent) (g : Z -> bool) rows evs :
  collect f rows = Ok evs -> rows.*1 = re_id <$> evs ->
  collect f (List.filter (fun r => g r.1) rows) = Ok (List.filter (fun e => g (re_id e)) evs).
Proof.
  revert evs. induction rows as [|[i a] rows IH]; intros evs Hc Hi; simpl in Hc; [by simplify_eq|].
  destruct (f (i, a)) as [e|] eqn:He; [|done]. simpl in Hc. destruct (collect f rows) as [l|] eqn:Hl; [|done].
  injection Hc as <-. injection Hi as -> Hi. simpl. destruct (g (re_id e)); simpl; [|by apply IH].
  rewrite He. simpl. by rewrite (IH l eq_refl Hi).
Qed.

(** The events after a checkpoint. *)
Lemma row_ok_after db row evs p k : row_ok db s row evs p -> 0 <= k <= i64_max ->
  events_after s k None db = Ok (drop (Z.to_nat k) evs).
Proof.
  intros Hok Hk. destruct (row_ok_ids _ _ _ _ _ Hok) as [Hids Hn]. unfold events_after, ensure_session.
  rewrite (ro_row _ _ _ _ _ Hok), bool_decide_eq_true_2 by done. cbn [mbind result_mbind].
  rewrite i64_of_u64_in by lia. cbn [ok_or mbind result_mbind].
  rewrite (collect_filter _ (fun i => k <? i) _ evs (ro_read _ _ _ _ _ Hok) Hids).
  apply numbered_contiguous in Hn. pose proof (contiguous_split 0 evs k Hn ltac:(lia)) as [_ E].
  rewrite Z.sub_0_r in E. simpl in E. by rewrite E.
Qed.

(** Offering a gap-free run of newer events. *)
Lemma offer_run l : forall k st, contiguous k l -> sse_last_id st <= k ->
  foldl offer st l = mkSse (if decide (l = []) then sse_last_id st else k + Z.of_nat (length l))
                       (sse_sent st ++ l) (sse_queue st) (sse_lagged st).
Proof.
  induction l as [|e l IH]; intros k st Hc Hk; [destruct st; simpl; by rewrite app_nil_r|].
  destruct Hc as [He Hc]. cbn [foldl]. unfold offer at 2. rewrite (proj2 (Z.ltb_lt _ _)) by lia.
  rewrite (IH (k + 1)) by (done || simpl; lia). simpl. rewrite <- app_assoc. f_equal.
  destruct (decide (l = [])) as [->|_]; simpl; lia.
Qed.

Lemma offer_after evs st : contiguous 0 evs -> 0 <= sse_last_id st ->
  foldl offer st (drop (Z.to_nat (sse_last_id st)) evs)
  = mkSse (Z.max (sse_last_id st) (Z.of_nat (length evs))) (sse_sent st ++ drop (Z.to_nat (sse_last_id st)) evs)
      (sse_queue st) (sse_lagged st).
Proof.
  intros Hc Hl. destruct (decide (sse_last_id st < Z.of_nat (length evs))) as [Hlt|Hge].
  - rewrite (offer_run _ (sse_last_id st)).
    + f_equal. rewrite decide_False.
      * rewrite length_drop. lia.
      * intros E%(f_equal length). rewrite length_drop in E. simpl in E. lia.
    + pose proof (contiguous_drop 0 evs (Z.to_nat (sse_last_id st)) Hc) as Hd.
      replace (sse_last_id st) with (0 + Z.of_nat (Nat.min (Z.to_nat (sse_last_id st)) (length evs))) at 1 by lia.
      exact Hd.
    + lia.
  - rewrite drop_ge by lia. simpl. rewrite app_nil_r. destruct st; simpl in *. f_equal. lia.
Qed.

(** The events of a log between two checkpoints. *)
Definition window (after last : Z) (l : list RecordedEvent) : list RecordedEvent :=
  drop (Z.to_nat after) (take (Z.to_nat last) l).

Lemma window_app after last l l' : after <= last <= Z.max after (Z.of_nat (length l)) ->
  window after last (l ++ l') = window after last l.
Proof.
  intros Hl. unfold window. destruct (decide (last <= Z.of_nat (length l))).
  - by rewrite take_app_le by lia.
  - rewrite !drop_ge; [done|rewrite length_take; lia..].
Qed.

Lemma window_extend after last l : 0 <= after <= last ->
  window after last l ++ drop (Z.to_nat last) l = drop (Z.to_nat after) l.
Proof.
  intros Ha. unfold window. rewrite <- (take_drop (Z.to_nat last) l) at 3.
  destruct (decide (Z.to_nat after <= length (take (Z.to_nat last) l))%nat).
  - by rewrite drop_app_le.
  - rewrite (drop_ge (take _ _)) by lia. rewrite length_take in n. rewrite (drop_ge l), (drop_ge (_ ++ _)); [done| |].
    + rewrite length_app, length_take. simpl. lia.
    + lia.
Qed.

Lemma window_full after last l : 0 <= after -> Z.of_nat (length l) <= last -> window after last l = drop (Z.to_nat after) l.
Proof. intros Ha Hl. unfold window. by rewrite take_ge by lia. Qed.

(** ** The invariant of a stream among orderly handlers *)

Record feed_ok (after : Z) (f : Feed) : Prop := {
  fo_store : consistent (fd_store f);
  fo_session : log s (fd_store f) <> [];
  fo_log : fd_phase f <> Closed -> exists seen,
    log s (fd_store f) = seen ++ sse_queue (fd_stream f) ++ concat (fd_flight f)
    /\ (fd_phase f = Live -> sse_lagged (fd_stream f) = false ->
        Z.of_nat (length seen) <= sse_last_id (fd_stream f));
  fo_last : after <= sse_last_id (fd_stream f) <= Z.max after (Z.of_nat (length (log s (fd_store f))));
  fo_opening : fd_phase f = Opening -> sse_last_id (fd_stream f) = after;
  fo_sent : strip <$> sse_sent (fd_stream f) = window after (sse_last_id (fd_stream f)) (log s (fd_store f)) }.

Lemma log_row st : consistent st -> log s st <> [] ->
  exists row evs p, row_ok (st_db st) s row evs p /\ log s st = strip <$> evs.
Proof.
  intros Hcs Hl. destruct (db_sessions (st_db st) !! s) as [row|] eqn:Hr.
  - destruct (cs_sessions _ Hcs _ _ Hr) as (evs & p & Hok & _). exists row, evs, p.
    split; [done|]. by eapply row_ok_log.
  - by destruct (absent_log _ _ Hcs Hr) as [_ E].
Qed.

(** A log is gap-free and its events carry no raw data. *)
Lemma log_contiguous st : consistent st -> log s st <> [] ->
  contiguous 0 (log s st) /\ Forall (fun e => strip e = e) (log s st).
Proof.
  intros Hcs Hl. destruct (log_row _ Hcs Hl) as (row & evs & p & Hok & ->).
  apply row_ok_ids in Hok as [_ Hn]. split; [|by apply Forall_fmap, Forall_true].
  apply numbered_contiguous. by apply numbered_strip.
Qed.

Lemma feed_start_ok after st : consistent st -> log s st <> [] -> 0 <= after -> feed_ok after (feed_start after st).
Proof.
  intros Hcs Hl Ha. split; simpl; try done; [|lia|].
  - intros _. exists (log s st). by rewrite app_nil_r.
  - unfold window. rewrite drop_ge; [done|]. rewrite length_take. lia.
Qed.

(** Recording more keeps what was sent and queued. *)
Lemma feed_append_ok after id now events f : feed_ok after f -> feed_ok after (feed_append s id now events f).
Proof.
  intros [Hcs Hl Hlog Hlast Hop Hsent]. unfold feed_append.
  assert (Hw : forall l, window after (sse_last_id (fd_stream f)) (log s (fd_store f) ++ l)
                         = window after (sse_last_id (fd_stream f)) (log s (fd_store f))) by (intros l; by apply window_app).
  destruct (decide (events = [])) as [->|Hne].
  { simpl. destruct (String.eqb id s); [|by destruct f]. split; simpl; try done. intros Hp.
    destruct (Hlog Hp) as (seen & E & Hs). exists seen. split; [|done]. by rewrite concat_app, app_nil_r. }
  pose proof (append_refines (fd_store f) id now events Hcs Hne) as Hr.
  destruct (append_log _ _ _ _) as [[recorded p]|e]; [|rewrite Hr; by destruct f].
  destruct Hr as (st & -> & Hl' & _ & Hf & Hcs'). destruct (String.eqb_spec id s) as [->|Hid].
  - split; simpl; rewrite ?Hl', ?length_app; try done.
    + by destruct (log s (fd_store f)).
    + intros Hp. destruct (Hlog Hp) as (seen & E & Hs). exists seen. split; [|done].
      rewrite concat_app, E. simpl. by rewrite app_nil_r, <- !app_assoc.
    + lia.
    + by rewrite Hw.
  - assert (E : log s st = log s (fd_store f)) by (by eapply log_frame). by split; simpl; rewrite ?E.
Qed.

Lemma concat_publish (fl : list (list RecordedEvent)) : forall i e rest,
  Forall (fun l => l = []) (take i fl) -> fl !! i = Some (e :: rest) ->
  concat fl = e :: concat (<[i := rest]> fl).
Proof.
  induction fl as [|l fl IH]; intros [|i] e rest Hf Hi; simpl in *; try done; [by injection Hi as ->|].
  apply Forall_cons in Hf as [-> Hf]. simpl. by apply IH.
Qed.

Lemma feed_publish_ok after i f : in_order i f -> feed_ok after f -> feed_ok after (feed_publish capacity i f).
Proof.
  intros Hi [Hcs Hl Hlog Hlast Hop Hsent]. unfold feed_publish.
  destruct (fd_flight f !! i) as [[|e rest]|] eqn:Hfl; [by split|..|by split].
  destruct (decide (fd_phase f = Closed)) as [Hc|Hc]; [by split|].
  destruct (Hlog Hc) as (seen & E & Hs). rewrite (concat_publish _ _ _ _ Hi Hfl) in E.
  set (st := fd_stream f) in *. unfold receive. destruct (length _ <=? capacity)%nat.
  - split; simpl; try done. intros _. exists seen. split; [|done]. by rewrite <- app_assoc.
  - split; simpl; try done. intros _.
    destruct (sse_queue st ++ [e]) as [|x q] eqn:Eq; [by destruct (sse_queue st)|].
    exists (seen ++ [x]). split; [|done]. simpl. rewrite drop_0, E, <- app_assoc. simpl. f_equal.
    change (sse_queue st ++ [e] ++ concat (<[i:=rest]> (fd_flight f)) = (x :: q) ++ concat (<[i:=rest]> (fd_flight f))).
    by rewrite app_assoc, Eq.
Qed.

(** Reading the store brings the stream up to the end of the log. *)
Lemma read_up after f st : feed_ok after f -> 0 <= after ->
  st = fd_stream f \/ st = unlagged (fd_stream f) ->
  sse_last_id st <= i64_max ->
  exists sent, (events ← events_after s (sse_last_id st) None (st_db (fd_store f)); Ok (foldl offer st events))
    = Ok (mkSse (Z.max (sse_last_id st) (Z.of_nat (length (log s (fd_store f))))) sent (sse_queue st) (sse_lagged st))
    /\ strip <$> sent = drop (Z.to_nat after) (log s (fd_store f)).
Proof.
  intros Hok Ha Hst Hmax. destruct (log_row _ (fo_store _ _ Hok) (fo_session _ _ Hok)) as (row & evs & p & Hrow & El).
  assert (Hs : sse_last_id st = sse_last_id (fd_stream f) /\ sse_sent st = sse_sent (fd_stream f))
    by (by destruct Hst as [-> | ->]). destruct Hs as [Hs1 Hs2]. pose proof (fo_last _ _ Hok) as Hlast.
  rewrite (row_ok_after _ _ _ _ _ Hrow) by lia. simpl.
  rewrite (offer_after evs st) by (try lia; apply row_ok_ids in Hrow as [_ Hn]; by apply numbered_contiguous).
  eexists. split; [by rewrite El, length_fmap|].
  rewrite fmap_app, Hs2, (fo_sent _ _ Hok), fmap_drop, <- El, Hs1. apply window_extend. lia.
Qed.

Definition bounded (after : Z) (f : Feed) : Prop :=
  0 <= after <= i64_max /\ Z.of_nat (length (log s (fd_store f))) <= i64_max.

Lemma bounded_last after f : feed_ok after f -> bounded after f -> sse_last_id (fd_stream f) <= i64_max.
Proof. intros Hok [Ha Hb]. pose proof (fo_last _ _ Hok). lia. Qed.

(** The state after the store was read. *)
Lemma read_ok after f phase sent :
  feed_ok after f -> 0 <= after -> phase = Live ->
  strip <$> sent = drop (Z.to_nat after) (log s (fd_store f)) -> fd_phase f <> Closed ->
  feed_ok after (mkFeed (fd_store f) (fd_flight f) phase
    (mkSse (Z.max (sse_last_id (fd_stream f)) (Z.of_nat (length (log s (fd_store f))))) sent
       (sse_queue (fd_stream f)) false)).
Proof.
  intros [Hcs Hl Hlog Hlast Hop Hsent] Ha -> Hs Hp. split; simpl; try done.
  - intros _. destruct (Hlog Hp) as (seen & E & _). exists seen. split; [done|]. intros _ _. rewrite E, length_app. lia.
  - lia.
  - rewrite Hs. symmetry. apply window_full; lia.
Qed.

Lemma feed_open_ok after f : bounded after f -> feed_ok after f -> feed_ok after (feed_open s f).
Proof.
  intros Hb Hok. unfold feed_open. destruct (fd_phase f) eqn:Hp; [|done..].
  destruct (read_up after f (fd_stream f) Hok) as (sent & E & Hs);
    [apply Hb|by left|by eapply bounded_last|].
  unfold open_stream. rewrite E. pose proof (read_ok after f Live sent Hok) as Hr.
  destruct (sse_lagged (fd_stream f)) eqn:El; [|by apply Hr; [apply Hb|done|done|by rewrite Hp]].
  destruct Hr; [apply Hb|done|done|by rewrite Hp|]. split; simpl in *; try done.
  intros _. destruct (fo_log0) as (seen & E' & _); [done|]. by exists seen.
Qed.

Lemma feed_poll_ok after f : bounded after f -> feed_ok after f -> feed_ok after (feed_poll s f).
Proof.
  intros Hb Hok. unfold feed_poll. destruct (fd_phase f) eqn:Hp; [done| |done].
  assert (Hclosed : fd_phase f <> Closed) by by rewrite Hp.
  unfold poll_stream. destruct (sse_lagged (fd_stream f)) eqn:El.
  - destruct (read_up after f (unlagged (fd_stream f)) Hok) as (sent & E & Hs);
      [apply Hb|by right|by eapply bounded_last|]. simpl in E.
    destruct (events_after _ _ _ _) as [events|]; [|done]. simpl in E. injection E as ->.
    apply read_ok; [done|apply Hb|done..].
  - destruct (sse_queue (fd_stream f)) as [|e q] eqn:Eq; [by destruct f as [? ? ? []]; simpl in *; subst|].
    destruct Hok as [Hcs Hl Hlog Hlast Hop Hsent]. destruct (Hlog Hclosed) as (seen & E & Hseen).
    specialize (Hseen Hp El). rewrite Eq in E. destruct (log_contiguous _ Hcs Hl) as [Hn Hst].
    rewrite E in Hn, Hst. apply contiguous_app in Hn as [_ [He _]].
    apply Forall_app in Hst as [_ [Hse _]%Forall_cons].
    unfold offer. simpl. destruct (Z.ltb_spec (sse_last_id (fd_stream f)) (re_id e)) as [Hlt|Hge].
    + assert (Hlast' : sse_last_id (fd_stream f) = Z.of_nat (length seen)) by lia.
      split; simpl; try done; [| |].
      * intros _. exists (seen ++ [e]). rewrite <- app_assoc. split; [done|]. intros _ _.
        rewrite length_app. simpl. lia.
      * rewrite E, length_app. simpl. lia.
      * rewrite fmap_app, Hsent, He, Hlast', E. cbn [fmap list_fmap]. rewrite Hse. unfold window.
        replace (Z.to_nat (0 + Z.of_nat (length seen) + 1)) with (length (seen ++ [e])) by (rewrite length_app; simpl; lia).
        replace (Z.to_nat (Z.of_nat (length seen))) with (length seen) by lia.
        replace (seen ++ (e :: q) ++ concat (fd_flight f)) with ((seen ++ [e]) ++ q ++ concat (fd_flight f))
          by (rewrite <- !app_assoc; done).
        rewrite take_app_length, <- app_assoc, take_app_length, drop_app_le; [done|lia].
    + split; simpl; try done. intros _. exists (seen ++ [e]). rewrite <- app_assoc. split; [done|].
      intros _ _. rewrite length_app. simpl. lia.
Qed.

(** ** Runs *)

Lemma feed_step_ok after f f' : bounded after f' -> feed_step true s capacity f f' -> feed_ok after f -> feed_ok after f'.
Proof.
  intros Hb Hs Hok. destruct Hs as [id now events|i Hi| |].
  - by apply feed_append_ok.
  - apply feed_publish_ok; [by apply Hi|done].
  - assert (E : fd_store (feed_open s f) = fd_store f)
      by (unfold feed_open; destruct (fd_phase f); try done; by destruct (open_stream _ _ _ _)).
    apply feed_open_ok; [|done]. unfold bounded in *. by rewrite E in Hb.
  - assert (E : fd_store (feed_poll s f) = fd_store f)
      by (unfold feed_poll; destruct (fd_phase f); try done; by destruct (poll_stream _ _ _)).
    apply feed_poll_ok; [|done]. unfold bounded in *. by rewrite E in Hb.
Qed.

(** Logs only grow, so a bound at the end is one all along. *)
Lemma feed_step_grows f f' : feed_step true s capacity f f' -> consistent (fd_store f) ->
  consistent (fd_store f') /\ (length (log s (fd_store f)) <= length (log s (fd_store f')))%nat.
Proof.
  intros Hs Hcs. destruct Hs as [id now events|i Hi| |].
  - destruct (append_grows (fd_store f) id now events Hcs) as [Hcs' Hg]. unfold feed_append.
    destruct (append_events _ _ _ _) as [st []]; simpl in *; (split; [done|]; apply prefix_length, Hg).
  - unfold feed_publish. by destruct (fd_flight f !! i) as [[]|].
  - unfold feed_open. destruct (fd_phase f); try done. by destruct (open_stream _ _ _ _).
  - unfold feed_poll. destruct (fd_phase f); try done. by destruct (poll_stream _ _ _).
Qed.

Lemma feed_run_ok after f f' : rtc (feed_step true s capacity) f f' -> bounded after f' -> feed_ok after f -> feed_ok after f'.
Proof.
  intros Hr Hb. revert Hb. induction Hr as [f|f g f' Hs Hr IH]; intros Hb Hok; [done|].
  assert (Hg : consistent (fd_store g) -> (length (log s (fd_store g)) <= length (log s (fd_store f')))%nat).
  { clear -Hr. induction Hr as [|x y z Hs _ IH]; intros Hcs; [done|].
    destruct (feed_step_grows _ _ Hs Hcs) as [Hcs' Hl]. specialize (IH Hcs'). lia. }
  destruct (feed_step_grows _ _ Hs (fo_store _ _ Hok)) as [Hcs _]. specialize (Hg Hcs).
  apply IH; [done|]. eapply feed_step_ok; [|exact Hs|done]. destruct Hb as [Ha Hb]. split; [done|]. lia.
Qed.

(** Polling until the receiver is empty. *)
Lemma poll_empty after n : forall f, feed_ok after f -> bounded after f -> fd_phase f = Live ->
  concat (fd_flight f) = [] -> sse_lagged (fd_stream f) = false -> (length (sse_queue (fd_stream f)) <= n)%nat ->
  let f' := Nat.iter n (feed_poll s) f in
  fd_phase f' = Live /\ fd_store f' = fd_store f
  /\ strip <$> sse_sent (fd_stream f') = drop (Z.to_nat after) (log s (fd_store f)).
Proof.
  induction n as [|n IH]; intros f Hok Hb Hp Hfl Hlag Hlen; simpl.
  - destruct (sse_queue (fd_stream f)) eqn:Eq; [|simpl in Hlen; lia]. split_and!; [done..|].
    rewrite (fo_sent _ _ Hok). destruct (fo_log _ _ Hok) as (seen & E & Hs); [by rewrite Hp|].
    specialize (Hs Hp Hlag). rewrite Eq, Hfl, !app_nil_r in E. destruct Hb as [Ha _].
    apply window_full; [lia|]. by rewrite E.
  - rewrite <- Nat.iter_succ, Nat.iter_succ_r. pose proof (feed_poll_ok _ _ Hb Hok) as Hok'.
    assert (Hg : fd_phase (feed_poll s f) = Live /\ fd_store (feed_poll s f) = fd_store f
      /\ fd_flight (feed_poll s f) = fd_flight f /\ sse_lagged (fd_stream (feed_poll s f)) = false
      /\ (length (sse_queue (fd_stream (feed_poll s f))) <= n)%nat).
    { unfold feed_poll. rewrite Hp. unfold poll_stream. rewrite Hlag.
      destruct (sse_queue (fd_stream f)) as [|e q] eqn:Eq; simpl; [rewrite Eq; simpl; split_and!; try done; lia|].
      simpl in Hlen. unfold offer. simpl. destruct (_ <? _); simpl; split_and!; try done; lia. }
    destruct Hg as (H1 & H2 & H3 & H4 & H5). destruct (IH (feed_poll s f) Hok') as (G1 & G2 & G3); try done.
    + unfold bounded. by rewrite H2.
    + by rewrite H3.
    + split_and!; [done|congruence|]. by rewrite G3, H2.
Qed.

(** C12. Event streams are complete: when every handler publishes what it recorded
    before the handlers that recorded later do, a stream opened with a checkpoint
    sends, at any time, a prefix of the events recorded after the checkpoint, in
    order, without a gap or a repetition, wherever the opening falls among the
    appends and however far the receiver falls behind; and once all is published,
    reading the receiver empty sends all of them. *)
Theorem stream_is_complete after store f :
  consistent store -> log s store <> [] ->
  rtc (feed_step true s capacity) (feed_start after store) f ->
  0 <= after <= i64_max -> log_length s (fd_store f) <= i64_max ->
  let expected := List.filter (fun e => after <? re_id e) (log s (fd_store f)) in
  strip <$> sse_sent (fd_stream f) `prefix_of` expected
  /\ (fd_phase f = Live -> concat (fd_flight f) = [] ->
      let f' := Nat.iter (S (length (sse_queue (fd_stream f)))) (feed_poll s) f in
      fd_phase f' = Live /\ strip <$> sse_sent (fd_stream f') = expected).
Proof.
  intros Hcs Hl Hr Ha Hb expected. assert (Hbd : bounded after f) by by split.
  assert (Hok : feed_ok after f) by (eapply feed_run_ok; [done..|]; apply feed_start_ok; [done|done|lia]).
  assert (Hex : expected = drop (Z.to_nat after) (log s (fd_store f))).
  { destruct (log_contiguous _ (fo_store _ _ Hok) (fo_session _ _ Hok)) as [Hc _].
    destruct (contiguous_split 0 _ after Hc ltac:(lia)) as [_ E]. by rewrite Z.sub_0_r in E. }
  rewrite Hex. split.
  - rewrite (fo_sent _ _ Hok). exists (drop (Z.to_nat (sse_last_id (fd_stream f))) (log s (fd_store f))).
    symmetry. apply window_extend. pose proof (fo_last _ _ Hok). lia.
  - intros Hp Hfl f'. unfold f'. destruct (sse_lagged (fd_stream f)) eqn:El.
    + rewrite Nat.iter_succ_r. pose proof (feed_poll_ok _ _ Hbd Hok) as Hok'.
      destruct (read_up after f (unlagged (fd_stream f)) Hok) as (sent & E & Hs);
        [lia|by right|by eapply bounded_last|].
      assert (Hg : exists st, feed_poll s f = mkFeed (fd_store f) (fd_flight f) Live st
        /\ sse_lagged st = false /\ sse_queue st = sse_queue (fd_stream f)).
      { unfold feed_poll. rewrite Hp. unfold poll_stream. rewrite El. simpl in E.
        destruct (events_after _ _ _ _) as [events|]; [|done]. simpl in E. injection E as ->. by eexists. }
      destruct Hg as (st & Eg & Hg1 & Hg2). rewrite Eg in *.
      destruct (poll_empty after (length (sse_queue (fd_stream f))) _ Hok' Hbd eq_refl Hfl Hg1) as (H1 & _ & H3);
        [simpl; by rewrite Hg2|]. by split.
    + destruct (poll_empty after (S (length (sse_queue (fd_stream f)))) f Hok Hbd Hp Hfl El) as (H1 & _ & H3); [lia|].
      by split.
Qed.
End delivery.

#[local] Existing Instance plain_codec.

Definition sse_store : SqliteStore := fst (create_session "s" "t" None None Forever empty_store).
Definition queue_event (run_id : string) : SemanticEvent := RunQueued run_id None "p" "m" JNull.

Lemma sse_store_ok : consistent sse_store /\ log "s" sse_store <> [].
Proof. split; [apply create_consistent, empty_consistent|vm_compute; discriminate]. Qed.

(** Two handlers record an event each while the stream is open; [first] publishes,
    then [second], and the client reads after each. *)
Definition two_recorded : Feed :=
  feed_append "s" "s" "t" [queue_event "r2"]
    (feed_append "s" "s" "t" [queue_event "r1"] (feed_open "s" (feed_start 0 sse_store))).
Definition published_by (i : nat) (f : Feed) : Feed := feed_poll "s" (feed_publish 16 i f).
Definition two_handlers (first second : nat) : Feed := published_by second (published_by first two_recorded).

Lemma published_run ordered i f : (ordered = true -> in_order i f) -> rtc (feed_step ordered "s" 16) f (published_by i f).
Proof. intros Hi. eapply rtc_l; [by apply (feed_step_publish _ _ _ _ i)|]. apply rtc_once, feed_step_poll. Qed.

Lemma two_handlers_run ordered first second :
  (ordered = true -> in_order first two_recorded /\ in_order second (published_by first two_recorded)) ->
  rtc (feed_step ordered "s" 16) (feed_start 0 sse_store) (two_handlers first second).
Proof.
  intros Hi. etrans; [|apply published_run; intros E; by apply Hi].
  etrans; [|apply published_run; intros E; by apply Hi].
  eapply rtc_l; [apply feed_step_open|]. eapply rtc_l; [apply feed_step_append|]. apply rtc_once, feed_step_append.
Qed.

Lemma in_order_test i f : forallb (fun l => bool_decide (l = [])) (take i (fd_flight f)) = true -> in_order i f.
Proof. intros Hg. apply Forall_forall. intros l Hl. rewrite forallb_elem in Hg. by apply Hg, bool_decide_eq_true in Hl. Qed.

Lemma stream_is_complete_witness :
  let f := two_handlers 0 1 in
  re_id <$> sse_sent (fd_stream f) = [1; 2; 3]
  /\ strip <$> sse_sent (fd_stream f) `prefix_of` List.filter (fun e => 0 <? re_id e) (log "s" (fd_store f)).
Proof.
  intros f. split; [vm_compute; reflexivity|].
  apply (stream_is_complete "s" 16 0 sse_store f); [apply sse_store_ok|apply sse_store_ok| |by split|vm_compute; discriminate].
  apply two_handlers_run. intros _. split; apply in_order_test; vm_compute; reflexivity.
Defined.

(** A gap: two handlers of one session commit one after the other and publish
    the other way round, which nothing prevents.  The client of an open stream
    then gets event 3 and never event 2, although everything was published and
    read; and as its checkpoint is 3, it does not get it after reconnecting. *)
Theorem reordered_publication_loses_an_event :
  rtc (feed_step false "s" 16) (feed_start 0 sse_store) (two_handlers 1 0)
  /\ fd_phase (two_handlers 1 0) = Live
  /\ concat (fd_flight (two_handlers 1 0)) = [] /\ sse_queue (fd_stream (two_handlers 1 0)) = []
  /\ re_id <$> log "s" (fd_store (two_handlers 1 0)) = [1; 2; 3]
  /\ (forall n, re_id <$> sse_sent (fd_stream (Nat.iter n (feed_poll "s") (two_handlers 1 0))) = [1; 3])
  /\ (sse_sent <$> open_stream "s" (sse_last_id (fd_stream (two_handlers 1 0)))
        (st_db (fd_store (two_handlers 1 0))) (subscribed (sse_last_id (fd_stream (two_handlers 1 0))))) = Ok [].
Proof.
  split; [by apply two_handlers_run|]. do 4 (split; [vm_compute; reflexivity|]).
  split; [|vm_compute; reflexivity].
  assert (E : feed_poll "s" (two_handlers 1 0) = two_handlers 1 0) by (vm_compute; reflexivity).
  intros n. assert (Hn : Nat.iter n (feed_poll "s") (two_handlers 1 0) = two_handlers 1 0).
  { induction n as [|n IH]; [done|]. by rewrite Nat.iter_succ, IH. }
  rewrite Hn. vm_compute. reflexivity.
Qed.

Definition two_slots : ResourceLimits := mkResourceLimits 8 256 32 16 MIB MIB MIB MIB 2 1 1024 MIB 512.

Lemma open_streams_bounded_witness :
  let s1 := fst (acquire_sse_connection two_slots "a" (new_slots two_slots)) in
  snd (acquire_sse_connection two_slots "a" s1) = Err SseCapacityExceeded
  /\ (snd (acquire_sse_connection two_slots "b" s1) = Ok () <->
      Z.of_nat (length ["a"]) < 2 /\ Z.of_nat (count_occ String.string_dec ["a"] "b") < 1).
Proof.
  intros s1. split; [vm_compute; reflexivity|].
  apply (open_streams_bounded two_slots ["a"] s1 "b"); [vm_compute; discriminate|vm_compute; discriminate|].
  apply rtc_once. apply slot_open. vm_compute. reflexivity.
Defined.
