(* ===== verification/TurnFacts.v ===== *)
(** One traversal of a turn (files Execution, Worker), for every property of
    handlers.

    [HandlerProperty K] says that [K] goes through sequencing, error handling and
    the operations that change no session; [TurnEvents] that it holds of appending
    the events a turn of a run may append, and of no others ([turn_event]).  Then it
    holds of [execute_run_with_child_timeout] and [record_result], and, with
    [DeliveryEvents], of [deliver_child_result].  SupervisorFacts
    has the instance for preorders on worlds, WorkerSpec those for the end of
    workers. *)

From S2P Require Import ProviderFacts.
From S2P Require Export WorldFacts Worker.
Import SessionProjection.

(** What the elementary operations are about: the store, the links, the
    reservations.  Everything else may change freely, but the clock only goes
    forward. *)
Definition core `{EventCodec} (w : World) : SqliteStore * list AgentLinkRecord * ResourceLimits * AdmissionState :=
  (w_store w, w_links w, w_limits w, w_admission w).
Definition same_core `{EventCodec} (w w' : World) : Prop :=
  core w' = core w /\ (w_ticks w <= w_ticks w')%N.

(** A turn leaves the configuration alone as well. *)
Definition same_session_core `{EventCodec} (w w' : World) : Prop :=
  same_core w w' /\ w_config w' = w_config w.

(** The events a turn of [run] appends to its session. *)
Definition turn_event (run : RunProjection) (e : SemanticEvent) : Prop :=
  match e with
  | SessionPhaseChanged _ _ _ | MessageStarted _ _ _ _ | MessageContentAppended _ _ | MessageCompleted _
  | MessageInterrupted _ | ContextCompactionStarted _ _ _ _ _ | ContextCompacted _ _
  | ContextCompactionFailed _ _ _ | ContextCompactionBypassed _ _ => True
  | RunAttemptStarted r _ n => r = rp_run_id run /\ exists k, 1 <= k <= ATTEMPTS /\ n = u32_add (rp_attempts run) k
  | RunAttemptFailed r _ _ _ | RunRequiresAction r _ | ToolCallEmitted r _ _ _ _ _ _ _
  | RunCompleted r _ | RunFailed r _ | RunCancelled r _ | RunInterrupted r _ => r = rp_run_id run
  | _ => False
  end.

Class HandlerProperty `{EventCodec} `{Outside} (K : forall A, M A -> Prop) : Prop := {
  hp_ret : forall A (a : A), K A (mret a);
  hp_fault : forall A f, f <> OutOfFuel -> K A (fun w => (w, Err f));
  hp_gets : forall A (f : World -> A), K A (gets f);
  hp_lift : forall A (r : result StoreError A), K A (lift r);
  hp_query : forall A (f : database -> result StoreError A), K A (query f);
  hp_bind : forall A B (m : M A) (f : A -> M B), K A m -> (forall a, K B (f a)) -> K B (a ← m; f a);
  hp_try : forall A (m : M A), K A m -> K _ (try m);
  hp_within : forall A (m : M A), K A m -> K _ (within m);
  hp_modify : forall f, (forall w, same_session_core w (f w)) -> K _ (modify f);
  hp_tick : K N tick;
  hp_projection : forall s, K _ (read_projection s);
  hp_response : forall s r m ex late seen response,
    (forall d, K _ (record_response_delta s r m d)) -> K _ (read_response s r m ex late seen response) }.

Class TurnEvents `{EventCodec} `{Outside} (K : forall A, M A -> Prop) (session_id : string) (run : RunProjection) : Prop :=
  te_append : forall e, turn_event run e -> K _ (append session_id e).

(** What the delivery of a child's result appends. *)
Class DeliveryEvents `{EventCodec} `{Outside} (K : forall A, M A -> Prop) : Prop := {
  de_finished : forall s id result, K _ (append s (AgentFinished id result));
  de_delivery : forall s l result all_ready, K _ (append_many s (delivery_events l result all_ready)) }.

Section turns.
  Context `{EventCodec} `{Outside} (K : forall A, M A -> Prop) `{!HandlerProperty K}.

Let ret A (a : A) : K A (mret a). Proof. apply hp_ret. Qed.
Let fails A e : K A (fail e). Proof. by apply hp_fault. Qed.
Let panics A : K A panic. Proof. by apply hp_fault. Qed.
Let drops A : K A dropped. Proof. by apply hp_fault. Qed.
Let reads A (f : World -> A) : K A (gets f). Proof. apply hp_gets. Qed.
Let lifts A (r : result StoreError A) : K A (lift r). Proof. apply hp_lift. Qed.
Let queries A (f : database -> result StoreError A) : K A (query f). Proof. apply hp_query. Qed.
Let ticks : K N tick. Proof. apply hp_tick. Qed.
Let projects s : K _ (read_projection s). Proof. apply hp_projection. Qed.
#[local] Hint Resolve ret fails panics drops reads lifts queries ticks projects : turns.

(** [same_tac] proves [same_session_core] of a world whose other parts changed. *)
Ltac same_tac := split; [split; simpl; [reflexivity|lia]|reflexivity].
#[local] Hint Extern 1 (K _ (modify _)) => apply hp_modify; intros w; same_tac : turns.

(** [turn_tac] goes through a handler and leaves what the hints do not know. *)
Ltac turn_tac :=
  repeat match goal with
  | |- K _ (mbind _ _) => apply hp_bind
  | |- K _ (try _) => apply hp_try
  | |- K _ (within _) => apply hp_within
  | |- K _ (or_failed _ _) => apply hp_bind
  | |- K _ (let '_ := _ in _) => case_match
  | |- K _ (match _ with _ => _ end) => case_match
  | |- forall _, _ => intro
  | |- K _ _ => solve [eauto 2 with turns]
  end.

(** ** What does not append *)

Lemma turn_fresh_id : K _ fresh_id.
Proof. unfold fresh_id. turn_tac. Qed.
Lemma turn_insert_token r : K _ (insert_token r).
Proof. unfold insert_token. turn_tac. Qed.
Lemma turn_remove_token r : K _ (remove_token r).
Proof. unfold remove_token. turn_tac. Qed.
Lemma turn_cancel_token r : K _ (cancel_token r).
Proof. unfold cancel_token. turn_tac. Qed.
Lemma turn_run_of p r : K _ (run_of p r).
Proof. unfold run_of. turn_tac. Qed.
Lemma turn_parse_request v : K _ (parse_request v).
Proof. unfold parse_request. turn_tac. Qed.
Lemma turn_resolve n : K _ (resolve n).
Proof. unfold resolve. turn_tac. Qed.
Lemma turn_agent_links s : K _ (agent_links s).
Proof. unfold agent_links. turn_tac. Qed.
Lemma turn_mcp_catalog : K _ mcp_catalog.
Proof. unfold mcp_catalog. turn_tac. Qed.
#[local] Hint Resolve turn_fresh_id turn_insert_token turn_remove_token turn_cancel_token turn_run_of turn_parse_request
  turn_resolve turn_agent_links turn_mcp_catalog : turns.
Lemma turn_is_native_call s r t : K _ (is_native_call s r t).
Proof. unfold is_native_call. turn_tac. Qed.
Lemma turn_run_body c pr q p n m : K _ (run_body c pr q p n m).
Proof. unfold run_body. turn_tac. Qed.
Lemma turn_run_budget q : K _ (run_budget q).
Proof. unfold run_budget. turn_tac. Qed.
Lemma turn_summarize_loop n pr : K _ (summarize_loop n pr).
Proof. induction n as [|n IH]; simpl; turn_tac. Qed.
#[local] Hint Resolve turn_is_native_call turn_run_body turn_run_budget turn_summarize_loop : turns.
Lemma turn_summarize_context pr q c l : K _ (summarize_context pr q c l).
Proof. unfold summarize_context. turn_tac. Qed.
Lemma turn_wait_within l : K _ (wait_within l).
Proof. unfold wait_within. turn_tac. Qed.
Lemma turn_initial_config q ex : K _ (initial_config q ex).
Proof. unfold initial_config. turn_tac. Qed.
Lemma turn_child_budget s : K _ (child_budget s).
Proof. unfold child_budget. turn_tac. Qed.
#[local] Hint Resolve turn_summarize_context turn_wait_within turn_initial_config turn_child_budget : turns.
Lemma turn_max_turns s : K _ (max_turns s).
Proof. unfold max_turns. turn_tac. Qed.

(** ** What appends *)

Section turn.
  Context (s : string) (run : RunProjection) `{!TurnEvents K s run}.
  Notation r := (rp_run_id run).

#[local] Hint Extern 1 (K _ (append _ _)) => apply te_append; simpl; done : turns.

Lemma turn_compaction_failed a c e {A} : K A (compaction_failed s r a c e).
Proof. unfold compaction_failed. turn_tac. Qed.
#[local] Hint Resolve turn_compaction_failed : turns.
Lemma turn_compact q c pr n m p e w v i f : K _ (compact s r q c pr n m p e w v i f).
Proof. unfold compact. turn_tac. Qed.
#[local] Hint Resolve turn_compact : turns.
Lemma turn_build_compacted_body q c pr n m : K _ (build_compacted_body s r q c pr n m).
Proof. unfold build_compacted_body. turn_tac. Qed.
#[local] Hint Resolve turn_build_compacted_body : turns.

Lemma turn_record_delta m d : K _ (record_response_delta s r m d).
Proof. unfold record_response_delta. turn_tac. Qed.
Lemma turn_read_response m ex lt seen response : K _ (read_response s r m ex lt seen response).
Proof. apply hp_response. intros d. apply turn_record_delta. Qed.
Lemma turn_record_input q a : K _ (record_input s run q a).
Proof. unfold record_input. turn_tac. Qed.
Lemma turn_prepare q c pr : K _ (prepare s run q c pr).
Proof. unfold prepare. turn_tac. Qed.
#[local] Hint Resolve turn_read_response turn_record_input turn_prepare : turns.
Lemma turn_execution_config q ex i : K _ (execution_config s run q ex i).
Proof. unfold execution_config. turn_tac. Qed.
Lemma turn_start_assistant e : K _ (start_assistant s e).
Proof. unfold start_assistant. turn_tac. Qed.
#[local] Hint Resolve turn_execution_config turn_start_assistant : turns.

(** The attempts of a turn are numbered from the run's own count. *)
Lemma turn_attempt id k : 1 <= k <= ATTEMPTS ->
  K _ (append s (RunAttemptStarted r id (u32_add (rp_attempts run) k))).
Proof. intros Hk. apply te_append. simpl. eauto. Qed.

Lemma turn_start_attempt n : 0 <= n <= ATTEMPTS -> K _ (start_attempt s run n).
Proof.
  intros Hn. unfold start_attempt. destruct (Z.eqb_spec n 0); turn_tac. apply turn_attempt. lia.
Qed.

Lemma turn_send_loop l n a : Z.of_nat n <= ATTEMPTS -> K _ (send_loop l n s run a).
Proof.
  revert a. induction n as [|n IH]; intros a Hn; cbn [send_loop]; turn_tac.
  - apply turn_attempt. lia.
  - apply IH. lia.
Qed.

Lemma turn_execute_run l n ex a : Z.of_nat n <= ATTEMPTS -> K _ (execute_run l n s run ex a).
Proof.
  revert ex a. induction n as [|n IH]; intros ex a Hn; cbn [execute_run]; turn_tac;
    first [apply turn_start_attempt; lia | apply turn_send_loop; lia | apply IH; lia].
Qed.

Lemma turn_execute : K _ (execute_run_with_child_timeout s run).
Proof. unfold execute_run_with_child_timeout. turn_tac; by apply turn_execute_run. Qed.

Lemma turn_interrupt_message : K _ (interrupt_message s).
Proof. unfold interrupt_message. turn_tac. Qed.
Lemma turn_complete_message f : K _ (complete_message s f).
Proof. unfold complete_message. turn_tac. Qed.
Lemma turn_leave_running t reason : K _ (leave_running s t reason).
Proof. unfold leave_running. turn_tac. Qed.
#[local] Hint Resolve turn_interrupt_message turn_complete_message turn_leave_running : turns.
Lemma turn_record_result res : K _ (record_result s r res).
Proof. unfold record_result. turn_tac. Qed.

End turn.

(** The delivery of a child's result, when going on with the parent does. *)
Lemma turn_deliver `{!DeliveryEvents K} process : (forall s, K _ (process s)) ->
  forall s r, K _ (deliver_child_result process s r).
Proof.
  intros Hp s r. pose proof de_finished as Hf. pose proof de_delivery as Hd.
  unfold deliver_child_result. turn_tac; first [apply Hd|apply Hp].
Qed.

(** ** Cancellation *)

Lemma turn_each {A} (f : A -> M ()) l : (forall a, a ∈ l -> K _ (f a)) -> K _ (each f l).
Proof.
  induction l as [|a l IH]; intros Hf; cbn [each]; turn_tac; [apply Hf; left|apply IH; intros b Hb; apply Hf; by right].
Qed.
Lemma turn_ensure_running : K _ ensure_running.
Proof. unfold ensure_running. turn_tac. Qed.
Lemma turn_ensure_session_mutable s : K _ (ensure_session_mutable s).
Proof. unfold ensure_session_mutable, project_is_deleting. turn_tac. Qed.
#[local] Hint Resolve turn_ensure_running turn_ensure_session_mutable : turns.

(** A cancellation, when those of the children do; [P] is what is known of the links
    that are found. *)
Lemma turn_cancel_run `{!DeliveryEvents K} process (P : AgentLinkRecord -> Prop) d s r :
  (forall s, K _ (process s)) -> (forall id reason, K _ (append s (RunCancelled id reason))) ->
  (forall B (k : list AgentLinkRecord -> M B), (forall l, Forall P l -> K _ (k l)) -> K _ (l ← agent_links s; k l)) ->
  (forall l, P l -> lr_parent_session_id l = s -> K _ (cancel_run process d (lr_child_session_id l) (lr_child_run_id l))) ->
  K _ (cancel_run process (S d) s r).
Proof.
  intros Hp Hc Hl Hd. pose proof (turn_deliver process Hp) as Hdel. cbn [cancel_run].
  do 4 (apply hp_bind; [turn_tac|intro]). case_match; try solve [turn_tac].
  all: apply hp_bind; [apply Hc|intros _]; apply Hl; intros l Hf; apply hp_bind; [|intros _; apply Hdel];
    apply turn_each; intros x Hx; apply list_elem_of_In, filter_In in Hx as [Hx [Hs _]%andb_true_iff];
    apply hp_bind; [|intros _; apply ret]; apply hp_try, Hd;
    [by rewrite Forall_forall in Hf; apply Hf, list_elem_of_In|by apply String.eqb_eq].
Qed.
End turns.

(** ** Preorders *)

(** A preorder that the operations keep which change no session. *)
Class KeptReads `{EventCodec} `{Outside} (R : relation World) : Prop := {
  kr_order :: PreOrder R;
  kr_core : forall w w', same_session_core w w' -> R w w';
  kr_projection : forall s, keeps R (read_projection s) }.

Section preorders.
  Context `{EventCodec} `{Outside} (R : relation World) `{!KeptReads R}.

Lemma keeps_within {A} (m : M A) : keeps R m -> keeps R (within m).
Proof. intros Hm w. specialize (Hm w). unfold within. destruct (m w) as [w' [|[]]]; exact Hm. Qed.

Lemma set_shutdown_kept b w : R w (World.set_shutdown b w).
Proof. apply kr_core. split; [split; simpl; [reflexivity|lia]|reflexivity]. Qed.

Lemma append_delta_kept s r m : (forall d, keeps R (record_response_delta s r m d)) ->
  forall d w, R w (fst (append_delta s r m d w)).
Proof.
  intros Hd d w. unfold append_delta. specialize (Hd d w).
  destruct (record_response_delta s r m d w) as [w' [|[]]]; exact Hd.
Qed.

Lemma response_kept s r m ex lt seen rs : (forall d, keeps R (record_response_delta s r m d)) ->
  keeps R (read_response s r m ex lt seen rs).
Proof.
  intros Hd w. unfold read_response. pose proof (append_delta_kept s r m Hd) as Ha.
  pose proof (fun l => stream_loop_kept from_str to_string (rv_protocol (ex_provider ex)) lt (append_delta s r m) R
    Ha l "" (stream_start w)) as Hs. simpl in Hs.
  destruct seen as [n|]; [destruct (body_stream_mode _); [apply Hs|reflexivity]|].
  set (st := if body_stream_mode (ex_body ex) then _ else _).
  assert (Hst : R w (st_world st)).
  { unfold st. destruct (body_stream_mode _); [apply Hs|]. unfold text_response.
    destruct (rs_text rs); try reflexivity. destruct (parse_non_stream_response _ _ _ _); [|reflexivity].
    apply (collect_deltas_kept _ R Ha _ (stream_start w)). }
  destruct (returned st); [destruct (st_outcome st); simpl; try exact Hst;
    etrans; [exact Hst|apply set_shutdown_kept]|].
  pose proof (flush_rest_kept (append_delta s r m) R Ha st) as Hf.
  destruct (flush_rest _ _) as [st' f]. simpl in *. etrans; [exact Hst|exact Hf].
Qed.

#[export] Instance keeps_property : HandlerProperty (fun A => @keeps _ R A).
Proof.
  split; intros; try (intros w; reflexivity); [by apply (keeps_bind R)|by apply (keeps_try R)|by apply keeps_within| | | |].
  - intros w. by apply kr_core.
  - intros w. apply kr_core. split; [split; simpl; [reflexivity|lia]|reflexivity].
  - apply kr_projection.
  - by apply response_kept.
Qed.

End preorders.
