(* ===== verification/SupervisorFacts.v ===== *)
(** Every handler of the supervisor keeps what its elementary operations keep.

    [KeptPrimitives R] is the interface: the operations that have to keep a
    preorder on worlds for the handlers of clients to keep it.  The answers of
    providers add one more, the record of a tool call ([KeptTurns]), and with it
    the workers keep it too.  Reservations has an instance for the invariant of
    the supervisor, DelegationSpec one for the calls of a run, and they get the
    property of each handler and worker from the lemmas [keeps_*] here. *)

From S2P Require Export TurnFacts.
Import SessionProjection.

(** The two places where a run is admitted. *)
Definition admit_new `{EventCodec} `{Outside} (session_id provider model : string) (request : json) : M string :=
  run_id ← fresh_id;
  _ ← reserve session_id run_id;
  _ ← admitted run_id (append session_id (RunQueued run_id None provider model request));
  mret run_id.

Definition admit_retry `{EventCodec} `{Outside} (session_id retry_of provider model : string)
    (request : json) : M string :=
  run_id ← fresh_id;
  _ ← reserve session_id run_id;
  p ← read_projection session_id;
  _ ← admitted run_id (append_many session_id
    (RunQueued run_id (Some retry_of) provider model request :: if sp_queue_paused p then [QueueResumed] else []));
  mret run_id.

(** The one place where a session becomes the child of another. *)
Definition link_child `{EventCodec} `{Outside} (parent : string) (title : option string)
    (record : string -> string -> string -> string -> AgentLinkRecord) : M AgentLinkRecord :=
  '(_, parent_session) ← query (get_session parent);
  session_id ← fresh_id;
  timestamp ← now;
  '(child, _) ← on_store (create_session session_id timestamp title (sr_project_id parent_session) Forever);
  instance_id ← fresh_id;
  run_id ← fresh_id;
  created_at ← now;
  _ ← create_agent_link (record child instance_id run_id created_at);
  mret (record child instance_id run_id created_at).

(** The two places where a worker starts a run. *)
Definition start_next `{EventCodec} `{Outside} (session_id : string) (p : SessionProjection) (run : RunProjection) :
    M (string * result StoreError RecordedEvent) :=
  _ ← (if decide (ss_phase (sp_state p) = Running) then mret ()
       else _ ← append session_id (SessionPhaseChanged (ss_phase (sp_state p)) Running (Some "run_started")); mret ());
  attempt_id ← fresh_id;
  _ ← insert_token (rp_run_id run);
  started ← try (append session_id (RunStarted (rp_run_id run) attempt_id (u32_add (rp_attempts run) 1)));
  mret (attempt_id, started).

Definition start_again `{EventCodec} `{Outside} (session_id : string) (run : RunProjection) : M RecordedEvent :=
  _ ← append session_id QueueResumed;
  attempt_id ← fresh_id;
  append session_id (RunStarted (rp_run_id run) attempt_id (u32_add (rp_attempts run) 1)).

(** Only the response of a provider adds a tool call, and only a worker starts a
    run. *)
Definition emits (e : SemanticEvent) : bool :=
  match e with ToolCallEmitted _ _ _ _ _ _ _ _ | RunStarted _ _ _ => true | _ => false end.

Class KeptPrimitives `{EventCodec} `{Outside} (R : relation World) := {
  kp_order :: PreOrder R;
  kp_core : forall w w', same_core w w' -> R w w';
  kp_projection : forall s, keeps R (read_projection s);
  kp_append : forall s e, emits e = false -> keeps R (append s e);
  kp_append_many : forall s l, existsb emits l = false -> keeps R (append_many s l);
  kp_admit_new : forall s p m q, keeps R (admit_new s p m q);
  kp_admit_retry : forall s o p m q w p0, read_projection s w = (w, Ok p0) -> R w (fst (admit_retry s o p m q w));
  kp_start_next : forall s p run w, read_projection s w = (w, Ok p) -> active_run p = None -> R w (fst (start_next s p run w));
  kp_start_again : forall s p run w, read_projection s w = (w, Ok p) -> active_run p = None -> R w (fst (start_again s run w));
  kp_create_session : forall i n t pid h, keeps R (on_store (create_session i n t pid h));
  kp_link_child : forall parent title record,
    (forall c i r t, lr_parent_session_id (record c i r t) = parent /\ lr_child_session_id (record c i r t) = c) ->
    keeps R (link_child parent title record) }.

Class KeptTurns `{EventCodec} `{Outside} (R : relation World) := {
  kt_emit : forall s r m c a t v raw n, keeps R (append s (ToolCallEmitted r m c a t v raw n)) }.

#[export] Instance primitives_reads `{EventCodec} `{Outside} (R : relation World) `{!KeptPrimitives R} : KeptReads R.
Proof. split; [apply _|intros w w' [Hc _]; by apply kp_core|apply kp_projection]. Qed.

#[export] Instance primitives_turns `{EventCodec} `{Outside} (R : relation World) `{!KeptPrimitives R} `{!KeptTurns R} s run :
  TurnEvents (fun A => @keeps _ R A) s run.
Proof. intros e Ht. destruct (emits e) eqn:He; [|by apply kp_append]. destruct e; try done. apply kt_emit. Qed.

(** What was read once is read again. *)
Lemma read_projection_again `{EventCodec} s w w' p :
  read_projection s w = (w', Ok p) -> read_projection s w' = (w', Ok p).
Proof.
  unfold read_projection, on_store, projection. destruct (st_cache (w_store w) !! s) as [q|] eqn:Hc.
  - simpl. intros [= <- ->]. simpl. rewrite Hc. by destruct w.
  - destruct (events ← _; project s events) as [q|e]; simpl; [|done].
    intros [= <- ->]. simpl. rewrite lookup_insert_eq. by destruct w.
Qed.

(** Sequencing is associative up to what a handler does. *)
Lemma bind_assoc `{EventCodec} {A B C} (m : M A) (f : A -> M B) (g : B -> M C) w :
  (b ← (a ← m; f a); g b) w = (a ← m; b ← f a; g b) w.
Proof. unfold mbind, M_bind. by destruct (m w) as [w' [a|e]]. Qed.

Lemma keeps_ext `{EventCodec} (R : relation World) {A} (m m' : M A) :
  (forall w, m w = m' w) -> keeps R m -> keeps R m'.
Proof. intros He Hm w. rewrite <- He. apply Hm. Qed.

(** ** What handlers record emits no call *)

Lemma silent_app l1 l2 : existsb emits l1 = false -> existsb emits l2 = false -> existsb emits (l1 ++ l2) = false.
Proof. intros H1 H2. by rewrite existsb_app, H1, H2. Qed.

Lemma silent_fmap {A} (f : A -> SemanticEvent) l : (forall x, emits (f x) = false) -> existsb emits (f <$> l) = false.
Proof. intros Hf. induction l as [|x l IH]; [done|]. rewrite fmap_cons. simpl. by rewrite Hf. Qed.

Lemma silent_concat {A} (f : A -> list SemanticEvent) l :
  (forall x, existsb emits (f x) = false) -> existsb emits (concat (f <$> l)) = false.
Proof. intros Hf. induction l as [|x l IH]; [done|]. rewrite fmap_cons. simpl. by apply silent_app. Qed.

Lemma shutdown_events_silent reason p : existsb emits (shutdown_events reason p) = false.
Proof. apply silent_app; [by apply silent_fmap|by case_match]. Qed.

Lemma evaluate_silent rules s pid a cfg ceiling ids run events pending :
  evaluate_tool_permissions rules s pid a cfg ceiling ids run = (events, pending) -> existsb emits events = false.
Proof. unfold evaluate_tool_permissions. intros [= <- _]. apply silent_concat. intros c. unfold call_events. by repeat case_match. Qed.

#[export] Instance primitives_delivery `{EventCodec} `{Outside} (R : relation World) `{!KeptPrimitives R} :
  DeliveryEvents (fun A => @keeps _ R A).
Proof. split; intros; [by apply kp_append|apply kp_append_many]. unfold delivery_events. by case_match. Qed.

(** Relations that any append keeps. *)
Lemma starts_kept `{EventCodec} `{Outside} (R : relation World) `{!KeptReads R} :
  (forall s e, keeps R (append s e)) ->
  (forall s p run, keeps R (start_next s p run)) /\ (forall s run, keeps R (start_again s run)).
Proof.
  pose proof (turn_fresh_id (fun A => keeps R)) as Hf. pose proof (turn_insert_token (fun A => keeps R)) as Ht.
  intros Ha. split; intros; unfold start_next, start_again; keeps_tac; first [apply Ha|apply Hf|apply Ht].
Qed.

Section handlers.
  Context `{EventCodec} `{Outside} (R : relation World) `{!KeptPrimitives R}.

Lemma keeps_core {A} (m : M A) : (forall w, same_core w (fst (m w))) -> keeps R m.
Proof. intros Hm w. by apply kp_core. Qed.

Lemma keeps_modify_core f : (forall w, same_core w (f w)) -> keeps R (modify f).
Proof. intros Hf. by apply keeps_core. Qed.

(** [core_tac] proves [same_core] of a world whose other parts changed. *)
Ltac core_tac := split; simpl; [reflexivity|lia].

Lemma keeps_tick : keeps R tick.
Proof. apply keeps_core. intros w. core_tac. Qed.
Lemma keeps_fresh_id : keeps R fresh_id.
Proof. apply (turn_fresh_id (fun A => keeps R)). Qed.
Lemma keeps_now : keeps R now.
Proof. apply keeps_core. intros w. core_tac. Qed.
Lemma keeps_spawn_worker s : keeps R (spawn_worker s).
Proof. apply keeps_core. intros w. unfold spawn_worker, modify. simpl. destruct (w_shutdown w); core_tac. Qed.
Lemma keeps_insert_token r : keeps R (insert_token r).
Proof. apply (turn_insert_token (fun A => keeps R)). Qed.
Lemma keeps_remove_token r : keeps R (remove_token r).
Proof. apply (turn_remove_token (fun A => keeps R)). Qed.
Lemma keeps_cancel_token r : keeps R (cancel_token r).
Proof. apply (turn_cancel_token (fun A => keeps R)). Qed.

#[local] Hint Resolve keeps_tick keeps_fresh_id keeps_now keeps_spawn_worker keeps_insert_token keeps_remove_token
  keeps_cancel_token kp_projection kp_append kp_append_many kp_create_session : keeps.
#[local] Hint Extern 1 (keeps _ (append_many _ _)) =>
  apply kp_append_many; first [eassumption | by eapply evaluate_silent
    | by apply silent_fmap | by simpl; repeat case_match] : keeps.
#[local] Hint Extern 1 (keeps _ (modify _)) => apply keeps_modify_core; intros w; core_tac : keeps.

Lemma keeps_ensure_running : keeps R ensure_running.
Proof. unfold ensure_running. keeps_tac. Qed.
Lemma keeps_ensure_session_mutable s : keeps R (ensure_session_mutable s).
Proof. unfold ensure_session_mutable, project_is_deleting. keeps_tac. Qed.
Lemma keeps_run_of p r : keeps R (run_of p r).
Proof. apply (turn_run_of (fun A => keeps R)). Qed.
Lemma keeps_parse_request v : keeps R (parse_request v).
Proof. apply (turn_parse_request (fun A => keeps R)). Qed.
Lemma keeps_resolve n : keeps R (resolve n).
Proof. apply (turn_resolve (fun A => keeps R)). Qed.
Lemma keeps_agent_links s : keeps R (agent_links s).
Proof. apply (turn_agent_links (fun A => keeps R)). Qed.

#[local] Hint Resolve keeps_ensure_running keeps_ensure_session_mutable keeps_run_of keeps_parse_request
  keeps_resolve keeps_agent_links : keeps.

Lemma keeps_admit_new s p m q {B} (k : string -> M B) : (forall r, keeps R (k r)) ->
  keeps R (r ← fresh_id; _ ← reserve s r; _ ← admitted r (append s (RunQueued r None p m q)); k r).
Proof.
  intros Hk. apply (keeps_ext _ (r ← admit_new s p m q; k r)); [|apply (keeps_bind R); [apply kp_admit_new|done]].
  intros w. unfold admit_new, mbind, M_bind. destruct (fresh_id w) as [w1 [r|]]; [|done].
  destruct (reserve s r w1) as [w2 [|]]; [|done]. by destruct (admitted r _ w2) as [w3 [|]].
Qed.

Lemma keeps_admit_retry s o p m q {B} (k : string -> M B) w p0 :
  read_projection s w = (w, Ok p0) -> (forall r, keeps R (k r)) ->
  R w (fst ((r ← fresh_id; _ ← reserve s r; p0 ← read_projection s;
           _ ← admitted r (append_many s (RunQueued r (Some o) p m q :: if sp_queue_paused p0 then [QueueResumed] else []));
           k r) w)).
Proof.
  intros Hp Hk. pose proof (kp_admit_retry (R := R) s o p m q w p0 Hp) as Ha. revert Ha.
  unfold admit_retry, mbind, M_bind. destruct (fresh_id w) as [w1 [r|]]; [|done].
  destruct (reserve s r w1) as [w2 [|]]; [|done]. destruct (read_projection s w2) as [w3 [|]]; [|done].
  destruct (admitted r _ w3) as [w4 [|]]; [|done]. simpl. intros Ha. etrans; [exact Ha|apply Hk].
Qed.

(** After what was related. *)
Lemma kept_then {A B} (m : M A) (k : A -> M B) w : R w (fst (m w)) -> (forall a, keeps R (k a)) -> R w (fst ((a ← m; k a) w)).
Proof. intros Hm Hk. unfold mbind, M_bind. destruct (m w) as [w1 [a|e]]; [|done]. etrans; [exact Hm|apply Hk]. Qed.

(** A projection that was just read is there. *)
Lemma keeps_read_then s {B} (k : SessionProjection -> M B) :
  (forall w p, read_projection s w = (w, Ok p) -> R w (fst (k p w))) -> keeps R (p ← read_projection s; k p).
Proof.
  intros Hk w. pose proof (kp_projection (R := R) s w) as Hr. unfold mbind, M_bind.
  destruct (read_projection s w) as [w1 [p|e]] eqn:E; simpl in *; [|done].
  etrans; [exact Hr|]. by apply Hk, (read_projection_again s w).
Qed.

Lemma keeps_queue_run s q : keeps R (queue_run s q).
Proof. unfold queue_run. keeps_tac. apply keeps_admit_new. keeps_tac. Qed.
Lemma keeps_retry s r : keeps R (retry s r).
Proof.
  unfold retry. do 2 (apply (keeps_bind R); [eauto with keeps|intros _]).
  apply keeps_read_then. intros w p Hp. unfold run_of. destruct (ok_or _ _) as [run|]; [|reflexivity].
  rewrite lift_Ok. destruct (negb _); [reflexivity|].
  unfold parse_request. destruct (ok_or _ _) as [q|]; [|reflexivity]. rewrite lift_Ok.
  apply (keeps_admit_retry _ _ _ _ _ _ _ p Hp). keeps_tac.
Qed.
Lemma keeps_resume s : keeps R (resume s).
Proof. unfold resume. keeps_tac. Qed.
Lemma keeps_submit_tool_result s r c v : keeps R (submit_tool_result s r c v).
Proof. unfold submit_tool_result. keeps_tac. Qed.
Lemma keeps_resume_after_restart : keeps R resume_ready_actions_after_restart.
Proof.
  unfold resume_ready_actions_after_restart, store_session_ids. keeps_tac. apply (keeps_each R).
  intros s _. unfold resume_session_after_restart. keeps_tac.
Qed.
Lemma keeps_interrupt_remaining_runs reason : keeps R (interrupt_remaining_runs reason).
Proof.
  unfold interrupt_remaining_runs, store_session_ids. keeps_tac. apply (keeps_each R).
  intros s _. unfold interrupt_session_runs. apply (keeps_bind R); [eauto with keeps|intros p].
  pose proof (shutdown_events_silent reason p). keeps_tac.
Qed.
Lemma keeps_interrupt_message s : keeps R (interrupt_message s).
Proof. unfold interrupt_message. keeps_tac. Qed.
Lemma keeps_resume_if_ready s r : keeps R (resume_if_tool_results_ready s r).
Proof. unfold resume_if_tool_results_ready. keeps_tac. Qed.
#[local] Hint Resolve keeps_interrupt_message keeps_resume_if_ready : keeps.

(** ** Tools and permissions *)

Lemma keeps_mcp_catalog : keeps R mcp_catalog.
Proof. apply (turn_mcp_catalog (fun A => keeps R)). Qed.
#[local] Hint Resolve keeps_mcp_catalog : keeps.
Lemma keeps_is_native_call s r t : keeps R (is_native_call s r t).
Proof. apply (turn_is_native_call (fun A => keeps R)). Qed.
Lemma keeps_plan_delegation s r v : keeps R (plan_delegation s r v).
Proof. unfold plan_delegation. keeps_tac. Qed.
#[local] Hint Resolve keeps_is_native_call keeps_plan_delegation : keeps.
Lemma keeps_link_child parent title record {B} (k : AgentLinkRecord -> M B) :
  (forall c i r t, lr_parent_session_id (record c i r t) = parent /\ lr_child_session_id (record c i r t) = c) ->
  (forall l, keeps R (k l)) ->
  keeps R ('(_, parent_session) ← query (get_session parent);
           session_id ← fresh_id;
           timestamp ← now;
           '(child, _) ← on_store (create_session session_id timestamp title (sr_project_id parent_session) Forever);
           instance_id ← fresh_id;
           run_id ← fresh_id;
           created_at ← now;
           _ ← create_agent_link (record child instance_id run_id created_at);
           k (record child instance_id run_id created_at)).
Proof.
  intros Hr Hk. apply (keeps_ext _ (l ← link_child parent title record; k l));
    [|apply (keeps_bind R); [by apply kp_link_child|done]].
  intros w. unfold link_child, mbind, M_bind. destruct (query _ w) as [w1 [[? ?]|]]; [|done]. simpl.
  destruct (on_store _ _) as [w2 [[? ?]|]]; [|done]. simpl. by destruct (create_agent_link _ _) as [w3 [|]].
Qed.

Lemma keeps_spawn_delegated_child s r c a v : keeps R (spawn_delegated_child s r c a v).
Proof.
  unfold spawn_delegated_child. apply (keeps_bind R); [eauto with keeps|intros d].
  apply (keeps_bind R); [eauto with keeps|intros config].
  apply (keeps_link_child s _ (fun child i run t => mkLinkRecord i (dr_agent (dl_request d)) s r c child run (dl_depth d)
    (child_budget_of (orchestration config)) (dl_ceiling d) t) (fun l =>
      let child := lr_child_session_id l in
      _ ← append s (AgentSpawned (lr_instance_id l) (Some a) (Some (link_of_record l)) None);
      message_id ← fresh_id;
      _ ← append_many child (child_start a message_id l (context_refs s (dl_context d)));
      p ← read_projection child;
      context_message ← lift (ok_or (CorruptSession child "delegated context message was not projected")
                                (mp_message_id <$> last (sp_messages p)));
      _ ← append_many child (child_run d l context_message);
      spawn_worker child)); [done|].
  intros l. cbv zeta. keeps_tac.
Qed.
#[local] Hint Resolve keeps_spawn_delegated_child : keeps.
Lemma keeps_run_native p t v : keeps R (run_native p t v).
Proof. unfold run_native. keeps_tac. Qed.
Lemma keeps_run_mcp t v : keeps R (run_mcp t v).
Proof. unfold run_mcp. keeps_tac. Qed.
#[local] Hint Resolve keeps_run_native keeps_run_mcp : keeps.
Lemma keeps_execute_call s r p c : keeps R (execute_call s r p c).
Proof. unfold execute_call. keeps_tac. Qed.
#[local] Hint Resolve keeps_execute_call : keeps.
Lemma keeps_execute_approved n s r p : keeps R (execute_approved n s r p).
Proof. induction n as [|n IH]; simpl; keeps_tac. Qed.
#[local] Hint Resolve keeps_execute_approved : keeps.
Lemma keeps_session_project s : keeps R (session_project s).
Proof. unfold session_project. keeps_tac. Qed.
#[local] Hint Resolve keeps_session_project : keeps.
Lemma keeps_execute_approved_native_calls s r : keeps R (execute_approved_native_calls s r).
Proof. unfold execute_approved_native_calls. keeps_tac. Qed.
#[local] Hint Resolve keeps_execute_approved_native_calls : keeps.
Lemma keeps_evaluate_permissions s r v : keeps R (evaluate_permissions s r v).
Proof. unfold evaluate_permissions. keeps_tac. Qed.
Lemma keeps_create_rule sc s p a t : keeps R (create_rule sc s p a t).
Proof. unfold create_rule. keeps_tac. Qed.
#[local] Hint Resolve keeps_evaluate_permissions keeps_create_rule : keeps.
Lemma keeps_approval_rule sc s p q : keeps R (approval_rule sc s p q).
Proof. unfold approval_rule. keeps_tac. Qed.
#[local] Hint Resolve keeps_approval_rule : keeps.

(** What is recorded for a denial is a result. *)
Lemma keeps_denial (b : bool) r q {B} (k : list SemanticEvent -> M B) :
  (forall l, existsb emits l = false -> keeps R (k l)) ->
  keeps R (l ← (if b then lift (denial_result r q) else mret []); k l).
Proof.
  intros Hk. destruct b; [|by apply (Hk [])]. intros w. unfold mbind, M_bind, lift, denial_result.
  destruct (pp_call_id q); simpl; [|reflexivity]. by apply Hk.
Qed.

Lemma keeps_resolve_permission s r q d sc : keeps R (resolve_permission s r q d sc).
Proof.
  unfold resolve_permission. do 2 (apply (keeps_bind R); [eauto with keeps|intro]).
  do 2 (apply (keeps_bind R); [keeps_tac|intro]). case_match; [keeps_tac|]. case_match; [keeps_tac|].
  case_match; [keeps_tac|]. apply (keeps_bind R); [keeps_tac|intros [? session]].
  apply (keeps_bind R); [keeps_tac|intros rule]. apply keeps_denial. intros l Hl. keeps_tac.
Qed.

(** ** Bodies and turns *)

  Context `{!KeptTurns R}.
#[local] Hint Resolve kt_emit : keeps.

Lemma keeps_max_turns s : keeps R (max_turns s).
Proof. apply (turn_max_turns (fun A => keeps R)). Qed.
Lemma keeps_execute_run_with_child_timeout s r : keeps R (execute_run_with_child_timeout s r).
Proof. apply (turn_execute (fun A => keeps R)). apply _. Qed.
#[local] Hint Resolve keeps_max_turns keeps_execute_run_with_child_timeout : keeps.

(** ** Workers *)

Lemma keeps_pause_for_calls s r res : keeps R (pause_for_calls s r res).
Proof. unfold pause_for_calls, or_failed. keeps_tac. Qed.
Lemma keeps_record_result s run res : keeps R (record_result s (rp_run_id run) res).
Proof. apply (turn_record_result (fun A => keeps R)). apply _. Qed.
Lemma keeps_leave_running s t r : keeps R (leave_running s t r).
Proof. unfold leave_running. keeps_tac. Qed.
#[local] Hint Resolve keeps_pause_for_calls keeps_record_result keeps_leave_running : keeps.

(** The limit of turns is only looked up. *)
Lemma max_turns_still s w : exists r, max_turns s w = (w, r).
Proof.
  unfold max_turns, child_budget, agent_links, mbind, M_bind, query, gets. destruct (ensure_session _ _) as [[]|e]; simpl; [|by eexists].
  destruct (child_link _ _); by eexists.
Qed.

Section nested.
  Context (process : string -> M ()) (Hprocess : forall s, keeps R (process s)).
  #[local] Hint Resolve Hprocess : keeps.

Lemma keeps_deliver_child_result s r : keeps R (deliver_child_result process s r).
Proof. by apply (turn_deliver (fun A => keeps R)). Qed.
#[local] Hint Resolve keeps_deliver_child_result : keeps.
Lemma keeps_finish_run s r res : keeps R (finish_run process s r res).
Proof. unfold finish_run. keeps_tac. Qed.
#[local] Hint Resolve keeps_finish_run : keeps.
Lemma keeps_run_turn s r : keeps R (run_turn process s r).
Proof. unfold run_turn. keeps_tac. Qed.
#[local] Hint Resolve keeps_run_turn : keeps.
(** A run goes on, or is started, in a session without a running one. *)
Lemma continue_run_kept s p run w : read_projection s w = (w, Ok p) -> active_run p = None ->
  R w (fst (continue_run process s run w)).
Proof.
  intros Hp Ha. unfold continue_run. destruct (max_turns_still s w) as [[limit|e] E];
    [rewrite (bind_Ok _ _ _ _ _ E)|by rewrite (bind_Err _ _ _ _ _ E)].
  destruct (limit <=? rp_attempts run).
  - apply (keeps_bind R); [by apply kp_append|intros _; apply (keeps_ret R)].
  - assert (R w (fst ((_ ← start_again s run; _ ← insert_token (rp_run_id run); run_turn process s run) w))) as Hr.
    { apply kept_then; [by eapply kp_start_again|]. keeps_tac. }
    revert Hr. unfold start_again, mbind, M_bind. destruct (append s QueueResumed w) as [w1 [|]]; [|done].
    destruct (fresh_id w1) as [w2 [|]]; [|done]. by destruct (append s _ w2) as [w3 [|]].
Qed.

Lemma start_run_kept s p run w : read_projection s w = (w, Ok p) -> active_run p = None ->
  R w (fst (start_run process s p run w)).
Proof.
  intros Hp Ha.
  set (after := fun attempt_id started => match started : result StoreError RecordedEvent with
    | Err e => _ ← remove_token (rp_run_id run); fail e
    | Ok _ => run_turn process s (set_attempt attempt_id (u32_add (rp_attempts run) 1) run)
    end).
  assert (R w (fst ((x ← start_next s p run; after (fst x) (snd x)) w))) as Hr.
  { apply kept_then; [by eapply kp_start_next|]. intros [attempt started]. unfold after. simpl. keeps_tac. }
  revert Hr. unfold start_run, start_next, mbind, M_bind. destruct (_ w) as [w1 [|]]; [|done].
  destruct (fresh_id w1) as [w2 [|]]; [|done]. destruct (insert_token _ w2) as [w3 [|]]; [|done].
  by destruct (try _ w3) as [w4 [|]].
Qed.

Lemma keeps_process_round s : keeps R (process_round process s).
Proof.
  unfold process_round. apply (keeps_bind R); [keeps_tac|intros stopped]. case_match; [keeps_tac|].
  apply keeps_read_then. intros w p Hp. case_bool_decide as Ha; [reflexivity|]. apply eq_None_not_Some in Ha.
  destruct (ready_action_run p); [apply kept_then; [by eapply continue_run_kept|keeps_tac]|].
  destruct (sp_queue_paused p); [reflexivity|]. destruct (queued_runs p) as [|run l].
  - apply (keeps_bind R); keeps_tac.
  - apply kept_then; [by eapply start_run_kept|keeps_tac].
Qed.
Lemma keeps_cancel_run d s r : keeps R (cancel_run process d s r).
Proof.
  revert s r. induction d as [|d IH]; intros s r; cbn [cancel_run]; keeps_tac;
    apply (keeps_each R); intros l _; keeps_tac; apply IH.
Qed.
End nested.

Lemma keeps_process_session n s : keeps R (process_session n s).
Proof.
  revert s. induction n as [|n IH]; intros s; cbn [process_session]; keeps_tac. by apply keeps_process_round.
Qed.
#[local] Hint Resolve keeps_process_session : keeps.

Lemma keeps_cancel n s r : keeps R (cancel n s r).
Proof. unfold cancel. keeps_tac. apply keeps_cancel_run. intros. apply keeps_process_session. Qed.

Lemma keeps_run_worker n : keeps R (run_worker n).
Proof.
  intros w. unfold run_worker. destruct (w_workers w) as [|s rest] eqn:E; [reflexivity|].
  pose proof (keeps_process_session n s (set_workers rest w)) as Hp.
  assert (R w (set_workers rest w)) as Hw by (apply kp_core; core_tac).
  etrans; [exact Hw|]. by destruct (process_session n s _) as [w' [|[]]].
Qed.

Lemma keeps_shutdown b : keeps R (shutdown b).
Proof. unfold shutdown. keeps_tac. apply keeps_interrupt_remaining_runs. Qed.

End handlers.
