(* ===== verification/Steps.v ===== *)
(** What appending does to a world (files World, Views): the events are applied to
    the view of their session, published in order, and the reservations of the
    runs they end are released; a refused append changes nothing but the clock.

    Also here: a run that is not over stays so until one of its four last events. *)

From S2P Require Export Views WorldFacts.
From S2P Require Export World.
Import SessionProjection.

(** ** Live runs *)

Definition live (p : SessionProjection) (run_id : string) : Prop :=
  exists run, sp_runs p !! run_id = Some run /\ terminal (rp_status run) = false.

Lemma live_same_runs p p' r : sp_runs p' = sp_runs p -> live p r -> live p' r.
Proof. unfold live. by intros ->. Qed.

Lemma update_run_live k f p p' r :
  k <> r \/ (forall x x', f x = Ok x' -> terminal (rp_status x) = false -> terminal (rp_status x') = false) ->
  update_run k f p = Ok p' -> live p r -> live p' r.
Proof.
  intros Hf (x & x' & Hx & Hfx & ->)%update_run_Ok (run & Hr & Hl). unfold live. simpl.
  destruct (decide (k = r)) as [->|Hk].
  - destruct Hf as [|Hf]; [done|]. simplify_eq. rewrite lookup_insert_eq. eauto.
  - rewrite lookup_insert_ne by done. eauto.
Qed.

Lemma update_message_runs id f p p' : update_message id f p = Ok p' -> sp_runs p' = sp_runs p.
Proof. unfold update_message. intros H. by inv_ok. Qed.
Lemma update_instance_runs id f p p' : update_instance id f p = Ok p' -> sp_runs p' = sp_runs p.
Proof. unfold update_instance. intros H. by inv_ok. Qed.

Lemma set_run_terminal_live k s e p p' r :
  k <> r -> set_run_terminal k s e p = Ok p' -> live p r -> live p' r.
Proof. intros Hk. apply update_run_live. by left. Qed.

Lemma end_run_live k s e b p p' r :
  k <> r -> (p1 ← set_run_terminal k s e p; Ok (set_queue_paused b p1)) = Ok p' -> live p r -> live p' r.
Proof.
  intros Hk H Hl. inv_ok. by refine (set_run_terminal_live _ _ _ _ _ _ Hk Heqr0 Hl).
Qed.

Lemma project_event_live i ev p p' r :
  project_event i ev p = (p', None) -> terminal_run ev <> Some r -> live p r -> live p' r.
Proof.
  intros H Ht Hl. destruct ev; simpl in H, Ht; rewrite ?leave_Ok in H;
    try (injection H as <-; exact Hl);
    try (eapply live_same_runs; [eapply update_message_runs; exact H|exact Hl]);
    try (eapply live_same_runs; [eapply update_instance_runs; exact H|exact Hl]).
  - eapply live_same_runs; [|exact Hl]. unfold message_started in H. by destruct (existsb _ _); simplify_eq.
  - unfold run_queued in H. case_bool_decide as Hn; simplify_eq. destruct Hl as (run & Hr & Hl).
    exists run. simpl. rewrite lookup_insert_ne; [done|]. intros ->. apply Hn. by rewrite Hr.
  - unfold run_started in H. inv_ok. refine (update_run_live _ _ _ _ _ _ Heqr0 Hl).
    right. intros x x' Hx. case_bool_decide; by simplify_eq/=.
  - refine (update_run_live _ _ _ _ _ _ H Hl). right. intros x x' Hx. case_bool_decide; by simplify_eq/=.
  - refine (update_run_live _ _ _ _ _ _ H Hl). right. intros x x' Hx. by simplify_eq/=.
  - unfold run_completed in H. inv_ok. refine (update_run_live _ _ _ _ _ _ H _); [left; congruence|].
    eapply set_run_terminal_live; [|done|done]. congruence.
  - eapply end_run_live; [|exact H|done]. congruence.
  - eapply end_run_live; [|exact H|done]. congruence.
  - eapply end_run_live; [|exact H|done]. congruence.
  - unfold run_requires_action in H. inv_ok. refine (update_run_live _ _ _ _ _ _ Heqr0 Hl).
    right. intros x x' Hx. case_bool_decide; by simplify_eq/=.
  - refine (update_run_live _ _ _ _ _ _ H Hl). right. intros x x' Hx. case_bool_decide; by simplify_eq/=.
  - refine (update_run_live _ _ _ _ _ _ H Hl). right. intros x x' Hx. by inv_ok.
  - refine (update_run_live _ _ _ _ _ _ H Hl). right. intros x x' Hx. by inv_ok.
  - eapply live_same_runs; [|exact Hl]. unfold permission_requested in H. by case_bool_decide; simplify_eq.
  - eapply live_same_runs; [|exact Hl]. unfold permission_resolved in H. by inv_ok.
  - eapply live_same_runs; [|exact Hl]. unfold agent_spawned in H. apply leave_Ok in H.
    by case_bool_decide; simplify_eq.
  - eapply live_same_runs; [|exact Hl]. unfold agent_finished in H. apply leave_Ok in H.
    by apply update_instance_runs in H.
  - injection H as <-. eapply live_same_runs; [|exact Hl]. unfold context_fact_recorded. by case_match.
Qed.

Lemma try_apply_live i ev p p' r :
  try_apply i ev p = Ok p' -> terminal_run ev <> Some r -> live p r -> live p' r.
Proof. intros (s & _ & H)%try_apply_inv. by apply (project_event_live i ev (set_state s p)). Qed.

Lemma log_steps_live events : forall n p m p' r,
  try_fold log_step (n, p) events = Ok (m, p') -> (forall ev, ev ∈ events -> terminal_run ev <> Some r) ->
  live p r -> live p' r.
Proof.
  induction events as [|ev events IH]; intros n p m p' r H Ht Hl; [by simplify_eq/=|].
  cbn [try_fold] in H. destruct (log_step (n, p) ev) as [[n1 p1]|] eqn:Hs; [|done]. simpl in H.
  eapply IH; [done|intros; apply Ht; by right|]. unfold log_step in Hs. destruct (_ <? _); [done|].
  destruct (try_apply _ _ _) eqn:Ha; simplify_eq/=. eapply try_apply_live; [done|apply Ht; left|done].
Qed.

(** ** Events that apply *)

Lemma phase_apply i p from to reason : ss_phase (sp_state p) = from -> from ∈ SessionState.allowed_sources to ->
  exists p', try_apply i (SessionPhaseChanged from to reason) p = Ok p'
    /\ ss_phase (sp_state p') = to /\ sp_runs p' = sp_runs p /\ sp_messages p' = sp_messages p
    /\ sp_queue_paused p' = sp_queue_paused p.
Proof.
  intros Hp Ha. unfold try_apply, apply, SessionState.apply. rewrite bool_decide_eq_true_2 by done. cbn [negb].
  unfold SessionState.transition. rewrite Hp.
  rewrite bool_decide_eq_true_2 by done. simpl. eexists. by split_and!.
Qed.

(** ** Announcing *)

Section steps.
  Context `{EventCodec} `{Outside}.

Definition released (events : list SemanticEvent) (a : AdmissionState) : AdmissionState :=
  foldl (fun a r => AdmissionController.release r a) a (omap terminal_run events).
Definition hub_publish (recorded : list RecordedEvent) (h : EventHub) : EventHub :=
  foldl (fun h e => EventHub.publish e h) h recorded.
Definition announced (recorded : list RecordedEvent) (w : World) : World :=
  set_hub (hub_publish recorded (w_hub w)) (set_admission (released (re_event <$> recorded) (w_admission w)) w).
Definition ticked (w : World) : World := set_ticks (w_ticks w + 1) w.

Lemma announce_eq e w : announce e w = (announced [e] w, Ok ()).
Proof.
  unfold announce, release_terminal_admission, announced, released, mbind, M_bind, publish, modify, release. simpl.
  destruct (terminal_run _); by destruct w.
Qed.

Lemma announced_app l1 l2 w : announced (l1 ++ l2) w = announced l2 (announced l1 w).
Proof. unfold announced, hub_publish, released. by rewrite fmap_app, omap_app, !foldl_app. Qed.

Lemma each_announce l w : each announce l w = (announced l w, Ok ()).
Proof.
  revert w. induction l as [|e l IH]; intros w; [by destruct w|].
  cbn [each]. unfold mbind, M_bind. rewrite announce_eq, IH. by rewrite <- (announced_app [e] l).
Qed.

Lemma released_run_sessions events a :
  as_run_sessions (released events a)
  = foldl (fun m r => delete r m) (as_run_sessions a) (omap terminal_run events).
Proof.
  unfold released. revert a. induction (omap terminal_run events) as [|r l IH]; intros a; simpl; [done|].
  by rewrite IH, release_run_sessions.
Qed.

Lemma delete_all_lookup l (m : gmap string string) r s :
  foldl (fun m r => delete r m) m l !! r = Some s <-> r ∉ l /\ m !! r = Some s.
Proof.
  revert m. induction l as [|x l IH]; intros m; simpl.
  - rewrite elem_of_nil. naive_solver.
  - rewrite IH, lookup_delete_Some, not_elem_of_cons. naive_solver.
Qed.

Lemma released_lookup events a r s :
  as_run_sessions (released events a) !! r = Some s
  <-> (forall ev, ev ∈ events -> terminal_run ev <> Some r) /\ as_run_sessions a !! r = Some s.
Proof.
  rewrite released_run_sessions, delete_all_lookup, list_elem_of_omap. naive_solver.
Qed.

Lemma released_wf limits events a : admission_wf limits a -> admission_wf limits (released events a).
Proof.
  unfold released. revert a. induction (omap terminal_run events) as [|r l IH]; intros a Ha; simpl; [done|].
  by apply IH, release_wf.
Qed.

(** ** Appending *)

Lemma record_at_events id now n events : re_event <$> record_at id now n events = events.
Proof. revert n. induction events as [|e l IH]; intros n; [done|]. cbn [record_at]. by rewrite fmap_cons, IH. Qed.

(** The world after a successful append of [events] to [session_id]. *)
Definition appended_world (session_id : string) (s : SqliteStore) (events : list SemanticEvent) (w : World) : World :=
  announced (record_at session_id (clock (w_ticks w)) (log_length session_id (w_store w)) events)
    (set_store s (ticked w)).

Lemma append_many_view session_id events w p : consistent (w_store w) ->
  view session_id (w_store w) = Some p -> events <> [] ->
  match try_fold log_step (log_length session_id (w_store w), p) events with
  | Ok (_, p') => exists s,
      append_many session_id events w = (appended_world session_id s events w,
        Ok (record_at session_id (clock (w_ticks w)) (log_length session_id (w_store w)) events))
      /\ log session_id s = log session_id (w_store w)
           ++ record_at session_id (clock (w_ticks w)) (log_length session_id (w_store w)) events
      /\ view session_id s = Some p' /\ consistent s /\ frame session_id (st_db (w_store w)) (st_db s)
  | Err e => append_many session_id events w = (ticked w, Err (Fail e))
  end.
Proof.
  intros Hcs Hv Hne. pose proof (view_append _ _ (clock (w_ticks w)) events _ Hcs Hv Hne) as Ha.
  unfold append_many, now, tick, mbind, M_bind, on_store. simpl.
  destruct (try_fold _ _ _) as [[n p']|e].
  - destruct Ha as (s & E & Hr). exists s. split; [|done]. rewrite E. simpl. by rewrite each_announce.
  - rewrite Ha. by destruct w.
Qed.

Lemma append_many_absent session_id events w : consistent (w_store w) ->
  view session_id (w_store w) = None -> events <> [] ->
  exists e, append_many session_id events w = (ticked w, Err (Fail e)).
Proof.
  intros Hcs Hv Hne. destruct (append_absent _ _ (clock (w_ticks w)) events Hcs Hv Hne) as [e He]. exists e.
  unfold append_many, now, tick, mbind, M_bind, on_store. simpl. rewrite He. by destruct w.
Qed.

Lemma append_many_nil session_id w : append_many session_id [] w = (ticked w, Ok []).
Proof. by destruct w. Qed.

Lemma append_unfold session_id event w :
  append session_id event w =
    match append_events session_id (clock (w_ticks w)) [event] (w_store w) with
    | (s, Ok (r :: _)) => (announced [r] (set_store s (ticked w)), Ok r)
    | (s, Ok []) => (set_store s (ticked w), Err (Fail (CorruptSession session_id "empty append result")))
    | (s, Err e) => (set_store s (ticked w), Err (Fail e))
    end.
Proof.
  unfold append, now, tick, mbind, M_bind, on_store, append_event. simpl.
  destruct (append_commit _ _ _ _ _) as [s [[q [|r l]]|e]]; simpl; try done. by rewrite announce_eq.
Qed.

(** [append]: one event. *)
Lemma append_view session_id event w p : consistent (w_store w) -> view session_id (w_store w) = Some p ->
  let n := log_length session_id (w_store w) in
  match log_step (n, p) event with
  | Ok (_, p') => exists s,
      append session_id event w = (appended_world session_id s [event] w,
        Ok (mkRecorded (n + 1) session_id EVENT_SCHEMA_VERSION (clock (w_ticks w)) event None))
      /\ log session_id s = log session_id (w_store w) ++ record_at session_id (clock (w_ticks w)) n [event]
      /\ view session_id s = Some p' /\ consistent s /\ frame session_id (st_db (w_store w)) (st_db s)
  | Err e => append session_id event w = (ticked w, Err (Fail e))
  end.
Proof.
  intros Hcs Hv n. pose proof (view_append _ _ (clock (w_ticks w)) [event] _ Hcs Hv ltac:(done)) as Ha.
  fold n in Ha. cbn [try_fold] in Ha. rewrite append_unfold. destruct (log_step (n, p) event) as [[m p']|e].
  - destruct Ha as (s & E & Hr). exists s. split; [|exact Hr]. by rewrite E.
  - cbn [mbind result_mbind] in Ha. rewrite Ha. by destruct w.
Qed.

Lemma append_none session_id event w : consistent (w_store w) ->
  view session_id (w_store w) = None -> exists e, append session_id event w = (ticked w, Err (Fail e)).
Proof.
  intros Hcs Hv. destruct (append_absent _ _ (clock (w_ticks w)) [event] Hcs Hv ltac:(done)) as [e He]. exists e.
  rewrite append_unfold, He. by destruct w.
Qed.

(** [m] appends [events] to [session_id], or fails and changes only the clock. *)
Definition appends {A} (session_id : string) (events : list SemanticEvent) (m : M A) : Prop :=
  forall w, consistent (w_store w) ->
  (exists e, m w = (ticked w, Err (Fail e)))
  \/ exists p n p' s a, view session_id (w_store w) = Some p
     /\ try_fold log_step (log_length session_id (w_store w), p) events = Ok (n, p')
     /\ m w = (appended_world session_id s events w, Ok a)
     /\ log session_id s = log session_id (w_store w)
          ++ record_at session_id (clock (w_ticks w)) (log_length session_id (w_store w)) events
     /\ view session_id s = Some p' /\ consistent s /\ frame session_id (st_db (w_store w)) (st_db s).

Lemma append_many_appends session_id events : events <> [] -> appends session_id events (append_many session_id events).
Proof.
  intros Hne w Hcs. destruct (view session_id (w_store w)) as [p|] eqn:Hv.
  - pose proof (append_many_view _ _ _ _ Hcs Hv Hne) as Ha.
    destruct (try_fold log_step _ events) as [[n p']|e] eqn:Ef; [right|left; eauto].
    destruct Ha as (s & E & Hl & Hr). exists p, n, p', s. eexists. done.
  - left. by apply append_many_absent.
Qed.

Lemma append_appends session_id event : appends session_id [event] (append session_id event).
Proof.
  intros w Hcs. destruct (view session_id (w_store w)) as [p|] eqn:Hv.
  - pose proof (append_view _ event _ _ Hcs Hv) as Ha. cbv zeta in Ha.
    destruct (log_step (log_length session_id (w_store w), p) event) as [[n p']|e] eqn:E0; [right|left; eauto].
    destruct Ha as (s & E & Hl & Hr). exists p, n, p', s. eexists. cbn [try_fold]. by rewrite E0.
  - left. by apply append_none.
Qed.

End steps.
