(* ===== verification/Workload.v ===== *)
(** How much work a session still has (files Session, World): a measure on the runs
    of a projection that no event of a turn raises ([change]) and that the start of
    a run lowers.  Workers end because of it (file WorkerSpec). *)

From S2P Require Export Steps.
From S2P Require Export World.
Import SessionProjection.

(** ** The work of a run *)

(** How many more times a run may be started, with at most [limit] turns: a queued
    one has all its turns before it. *)
Definition run_work (limit : Z) (r : RunProjection) : nat :=
  match rp_status r with
  | RQueued => S (S (Z.to_nat limit))
  | RRunning | RRequiresAction => S (Z.to_nat (limit - rp_attempts r))
  | _ => 0
  end.

Definition work (limit : Z) (p : SessionProjection) : nat := weigh (run_work limit) (sp_runs p).

(** The work of all runs but one. *)
Definition other_work (limit : Z) (run_id : string) (p : SessionProjection) : nat :=
  weigh (run_work limit) (delete run_id (sp_runs p)).

Lemma work_split limit p r run : sp_runs p !! r = Some run -> work limit p = (run_work limit run + other_work limit r p)%nat.
Proof. apply weigh_delete. Qed.

(** The run was started and has been numbered [floor] or higher since. *)
Definition started_from (floor : Z) (run_id : string) (p : SessionProjection) : Prop :=
  exists run, sp_runs p !! run_id = Some run
    /\ rp_status run <> RQueued /\ (terminal (rp_status run) = true \/ floor <= rp_attempts run).

Lemma started_work limit floor r p : started_from floor r p ->
  (work limit p <= S (Z.to_nat (limit - floor)) + other_work limit r p)%nat.
Proof.
  intros (run & Hr & Hq & Ha). rewrite (work_split _ _ _ _ Hr). apply Nat.add_le_mono_r.
  unfold run_work. destruct (rp_status run); simpl in *; try done; try lia; destruct Ha; try done; lia.
Qed.

(** ** What an event does to the runs *)

(** The run ended, or goes on with its attempts; a running one may have to wait. *)
Definition eases (r r' : RunProjection) : Prop :=
  terminal (rp_status r') = true
  \/ (rp_attempts r' = rp_attempts r
      /\ (rp_status r' = rp_status r \/ rp_status r = RRunning /\ rp_status r' = RRequiresAction)).

Lemma eases_refl r : eases r r.
Proof. right. auto. Qed.

Lemma eases_work limit r r' : eases r r' -> (run_work limit r' <= run_work limit r)%nat.
Proof.
  unfold eases, run_work. intros [Ht|[-> [->|[-> ->]]]]; [destruct (rp_status r'); simpl in *; try done; lia|done|done].
Qed.

(** How a run may differ after an event; a run that is queued was not there
    before. *)
Definition change (e : SemanticEvent) (k : string) (r r' : RunProjection) : Prop :=
  match e with
  | RunStarted id _ n =>
      k = id /\ rp_status r ∈ [RQueued; RRequiresAction] /\ rp_status r' = RRunning /\ rp_attempts r' = n
  | RunAttemptStarted id _ n => k = id /\ rp_status r = RRunning /\ rp_status r' = RRunning /\ rp_attempts r' = n
  | _ => eases r r'
  end.
Definition queues (e : SemanticEvent) : bool := match e with RunQueued _ _ _ _ _ => true | _ => false end.

Definition changed (e : SemanticEvent) (p p' : SessionProjection) : Prop :=
  (forall k, is_Some (sp_runs p !! k) -> is_Some (sp_runs p' !! k))
  /\ forall k r', sp_runs p' !! k = Some r' -> exists r, sp_runs p !! k = Some r /\ (r' = r \/ change e k r r').

Lemma changed_same e p p' : sp_runs p' = sp_runs p -> changed e p p'.
Proof. intros E. split; intros k; rewrite E; eauto. Qed.

Lemma changed_update e id f p p' :
  (forall r r', f r = Ok r' -> change e id r r') -> update_run id f p = Ok p' -> changed e p p'.
Proof.
  intros Hf (r & r' & Hr & Hfr & ->)%update_run_Ok. split; intros k; simpl; destruct (decide (id = k)) as [->|Hk];
    rewrite ?lookup_insert_eq, ?lookup_insert_ne by done; eauto. intros ? [= <-]. eauto.
Qed.

Lemma changed_end e id s err p p' : terminal s = true -> (forall r r', eases r r' -> change e id r r') ->
  set_run_terminal id s err p = Ok p' -> changed e p p'.
Proof.
  intros Hs He. apply changed_update. intros r r' Hr. apply He. left. case_bool_decide; by simplify_eq/=.
Qed.

Lemma changed_call e id call f p p' : (forall k r r', eases r r' -> change e k r r') ->
  update_call id call f p = Ok p' -> changed e p p'.
Proof. intros He. apply changed_update. intros r r' Hr. inv_ok. apply He. right. auto. Qed.

Lemma changed_runs e p q p' : sp_runs q = sp_runs p' -> changed e p q -> changed e p p'.
Proof. unfold changed. by intros ->. Qed.

Lemma project_event_changed i e p p' : project_event i e p = (p', None) -> queues e = false -> changed e p p'.
Proof.
  intros Ha Hq. destruct e; simpl in Ha, Hq; rewrite ?leave_Ok in Ha; try done;
    try (injection Ha as <-; by apply changed_same);
    try (apply changed_same; by eapply update_message_runs);
    try (apply changed_same; by eapply update_instance_runs).
  - unfold message_started in Ha. apply changed_same. by destruct (existsb _ _); simplify_eq.
  - unfold run_started in Ha. inv_ok. eapply (changed_runs _ _ a); [done|]. revert select (update_run _ _ _ = _). apply changed_update.
    intros r r' Hr. case_bool_decide; by simplify_eq/=.
  - revert Ha. apply changed_update. intros r r' Hr. case_bool_decide; by simplify_eq/=.
  - revert Ha. apply changed_update. intros r r' Hr. simplify_eq/=. right. auto.
  - unfold run_completed in Ha. destruct (set_run_terminal _ _ _ _) as [a|] eqn:Hset; [|done].
    change (update_run run_id (fun r => Ok (set_usage usage r)) a = Ok p') in Ha. destruct (proj1 (update_run_Ok _ _ _ _) Ha) as (r & r' & Hr & ? & ->).
    simplify_eq/=. assert (changed (RunCompleted run_id usage) p a) as [Hd Hc] by (eapply (changed_end _ run_id); [| |done]; done).
    assert (terminal (rp_status r) = true) as Ht.
    { apply update_run_Ok in Hset as (x & x' & _ & Hx & ->). simpl in Hr. rewrite lookup_insert_eq in Hr.
      case_bool_decide; by simplify_eq/=. }
    split; intros k; simpl; destruct (decide (run_id = k)) as [<-|Hk];
      rewrite ?lookup_insert_eq, ?lookup_insert_ne by done; eauto.
    intros ? [= <-]. destruct (Hc _ _ Hr) as (x & Hx & _). exists x. split; [done|]. right. by left.
  - unfold run_failed in Ha. inv_ok. eapply (changed_runs _ _ a); [done|]. by eapply changed_end; [| |done].
  - unfold run_cancelled in Ha. inv_ok. eapply (changed_runs _ _ a); [done|]. by eapply changed_end; [| |done].
  - unfold run_interrupted in Ha. inv_ok. eapply (changed_runs _ _ a); [done|]. by eapply changed_end; [| |done].
  - unfold run_requires_action in Ha. inv_ok. eapply (changed_runs _ _ a); [done|]. revert select (update_run _ _ _ = _). apply changed_update.
    intros r r' Hr. case_bool_decide; simplify_eq/=. right. auto.
  - revert Ha. apply changed_update. intros r r' Hr. case_bool_decide; simplify_eq/=. right. auto.
  - by eapply changed_call.
  - by eapply changed_call.
  - apply changed_same. unfold permission_requested in Ha. by case_bool_decide; simplify_eq.
  - apply changed_same. unfold permission_resolved in Ha. by inv_ok.
  - apply changed_same. unfold agent_spawned in Ha. apply leave_Ok in Ha. by case_bool_decide; simplify_eq.
  - apply changed_same. unfold agent_finished in Ha. apply leave_Ok in Ha. by apply update_instance_runs in Ha.
  - injection Ha as <-. apply changed_same. unfold context_fact_recorded. by case_match.
Qed.

Lemma try_apply_changed i e p p' : try_apply i e p = Ok p' -> queues e = false -> changed e p p'.
Proof. intros (s & _ & Ha)%try_apply_inv. by apply (project_event_changed i e (set_state s p)). Qed.

(** ** The work after an event *)

(** Neither queues, starts nor numbers a run. *)
Definition calm (e : SemanticEvent) : bool :=
  match e with RunQueued _ _ _ _ _ | RunStarted _ _ _ | RunAttemptStarted _ _ _ => false | _ => true end.

Lemma calm_work limit i e p p' : try_apply i e p = Ok p' -> calm e = true -> (work limit p' <= work limit p)%nat.
Proof.
  intros Ha He. apply try_apply_changed in Ha as [_ Hc]; [|by destruct e]. apply weigh_le.
  intros k r' (r & Hr & Hch)%Hc. exists r. split; [done|].
  destruct Hch as [->|Hch]; [done|]. apply eases_work. by destruct e.
Qed.

Lemma calm_steps limit events : forall n p m p', try_fold log_step (n, p) events = Ok (m, p') ->
  forallb calm events = true -> (work limit p' <= work limit p)%nat.
Proof.
  induction events as [|e events IH]; intros n p m p' Hf Hc; [by simplify_eq/=|].
  cbn [try_fold] in Hf. destruct (log_step (n, p) e) as [[n1 p1]|] eqn:Hs; [|done]. simpl in Hf, Hc.
  apply andb_true_iff in Hc as [He Hc]. specialize (IH _ _ _ _ Hf Hc). unfold log_step in Hs. destruct (_ <? _); [done|].
  destruct (try_apply _ _ _) as [q|] eqn:Ha; simplify_eq/=. pose proof (calm_work limit _ _ _ _ Ha He). lia.
Qed.

(** An event of a turn of [r] leaves the other runs their work, and keeps [r]
    started. *)
Lemma turn_work limit floor r i e p p' : try_apply i e p = Ok p' -> queues e = false ->
  (forall id a n, e = RunStarted id a n -> False) ->
  (forall id a n, e = RunAttemptStarted id a n -> id = r /\ floor <= n) -> started_from floor r p ->
  (other_work limit r p' <= other_work limit r p)%nat /\ started_from floor r p'.
Proof.
  intros Ha Hq Hs Hn (run & Hr & Hst & Hfl). apply try_apply_changed in Ha as [Hd Hc]; [|done]. split.
  - apply weigh_le. intros k r'. rewrite lookup_delete_Some. intros [Hk (x & Hx & Hch)%Hc].
    exists x. rewrite lookup_delete_ne by done. split; [done|]. destruct Hch as [->|Hch]; [done|].
    destruct e; try (by apply eases_work); [by destruct (Hs _ _ _ eq_refl)|].
    destruct (Hn _ _ _ eq_refl) as [-> _]. by destruct Hch.
  - destruct (Hd r) as [run' Hr']; [by rewrite Hr|]. exists run'. split; [done|].
    destruct (Hc _ _ Hr') as (x & Hx & Hch). simplify_eq. destruct Hch as [->|Hch]; [done|].
    assert (eases run run' -> rp_status run' <> RQueued /\ (terminal (rp_status run') = true \/ floor <= rp_attempts run')) as He.
    { intros [Ht|[-> [->|[E ->]]]]; [split; [by destruct (rp_status run')|by left]|done|].
      split; [done|]. right. destruct Hfl as [Hfl|]; [|done]. by rewrite E in Hfl. }
    destruct e; try (by apply He); [by destruct (Hs _ _ _ eq_refl)|].
    destruct (Hn _ _ _ eq_refl) as [-> Hle]. destruct Hch as (_ & _ & -> & ->). split; [done|by right].
Qed.

(** A run that was started. *)
Lemma run_started_from i r id n p p' : try_apply i (RunStarted r id n) p = Ok p' ->
  started_from n r p' /\ (forall limit, (other_work limit r p' <= other_work limit r p)%nat).
Proof.
  intros Ha. pose proof (try_apply_changed _ _ _ _ Ha eq_refl) as [Hd Hc]. split.
  - apply try_apply_inv in Ha as (s & _ & Ha). simpl in Ha. apply leave_Ok in Ha. unfold run_started in Ha. inv_ok.
    revert select (update_run _ _ _ = _). intros (x & x' & Hx & Hf & ->)%update_run_Ok. case_bool_decide; [|done]. simplify_eq/=.
    unfold started_from. simpl. setoid_rewrite lookup_insert_eq. eexists. split_and!; [done|done|by right].
  - intros limit. apply weigh_le. intros k r'. rewrite lookup_delete_Some. intros [Hk (x & Hx & Hch)%Hc].
    exists x. rewrite lookup_delete_ne by done. split; [done|]. destruct Hch as [->|[-> _]]; done.
Qed.

(** A run that failed has nothing left to do. *)
Lemma failed_work limit i r err p p' run : try_apply i (RunFailed r err) p = Ok p' ->
  sp_runs p !! r = Some run -> terminal (rp_status run) = false -> (work limit p' < work limit p)%nat.
Proof.
  intros (s & _ & Ha)%try_apply_inv Hr Ht. simpl in Ha. apply leave_Ok in Ha. unfold run_failed in Ha. inv_ok.
  revert select (set_run_terminal _ _ _ _ = _). intros (x & x' & Hx & Hf & ->)%update_run_Ok. simpl in Hx.
  rewrite Hr in Hx. injection Hx as <-. case_bool_decide; [|done]. simplify_eq/=.
  rewrite (work_split limit p r run) by done. unfold work, other_work. simpl.
  rewrite (weigh_delete _ r _ _ (lookup_insert_eq _ _ _)), delete_insert_eq.
  assert (run_work limit (set_error (Some err) (set_status RFailed run)) = 0%nat) as -> by done.
  unfold run_work. destruct (rp_status run); simpl in *; try done; lia.
Qed.
