(* ===== verification/Reservations.v ===== *)
(** The invariant of the supervisor ([sound]): the store keeps its contract, the
    admission counters are the numbers of reservations and within the limits, every
    reservation belongs to a run that is not over, its id was issued by this process,
    and the agent links form a forest between existing sessions.

    [advances] is the relation between the worlds before and after a handler: the
    invariant is kept, logs only grow, and what a projection recorded is not
    rewritten.  It has the elementary operations as an instance of
    [KeptPrimitives], so every handler and worker advances. *)

From S2P Require Export Steps SupervisorFacts.
From S2P Require Import StoreFacts StoreSpec SessionSpec.
From S2P Require Export Store.
From S2P Require Export World.
Import SessionProjection.

(** The links of a table: no call has two children, no session two parents, the
    sessions they connect exist, and a session becomes a child before it becomes a
    parent. *)
Record links_wf `{EventCodec} (db : database) (links : list AgentLinkRecord) : Prop := {
  lw_calls : NoDup (lr_parent_call_id <$> links);
  lw_children : NoDup (lr_child_session_id <$> links);
  lw_sessions : Forall (fun l => is_Some (db_sessions db !! lr_parent_session_id l)
    /\ is_Some (db_sessions db !! lr_child_session_id l) /\ 1 <= lr_depth l) links;
  lw_order : forall i j l k, links !! i = Some l -> links !! j = Some k ->
    lr_child_session_id l = lr_parent_session_id k -> (i < j)%nat }.

(** [s] gave a task to [t]. *)
Definition delegates (links : list AgentLinkRecord) (s t : string) : Prop :=
  exists l, l ∈ links /\ lr_parent_session_id l = s /\ lr_child_session_id l = t.

Lemma delegates_chain `{EventCodec} db links s t : links_wf db links -> tc (delegates links) s t ->
  exists i j l k, links !! i = Some l /\ lr_parent_session_id l = s /\ links !! j = Some k
    /\ lr_child_session_id k = t /\ (i <= j)%nat.
Proof.
  intros Hw. induction 1 as [s t (l & Hl & Hs & Ht)|s u t (l & Hl & Hs & Hu) _ IH].
  - apply list_elem_of_lookup in Hl as [i Hi]. exists i, i, l, l. auto.
  - apply list_elem_of_lookup in Hl as [i Hi]. destruct IH as (i' & j & l' & k & Hi' & Hs' & Hj & Ht & Hle).
    exists i, j, l, k. split_and!; try done. pose proof (lw_order _ _ Hw i i' l l' Hi Hi' ltac:(congruence)). lia.
Qed.

(** No session works for itself. *)
Lemma delegates_acyclic `{EventCodec} db links s : links_wf db links -> ~ tc (delegates links) s s.
Proof.
  intros Hw Hc. destruct (delegates_chain _ _ _ _ Hw Hc) as (i & j & l & k & Hi & Hs & Hj & Ht & Hle).
  pose proof (lw_order _ _ Hw j i k l Hj Hi ltac:(congruence)). lia.
Qed.

Section reservations.
  Context `{EventCodec} `{Outside}.

Record sound (w : World) : Prop := {
  so_store : consistent (w_store w);
  so_admission : admission_wf (w_limits w) (w_admission w);
  so_live : forall r s, as_run_sessions (w_admission w) !! r = Some s ->
    exists p, view s (w_store w) = Some p /\ live p r;
  so_issued : forall r s, as_run_sessions (w_admission w) !! r = Some s ->
    exists n, r = uuid n /\ (n < w_ticks w)%N;
  so_links : links_wf (st_db (w_store w)) (w_links w) }.

(** Logs grow, so no session disappears. *)
Definition grows (s s' : SqliteStore) : Prop := forall id, log id s `prefix_of` log id s'.

Definition advances (w w' : World) : Prop :=
  sound w ->
  sound w' /\ grows (w_store w) (w_store w') /\ w_limits w' = w_limits w /\ (w_ticks w <= w_ticks w')%N.

#[export] Instance grows_preorder : PreOrder grows.
Proof. split; [intros s id; reflexivity|]. intros s1 s2 s3 H1 H2 id. etrans; [apply H1|apply H2]. Qed.

#[export] Instance advances_preorder : PreOrder advances.
Proof.
  split.
  - intros w Hs. by split_and!.
  - intros w1 w2 w3 H12 H23 Hs1. destruct (H12 Hs1) as (Hs2 & G1 & L1 & T1).
    destruct (H23 Hs2) as (Hs3 & G2 & L2 & T2). split_and!; [done|by etrans|congruence|lia].
Qed.

(** ** Growth *)

Lemma grows_view s s' id p : consistent s' -> grows s s' -> view id s = Some p ->
  exists p', view id s' = Some p' /\ extends p p'.
Proof.
  intros Hcs Hg Hv. destruct (Hg id) as [l Hl].
  destruct (view id s') as [p'|] eqn:Hv'.
  - exists p'. split; [done|]. unfold view in *. rewrite Hl in Hv'.
    destruct (project id (log id s)) as [q|] eqn:E; [|done]. injection Hv as ->.
    destruct (project id _) as [q'|] eqn:E' in Hv'; [|done]. injection Hv' as ->.
    apply project_Ok in E as (_ & _ & Hr). apply project_Ok in E' as (_ & _ & Hr').
    destruct (replay_new_app _ _ _ _ Hr') as (p1 & Hr1 & _ & He). rewrite Hr in Hr1. by injection Hr1 as ->.
  - apply view_none in Hv'; [|done]. apply absent_log in Hv' as [_ Hv']; [|done].
    rewrite Hl in Hv'. apply app_nil in Hv' as [E _]. unfold view in Hv. by rewrite E in Hv.
Qed.

Lemma grows_session s s' id : consistent s -> consistent s' -> grows s s' ->
  is_Some (db_sessions (st_db s) !! id) -> is_Some (db_sessions (st_db s') !! id).
Proof.
  intros Hcs Hcs' Hg Hs. destruct (view id s) as [p|] eqn:Hv.
  - destruct (grows_view _ _ _ _ Hcs' Hg Hv) as (p' & Hv' & _).
    destruct (view_session _ _ _ Hcs' Hv') as (row & -> & _). by eexists.
  - apply view_none in Hv; [|done]. rewrite Hv in Hs. by destruct Hs.
Qed.

Lemma links_grow s s' links : consistent s -> consistent s' -> grows s s' ->
  links_wf (st_db s) links -> links_wf (st_db s') links.
Proof.
  intros Hcs Hcs' Hg []. split; [done..| |done]. eapply Forall_impl; [done|]. intros l (Hp & Hc & Hd).
  split_and!; [| |done]; by apply (grows_session s).
Qed.

Lemma frame_grows id s s' : frame id (st_db s) (st_db s') -> log id s `prefix_of` log id s' -> grows s s'.
Proof.
  intros Hf Hl j. destruct (decide (j = id)) as [->|Hj]; [done|]. by rewrite (log_frame _ _ _ _ Hf Hj).
Qed.

(** ** Elementary operations *)

Lemma sound_core w w' : same_core w w' -> sound w -> sound w'.
Proof.
  intros [Hc Ht] []. unfold core in Hc. injection Hc as Es El Em Ea.
  split; rewrite ?Es, ?El, ?Em, ?Ea; try done.
  intros r s Hr. destruct (so_issued0 r s Hr) as (n & -> & Hn). exists n. split; [done|lia].
Qed.

Lemma advances_core w w' : same_core w w' -> advances w w'.
Proof.
  intros Hc Hs. pose proof Hc as [E Ht]. unfold core in E. injection E as Es El Em Ea.
  split_and!; [by eapply sound_core| |done|done]. by rewrite Es.
Qed.

Lemma grows_db s s' : st_db s' = st_db s -> grows s s'.
Proof. intros E id. unfold log. by rewrite E. Qed.

(** The store changes, the rest that [sound] is about does not, and no run of a
    reservation ends. *)
Lemma sound_store w w' : sound w -> consistent (w_store w') -> grows (w_store w) (w_store w') ->
  w_limits w' = w_limits w -> w_links w' = w_links w -> w_admission w' = w_admission w ->
  (w_ticks w <= w_ticks w')%N ->
  (forall r s p, as_run_sessions (w_admission w) !! r = Some s -> view s (w_store w) = Some p -> live p r ->
     exists p', view s (w_store w') = Some p' /\ live p' r) ->
  sound w'.
Proof.
  intros [] Hcs Hg El Ek Ea Ht Hl. split; rewrite ?El, ?Ek, ?Ea; [done|done| | |by apply (links_grow (w_store w))].
  - intros r s Hr. destruct (so_live0 r s Hr) as (p & Hv & Hlp). by eapply Hl.
  - intros r s Hr. destruct (so_issued0 r s Hr) as (n & -> & Hn). exists n. split; [done|lia].
Qed.

Lemma read_projection_advances s : keeps advances (read_projection s).
Proof.
  intros w. pose proof (projection_db (w_store w) s) as Hdb.
  assert (w_store (fst (read_projection s w)) = fst (projection s (w_store w))
    /\ fst (read_projection s w) = set_store (fst (projection s (w_store w))) w) as [Es Ew].
  { unfold read_projection, on_store. by destruct (projection s (w_store w)). }
  rewrite Ew. intros Hs.
  assert (Hcs : consistent (fst (projection s (w_store w)))) by apply projection_consistent, Hs.
  split_and!; simpl; [|by apply grows_db|done|done]. apply (sound_store w); simpl; try done; [by apply grows_db|].
  intros r id p _ Hv Hl. exists p. by rewrite (proj1 (view_db _ _ _ Hdb)).
Qed.

(** Appending: the reservations of the runs that ended are gone. *)
Lemma appended_advances session_id s events w p p' m : sound w -> consistent s ->
  view session_id (w_store w) = Some p ->
  try_fold log_step (log_length session_id (w_store w), p) events = Ok (m, p') ->
  log session_id (w_store w) `prefix_of` log session_id s -> view session_id s = Some p' ->
  frame session_id (st_db (w_store w)) (st_db s) ->
  sound (appended_world session_id s events w) /\ grows (w_store w) s.
Proof.
  intros Hs Hcs Hv Hfold Hlog Hv' Hf. pose proof (frame_grows _ _ _ Hf Hlog) as Hg. split; [|done].
  pose proof Hs as []. unfold appended_world, announced. split; simpl; [done| | | |by apply (links_grow (w_store w))].
  - by apply released_wf.
  - intros r id [Ht Hr]%released_lookup. destruct (so_live0 r id Hr) as (q & Hq & Hl).
    destruct (decide (id = session_id)) as [->|Hid].
    + exists p'. split; [done|]. rewrite Hv in Hq. injection Hq as ->.
      eapply log_steps_live; [exact Hfold| |exact Hl]. intros ev Hev. apply Ht.
      by rewrite record_at_events.
    + exists q. split; [|done]. by rewrite (proj1 (view_frame _ _ _ _ so_store0 Hf Hid)).
  - intros r id [_ Hr]%released_lookup. destruct (so_issued0 r id Hr) as (n & -> & Hn). exists n. split; [done|lia].
Qed.

Lemma ticked_core w : same_core w (ticked w).
Proof. split; simpl; [done|lia]. Qed.

Lemma appends_advances {A} session_id events (m : M A) : appends session_id events m -> keeps advances m.
Proof.
  intros Hm w Hs. destruct (Hm w (so_store _ Hs)) as [[e ->]|(p & n & p' & s & a & Hv & Hf & -> & Hl & Hv' & Hcs & Hfr)].
  - by apply advances_core; [apply ticked_core|].
  - simpl. destruct (appended_advances session_id s events w p p' n Hs Hcs Hv Hf) as [Hs' Hg]; try done.
    { rewrite Hl. by eexists. }
    split_and!; [done|done|done|]. simpl. lia.
Qed.

(** ** Admission *)

(** [sound], but for a reservation whose run is not queued yet. *)
Record reserving (r s : string) (w : World) : Prop := {
  rv_sound : sound (set_admission (AdmissionController.release r (w_admission w)) w);
  rv_admission : admission_wf (w_limits w) (w_admission w);
  rv_reserved : as_run_sessions (w_admission w) !! r = Some s;
  rv_issued : exists n, r = uuid n /\ (n < w_ticks w)%N }.

Lemma reserve_reserving r s a w : sound w -> as_run_sessions (w_admission w) !! r = None ->
  (exists n, r = uuid n /\ (n < w_ticks w)%N) ->
  AdmissionController.reserve (w_limits w) s r (w_admission w) = Ok a -> reserving r s (set_admission a w).
Proof.
  intros Hs Hr Hn Ha. pose proof (reserve_run_sessions _ _ _ _ _ Ha) as Es.
  assert (Hwf : admission_wf (w_limits w) a) by (eapply reserve_wf; [done|apply Hs|done]).
  assert (Eq : forall r', as_run_sessions (AdmissionController.release r a) !! r' = as_run_sessions (w_admission w) !! r').
  { intros r'. rewrite release_run_sessions, Es. by rewrite delete_insert_id. }
  split; simpl; [|done|by rewrite Es, lookup_insert_eq|done].
  destruct Hs. split; simpl; try done; [by apply release_wf| |]; intros r' s'; rewrite Eq; [apply so_live0|apply so_issued0].
Qed.

(** The run of the reservation was queued. *)
Lemma reserving_sound r s w p :
  reserving r s w -> view s (w_store w) = Some p -> live p r -> sound w.
Proof.
  intros [[] Hwf Hr Hn] Hv Hl. simpl in *.
  assert (Hlook : forall r', r' <> r ->
    as_run_sessions (AdmissionController.release r (w_admission w)) !! r' = as_run_sessions (w_admission w) !! r').
  { intros r' Hne. rewrite release_run_sessions. by rewrite lookup_delete_ne. }
  split; [done|done| | |done]; intros r' s' Hr'; destruct (decide (r' = r)) as [->|Hne].
  - rewrite Hr in Hr'. injection Hr' as <-. eauto.
  - rewrite <- Hlook in Hr' by done. by apply so_live0.
  - done.
  - rewrite <- Hlook in Hr' by done. by apply (so_issued0 r' s').
Qed.

Lemma queued_live i r o pr md q p p' :
  try_apply i (RunQueued r o pr md q) p = Ok p' -> live p' r.
Proof.
  intros (s & _ & Hq)%try_apply_inv. simpl in Hq. apply leave_Ok in Hq. unfold run_queued in Hq.
  case_bool_decide; [done|]. injection Hq as <-. eexists. simpl. by rewrite lookup_insert_eq.
Qed.

(** The events that queue a run. *)
Definition queues (r : string) (events : list SemanticEvent) : Prop :=
  exists o pr md q l, events = RunQueued r o pr md q :: l /\ Forall (fun ev => terminal_run ev = None) l.

Lemma queues_released r events a : queues r events -> released events a = a.
Proof.
  intros (o & pr & md & q & l & -> & Hl). unfold released.
  assert (omap terminal_run (RunQueued r o pr md q :: l) = []) as ->; [|done].
  change (omap terminal_run l = []). induction Hl as [|ev l Hev _ IH]; simpl; [done|]. by rewrite Hev.
Qed.

Lemma queues_live r events n m p p' :
  queues r events -> try_fold log_step (n, p) events = Ok (m, p') -> live p' r.
Proof.
  intros (o & pr & md & q & l & -> & Hl) Hf. cbn [try_fold] in Hf.
  destruct (log_step (n, p) _) as [[n1 p1]|] eqn:Hs; [|done]. simpl in Hf.
  eapply log_steps_live; [exact Hf| |].
  - intros ev Hev. rewrite Forall_forall in Hl. by rewrite (Hl ev Hev).
  - unfold log_step in Hs. destruct (_ <? _); [done|]. destruct (try_apply _ _ p) eqn:Ha; simplify_eq/=.
    by eapply queued_live.
Qed.

Lemma admitted_advances {A} r s events (m : M A) w :
  reserving r s w -> appends s events m -> queues r events ->
  let w' := fst (admitted r m w) in
  sound w' /\ grows (w_store w) (w_store w') /\ w_limits w' = w_limits w /\ (w_ticks w <= w_ticks w')%N.
Proof.
  intros Hr Hm Hq. pose proof Hr as [Hs Hwf _ Hn]. unfold admitted, mbind, M_bind, try.
  destruct (Hm w (so_store _ Hs)) as [[e ->]|(p & n & p' & st & a & Hv & Hf & -> & Hl & Hv' & Hcs & Hfr)]; simpl.
  - split_and!; [|done|done|lia]. eapply sound_core; [|exact Hs]. split; simpl; [done|lia].
  - destruct (appended_advances s st events _ p p' n Hs Hcs Hv Hf) as [Hs' Hg]; try done.
    { rewrite Hl. by eexists. }
    split_and!; [|done|done|lia]. eapply (reserving_sound r s); [|exact Hv'|by eapply queues_live].
    split; simpl; rewrite ?record_at_events, ?(queues_released r events) by done; [|apply Hwf|apply Hr|].
    + eapply sound_core; [|exact Hs']. split; simpl; [|lia]. unfold core. simpl.
      by rewrite record_at_events, (queues_released r events).
    + destruct Hn as (k & -> & Hk). exists k. split; [done|lia].
Qed.

Context (uuid_inj : forall m n, uuid m = uuid n -> m = n).

(** [fresh_id] and [reserve]: either nothing is reserved, or a new run is. *)
Lemma fresh_reserve w s : sound w ->
  reserve s (uuid (w_ticks w)) (ticked w) = (ticked w, Err (Fail RunCapacityExceeded))
  \/ exists a, reserve s (uuid (w_ticks w)) (ticked w) = (set_admission a (ticked w), Ok ())
     /\ reserving (uuid (w_ticks w)) s (set_admission a (ticked w)).
Proof.
  intros Hs. unfold reserve. simpl. destruct (AdmissionController.reserve _ _ _ _) as [a|e] eqn:Ha.
  - right. exists a. split; [done|]. apply (reserve_reserving _ s); [by eapply sound_core; [apply ticked_core|]| | |done].
    + destruct (as_run_sessions _ !! _) as [s'|] eqn:E; [|done].
      destruct (so_issued _ Hs _ _ E) as (n & Hn%uuid_inj & Hlt). lia.
    + eexists. split; [done|]. simpl. lia.
  - left. unfold AdmissionController.reserve in Ha. destruct (_ || _); [|done]. by injection Ha as <-.
Qed.

Lemma reserving_projection r s id w : reserving r s w ->
  reserving r s (fst (read_projection id w)) /\ grows (w_store w) (w_store (fst (read_projection id w)))
  /\ w_limits (fst (read_projection id w)) = w_limits w /\ w_ticks (fst (read_projection id w)) = w_ticks w.
Proof.
  intros [Hs Hwf Hr Hn]. destruct (read_projection_advances id _ Hs) as (Hs' & Hg & _).
  unfold read_projection, on_store in *. simpl in *. destruct (projection id (w_store w)) as [st p]. simpl in *.
  by split_and!.
Qed.

Lemma fresh_id_bind {B} (k : string -> M B) w : (r ← fresh_id; k r) w = k (uuid (w_ticks w)) (ticked w).
Proof. done. Qed.

Lemma admit_new_advances s pr md q : keeps advances (admit_new s pr md q).
Proof.
  intros w Hs. unfold admit_new. rewrite fresh_id_bind.
  destruct (fresh_reserve w s Hs) as [E|(a & E & Hr)].
  - rewrite (bind_Err _ _ _ _ _ E). by apply advances_core; [apply ticked_core|].
  - rewrite (bind_Ok _ _ _ _ _ E).
    pose proof (admitted_advances _ s _ (append s (RunQueued (uuid (w_ticks w)) None pr md q)) _ Hr
      (append_appends _ _)) as Ha.
    unfold mbind, M_bind.
    destruct (admitted _ _ _) as [w' [u|e]]; simpl in *; (destruct Ha as (? & ? & ? & ?); [by repeat eexists|]);
      split_and!; [done..|lia|done|done|done|lia].
Qed.

Lemma admit_retry_advances s o pr md q w p0 :
  read_projection s w = (w, Ok p0) -> advances w (fst (admit_retry s o pr md q w)).
Proof.
  intros Hp Hs. unfold admit_retry. rewrite fresh_id_bind.
  destruct (fresh_reserve w s Hs) as [E|(a & E & Hr)].
  - rewrite (bind_Err _ _ _ _ _ E). by apply advances_core; [apply ticked_core|].
  - rewrite (bind_Ok _ _ _ _ _ E). destruct (reserving_projection _ _ s _ Hr) as (Hr' & Hg & El & Et).
    assert (exists w1 p, read_projection s (set_admission a (ticked w)) = (w1, Ok p)) as (w1 & p & Ep).
    { revert Hp. unfold read_projection, on_store. simpl. destruct (projection s (w_store w)) as [st [p|]]; simpl; eauto.
      done. }
    rewrite Ep in *. rewrite (bind_Ok _ _ _ _ _ Ep). simpl in *.
    set (events := RunQueued _ _ _ _ _ :: _).
    assert (queues (uuid (w_ticks w)) events) as Hq.
    { do 5 eexists. split; [done|]. destruct (sp_queue_paused p); by repeat constructor. }
    pose proof (admitted_advances _ s _ _ _ Hr' (append_many_appends s events ltac:(done)) Hq) as Ha.
    unfold mbind, M_bind. destruct (admitted _ _ _) as [w' [u|e]]; simpl in *;
      destruct Ha as (? & ? & ? & ?); (split_and!; [done|by etrans|congruence|lia]).
Qed.

(** ** Sessions and links *)

Lemma create_session_frame i n t pid h s : consistent s ->
  frame i (st_db s) (st_db (fst (create_session i n t pid h s)))
  /\ (is_Some (db_sessions (st_db s) !! i) -> fst (create_session i n t pid h s) = s).
Proof.
  intros Hcs. unfold create_session.
  destruct (match pid with Some _ => _ | None => _ end) as [[]|] eqn:Hp; simpl; [|by split].
  case_bool_decide as Hi; simpl; [by split|].
  destruct (new_session_row_ok (st_db s) i n t pid h) as (db' & evs & p & E & Hok & Hf & _).
  { apply absent_rows; [done|]. by apply eq_None_not_Some. }
  rewrite E. simpl. by split.
Qed.

Lemma create_session_grows i n t pid h s : consistent s -> grows s (fst (create_session i n t pid h s)).
Proof.
  intros Hcs. destruct (create_session_frame i n t pid h s Hcs) as [Hf He].
  destruct (db_sessions (st_db s) !! i) eqn:Hi.
  - by rewrite He by eauto.
  - apply (frame_grows i); [done|]. apply absent_log in Hi as [_ ->]; [|done]. apply prefix_nil.
Qed.

Lemma create_session_advances i n t pid h : keeps advances (on_store (create_session i n t pid h)).
Proof.
  intros w Hs. pose proof (create_consistent _ i n t pid h (so_store _ Hs)) as Hcs.
  pose proof (create_session_grows i n t pid h _ (so_store _ Hs)) as Hg.
  assert (fst (on_store (create_session i n t pid h) w) = set_store (fst (create_session i n t pid h (w_store w))) w) as ->.
  { unfold on_store. by destruct (create_session _ _ _ _ _ _). }
  split_and!; [|done|done|done]. apply (sound_store w); try done.
  intros r s p _ Hv (run & Hr & Hl). destruct (grows_view _ _ _ _ Hcs Hg Hv) as (p' & Hv' & He).
  exists p'. split; [done|]. destruct (decide (s = i)) as [->|Hne].
  - rewrite (proj2 (create_session_frame i n t pid h _ (so_store _ Hs))) in Hv'.
    + rewrite Hv in Hv'. injection Hv' as <-. by exists run.
    + destruct (view_session _ _ _ (so_store _ Hs) Hv) as (row & -> & _). by eexists.
  - rewrite (proj1 (view_frame _ _ _ _ (so_store _ Hs) (proj1 (create_session_frame i n t pid h _ (so_store _ Hs))) Hne)) in Hv'.
    rewrite Hv in Hv'. injection Hv' as <-. by exists run.
Qed.

(** A session is created under an id that was free. *)
Lemma create_session_new i n t pid h s id row : snd (create_session i n t pid h s) = Ok (id, row) ->
  id = i /\ db_sessions (st_db s) !! i = None.
Proof.
  unfold create_session. destruct pid as [pid|]; simpl; [destruct (bool_decide (is_Some (db_projects _ !! _))); simpl; [|done]|];
    (case_bool_decide as Hi; simpl; [done|]); destruct (insert_event_row _ _ _ _ _) as [db|e]; simpl; try done;
    unfold get_session; destruct (db_sessions db !! i); simpl; try done; intros [= <- _]; (split; [done|by apply eq_None_not_Some]).
Qed.

Lemma existsb_none {A} (f : A -> bool) l : existsb f l = false -> Forall (fun x => f x = false) l.
Proof. induction l as [|x l IH]; simpl; [by constructor|]. intros [Hx Hl]%orb_false_iff. constructor; auto. Qed.

Lemma NoDup_snoc_key {A} (f : A -> string) l x : NoDup (f <$> l) -> Forall (fun y => f y <> f x) l -> NoDup (f <$> l ++ [x]).
Proof.
  intros Hl Hx. rewrite fmap_app. apply NoDup_app. split_and!; [done| |apply NoDup_singleton].
  intros k (y & -> & Hy)%list_elem_of_fmap Hk. apply list_elem_of_singleton in Hk.
  rewrite Forall_forall in Hx. by apply (Hx y Hy).
Qed.

Lemma NoDup_key_inj {A} (f : A -> string) l x y : NoDup (f <$> l) -> x ∈ l -> y ∈ l -> f x = f y -> x = y.
Proof.
  induction l as [|z l IH]; rewrite ?fmap_cons, ?NoDup_cons, ?elem_of_cons, ?elem_of_nil; [naive_solver|].
  intros [Hz Hl] [->|Hx] [->|Hy] E; [done| | |by apply IH]; exfalso; apply Hz, list_elem_of_fmap; eauto.
Qed.

(** A link whose child is new. *)
Lemma link_allowed_wf db links l : links_wf db links -> link_allowed db links l = true ->
  lr_parent_session_id l <> lr_child_session_id l ->
  (forall k, k ∈ links -> lr_parent_session_id k <> lr_child_session_id l) -> links_wf db (links ++ [l]).
Proof.
  intros [Hc Hs Hf Ho] Ha Hne Hnew. unfold link_allowed in Ha.
  apply andb_prop in Ha as [Ha Hd]. apply andb_prop in Ha as [Ha H2]. apply andb_prop in Ha as [Ha H1].
  apply negb_true_iff, existsb_none in Ha. apply bool_decide_eq_true in H1, H2. apply Z.leb_le in Hd.
  assert (Hk : Forall (fun y => lr_parent_call_id y <> lr_parent_call_id l
      /\ lr_child_session_id y <> lr_child_session_id l) links).
  { eapply Forall_impl; [exact Ha|]. intros y [[_ Hy]%orb_false_iff Hy']%orb_false_iff.
    apply String.eqb_neq in Hy, Hy'. done. }
  split; [apply NoDup_snoc_key; [done|]|apply NoDup_snoc_key; [done|]| |].
  - eapply Forall_impl; [exact Hk|]. by intros y [].
  - eapply Forall_impl; [exact Hk|]. by intros y [].
  - apply Forall_app. split; [done|]. by repeat constructor.
  - intros i j x y [Hx|[Hi Hx]]%lookup_app_Some [Hy|[Hj Hy]]%lookup_app_Some E.
    + by eapply Ho.
    + apply lookup_lt_Some in Hx. lia.
    + destruct (i - length links)%nat; [|done]. injection Hx as <-.
      destruct (Hnew y); [by eapply list_elem_of_lookup_2|done].
    + destruct (i - length links)%nat; [|done]. destruct (j - length links)%nat; [|done]. injection Hx as <-. by injection Hy as <-.
Qed.

(** The child of a link that is created was not there before. *)
Lemma link_child_advances parent title record :
  (forall c i r t, lr_parent_session_id (record c i r t) = parent /\ lr_child_session_id (record c i r t) = c) ->
  keeps advances (link_child parent title record).
Proof.
  intros Hr w Hs. unfold link_child, query, mbind, M_bind. unfold get_session.
  destruct (db_sessions (st_db (w_store w)) !! parent) as [prow|] eqn:Hp; [|by split_and!]. simpl.
  set (w1 := set_ticks _ (set_ticks _ _)). assert (Hs1 : sound w1) by (eapply sound_core; [|exact Hs]; split; simpl; [done|lia]).
  pose proof (create_session_advances (uuid (w_ticks w)) (clock (w_ticks w + 1)) title (sr_project_id prow) Forever w1 Hs1) as Ha.
  pose proof (create_session_new (uuid (w_ticks w)) (clock (w_ticks w + 1)) title (sr_project_id prow) Forever (w_store w1)) as Hn.
  unfold on_store in *. destruct (create_session _ _ _ _ _ _) as [st [[child row]|e]]; simpl in *.
  2: { destruct Ha as (H1 & H2 & H3 & H4). split_and!; [done|done|done|lia]. }
  destruct Ha as (Hs2 & Hg & Hl & Ht). destruct (Hn _ _ eq_refl) as [-> Hnew].
  set (l := record _ _ _ _). destruct (Hr (uuid (w_ticks w)) (uuid (w_ticks w + 1 + 1)) (uuid (w_ticks w + 1 + 1 + 1))
    (clock (w_ticks w + 1 + 1 + 1 + 1))) as [Hlp Hlc]. fold l in Hlp, Hlc.
  unfold create_agent_link. simpl. destruct (link_allowed _ _ _) eqn:Hal; simpl.
  - split_and!; [|done|done|lia]. destruct Hs2 as [Hc2 Ha2 Hv2 Hi2 Hw2]. split; simpl; try done.
    + intros r s Hrs. destruct (Hi2 r s Hrs) as (n & -> & Hlt). exists n. split; [done|simpl in Hlt; lia].
    + apply link_allowed_wf; [done|done|rewrite Hlp, Hlc; congruence|]. rewrite Hlc. intros k Hk E.
      pose proof (lw_sessions _ _ (so_links _ Hs)) as Hf. rewrite Forall_forall in Hf. destruct (Hf k Hk) as ([x Hx] & _).
      rewrite E, Hnew in Hx. done.
  - split_and!; [|done|done|lia]. eapply sound_core; [|exact Hs2]. split; simpl; [done|lia].
Qed.

#[local] Instance advances_reads : KeptReads advances.
Proof. split; [apply _|intros w w2 [Hc _]; by apply advances_core|apply read_projection_advances]. Qed.

Lemma starts_advance : (forall s p run, keeps advances (start_next s p run)) /\ (forall s run, keeps advances (start_again s run)).
Proof. refine (starts_kept advances _). intros s e. eapply appends_advances, append_appends. Qed.

#[export] Instance advances_primitives : KeptPrimitives advances.
Proof.
  split.
  - apply _.
  - apply advances_core.
  - apply read_projection_advances.
  - intros. eapply appends_advances, append_appends.
  - intros s [|e l] _; [|by eapply appends_advances, append_many_appends].
    intros w. rewrite append_many_nil. by apply advances_core, ticked_core.
  - apply admit_new_advances.
  - intros. by eapply admit_retry_advances.
  - intros s p run w _ _. by apply starts_advance.
  - intros s p run w _ _. by apply starts_advance.
  - apply create_session_advances.
  - apply link_child_advances.
Qed.

#[export] Instance advances_turns : KeptTurns advances.
Proof. split. intros. eapply appends_advances, append_appends. Qed.

End reservations.
