(* ===== verification/Serial.v ===== *)
(** One run at a time (files Session, World): in every session a run is started only
    while no other run is running, so no moment of its history has two running runs.

    [serial] says so of a log and of all its prefixes, because a fork starts from
    any of them.  The relation [in_series] between worlds keeps it, through the
    interface of SupervisorFacts: only the two places where a worker starts a run
    need an argument. *)

From S2P Require Export Reservations.
From S2P Require Import StoreFacts StoreSpec SessionSpec Workload.
From S2P Require Export Store.
From S2P Require Export World.
Import SessionProjection.

(** ** Running runs *)

Definition running (p : SessionProjection) (r : string) : Prop :=
  exists run, sp_runs p !! r = Some run /\ rp_status run = RRunning.

Definition single (p : SessionProjection) : Prop := forall r r', running p r -> running p r' -> r = r'.

Definition starts (e : SemanticEvent) : bool := match e with RunStarted _ _ _ => true | _ => false end.

Lemma idle_running p : active_run p = None <-> forall r, ~ running p r.
Proof.
  unfold active_run, running. split.
  - intros Hf r (run & Hr & Hs). pose proof (find_none _ _ Hf run) as Hb. cbv beta in Hb.
    rewrite bool_decide_eq_true_2 in Hb by done. enough (true = false) by done. apply Hb.
    apply list_elem_of_In, elem_of_btree_values. eauto.
  - intros Hn. destruct (List.find _ _) as [run|] eqn:Hf; [|done].
    apply find_some in Hf as [Hin%list_elem_of_In Hs%bool_decide_eq_true].
    apply elem_of_btree_values in Hin as [r Hr]. destruct (Hn r). eauto.
Qed.

(** No event but a start makes a run running. *)
Lemma still_running i e p p' r : try_apply i e p = Ok p' -> starts e = false -> running p' r -> running p r.
Proof.
  intros Ha He (run & Hr & Hs). destruct (Workload.queues e) eqn:Hq.
  - destruct e; try done. apply try_apply_inv in Ha as (st & _ & Ha). simpl in Ha. apply leave_Ok in Ha.
    unfold run_queued in Ha. case_bool_decide; [done|]. injection Ha as <-. simpl in Hr.
    apply lookup_insert_Some in Hr as [[_ <-]|[_ Hr]]; [done|]. by exists run.
  - destruct (try_apply_changed _ _ _ _ Ha Hq) as [_ Hc]. destruct (Hc _ _ Hr) as (x & Hx & [->|Hch]); [by exists x|].
    exists x. split; [done|]. assert (eases x run -> rp_status x = RRunning) as Hease.
    { intros [Ht|[_ [E|[E _]]]]; [by rewrite Hs in Ht|congruence|done]. }
    destruct e; try done; auto. by destruct Hch as (_ & ? & _).
Qed.

Lemma single_apply i e p p' : try_apply i e p = Ok p' -> starts e = false -> single p -> single p'.
Proof. intros Ha He Hp r r' Hr Hr'. apply Hp; by eapply still_running. Qed.

Lemma single_start i id a n p p' : try_apply i (RunStarted id a n) p = Ok p' -> active_run p = None -> single p'.
Proof.
  intros Ha Hp. destruct (try_apply_changed _ _ _ _ Ha eq_refl) as [_ Hc]. rewrite idle_running in Hp.
  assert (forall r, running p' r -> r = id) as Hr; [|intros r r' H1%Hr H2%Hr; congruence].
  intros r (run & Hr & Hs). destruct (Hc _ _ Hr) as (x & Hx & [->|[-> _]]); [|done]. destruct (Hp r). by exists x.
Qed.

Lemma idle_apply i e p p' : try_apply i e p = Ok p' -> starts e = false -> active_run p = None -> active_run p' = None.
Proof. rewrite !idle_running. intros Ha He Hp r Hr. apply (Hp r). by eapply still_running. Qed.

Lemma log_steps_quiet (P : SessionProjection -> Prop) events :
  (forall i e p p', try_apply i e p = Ok p' -> starts e = false -> P p -> P p') ->
  forall n p m p', try_fold log_step (n, p) events = Ok (m, p') -> existsb starts events = false -> P p -> P p'.
Proof.
  intros HP. induction events as [|e l IH]; intros n p m p' Hf He Hp; [by simplify_eq/=|].
  cbn [try_fold] in Hf. simpl in He. apply orb_false_iff in He as [He Hl].
  destruct (log_step (n, p) e) as [[n1 p1]|] eqn:Hs; [|done]. simpl in Hf. eapply IH; [exact Hf|done|].
  unfold log_step in Hs. destruct (_ <? _); [done|]. destruct (try_apply _ _ _) eqn:Ha; simplify_eq/=. by eapply HP.
Qed.

(** ** Histories *)

Definition serial (id : string) (l : list RecordedEvent) : Prop :=
  forall l1 l2 p, l = l1 ++ l2 -> replay (new id) l1 = Ok p -> single p.

Definition begins (e : RecordedEvent) : bool := starts (re_event e).

Lemma single_new id : single (new id).
Proof. intros r r' (run & Hr & _). simpl in Hr. by rewrite lookup_empty in Hr. Qed.

Lemma serial_nil id : serial id [].
Proof. intros [|] l2 p E; [|done]. intros [= <-]. apply single_new. Qed.

Lemma serial_prefix id l1 l2 : serial id (l1 ++ l2) -> serial id l1.
Proof. intros Hs k k' p ->. rewrite <- app_assoc in Hs. by apply (Hs k (k' ++ l2) p). Qed.

(** One more event. *)
Lemma serial_snoc id l e : serial id l ->
  (forall p p', replay (new id) l = Ok p -> apply_recorded p e = Ok p' -> single p -> single p') -> serial id (l ++ [e]).
Proof.
  intros Hs He l1 l2 p E Hr. destruct l2 as [|x l2 _] using rev_ind.
  - rewrite app_nil_r in E. subst l1. apply replay_app in Hr as (q & Hq & Hr). cbn in Hr.
    destruct (apply_recorded q e) as [q'|] eqn:Ha; [|done]. injection Hr as <-. eapply He; [done..|].
    apply (Hs l [] q); [by rewrite app_nil_r|done].
  - rewrite app_assoc in E. apply app_inj_tail in E as [-> _]. by apply (Hs l1 l2 p).
Qed.

Lemma serial_quiet id l l' : serial id l -> existsb begins l' = false -> serial id (l ++ l').
Proof.
  intros Hs. induction l' as [|e l' IH] using rev_ind; intros Hl; [by rewrite app_nil_r|].
  rewrite existsb_app in Hl. apply orb_false_iff in Hl as [Hl He]. simpl in He. rewrite orb_false_r in He.
  rewrite app_assoc. apply serial_snoc; [by apply IH|]. intros p p' _ Ha. by eapply single_apply.
Qed.

Lemma serial_start id l e : serial id l -> (forall p, replay (new id) l = Ok p -> active_run p = None) ->
  serial id (l ++ [e]).
Proof.
  intros Hs Hi. destruct (begins e) eqn:Hb.
  - apply serial_snoc; [done|]. intros p p' Hp Ha _. unfold begins in Hb. destruct (re_event e) eqn:Ee; try done.
    unfold apply_recorded in Ha. rewrite Ee in Ha. eapply single_start; [done|by apply Hi].
  - apply serial_quiet; [done|]. simpl. by rewrite Hb.
Qed.

Lemma begins_record_at id now n events : existsb begins (record_at id now n events) = existsb starts events.
Proof. revert n. induction events as [|e l IH]; intros n; [done|]. cbn [record_at existsb]. by rewrite IH. Qed.

(** The history of a branch is the parent's, up to the fork. *)
Lemma serial_rehome id parent l : serial parent l -> serial id (rehome id <$> l).
Proof.
  intros Hs l1 l2 p E Hr. apply fmap_app_inv in E as (k1 & k2 & -> & -> & ->).
  rewrite replay_fmap, (new_rename id parent), replay_rename in Hr by done.
  destruct (replay (new parent) k1) as [q|] eqn:Hq; [|done]. injection Hr as <-. by apply (Hs k1 k2 q).
Qed.

(** ** Worlds *)

Section worlds.
  Context `{EventCodec} `{Outside}.

Record serially (w : World) : Prop := {
  se_store : consistent (w_store w);
  se_logs : forall id, serial id (log id (w_store w)) }.

Definition in_series (w w' : World) : Prop := serially w -> serially w'.

#[export] Instance in_series_preorder : PreOrder in_series.
Proof. split; [by intros w Hs|]. intros w1 w2 w3 H12 H23 Hs. auto. Qed.

Lemma in_series_logs w w' : consistent (w_store w') -> (forall id, log id (w_store w') = log id (w_store w)) ->
  serially w -> serially w'.
Proof. intros Hcs Hl [_ Hs]. split; [done|]. intros id. by rewrite Hl. Qed.

Lemma in_series_store w w' : w_store w' = w_store w -> in_series w w'.
Proof. intros E Hs. apply (in_series_logs w); [rewrite E; apply Hs|by rewrite E|done]. Qed.

Lemma in_series_core w w' : same_core w w' -> in_series w w'.
Proof. intros [Hc _]. apply in_series_store. unfold core in Hc. by injection Hc as ->. Qed.

Lemma projection_in_series s : keeps in_series (read_projection s).
Proof.
  intros w Hs. pose proof (projection_consistent (w_store w) s (se_store _ Hs)) as Hc.
  pose proof (projection_db (w_store w) s) as Hd. apply (in_series_logs w); [| |done];
    unfold read_projection, on_store; destruct (projection s (w_store w)) as [st r]; simpl in *; [done|].
  intros id. unfold log. by rewrite Hd.
Qed.

(** Appending what starts no run. *)
Lemma appends_in_series {A} s events (m : M A) : existsb starts events = false -> appends s events m -> keeps in_series m.
Proof.
  intros He Hm w Hs. destruct (Hm w (se_store _ Hs)) as [[e ->]|(p & n & p' & st & a & _ & _ & -> & Hl & _ & Hcs & Hfr)].
  - by apply (in_series_store w).
  - simpl. split; [done|]. intros id. simpl. destruct (decide (id = s)) as [->|Hid].
    + rewrite Hl. apply serial_quiet; [apply Hs|]. by rewrite begins_record_at.
    + rewrite (log_frame _ _ _ _ Hfr Hid). apply Hs.
Qed.

Lemma quiet_starts e : emits e = false -> starts e = false.
Proof. by destruct e. Qed.
Lemma quiet_start_all l : existsb emits l = false -> existsb starts l = false.
Proof. induction l as [|e l IH]; simpl; [done|]. intros [He Hl]%orb_false_iff. by rewrite (quiet_starts _ He), IH. Qed.

Lemma append_in_series s e : starts e = false -> keeps in_series (append s e).
Proof. intros He. apply (appends_in_series s [e]); [simpl; by rewrite He|apply append_appends]. Qed.

Lemma append_many_in_series s l : existsb starts l = false -> keeps in_series (append_many s l).
Proof.
  destruct l as [|e l]; [|intros He; by eapply appends_in_series, append_many_appends].
  intros _ w. rewrite append_many_nil. by apply in_series_store.
Qed.

(** ** The start of a run *)

(** A world in which no run of the session is running. *)
Definition idle_at (s : string) (w : World) : Prop :=
  serially w /\ forall p, view s (w_store w) = Some p -> active_run p = None.

Definition stays_idle (s : string) (w w' : World) : Prop := idle_at s w -> idle_at s w'.

#[local] Instance stays_idle_reads s : KeptReads (stays_idle s).
Proof.
  split.
  - split; [by intros w Hs|]. intros w1 w2 w3 H12 H23 Hs. auto.
  - intros w w' [Hc _] [Hs Hi]. split; [by eapply in_series_core|]. destruct Hc as [Hc _]. unfold core in Hc. injection Hc as -> _ _ _. done.
  - intros j w [Hs Hi]. split; [by apply projection_in_series|]. pose proof (projection_db (w_store w) j) as Hd.
    unfold read_projection, on_store. destruct (projection j (w_store w)) as [st r]. simpl in *.
    intros p. rewrite (proj1 (view_db _ _ s Hd)). apply Hi.
Qed.

Lemma append_stays_idle s e : starts e = false -> keeps (stays_idle s) (append s e).
Proof.
  intros He w [Hs Hi]. split; [by apply append_in_series|].
  destruct (append_appends s e w (se_store _ Hs)) as [[x ->]|(p & n & p' & st & a & Hv & Hf & -> & _ & Hv' & _)]; [done|].
  simpl. intros q. rewrite Hv'. intros [= <-].
  apply (log_steps_quiet (fun p => active_run p = None)) in Hf; [done| |simpl; by rewrite He|by apply Hi].
  intros. by eapply idle_apply.
Qed.

Lemma start_in_series s e w : idle_at s w -> serially (fst (append s e w)).
Proof.
  intros [Hs Hi]. destruct (append_appends s e w (se_store _ Hs)) as [[x ->]|(p & n & p' & st & a & Hv & Hf & -> & Hl & _ & Hcs & Hfr)].
  - by apply (in_series_store w).
  - simpl. split; [done|]. intros id. simpl. destruct (decide (id = s)) as [->|Hid].
    + rewrite Hl. apply serial_start; [apply Hs|]. intros q Hq. apply Hi. unfold view in *.
      destruct (project s (log s (w_store w))) as [q'|] eqn:E; [|done]. apply project_Ok in E as (_ & _ & E). simpl. congruence.
    + rewrite (log_frame _ _ _ _ Hfr Hid). apply Hs.
Qed.

(** After handlers that leave the session idle. *)
Lemma start_after {A B} s (m : M A) (k : A -> M B) w : keeps (stays_idle s) m -> idle_at s w ->
  (forall a w', idle_at s w' -> serially (fst (k a w'))) -> serially (fst ((a ← m; k a) w)).
Proof.
  intros Hm Hi Hk. specialize (Hm w Hi). unfold mbind, M_bind. destruct (m w) as [w' [a|e]]; [by apply Hk|apply Hm].
Qed.

Lemma read_idle s w p : serially w -> read_projection s w = (w, Ok p) -> active_run p = None -> idle_at s w.
Proof.
  intros Hs Hp Ha. split; [done|]. intros q Hq. pose proof (view_projection (w_store w) s (se_store _ Hs)) as Hv.
  rewrite Hq in Hv. destruct Hv as (c & E & _). unfold read_projection, on_store in Hp. rewrite E in Hp. by simplify_eq/=.
Qed.

Lemma start_next_in_series s p run w : read_projection s w = (w, Ok p) -> active_run p = None ->
  in_series w (fst (start_next s p run w)).
Proof.
  intros Hp Ha Hs. unfold start_next. apply (start_after s); [|by eapply read_idle|].
  { case_decide; [apply (keeps_ret (stays_idle s))|]. apply (keeps_bind (stays_idle s)); [by apply append_stays_idle|intros _; apply (keeps_ret (stays_idle s))]. }
  intros _ w1 H1. apply (start_after s); [apply (turn_fresh_id (fun A => keeps (stays_idle s)))|done|]. intros attempt w2 H2.
  apply (start_after s); [apply (turn_insert_token (fun A => keeps (stays_idle s)))|done|]. intros _ w3 H3.
  pose proof (start_in_series s (RunStarted (rp_run_id run) attempt (u32_add (rp_attempts run) 1)) w3 H3) as Hr.
  unfold mbind, M_bind, try. destruct (append s _ w3) as [w4 [a|[]]]; exact Hr.
Qed.

Lemma start_again_in_series s p run w : read_projection s w = (w, Ok p) -> active_run p = None ->
  in_series w (fst (start_again s run w)).
Proof.
  intros Hp Ha Hs. unfold start_again. apply (start_after s); [by apply append_stays_idle|by eapply read_idle|].
  intros _ w1 H1. apply (start_after s); [apply (turn_fresh_id (fun A => keeps (stays_idle s)))|done|]. intros attempt w2 H2.
  by apply start_in_series.
Qed.

(** ** The other operations *)

Lemma create_logs i n t pid h s : consistent s -> let s' := fst (create_session i n t pid h s) in
  s' = s \/ frame i (st_db s) (st_db s') /\ log i s' = record_at i n 0 [SessionCreated t].
Proof.
  intros Hcs. unfold create_session. destruct (match pid with Some _ => _ | None => _ end) as [[]|]; simpl; [|by left].
  case_bool_decide as Hi; simpl; [by left|].
  destruct (new_session_row_ok (st_db s) i n t pid h) as (db' & evs & p & E & Hok & Hf & Hl).
  { apply absent_rows; [done|]. by apply eq_None_not_Some. }
  rewrite E. simpl. right. split; [exact Hf|]. apply (row_ok_log (mkStore db' (st_cache s))) in Hok. etrans; [exact Hok|exact Hl].
Qed.

Lemma create_in_series i n t pid h : keeps in_series (on_store (create_session i n t pid h)).
Proof.
  intros w [Hcs Hs]. assert (fst (on_store (create_session i n t pid h) w) = set_store (fst (create_session i n t pid h (w_store w))) w) as ->.
  { unfold on_store. by destruct (create_session _ _ _ _ _ _). }
  split; simpl; [by apply create_consistent|]. intros id.
  destruct (create_logs i n t pid h _ Hcs) as [->|[Hf Hl]]; [apply Hs|]. destruct (decide (id = i)) as [->|Hid].
  - rewrite Hl. by apply (serial_quiet i []); [apply serial_nil|].
  - rewrite (log_frame _ _ _ _ Hf Hid). apply Hs.
Qed.

Lemma reserve_in_series s r : keeps in_series (reserve s r).
Proof. intros w. unfold reserve. destruct (AdmissionController.reserve _ _ _ _); by apply in_series_store. Qed.
Lemma release_in_series r : keeps in_series (release r).
Proof. intros w. by apply in_series_store. Qed.
Lemma tick_in_series : keeps in_series fresh_id /\ keeps in_series now.
Proof. split; intros w; by apply in_series_store. Qed.
Lemma link_in_series l : keeps in_series (create_agent_link l).
Proof. intros w. unfold create_agent_link. case_match; by apply in_series_store. Qed.

#[export] Instance in_series_primitives : KeptPrimitives in_series.
Proof.
  destruct tick_in_series as [Hi Hn]. split.
  - apply _.
  - apply in_series_core.
  - apply projection_in_series.
  - intros s e He. by apply append_in_series, quiet_starts.
  - intros s l Hl. by apply append_many_in_series, quiet_start_all.
  - intros s pr m q. unfold admit_new, admitted. apply (keeps_bind in_series); [done|intros r]. apply (keeps_bind in_series); [apply reserve_in_series|intros _].
    keeps_tac; first [by apply append_in_series|apply release_in_series].
  - intros s o pr m q w p0 _. revert w. change (keeps in_series (admit_retry s o pr m q)). unfold admit_retry, admitted.
    apply (keeps_bind in_series); [done|intros r]. apply (keeps_bind in_series); [apply reserve_in_series|intros _]. apply (keeps_bind in_series); [apply projection_in_series|intros p].
    keeps_tac; first [apply append_many_in_series; by destruct (sp_queue_paused p)|apply release_in_series].
  - apply start_next_in_series.
  - apply start_again_in_series.
  - apply create_in_series.
  - intros parent title record _. unfold link_child. keeps_tac; first [apply create_in_series|apply link_in_series].
Qed.

#[export] Instance in_series_turns : KeptTurns in_series.
Proof. split. intros. by apply append_in_series. Qed.

End worlds.
