(* ===== verification/Locks.v ===== *)
(** The locks of sessions and the permits of active runs in
    [piqo-server/src/supervisor.rs], with the tasks that wait for them.

    The other files run a handler from its first to its last step.  Here the steps of
    tasks interleave, and of a task only what it does to locks and permits is left:
    [process_session], which is called again for the parent's session when the result
    of a child is delivered, [submit_tool_result] and [wait_for_session_idle].  A task
    is the stack of its calls, the innermost first; what it reads from the store
    decides which of its steps it takes, so any of them is possible.  The links
    between sessions are those there are in the end: the table only grows, and a
    longer one allows every step that a shorter one does. *)

From S2P Require Export World.
From S2P Require Export Reservations.

(** Where a call is: [lock.lock().await]; inside the guard; [acquire_active().await],
    the run being started; in a turn, with a permit until its end, the delivery of its
    result included; after [drop(guard)]; after [release_session_lock]. *)
Inductive Stage := Waiting | Holding | Starting | Turn | Unguarded | Released.

#[export] Instance stage_eq_dec : EqDecision Stage.
Proof. solve_decision. Defined.

(** A call has its clone of the session's [Arc<Mutex<()>>] until it returns. *)
Record Call := mkCall {
  ca_session : string;
  ca_lock : nat;
  ca_stage : Stage }.

Definition set_stage (g : Stage) (c : Call) : Call := mkCall (ca_session c) (ca_lock c) g.

(** [ls_locks] is [SessionSupervisor::locks]; a lock is the number of its
    allocation. *)
Record LockState := mkLocks {
  ls_locks : gmap string nat;
  ls_next : nat;
  ls_tasks : gmap nat (list Call) }.

Definition no_locks : LockState := mkLocks ∅ 0 ∅.

Definition set_tasks (m : gmap nat (list Call)) (s : LockState) : LockState := mkLocks (ls_locks s) (ls_next s) m.

Definition guards (c : Call) : bool := bool_decide (ca_stage c ∈ [Holding; Starting; Turn]).
Definition turning (c : Call) : bool := bool_decide (ca_stage c = Turn).

Definition locked (lock : nat) (s : LockState) : bool :=
  existsb (fun p => existsb (fun c => guards c && (ca_lock c =? lock)%nat) p.2) (map_to_list (ls_tasks s)).

(** [Arc::strong_count]: the clones of the calls and the one in the table. *)
Definition clones (lock : nat) (s : LockState) : nat :=
  weigh (fun calls => length (List.filter (fun c => (ca_lock c =? lock)%nat) calls)) (ls_tasks s).
Definition strong_count (lock : nat) (s : LockState) : nat :=
  (clones lock s + weigh (fun l => if (l =? lock)%nat then 1 else 0)%nat (ls_locks s))%nat.

(** The permits of [AdmissionController::active] that are taken. *)
Definition active (s : LockState) : nat :=
  weigh (fun calls => length (List.filter turning calls)) (ls_tasks s).

(** ** Steps *)

(** [locks.entry(session_id).or_insert_with(..).clone()]. *)
Definition clone_lock (session_id : string) (s : LockState) : nat * LockState :=
  match ls_locks s !! session_id with
  | Some lock => (lock, s)
  | None => (ls_next s, mkLocks (<[session_id := ls_next s]> (ls_locks s)) (S (ls_next s)) (ls_tasks s))
  end.

(** A new task, or the call for the parent at the end of a child's turn. *)
Definition enter_session (links : list AgentLinkRecord) (task : nat) (session_id : string) (s : LockState) :
    option LockState :=
  let call := fun outer =>
    let '(lock, s) := clone_lock session_id s in
    Some (set_tasks (<[task := mkCall session_id lock Waiting :: outer]> (ls_tasks s)) s) in
  match ls_tasks s !! task with
  | None => call []
  | Some [] => None
  | Some (c :: outer) =>
      if turning c && existsb (fun l => String.eqb (lr_parent_session_id l) session_id
                                        && String.eqb (lr_child_session_id l) (ca_session c)) links
      then call (c :: outer) else None
  end.

(** The innermost call goes from one stage to another. *)
Definition advance (task : nat) (from to : Stage) (s : LockState) : option LockState :=
  match ls_tasks s !! task with
  | Some (c :: outer) =>
      if decide (ca_stage c = from) then Some (set_tasks (<[task := set_stage to c :: outer]> (ls_tasks s)) s) else None
  | _ => None
  end.

Definition innermost (task : nat) (s : LockState) : option Call := calls ← ls_tasks s !! task; head calls.

Definition lock_session (task : nat) (s : LockState) : option LockState :=
  c ← innermost task s; if locked (ca_lock c) s then None else advance task Waiting Holding s.

Definition acquire_active (max_active_runs : nat) (task : nat) (s : LockState) : option LockState :=
  if (active s <? max_active_runs)%nat then advance task Starting Turn s else None.

(** [release_session_lock]. *)
Definition release_session_lock (session_id : string) (lock : nat) (s : LockState) : LockState :=
  if (strong_count lock s =? 2)%nat && bool_decide (ls_locks s !! session_id = Some lock)
  then mkLocks (delete session_id (ls_locks s)) (ls_next s) (ls_tasks s) else s.

Definition release_call (task : nat) (s : LockState) : option LockState :=
  c ← innermost task s; advance task Unguarded Released (release_session_lock (ca_session c) (ca_lock c) s).

(** The call returns, and its clone of the lock is gone. *)
Definition return_call (task : nat) (s : LockState) : option LockState :=
  match ls_tasks s !! task with
  | Some (c :: outer) =>
      if decide (ca_stage c = Released)
      then Some (set_tasks (match outer with [] => delete task (ls_tasks s) | _ => <[task := outer]> (ls_tasks s) end) s)
      else None
  | _ => None
  end.

(** [abort_all], or a handler whose client went away: its calls are dropped. *)
Definition abort_task (task : nat) (s : LockState) : option LockState :=
  match ls_tasks s !! task with
  | Some _ => Some (set_tasks (delete task (ls_tasks s)) s)
  | None => None
  end.

Inductive Action :=
  | EnterSession (task : nat) (session_id : string)
  | LockSession (task : nat)
  | StartRun (task : nat)
  | AcquireActive (task : nat)
  | EndTurn (task : nat)
  | DropGuard (task : nat)
  | ReleaseLock (task : nat)
  | ReturnCall (task : nat)
  | AbortTask (task : nat).

Definition act (max_active_runs : nat) (links : list AgentLinkRecord) (a : Action) (s : LockState) : option LockState :=
  match a with
  | EnterSession task session_id => enter_session links task session_id s
  | LockSession task => lock_session task s
  | StartRun task => advance task Holding Starting s
  | AcquireActive task => acquire_active max_active_runs task s
  | EndTurn task => advance task Turn Holding s
  | DropGuard task => advance task Holding Unguarded s
  | ReleaseLock task => release_call task s
  | ReturnCall task => return_call task s
  | AbortTask task => abort_task task s
  end.

Definition lock_step (max_active_runs : nat) (links : list AgentLinkRecord) (s s' : LockState) : Prop :=
  exists a, act max_active_runs links a s = Some s'.

(** Any interleaving of tasks. *)
Definition lock_steps (max_active_runs : nat) (links : list AgentLinkRecord) : relation LockState :=
  rtc (lock_step max_active_runs links).

(** An interleaving given as a list. *)
Fixpoint acts (max_active_runs : nat) (links : list AgentLinkRecord) (l : list Action) (s : LockState) : option LockState :=
  match l with
  | [] => Some s
  | a :: l => s ← act max_active_runs links a s; acts max_active_runs links l s
  end.
