(* ===== verification/ApiFacts.v ===== *)
(** Every handler of the HTTP API keeps what its elementary steps keep.

    [KeptSteps RW R] is the interface: the steps a relation [R] on [AppState] has to
    allow, where the supervisor's operations keep [RW] (SupervisorFacts carries each
    of its handlers, [KeptStores] the operations of the store that only the API
    uses).  It has an instance for the invariant of the supervisor, one for the
    histories of file Serial and one for the counters, so the theorems of file
    ApiSpec hold for any sequence of requests. *)

From S2P Require Export Router Reservations.
From S2P Require Import StoreFacts StoreSpec.
From S2P Require Export Store.
From S2P Require Export World.
From S2P Require Export Api.

(** ** The operations of the store that only the API uses *)

Section stores.
  Context `{EventCodec} `{Outside}.

(** What was recorded stays as it is. *)
Definition keeps_logs (s s' : SqliteStore) : Prop := forall id, log id s <> [] -> log id s' = log id s.

Lemma keeps_logs_refl s : keeps_logs s s.
Proof. by intros id. Qed.

Lemma keeps_logs_grows s s' : keeps_logs s s' -> grows s s'.
Proof.
  intros Hk id. destruct (log id s) as [|e l] eqn:E; [apply prefix_nil|].
  rewrite Hk by (by rewrite E). by rewrite E.
Qed.

Lemma keeps_logs_events s s' : db_events (st_db s') = db_events (st_db s) -> keeps_logs s s'.
Proof. intros E id _. unfold log, read_events, session_rows. by rewrite E. Qed.

Lemma view_log id s p : view id s = Some p -> log id s <> [].
Proof. unfold view. intros Hv E. by rewrite E in Hv. Qed.

Lemma store_op_advances {A} (f : SqliteStore -> SqliteStore * result StoreError A) :
  (forall s, consistent s -> consistent (fst (f s)) /\ keeps_logs s (fst (f s))) -> keeps advances (on_store f).
Proof.
  intros Hf w Hs. destruct (Hf _ (so_store _ Hs)) as [Hcs Hk].
  assert (fst (on_store f w) = set_store (fst (f (w_store w))) w) as ->.
  { unfold on_store. by destruct (f (w_store w)). }
  pose proof (keeps_logs_grows _ _ Hk) as Hg. split_and!; [|done|done|done].
  apply (sound_store w); try done. intros r id p _ Hv Hl. exists p. split; [|done].
  unfold view in *. simpl. rewrite Hk; [done|]. by apply (view_log _ _ p).
Qed.

Lemma create_project_advances i t n p : keeps advances (on_store (Store.create_project i t n p)).
Proof.
  apply store_op_advances. intros s Hs. split; [by apply create_project_consistent|].
  unfold Store.create_project. repeat case_match; first [apply keeps_logs_refl | by apply keeps_logs_events].
Qed.

Lemma update_project_advances i t n p : keeps advances (on_store (Store.update_project i t n p)).
Proof.
  apply store_op_advances. intros s Hs. split; [by apply update_project_consistent|].
  unfold Store.update_project. repeat case_match; first [apply keeps_logs_refl | by apply keeps_logs_events].
Qed.

Lemma retention_advances i h : keeps advances (on_store (Store.update_session_retention i h)).
Proof.
  apply store_op_advances. intros s Hs. split; [by apply retention_consistent|].
  unfold Store.update_session_retention. destruct (db_sessions _ !! _); [|apply keeps_logs_refl].
  by apply keeps_logs_events.
Qed.

(** A fork below the first event is refused: ids are positive. *)
Lemma fork_negative s id now parent n title : consistent s -> n < 0 ->
  fst (Store.fork_session id now parent n title s) = s.
Proof.
  intros Hcs Hn. unfold Store.fork_session.
  destruct (db_sessions (st_db s) !! parent) as [row|] eqn:Hrow; [|done]. cbn [ok_or mbind result_mbind].
  destruct (cs_sessions _ Hcs _ _ Hrow) as (evs & p & Hok & _). apply row_ok_ids in Hok as [Hids Hnum].
  rewrite i64_of_u64_in by (unfold i64_max; lia). cbn [ok_or mbind result_mbind].
  rewrite (filter_take _ _ _ _ Hids Hnum). replace (Z.to_nat (n - 0)) with 0%nat by lia. done.
Qed.

Lemma fork_outcome s id now parent n title : consistent s -> let s' := fst (Store.fork_session id now parent n title s) in
  s' = s \/ (db_sessions (st_db s) !! id = None /\ frame id (st_db s) (st_db s') /\ consistent s'
            /\ exists q, log id s' = branch id now parent n (log parent s) q).
Proof.
  intros Hcs. destruct (decide (n < 0)) as [Hn|Hn]; [left; by apply fork_negative|]. cbv zeta.
  destruct (db_sessions (st_db s) !! parent) as [prow|] eqn:Hprow.
  2: { left. unfold Store.fork_session. by rewrite Hprow. }
  destruct (decide (n <= i64_max)) as [Hmax|Hmax].
  2: { left. unfold Store.fork_session. rewrite Hprow. cbn [ok_or mbind result_mbind]. by rewrite i64_of_u64_out by lia. }
  destruct (cs_sessions _ Hcs _ _ Hprow) as (evs & p & Hok & _).
  destruct (db_sessions (st_db s) !! id) as [r|] eqn:Hid.
  { left. unfold Store.fork_session. rewrite Hprow, Hid. cbn [ok_or mbind result_mbind].
    destruct (i64_of_u64 n); [|done]. cbn [ok_or mbind result_mbind]. destruct (negb _); [done|].
    destruct (collect _ _); [|done]. cbn [ok_or mbind result_mbind]. by destruct (project _ _). }
  pose proof (fork_unfold s id now parent n title _ _ _ Hok ltac:(lia) Hid) as Hf.
  case_bool_decide as Hin; [|left; by rewrite Hf].
  destruct Hf as (q & row & db & Hq & Hrow & _ & _ & _ & Hlen & E).
  destruct (decide (n + Z.of_nat (length (fork_events parent n q)) <= i64_max)) as [Hb|Hb].
  - right. destruct (fork_success s id now parent n title _ _ _ _ Hcs Hok Hid Hin Hq Hb)
      as (s' & row' & p' & -> & Hl & _ & _ & Hfr & Hc). split_and!; [done|done|done|by exists q].
  - left. destruct (fork_loop_overflow (fork_events parent n q) _ _ _ _ _ now Hrow) as [e He]; [lia..|].
    rewrite Hlen, Z2Nat.id in He by lia. by rewrite E, He.
Qed.

Lemma fork_advances i t parent n title : keeps advances (on_store (Store.fork_session i t parent n title)).
Proof.
  apply store_op_advances. intros s Hs.
  destruct (fork_outcome s i t parent n title Hs) as [->|(Hi & Hf & Hcs & _)]; [by split; [|apply keeps_logs_refl]|].
  split; [done|]. intros j Hj. apply (log_frame _ _ _ _ Hf). intros ->. by apply absent_log in Hi as [_ Hi].
Qed.

(** The operations of the store that only the API uses. *)
Class KeptStores (RW : relation World) : Prop := {
  kt_create_project : forall i t n p, keeps RW (on_store (Store.create_project i t n p));
  kt_update_project : forall i t n p, keeps RW (on_store (Store.update_project i t n p));
  kt_retention : forall i h, keeps RW (on_store (Store.update_session_retention i h));
  kt_fork : forall i t parent n title, keeps RW (on_store (Store.fork_session i t parent n title)) }.

#[export] Instance advances_stores : KeptStores advances.
Proof. split; [apply create_project_advances|apply update_project_advances|apply retention_advances|apply fork_advances]. Qed.

End stores.

(** ** Steps of handlers *)

Section kept.
  Context `{EventCodec} `{Outside} `{Documents} `{Http}.

Class KeptSteps (RW : relation World) (R : relation AppState) := {
  ks_order :: PreOrder R;
  ks_world : forall A (m : M A), keeps RW m -> forall s, R s (fst (on_world m s));
  ks_core : forall s w, same_core (app_world s) w -> R s (set_app_world w s);
  ks_manager : forall s m, R s (set_app_manager m s);
  ks_slots : forall s l, R s (set_app_slots l s);
  ks_fatal : forall s e, R s (set_app_fatal e s);
  ks_count : forall s, R s (set_app_metrics (count_request (app_metrics s)) s);
  ks_shutdown : forall s, R s (begin_shutdown s) }.

Context (RW : relation World) `{!KeptPrimitives RW} `{!KeptTurns RW} `{!KeptStores RW}.
Context (R : relation AppState) `{!KeptSteps RW R}.

Definition hkeeps {A} (h : Handler A) : Prop := forall s, R s (fst (h s)).

Lemma hkeeps_ret {A} (a : A) : hkeeps (mret a).
Proof. intros s. reflexivity. Qed.
Lemma hkeeps_refuse {A} e : hkeeps (refuse (A := A) e).
Proof. intros s. reflexivity. Qed.
Lemma hkeeps_accept {A} (r : result ApiError A) : hkeeps (accept r).
Proof. intros s. reflexivity. Qed.
Lemma hkeeps_accept_at {A} (f : AppState -> result ApiError A) : hkeeps (fun s => accept (f s) s).
Proof. intros s. reflexivity. Qed.
Lemma hkeeps_query {A} (f : ConfigManager -> result ConfigError A) : hkeeps (config_query f).
Proof. intros s. reflexivity. Qed.

Lemma hkeeps_bind {A B} (h : Handler A) (f : A -> Handler B) :
  hkeeps h -> (forall a, hkeeps (f a)) -> hkeeps (a ← h; f a).
Proof.
  intros Hh Hf s. specialize (Hh s). unfold mbind, Handler_bind. destruct (h s) as [s' [a|e]]; simpl in *; [|done].
  etrans; [exact Hh|apply Hf].
Qed.

Lemma hkeeps_config {A} (f : ConfigManager -> ConfigManager * result ConfigError A) : hkeeps (on_config f).
Proof. intros s. unfold on_config. destruct (f _) as [m r]. apply ks_manager. Qed.

Lemma hkeeps_world {A} (m : M A) : keeps RW m -> hkeeps (on_world m).
Proof. intros Hm s. by apply ks_world. Qed.

(** The operations of the supervisor that the handlers call. *)
#[local] Hint Resolve keeps_queue_run keeps_resume keeps_retry keeps_submit_tool_result keeps_agent_links kp_projection
  keeps_run_of keeps_fresh_id keeps_now keeps_tick keeps_cancel kt_create_project kt_update_project kt_retention kt_fork
  kp_create_session : keeps.
#[local] Hint Extern 1 (keeps _ (Delegation.approve_permission _ _ _ _)) => apply keeps_resolve_permission; exact _ : keeps.
#[local] Hint Extern 1 (keeps _ (Delegation.deny_permission _ _ _)) => apply keeps_resolve_permission; exact _ : keeps.
#[local] Hint Extern 1 (keeps _ (project_is_deleting _)) => apply (keeps_gets RW) : keeps.
#[local] Hint Extern 1 (keeps _ (modify _)) => apply keeps_modify_core; [exact _|intros ?; split; simpl; [reflexivity|lia]] : keeps.

Lemma hkeeps_project_path p : hkeeps (project_path p).
Proof. intros s. reflexivity. Qed.

(** [hkeeps_tac] goes through a handler as [keeps_tac] goes through one of the
    supervisor. *)
Ltac hkeeps_tac :=
  repeat match goal with
  | |- hkeeps (mbind _ _) => apply hkeeps_bind
  | |- hkeeps (mret _) => apply hkeeps_ret
  | |- hkeeps (refuse _) => apply hkeeps_refuse
  | |- hkeeps (accept _) => apply hkeeps_accept
  | |- hkeeps (fun s => accept (@?f s) s) => apply (hkeeps_accept_at f)
  | |- hkeeps (project_path _) => apply hkeeps_project_path
  | |- hkeeps (config_query _) => apply hkeeps_query
  | |- hkeeps (on_config _) => apply hkeeps_config
  | |- hkeeps (on_world _) => apply hkeeps_world; solve [keeps_tac]
  | |- hkeeps (let '_ := _ in _) => case_match
  | |- hkeeps (match _ with _ => _ end) => case_match
  | |- forall _, _ => intro
  end.

Lemma hkeeps_refuse_deleting p : hkeeps (refuse_deleting p).
Proof. unfold refuse_deleting. hkeeps_tac. Qed.
Lemma hkeeps_manage {A} (f : N -> string -> string -> ConfigManager -> ConfigManager * result ConfigError A) :
  hkeeps (manage f).
Proof. unfold manage. hkeeps_tac. Qed.
Lemma hkeeps_find_run s r : hkeeps (find_run s r).
Proof. unfold find_run. hkeeps_tac. Qed.

Lemma drop_stream_kept session_id receiver s : R s (drop_stream session_id receiver s).
Proof. unfold drop_stream. etrans; [|apply ks_slots]. apply ks_core. split; simpl; [reflexivity|lia]. Qed.

Lemma hkeeps_stream_events session_id header : hkeeps (stream_events session_id header).
Proof.
  unfold stream_events. hkeeps_tac.
  - intros s. unfold acquire_stream. destruct (acquire_sse_connection _ _ _). apply ks_slots.
  - intros s. unfold replay_stream. destruct (open_stream _ _ _ _); [reflexivity|]. apply drop_stream_kept.
Qed.

Lemma hkeeps_reload_config : hkeeps reload_config.
Proof.
  assert (Hr : hkeeps reload_state).
  { unfold reload_state. hkeeps_tac. intros s. unfold reconcile_servers. destruct (reconcile _ _ _ _) as [mcp r]. simpl.
    apply ks_core. split; simpl; [reflexivity|lia]. }
  intros s. specialize (Hr s). unfold reload_config. destruct (reload_state s) as [s' [c|[[]|]]]; simpl in *; try done.
  etrans; [exact Hr|]. unfold request_fatal_reload_shutdown. etrans; [|apply ks_fatal].
  apply ks_core. split; simpl; [reflexivity|lia].
Qed.

Lemma hkeeps_create_backup : hkeeps create_backup.
Proof.
  unfold create_backup. hkeeps_tac.
  - intros s. unfold ensure_private_directory. destruct (create_dir_all _ _ _); [apply ks_manager|reflexivity].
  - intros s. unfold backup_to. destruct (_ || _); [reflexivity|].
    assert (Ht : forall s0, R s0 (set_app_world (set_ticks (w_ticks (app_world s0) + 1) (app_world s0)) s0)).
    { intros s0. apply ks_core. split; simpl; [reflexivity|lia]. }
    destruct (vacuum _); simpl; [|apply Ht]. etrans; [apply Ht|apply ks_manager].
Qed.

(** ** Requests *)

Lemma hkeeps_with_body {A} (read : json -> option A) request f :
  (forall a, hkeeps (f a)) -> hkeeps (with_body read request f).
Proof. intros Hf. unfold with_body. hkeeps_tac. apply Hf. Qed.
Lemma hkeeps_with_query {Q} (parse : string -> result string Q) request f :
  (forall q, hkeeps (f q)) -> hkeeps (with_query parse request f).
Proof. intros Hf. unfold with_query. hkeeps_tac. apply Hf. Qed.


Lemma dispatch0_kept endpoint request : hkeeps (dispatch0 endpoint request).
Proof.
  destruct endpoint; try apply hkeeps_ret; simpl.
  - intros s. reflexivity.
  - apply hkeeps_with_body. intros a. unfold create_project. hkeeps_tac.
  - apply hkeeps_with_query. intros q. unfold list_projects. hkeeps_tac.
  - apply hkeeps_with_body. intros a. unfold create_session. hkeeps_tac. apply hkeeps_refuse_deleting.
  - apply hkeeps_with_query. intros q. unfold list_sessions. hkeeps_tac.
  - unfold list_providers. hkeeps_tac.
  - apply hkeeps_with_body. intros a. unfold create_provider. hkeeps_tac. apply hkeeps_manage.
  - unfold list_agents. hkeeps_tac.
  - apply hkeeps_reload_config.
  - apply hkeeps_create_backup.
  - unfold list_mcp_servers. hkeeps_tac.
  - unfold list_permission_rules. hkeeps_tac.
Qed.

Lemma dispatch1_kept endpoint a request : endpoint <> EDeleteProject -> hkeeps (dispatch1 endpoint a request).
Proof.
  intros He. destruct endpoint; try apply hkeeps_ret; simpl.
  - unfold get_project. hkeeps_tac.
  - apply hkeeps_with_body. intros r. unfold update_project. hkeeps_tac.
  - done.
  - apply hkeeps_with_query. intros q. unfold list_project_sessions. hkeeps_tac.
  - apply hkeeps_with_body. intros h. unfold update_session_retention. hkeeps_tac.
  - unfold get_session. hkeeps_tac.
  - apply hkeeps_with_query. intros q. unfold get_events. hkeeps_tac.
  - apply hkeeps_stream_events.
  - apply hkeeps_with_body. intros r. unfold fork_session. hkeeps_tac. apply hkeeps_refuse_deleting.
  - unfold get_agent_tree. hkeeps_tac.
  - unfold get_provider. hkeeps_tac.
  - apply hkeeps_with_body. intros r. unfold update_provider. hkeeps_tac. apply hkeeps_manage.
  - unfold delete_provider. hkeeps_tac. apply hkeeps_manage.
  - unfold list_provider_models. hkeeps_tac.
  - apply hkeeps_with_body. intros r. unfold replace_provider_models. hkeeps_tac. apply hkeeps_manage.
  - unfold clear_provider_models. hkeeps_tac. apply hkeeps_manage.
  - unfold refresh_provider_models. hkeeps_tac. apply hkeeps_manage.
  - apply hkeeps_with_body. intros r. unfold create_run. hkeeps_tac.
  - unfold delete_permission_rule. hkeeps_tac.
  - unfold resume_queue. hkeeps_tac.
Qed.

Lemma dispatch2_kept fuel endpoint a b : hkeeps (dispatch2 fuel endpoint a b).
Proof.
  destruct endpoint; try apply hkeeps_ret; simpl.
  - unfold get_run. hkeeps_tac. apply hkeeps_find_run.
  - unfold cancel_run. hkeeps_tac.
  - unfold retry_run. hkeeps_tac.
  - unfold list_permission_requests. hkeeps_tac. apply hkeeps_find_run.
Qed.

Lemma dispatch3_kept endpoint a b c request : hkeeps (dispatch3 endpoint a b c request).
Proof.
  destruct endpoint; try apply hkeeps_ret; simpl.
  - apply hkeeps_with_body. intros v. unfold submit_tool_result. hkeeps_tac.
  - apply hkeeps_with_body. intros scope. unfold approve_permission. hkeeps_tac.
  - unfold deny_permission. hkeeps_tac.
Qed.

Lemma dispatch_kept fuel endpoint params request :
  endpoint <> EDeleteProject -> hkeeps (dispatch fuel endpoint params request).
Proof.
  intros He. unfold dispatch, with_params. destruct params as [|p params]; [apply dispatch0_kept|].
  hkeeps_tac; [apply hkeeps_ret|by apply dispatch1_kept|apply dispatch2_kept|apply dispatch3_kept|apply hkeeps_ret].
Qed.

(** Everything but the deletion of a project. *)
Definition deletes_project (request : HttpRequest) : bool :=
  match route (hr_method request) (hr_path request) with
  | Found endpoint _ => bool_decide (endpoint = EDeleteProject)
  | _ => false
  end.

Lemma reply_kept m r s : R s (fst (reply m r s)).
Proof.
  unfold reply, drop_body. case_decide; [|reflexivity]. simpl. destruct (http_body r); try reflexivity.
  apply drop_stream_kept.
Qed.

Lemma handle_kept fuel request s : deletes_project request = false -> R s (fst (handle fuel request s)).
Proof.
  intros Hd. unfold handle, deletes_project in *. destruct (route _ _) as [| |endpoint params]; [reflexivity..|].
  apply bool_decide_eq_false in Hd. pose proof (dispatch_kept fuel endpoint params request Hd s) as Hk.
  destruct (dispatch _ _ _ _ s) as [s' [r|[e|f]]]; simpl in *; try done; (etrans; [exact Hk|apply reply_kept]).
Qed.

Lemma serve_kept token fuel request s : deletes_project request = false -> R s (fst (serve token fuel request s)).
Proof.
  intros Hd. assert (Hn : R s (fst (number_request fuel request s))).
  { unfold number_request, refuse_in_shutdown.
    set (s1 := set_app_metrics _ s). set (s2 := set_app_world _ s1).
    assert (Hc : R s s2) by (etrans; [apply ks_count|]; apply ks_core; split; simpl; [reflexivity|lia]).
    destruct (app_shutting_down s2); [exact Hc|].
    pose proof (handle_kept fuel request s2 Hd) as Hh. destruct (handle _ _ s2) as [s3 r]. simpl in *. by etrans. }
  unfold serve. destruct token; [|done]. destruct (bearer _); [|reflexivity]. by destruct (constant_time_equal _ _).
Qed.

(** ** Sequences *)

(** A request that does not delete a project; a worker of the supervisor; a stream
    that ends or whose client goes away; the discovery of a reload; the start of a
    shutdown; the recovery after a start; the end of the supervisor. *)
Inductive api_step (token : option string) (s : AppState) : AppState -> Prop :=
  | step_request fuel request : deletes_project request = false -> api_step token s (fst (serve token fuel request s))
  | step_run_worker fuel : api_step token s (fst (on_world (run_worker fuel) s))
  | step_end_stream session_id receiver : api_step token s (end_stream session_id receiver s)
  | step_drop_stream session_id receiver : api_step token s (drop_stream session_id receiver s)
  | step_discovery : api_step token s (background_discovery s)
  | step_begin_shutdown : api_step token s (begin_shutdown s)
  | step_recover : api_step token s (fst (on_world resume_ready_actions_after_restart s))
  | step_stop timely : api_step token s (fst (on_world (shutdown timely) s)).

Definition api_steps (token : option string) : relation AppState := rtc (api_step token).

Lemma api_step_kept token s s' : api_step token s s' -> R s s'.
Proof.
  destruct 1.
  - by apply serve_kept.
  - apply ks_world. by apply keeps_run_worker.
  - unfold end_stream. etrans; [|apply drop_stream_kept]. apply ks_core. split; simpl; [reflexivity|lia].
  - apply drop_stream_kept.
  - unfold background_discovery. etrans; [apply ks_manager|]. apply ks_core. split; simpl; [reflexivity|lia].
  - apply ks_shutdown.
  - by apply ks_world, keeps_resume_after_restart.
  - by apply ks_world, keeps_shutdown.
Qed.

Lemma api_steps_kept token s s' : api_steps token s s' -> R s s'.
Proof. induction 1; [reflexivity|]. etrans; [by eapply api_step_kept|done]. Qed.

End kept.

(** ** Instances *)

(** The worlds of the supervisor are related. *)
Definition in_world `{EventCodec} (RW : relation World) (s s' : AppState) : Prop := RW (app_world s) (app_world s').

#[export] Instance in_world_steps `{EventCodec} `{Outside} RW `{!KeptPrimitives RW} : KeptSteps RW (in_world RW).
Proof.
  split; unfold in_world; try (intros; reflexivity).
  - split; [intros s; reflexivity|]. intros s1 s2 s3 H1 H2. by etrans.
  - intros A m Hm s. unfold on_world. specialize (Hm (enter_world s)). destruct (m (enter_world s)) as [w r]. simpl in *.
    etrans; [|exact Hm]. apply kp_core. split; simpl; [reflexivity|lia].
  - intros s w Hw. by apply kp_core.
Qed.

(** The counters of rejections stay as they are. *)
Definition same_rejections `{EventCodec} (s s' : AppState) : Prop :=
  run_capacity_rejections (app_metrics s') = run_capacity_rejections (app_metrics s)
  /\ sse_capacity_rejections (app_metrics s') = sse_capacity_rejections (app_metrics s).

#[export] Instance same_rejections_steps `{EventCodec} `{Outside} RW : KeptSteps RW same_rejections.
Proof.
  split; unfold same_rejections; try (intros; by split).
  - split; [by intros s|]. intros s1 s2 s3 [] []. split; congruence.
  - intros A m Hm s. unfold on_world. by destruct (m (enter_world s)) as [w r].
Qed.

(** The invariant of the supervisor over any sequence of requests. *)
Section sequences.
  Context `{EventCodec} `{Outside} `{Documents} `{Http} (uuid_inj : forall m n, uuid m = uuid n -> m = n).

Lemma serve_advances token fuel request s : deletes_project request = false ->
  advances (app_world s) (app_world (fst (serve token fuel request s))).
Proof. pose proof (advances_primitives uuid_inj). apply (serve_kept advances (in_world advances)). Qed.

Lemma steps_advance token s s' : api_steps token s s' -> advances (app_world s) (app_world s').
Proof. pose proof (advances_primitives uuid_inj). apply (api_steps_kept advances (in_world advances)). Qed.

Lemma steps_keep_rejections token s s' : api_steps token s s' -> same_rejections s s'.
Proof. pose proof (advances_primitives uuid_inj). apply (api_steps_kept advances same_rejections). Qed.
End sequences.
