(* ===== verification/Scenario.v ===== *)
(** A concrete outside, configuration and store, on which the theorems about the
    supervisor are instantiated: ids that can be told apart, a chat provider that
    answers from a script, and a session without a project. *)

From S2P Require Export Worker Reservations.
From S2P Require Export World.

(** Fresh ids: one letter more each time. *)
Fixpoint marks (n : nat) : string := match n with O => "" | S n => String "x" (marks n) end.
Definition example_uuid (n : N) : string := String "u" (marks (N.to_nat n)).

Lemma example_uuid_inj m n : example_uuid m = example_uuid n -> m = n.
Proof.
  intros [= E]. apply N2Nat.inj. revert E. generalize (N.to_nat m) as a, (N.to_nat n) as b.
  induction a as [|a IH]; intros [|b] E; simpl in E; try done. injection E as E. f_equal. by apply IH.
Qed.

(** [script] answers the requests, [texts] is the parser of the texts in them and
    [print] the printer. *)
Definition outside_with (script : N -> SendOutcome) (texts : string -> option json) (print : json -> string) : Outside := {|
  uuid := example_uuid;
  clock := fun n => show_u64 (Z.of_N n);
  display_store := fun _ => "store";
  display_config := fun _ => "config";
  display_failure := fun _ => "failure";
  from_str := texts;
  to_string := print;
  env_var := fun _ => None;
  url_scheme := fun _ => Some "http";
  header_ok := fun _ _ => true;
  pointer := fun _ _ => None;
  build_request_error := fun _ _ _ => None;
  send := script;
  sleep_interrupted := fun _ => false;
  late := fun _ _ => false;
  time_is_up := fun _ _ => None;
  mcp_behaviour := fun _ _ => mkBehaviour Mcp.SpawnFailed None;
  mcp_outcome := fun _ => CallFailed;
  schema_ok := fun _ => true;
  conforms := fun _ _ => true;
  spawn_process := fun _ _ _ _ => None;
  current_dir := [] |}.
Definition example_outside (script : N -> SendOutcome) (texts : string -> option json) : Outside :=
  outside_with script texts (fun _ => "").

(** A chat provider. *)
Definition chat_provider : ProviderConfig :=
  mkProviderConfig "http://localhost" "chat_completions" None None ∅ 10 None None None ∅.

Definition chat_config : PiqoConfig :=
  mkConfig body_layer_default {["p" := chat_provider]} ∅ ∅ ∅ native_tools_default ∅ context_config_default
    orchestration_default resource_limits_default (mkStorage None) ∅.

(** A streamed answer: a text, a tool call, a broken connection. *)
Definition chat_delta (fields : list (string * json)) : json :=
  jobject [("choices", JArray [jobject [("delta", jobject fields)]])].
Definition chat_texts (s : string) : option json :=
  if String.eqb s "hi" then Some (chat_delta [("content", JString "hi")])
  else if String.eqb s "call" then Some (chat_delta [("tool_calls", JArray [
    jobject [("index", jnum 0); ("id", JString "call-1");
             ("function", jobject [("name", JString "lookup"); ("arguments", JString "{}")])]])])
  else None.

Definition sse (lines : list string) : list StreamEvent :=
  [Chunk (str_concat ((fun l => "data: " ++s l ++s LFLF) <$> lines))].
Definition answer (lines : list string) : SendOutcome :=
  SendOk (mkResponse true "200 OK" (sse (lines ++ ["[DONE]"])) (TextOk "")).

#[local] Existing Instance plain_codec.

(** A new supervisor on a store with the session [s]. *)
Definition chat_store : SqliteStore := fst (create_session "s" "t" None None Forever empty_store).
Definition chat_world : World := new_world chat_store chat_config.

Definition hello : RunRequest := mkRequest "p" "m" (JString "hello") None None (jobject [("stream", JBool true)]).

Definition status_of (session_id run_id : string) (w : World) : option RunStatus :=
  p ← view session_id (w_store w); rp_status <$> (sp_runs p !! run_id).

(** A run that waits for the approval of a delegation. *)
Definition delegation_arguments : json :=
  jobject [("agent", JString "helper"); ("task", JString "look it up"); ("context_message_ids", JArray [])].

Definition waiting_events : list SemanticEvent :=
  [RunQueued "r" None "p" "m" (request_to_value hello);
   SessionPhaseChanged Created Running None; RunStarted "r" "a" 1;
   MessageStarted "m1" "assistant" Assistant (AuthorAgent "assistant");
   ToolCallEmitted "r" "m1" "call-1" "assistant" "delegate" delegation_arguments "" true;
   MessageCompleted "m1"; RunRequiresAction "r" ["call-1"];
   PermissionRequested "q" "r" (Some "call-1") "assistant" "delegate" delegation_arguments;
   SessionPhaseChanged Running Interrupted None].

Definition waiting_store : SqliteStore := fst (append_events "s" "t" waiting_events chat_store).

Definition helper_config : PiqoConfig :=
  mkConfig body_layer_default {["p" := chat_provider]} ∅
    {["helper" := mkOverride None (Some "p") (Some "m") None None (jobject [("stream", JBool true)])]} ∅
    native_tools_default ∅ context_config_default
    orchestration_default resource_limits_default (mkStorage None) ∅.
Definition waiting_world : World := new_world waiting_store helper_config.

(** A run that waits for the client's result of an approved call. *)
Definition external_events : list SemanticEvent :=
  [RunQueued "r" None "p" "m" (request_to_value hello);
   SessionPhaseChanged Created Running None; RunStarted "r" "a" 1;
   MessageStarted "m1" "assistant" Assistant (AuthorAgent "assistant");
   ToolCallEmitted "r" "m1" "call-1" "assistant" "lookup" JNull "" false;
   MessageCompleted "m1"; RunRequiresAction "r" ["call-1"];
   PermissionRequested "q" "r" (Some "call-1") "assistant" "lookup" JNull;
   PermissionResolved "q" Allow None None None None;
   SessionPhaseChanged Running Interrupted None].
Definition scenario_store (events : list SemanticEvent) : SqliteStore := fst (append_events "s" "t" events chat_store).
Definition scenario_world (events : list SemanticEvent) : World := new_world (scenario_store events) chat_config.

Lemma scenario_consistent events : consistent (scenario_store events).
Proof. apply append_consistent, create_consistent, empty_consistent. Qed.

(** The provider says "hi". *)
Definition scripted : Outside := example_outside (fun _ => answer ["hi"]) chat_texts.
Definition external_call : ToolCallProjection :=
  mkToolCall "call-1" "m1" "assistant" "lookup" JNull "" false None None.
Definition external_run : RunProjection :=
  mkRun "r" None "p" "m" (request_to_value hello) RRequiresAction (Some "a") 1 None None 0 {["call-1" := external_call]}.
Definition scenario (events : list SemanticEvent) : SessionProjection :=
  default (SessionProjection.new "s") (view "s" (scenario_store events)).
