(* ===== verification/ManagerSpec.v ===== *)
(** What [ConfigManager] promises: edits are all or nothing, the active
    configuration is always a validated one, the catalog shows no secret; and two
    places where it does otherwise than intended. *)

From S2P Require Export Manager.
From S2P Require Import Scenario.

(** ** A concrete configuration directory *)

(** Documents with nested tables, of which only two texts are told apart: the
    empty file and an edited one. *)
Inductive example_item := ExTable (t : list (string * example_item)) | ExOther.
Definition example_get (k : string) (t : list (string * example_item)) : option example_item :=
  snd <$> List.find (fun e => String.eqb e.1 k) t.
Definition example_remove (k : string) (t : list (string * example_item)) : list (string * example_item) :=
  List.filter (fun e => negb (String.eqb e.1 k)) t.

Definition no_bash : AgentPermissions := mkAgentPermissions None None (Some SDeny) None ∅.

Definition example_documents : Documents := {|
  table := list (string * example_item);
  item := example_item;
  empty_table := [];
  table_get := example_get;
  table_set := fun k i t => (k, i) :: example_remove k t;
  table_remove := example_remove;
  of_table := ExTable;
  as_table := fun i => match i with ExTable t => Some t | ExOther => None end;
  of_str := fun _ => ExOther;
  of_i64 := fun _ => ExOther;
  of_strings := fun _ => ExOther;
  parse_document := fun _ => Some [];
  print_document := fun t => match t with [] => "" | _ => "edited" end;
  toml_config := fun text => Some (if String.eqb text "edited" then chat_config else config_default);
  yaml := fun _ => Ok (mkFrontMatter None None None (Some no_bash) JNull);
  fetch := fun _ _ _ _ => Err "offline";
  display_transport := fun _ => "catalog" |}.

Definition config_path : path := ["home"; "piqo.toml"].
Definition reviewer_text : string := "---" ++s NL ++s "---" ++s NL ++s "Review.".
Definition config_fs : file_system :=
  list_to_map [(["home"], Dir); (config_path, File ""); (["home"; "agents"], Dir);
               (["home"; "agents"; "reviewer.md"], File reviewer_text)].
Definition loaded_config : PiqoConfig :=
  default config_default (ok (load (H := example_documents) (H0 := scripted) config_fs config_path)).
Definition example_manager : ConfigManager := ConfigManager.new (Some config_path) loaded_config "t" config_fs.
Definition new_provider : CreateProviderRequest := mkCreateProvider "p" "http://localhost" None None None None.
Definition new_provider_edit : table (Documents := example_documents) -> result ConfigError (table (Documents := example_documents)) :=
  insert_provider "p" chat_provider.

(** ** Writing the file *)

Section writing.
  Context (fs : file_system) (p : path) (tmp : string).

(** The configuration file lies in a real directory and is not a directory
    itself; the temporary name is free. *)
Record settled : Prop := {
  se_path : p <> [];
  se_dir : real_dir fs (parent p);
  se_file : node_at fs p <> Some Dir;
  se_other : tmp <> List.last p "";
  se_free : node_at fs (parent p ++ [tmp]) = None }.

Lemma create_dir_all_real d above : real_dir fs (above ++ d) -> create_dir_all fs above d = Ok fs.
Proof.
  revert above. induction d as [|c d IH]; intros above Hd; simpl; [done|].
  assert (Hc : real_dir fs (above ++ [c])).
  { clear IH. revert Hd. replace (above ++ c :: d) with ((above ++ [c]) ++ d) by by rewrite <- app_assoc.
    generalize (above ++ [c]). intros l. induction d as [|x d IH] using rev_ind; [by rewrite app_nil_r|].
    intros Hd. apply IH. rewrite app_assoc in Hd. destruct Hd as [Hr _]. by eapply real_parent. }
  rewrite (parent_is_dir _ _ Hc). apply IH. by rewrite <- app_assoc.
Qed.

Lemma path_split : p <> [] -> parent p ++ [List.last p ""] = p.
Proof. intros Hp. symmetry. by apply app_removelast_last. Qed.

Lemma write_atomic_settled text : settled -> write_atomic fs tmp p text = (<[p := File text]> fs, Ok ()).
Proof.
  intros [Hp Hd Hf Ho Ht]. unfold write_atomic.
  rewrite (create_dir_all_real (parent p) []) by done. rewrite (real_realpath _ _ (proj1 Hd)), Ht.
  set (t := parent p ++ [tmp]) in *.
  assert (E1 : node_at (<[t := File text]> fs) t = Some (File text))
    by (unfold t; by rewrite node_at_snoc, lookup_insert_eq).
  assert (Hne : t <> p).
  { rewrite <- (path_split Hp). unfold t. intros E%app_inj_2; [|done]. destruct E as [_ E]. congruence. }
  assert (E2 : node_at (<[t := File text]> fs) p = node_at fs p).
  { destruct p as [|x l]; [done|]. unfold node_at. by rewrite lookup_insert_ne. }
  assert (Hfs : fs !! t = None) by by rewrite <- Ht; unfold t; rewrite node_at_snoc.
  unfold rename. rewrite E1, path_split, E2 by done.
  destruct (node_at fs p) as [[]|]; try done; rewrite delete_insert_id by done; done.
Qed.

End writing.

(** ** Edits *)

Section manager_spec.
  Context `{Documents} `{Outside}.
Import ConfigManager.

(** What happens to a manager: edits of any kind, discoveries, reloads, and other
    programs writing to its file system. *)
Inductive manager_step (m : ConfigManager) : ConfigManager -> Prop :=
  | step_mutate now tmp op : manager_step m (fst (mutate now tmp op m))
  | step_reload now : manager_step m (fst (reload now m))
  | step_discovery d : manager_step m (set_discoveries d m)
  | step_files fs : manager_step m (set_files fs m).

(** Every operation is made of these. *)
Lemma discover_provider_steps n name now m :
  exists d, fst (discover_provider n name now m) = set_discoveries d m.
Proof.
  unfold discover_provider, discovery_start, discovery_end. destruct m as [p s d fs]. simpl.
  destruct (providers _ !! name) as [q|] eqn:Hq; [|by exists d].
  case_bool_decide; [by exists d|]. simpl. unfold snapshot in *. simpl in *. rewrite Hq.
  destruct (decide _); [|done]. simpl. by eexists.
Qed.

Lemma discover_all_steps n now m : exists d, discover_all n now m = set_discoveries d m.
Proof.
  unfold discover_all. generalize (fst <$> List.filter (fun e => bool_decide (pc_models e.2 = None))
    (btree_entries (providers (snapshot m)))). intros l. revert m.
  induction l as [|x l IH]; intros m; simpl; [exists (cm_discovery m); by destruct m|].
  destruct (discover_provider_steps n x now m) as [d ->]. destruct (IH (set_discoveries d m)) as [d' ->].
  by exists d'.
Qed.

Lemma discoveries_steps d m : rtc manager_step m (set_discoveries d m).
Proof. apply rtc_once. constructor. Qed.

Lemma clear_steps name m : rtc manager_step m (clear_discovery name m).
Proof. apply discoveries_steps. Qed.

Lemma discover_steps n name now m : rtc manager_step m (fst (discover_provider n name now m)).
Proof. destruct (discover_provider_steps n name now m) as [d ->]. apply discoveries_steps. Qed.

Lemma discover_then_models_steps n now name m : rtc manager_step m (fst (discover_then_models n now name m)).
Proof.
  pose proof (discover_steps n name now m) as Hd. unfold discover_then_models.
  by destruct (discover_provider n name now m) as [m' []].
Qed.

Lemma mutate_then {A} now tmp op m (f : ConfigManager -> ConfigManager * result ConfigError A) :
  (forall m, rtc manager_step m (fst (f m))) ->
  rtc manager_step m (fst (match mutate now tmp op m with
                           | (m, Err e) => (m, Err e)
                           | (m, Ok _) => f m
                           end)).
Proof.
  intros Hf. pose proof (step_mutate m now tmp op) as Hs. destruct (mutate now tmp op m) as [m' [[]|e]]; simpl in *.
  - by eapply rtc_l.
  - by apply rtc_once.
Qed.

Lemma operations_are_steps n now tmp name m m' :
  (exists r, m' = fst (create_provider n now tmp r m)) \/ (exists r, m' = fst (update_provider n now tmp name r m))
  \/ m' = fst (delete_provider now tmp name m) \/ (exists l, m' = fst (replace_models now tmp name l m))
  \/ m' = fst (clear_models n now tmp name m) \/ m' = fst (refresh_models n now name m)
  \/ m' = discover_all n now m \/ m' = fst (reload now m) ->
  rtc manager_step m m'.
Proof.
  intros [[r ->]|[[r ->]|[->|[[l ->]|[->|[->|[->| ->]]]]]]].
  - unfold create_provider. destruct (_ ← validate_provider_name _; _) as [p|e]; [|simpl; reflexivity].
    apply mutate_then. intros m1. etrans; [apply clear_steps|]. apply discover_steps.
  - unfold update_provider. destruct (empty_update r); [simpl; reflexivity|].
    apply mutate_then. intros m1. etrans; [apply clear_steps|].
    case_match; [simpl; reflexivity|]. apply discover_steps.
  - unfold delete_provider. apply mutate_then. intros m1. apply clear_steps.
  - unfold replace_models. destruct (normalize_models l); [|simpl; reflexivity]. apply mutate_then. intros m1. apply clear_steps.
  - unfold clear_models. apply mutate_then. intros m1. etrans; [apply clear_steps|].
    apply discover_then_models_steps.
  - unfold refresh_models. destruct (providers _ !! name); [|simpl; reflexivity]. case_bool_decide; [simpl; reflexivity|].
    apply discover_then_models_steps.
  - destruct (discover_all_steps n now m) as [d ->]. apply discoveries_steps.
  - apply rtc_once. constructor.
Qed.

(** The two places a snapshot comes from. *)
Lemma edited_Ok fs p op text config : edited fs p op = Ok (text, config) ->
  config_from_str text = Ok config /\ validate_config url_scheme header_ok config = Ok ().
Proof.
  unfold edited. intros E. inv_ok. split; [done|]. by match goal with u : () |- _ => destruct u end.
Qed.

Lemma load_valid fs p config : load fs p = Ok config -> validate_config url_scheme header_ok config = Ok ().
Proof. unfold load. intros E. split_ok; by match goal with u : () |- _ => destruct u end. Qed.

Lemma next_snapshot_Ok config now s s' : next_snapshot config now s = Ok s' ->
  s' = mkSnapshot (cs_revision s + 1) now config /\ cs_revision s <> u64_max.
Proof. unfold next_snapshot. destruct (Z.eqb_spec (cs_revision s) u64_max); [done|]. by intros [= <-]. Qed.

Lemma mutate_cases now tmp op m m' r : mutate now tmp op m = (m', r) ->
  (exists e, r = Err e /\ cm_snapshot m' = cm_snapshot m /\ cm_discovery m' = cm_discovery m)
  \/ (exists p text config, cm_path m = Some p /\ edited (cm_fs m) p op = Ok (text, config) /\ r = Ok ()
      /\ write_atomic (cm_fs m) tmp p text = (cm_fs m', Ok ()) /\ cm_discovery m' = cm_discovery m
      /\ cs_revision (cm_snapshot m) <> u64_max
      /\ cm_snapshot m' = mkSnapshot (cs_revision (cm_snapshot m) + 1) now config).
Proof.
  unfold mutate. destruct (cm_path m) as [p|]; simpl; [|intros [= <- <-]; left; eauto].
  destruct (edited _ p op) as [[text config]|e] eqn:He; simpl; [|intros [= <- <-]; left; eauto].
  destruct (write_atomic _ _ _ _) as [fs [[]|e]] eqn:Hw; simpl; [|intros [= <- <-]; left; eauto].
  destruct (next_snapshot _ _ _) as [s|e] eqn:Hn; intros [= <- <-]; [|left; eauto].
  apply next_snapshot_Ok in Hn as [-> Hn]. right. exists p, text, config. split_and!; done.
Qed.


(** C23. Whatever is written into the configuration file, by the API or by other
    programs, and whatever reloads and edits are asked for, the active
    configuration is one that passed validation, and its revision never goes
    back. *)
Theorem active_configuration_is_valid m m' :
  rtc manager_step m m' -> validate_config url_scheme header_ok (snapshot m) = Ok () ->
  validate_config url_scheme header_ok (snapshot m') = Ok ()
  /\ cs_revision (cm_snapshot m) <= cs_revision (cm_snapshot m')
  /\ (cs_revision (cm_snapshot m) = cs_revision (cm_snapshot m') -> snapshot m' = snapshot m).
Proof.
  intros Hs. induction Hs as [m|m1 m2 m3 Hs _ IH]; intros Hv; [split_and!; [done|lia|done]|].
  assert (Hstep : (cm_snapshot m2 = cm_snapshot m1)
    \/ (validate_config url_scheme header_ok (snapshot m2) = Ok ()
        /\ cs_revision (cm_snapshot m2) = cs_revision (cm_snapshot m1) + 1)).
  { destruct Hs as [now tmp op|now|d|fs]; [| |by left|by left].
    - destruct (mutate now tmp op m1) as [m' r] eqn:Em.
      apply mutate_cases in Em as [(e & _ & E & _)|(p & text & config & _ & He & _ & _ & _ & _ & E)]; [by left|].
      right. unfold snapshot. simpl. rewrite E. simpl. by apply edited_Ok in He as [_ He].
    - unfold reload. destruct (cm_path m1) as [p|]; simpl; [|by left].
      destruct (load _ p) as [config|] eqn:Hl; simpl; [|by left].
      destruct (next_snapshot _ _ _) as [s|] eqn:Hn; [|by left]. apply next_snapshot_Ok in Hn as [-> _].
      right. simpl. split; [by eapply load_valid|done]. }
  unfold snapshot in *. destruct Hstep as [E|[Hv' E]].
  - rewrite E in IH. by apply IH.
  - destruct (IH Hv') as (H1 & H2 & H3). split_and!; [done|lia|intros; lia].
Qed.

(** ** Markdown agents *)

(** An edit of the providers forgets every agent of the Markdown files: after it
    an agent that the TOML file does not mention is unknown, and one that it does
    mention keeps only what the TOML file says, until the configuration is
    reloaded. *)
Theorem provider_edit_forgets_markdown_agents now tmp op m m' :
  mutate now tmp op m = (m', Ok ()) ->
  markdown_agents (snapshot m') = ∅
  /\ forall name, agent (snapshot m') name =
       match agents_overrides (snapshot m') !! name with
       | None => Err (AgentNotFound name)
       | Some o => Ok (mkDefinition name (ao_description o) (ao_provider o) (ao_model o) (ao_instructions o)
                         (merge_permissions permissions_default (ao_permissions o)) JNull (ao_body o))
       end.
Proof.
  intros [(e & [=] & _)|(p & text & config & _ & He & _ & _ & _ & _ & E)]%mutate_cases.
  apply edited_Ok in He as [Ht _]. unfold config_from_str in Ht. inv_ok.
  assert (Hm : markdown_agents (snapshot m') = ∅) by by unfold snapshot; rewrite E.
  split; [done|]. intros name. unfold agent. rewrite Hm, lookup_empty. simpl.
  destruct (agents_overrides _ !! name) as [o|]; [|done].
  by destruct o as [[] [] [] [] ? ?].
Qed.

(** Reloading a configuration whose file has been deleted is not refused: the
    server goes on with the defaults, without providers and limits of its own. *)
Theorem reload_of_a_deleted_file_succeeds now m p :
  cm_path m = Some p -> path_exists (cm_fs m) p = false ->
  path_exists (cm_fs m) (parent p ++ ["agents"]) = false -> cs_revision (cm_snapshot m) < u64_max ->
  let s := mkSnapshot (cs_revision (cm_snapshot m) + 1) now config_default in
  reload now m = (mkManager (Some p) s ∅ (cm_fs m), Ok s).
Proof.
  intros Hp Hf Ha Hr s. unfold reload. rewrite Hp. simpl. unfold load. rewrite Hf. simpl.
  unfold load_markdown_agents. rewrite Ha. simpl.
  assert (Hv : validate_config url_scheme header_ok config_default = Ok ()) by (vm_compute; reflexivity).
  rewrite Hv. simpl. unfold next_snapshot. rewrite (proj2 (Z.eqb_neq _ _)) by lia.
  unfold set_discoveries, set_snapshot. simpl. by rewrite Hp.
Qed.

End manager_spec.

#[local] Existing Instance example_documents.
#[local] Existing Instance scripted.

Lemma config_settled : settled config_fs config_path "tmp".
Proof. split; [discriminate|split; vm_compute; reflexivity|vm_compute; discriminate|discriminate|vm_compute; reflexivity]. Qed.


Lemma active_configuration_is_valid_witness :
  let m := fst (ConfigManager.create_provider 0 "t" "tmp" new_provider example_manager) in
  providers (ConfigManager.snapshot m) !! "p" = Some chat_provider
  /\ validate_config url_scheme header_ok (ConfigManager.snapshot m) = Ok ().
Proof.
  split; [vm_compute; reflexivity|].
  apply (active_configuration_is_valid example_manager).
  - apply (operations_are_steps 0 "t" "tmp" "p"). left. by exists new_provider.
  - vm_compute. reflexivity.
Defined.

(** The agent [reviewer] may not use [bash]; once a provider has been added it is
    unknown, although its file is still there. *)
Lemma provider_edit_forgets_markdown_agents_witness :
  let m := fst (ConfigManager.mutate "t" "tmp" new_provider_edit example_manager) in
  (ad_permissions <$> agent (ConfigManager.snapshot example_manager) "reviewer") = Ok no_bash
  /\ (c ← load (cm_fs m) config_path; ad_permissions <$> agent c "reviewer") = Ok no_bash
  /\ agent (ConfigManager.snapshot m) "reviewer" = Err (AgentNotFound "reviewer").
Proof.
  intros m. split; [vm_compute; reflexivity|]. split; [vm_compute; reflexivity|].
  assert (E : ConfigManager.mutate "t" "tmp" new_provider_edit example_manager = (m, Ok ())).
  { unfold m. destruct (ConfigManager.mutate _ _ _ _) as [m' r] eqn:E. simpl. f_equal.
    change r with (snd (m', r)). rewrite <- E. vm_compute. reflexivity. }
  destruct (provider_edit_forgets_markdown_agents _ _ _ _ _ E) as [_ Ha]. rewrite Ha.
  assert (Hn : agents_overrides (ConfigManager.snapshot m) !! "reviewer" = None) by (vm_compute; reflexivity).
  by rewrite Hn.
Defined.

Lemma reload_of_a_deleted_file_succeeds_witness :
  let m := ConfigManager.new (Some config_path) chat_config "t" ∅ in
  is_ok (snd (ConfigManager.reload "t2" m)) = true
  /\ providers (ConfigManager.snapshot (fst (ConfigManager.reload "t2" m))) = ∅.
Proof.
  intros m. rewrite (reload_of_a_deleted_file_succeeds "t2" m config_path eq_refl); try (vm_compute; reflexivity).
  by split.
Defined.

(** ** Secrets *)

(** What is left of a provider when literal credentials and header values are
    blotted out. *)
Definition public (p : ProviderConfig) : ProviderConfig :=
  mkProviderConfig (pc_base_url p) (pc_protocol p) ((fun _ => "") <$> pc_api_key p) (pc_api_key_env p)
    ((fun _ => "") <$> pc_headers p) (pc_connect_timeout_seconds p) (pc_models p) None None ∅.

Lemma view_public m name p : ConfigManager.view_for m name p = ConfigManager.view_for m name (public p).
Proof.
  unfold ConfigManager.view_for, ConfigManager.credential_summary. simpl. rewrite btree_keys_fmap.
  by destruct (pc_api_key p), (pc_api_key_env p), (pc_models p).
Qed.

(** The provider catalog shows no secret: two configurations that differ only
    in literal API keys and in the values of headers have the same catalog, the
    same entries and the same model lists. *)
Theorem catalog_hides_secrets m m' :
  public <$> providers (ConfigManager.snapshot m) = public <$> providers (ConfigManager.snapshot m') ->
  cm_discovery m = cm_discovery m' ->
  ConfigManager.catalog m = ConfigManager.catalog m'
  /\ forall name, ConfigManager.provider m name = ConfigManager.provider m' name
       /\ ConfigManager.models m name = ConfigManager.models m' name.
Proof.
  intros Hp Hd.
  assert (Hv : forall name p, ConfigManager.view_for m name p = ConfigManager.view_for m' name p)
    by (intros name p; unfold ConfigManager.view_for; by rewrite Hd).
  assert (Hpr : forall name, ConfigManager.provider m name = ConfigManager.provider m' name).
  { intros name. unfold ConfigManager.provider. apply (f_equal (lookup name)) in Hp. rewrite !lookup_fmap in Hp.
    destruct (_ !! name) as [p|], (_ !! name) as [q|]; simpl in *; try done.
    rewrite (view_public m name p), Hv, (view_public m' name q). by assert (public p = public q) as -> by congruence. }
  split; [|intros name; split; [done|]; unfold ConfigManager.models; by rewrite Hpr].
  unfold ConfigManager.catalog.
  assert (E : forall n, (fun e => ConfigManager.view_for n e.1 e.2) <$> btree_entries (providers (ConfigManager.snapshot n))
    = (fun e => ConfigManager.view_for n e.1 e.2) <$> btree_entries (public <$> providers (ConfigManager.snapshot n))).
  { intros n. rewrite btree_entries_fmap, <- list_fmap_compose. apply list_fmap_ext. intros _ [k p] _. apply view_public. }
  rewrite (E m), (E m'), Hp. apply list_fmap_ext. intros _ [k p] _. apply Hv.
Qed.

Definition keyed_manager (key value : string) : ConfigManager :=
  ConfigManager.new None
    (mkConfig body_layer_default
       {["p" := mkProviderConfig "http://localhost" "responses" (Some key) None {["x-tenant" := value]} 10 None None None ∅]}
       ∅ ∅ ∅ native_tools_default ∅ context_config_default orchestration_default resource_limits_default
       (mkStorage None) ∅) "t" ∅.

Lemma catalog_hides_secrets_witness :
  ConfigManager.catalog (keyed_manager "k1" "a") = ConfigManager.catalog (keyed_manager "k2" "b")
  /\ pe_header_names <$> ConfigManager.catalog (keyed_manager "k1" "a") = [["x-tenant"]].
Proof.
  split; [|vm_compute; reflexivity].
  apply (catalog_hides_secrets (keyed_manager "k1" "a") (keyed_manager "k2" "b")); vm_compute; reflexivity.
Defined.
