(* ===== verification/TransportSpec.v ===== *)
(** What requests to providers carry, and when none can be built.

    The headers of a request are those of the configuration: theorems hold for
    every order in which the [HashMap] is iterated.  [wired] says that file World's
    and file Manager's views of the transport are those of file Transport. *)

From S2P Require Import Manager.
From S2P Require Export Transport.

Section headers.
  Context `{R : Reqwest} `{!ReqwestLaws R}.

(** The value of the last header with the name. *)
Fixpoint sent (name : string) (headers : list (string * string)) : option string :=
  match headers with
  | [] => None
  | (h, value) :: headers =>
      match sent name headers with
      | Some v => Some v
      | None => if decide (header_name h = Some name) then Some value else None
      end
  end.

Lemma insert_headers_Ok l : forall q q', insert_headers l q = Ok q' ->
  request_line q' = request_line q /\ request_body q' = request_body q
  /\ forall name, request_header name q' = match sent name l with Some v => Some v | None => request_header name q end.
Proof.
  induction l as [|[h v] l IH]; intros q q'; simpl; [by intros [= <-]|].
  destruct (header_name h) as [n|]; simpl; [|done]. destruct (header_value_ok v); [|done].
  intros (El & Eb & Eh)%IH. rewrite El, Eb, insert_header_line, insert_header_body. split_and!; [done..|].
  intros name. rewrite Eh. destruct (sent name l); [done|]. case_decide as E.
  - injection E as ->. apply insert_header_eq.
  - apply insert_header_ne. congruence.
Qed.

Lemma insert_headers_Err l e : forall q, insert_headers l q = Err e ->
  exists h v, (h, v) ∈ l /\ (header_name h = None /\ e = InvalidHeader "invalid name"
    \/ header_value_ok v = false /\ e = InvalidHeader "invalid value").
Proof.
  induction l as [|[h v] l IH]; intros q; simpl; [done|].
  destruct (header_name h) as [n|] eqn:Hn; simpl; [|intros [= <-]; exists h, v; split; [by left|by left]].
  destruct (header_value_ok v) eqn:Hv; [|intros [= <-]; exists h, v; split; [by left|by right]].
  intros (h' & v' & Hin & E)%IH. exists h', v'. split; [by right|done].
Qed.

Lemma sent_Some name l v : sent name l = Some v -> exists h, (h, v) ∈ l /\ header_name h = Some name.
Proof.
  induction l as [|[h w] l IH]; simpl; [done|]. destruct (sent name l) as [x|].
  - intros E. destruct (IH E) as (h' & Hin & Hn). exists h'. split; [by right|done].
  - case_decide as Hn; [|done]. intros [= ->]. exists h. split; [by left|done].
Qed.

Lemma sent_None name l : sent name l = None -> forall h v, (h, v) ∈ l -> header_name h <> Some name.
Proof.
  induction l as [|[h w] l IH]; simpl; [by intros _ h v Hin%elem_of_nil|]. destruct (sent name l) as [x|]; [done|].
  case_decide as Hn; [done|]. intros _ h' v' [[= -> ->]|Hin]%elem_of_cons; [done|by eapply IH].
Qed.

(** Headers that differ in more than their case are all sent. *)
Definition distinct_names (headers : gmap string string) : Prop :=
  forall h h' n, is_Some (headers !! h) -> is_Some (headers !! h') ->
    header_name h = Some n -> header_name h' = Some n -> h = h'.

Lemma sent_distinct headers l h v n : distinct_names headers -> l ≡ₚ map_to_list headers ->
  headers !! h = Some v -> header_name h = Some n -> sent n l = Some v.
Proof.
  intros Hd Hp Hh Hn. assert (Hl : forall k w, (k, w) ∈ l <-> headers !! k = Some w) by (intros k w; by rewrite Hp, elem_of_map_to_list).
  destruct (sent n l) as [w|] eqn:E.
  - apply sent_Some in E as (k & Hk & Hkn). apply Hl in Hk.
    assert (k = h) as -> by (eapply Hd; [by eexists..|done|done]). congruence.
  - exfalso. eapply sent_None; [exact E| |exact Hn]. by apply Hl.
Qed.

(** The key of a provider, as its [authorization] header. *)
Definition key_of (env_var : string -> option string) (p : ProviderConfig) : option string :=
  or_else (pc_api_key p) (v ← pc_api_key_env p; env_var v).

Lemma resolve_headers env_var name p r : resolve_provider_config env_var name p = Ok r ->
  forall h v, rv_headers r !! h = Some v ->
    pc_headers p !! h = Some v
    \/ h = "authorization" /\ pc_headers p !! h = None /\ exists key, key_of env_var p = Some key /\ v = "Bearer " ++s key.
Proof.
  unfold resolve_provider_config, key_of. destruct (_ && _); [done|].
  destruct (ok_or _ (parse_protocol _)); [|done]. simpl.
  destruct (or_else _ _) as [key|]; simpl.
  - intros [= <-] h v. simpl. destruct (pc_headers p !! "authorization") eqn:Ha; [by left|].
    intros [[<- <-]|[Hne Hh]]%lookup_insert_Some; [right|by left]. split_and!; [done..|]. by eexists.
  - destruct (pc_api_key_env p); [done|]. intros [= <-] h v Hh. by left.
Qed.

Lemma validated_headers url_scheme name p : validate_provider url_scheme header_syntax name p = Ok () ->
  forall h v, pc_headers p !! h = Some v -> header_syntax h v = true.
Proof.
  unfold validate_provider. destruct (_ && _); [done|]. destruct (ok_or _ (url_scheme _)); [|done]. simpl.
  destruct (negb _); [done|]. destruct (_ =? _); [done|]. destruct (_ <? _); [done|].
  destruct (ok_or _ (parse_protocol _)); [|done]. simpl. destruct (forallb _ _) eqn:Hf; [|done]. intros _ h v Hh.
  rewrite forallb_forall in Hf. apply (Hf (h, v)). by apply list_elem_of_In, elem_of_map_to_list.
Qed.


(** The catalog that is read is that of a successful response; of any other only
    the status is kept. *)
Lemma discovered_from_success number endpoint headers timeout :
  match discover_models number endpoint headers timeout with
  | Ok models => exists client request response value,
      client_with timeout (Some timeout) = Ok client /\ execute number client request = Ok response
      /\ is_success (response_status response) = true /\ response_json response = Ok value
      /\ parse_model_catalog value = Ok models
  | Err (HttpStatus status) => is_success status = false
  | Err _ => True
  end.
Proof.
  unfold discover_models, fetch_models. destruct (client_with _ _) as [client|] eqn:Hc; simpl; [|done].
  destruct (get_request endpoint) as [request|]; simpl; [|done].
  destruct (insert_headers headers request) as [q|e] eqn:Hi; simpl.
  2: { apply insert_headers_Err in Hi as (? & ? & _ & [[_ ->]|[_ ->]]); done. }
  destruct (execute number client q) as [response|] eqn:He; simpl; [|done]. destruct (is_success _) eqn:Hs; simpl; [|done].
  destruct (response_json response) as [value|] eqn:Hj; simpl; [|done].
  destruct (parse_model_catalog value) as [models|] eqn:Hm; simpl; [|done]. by exists client, q, response, value.
Qed.

(** What the rest of the model knows of the transport. *)
Record wired `{Outside} `{Documents} (iter : gmap string string -> list (string * string))
    (display : ProviderTransportError -> string) : Prop := {
  wi_syntax : forall h v, header_ok h v = header_syntax h v;
  wi_build : forall e b h, build_request_error e b h
    = match build_request_with_headers e b (iter h) with Ok _ => None | Err x => Some (display x) end;
  wi_fetch : forall n e h t, fetch n e h t = map_err display (fetch_models n e (iter h) t);
  wi_display : forall e, display_transport e = display (Decoding e) }.

(** A discovery of the configuration manager is one of the transport. *)
Lemma discovery_is_transported `{Outside} `{Documents} iter display (W : wired iter display) number (r : ResolvedProvider) :
  ConfigManager.discover_models number r
  = map_err display (discover_models number (rv_models_endpoint r) (iter (rv_headers r)) (rv_connect_timeout_seconds r)).
Proof.
  unfold ConfigManager.discover_models, discover_models. rewrite (wi_fetch _ _ W). destruct (fetch_models _ _ _ _); simpl; [|done].
  destruct (parse_model_catalog _); simpl; [done|]. by rewrite (wi_display _ _ W).
Qed.

End headers.

(** ** Witness *)

Module Plain.

Definition lower (c : ascii) : ascii :=
  let n := N_of_ascii c in if ((65 <=? n) && (n <=? 90))%N then ascii_of_N (n + 32) else c.
Definition visible (c : ascii) : bool := let n := N_of_ascii c in ((32 <? n) && (n <? 127))%N.
Fixpoint all (f : ascii -> bool) (s : string) : bool :=
  match s with EmptyString => true | String c s => f c && all f s end.
Fixpoint lowercase (s : string) : string :=
  match s with EmptyString => EmptyString | String c s => String (lower c) (lowercase s) end.

Record Message := mkMessage { line : string * string; fields : gmap string string; content : option json }.

#[local] Instance client : Reqwest := {|
  Client := unit; Request := Message; Response := json; HttpError := Empty_set;
  client_with _ _ := Ok tt;
  post_json url body := Ok (mkMessage ("POST", url) {["content-type" := "application/json"]} (Some body));
  get_request url := Ok (mkMessage ("GET", url) ∅ None);
  header_name s := if all visible s && negb (String.eqb s "") then Some (lowercase s) else None;
  header_value_ok s := all (fun c => visible c || (c =? " ")%char) s;
  insert_header name value r := mkMessage (line r) (<[name := value]> (fields r)) (content r);
  request_header name r := fields r !! name;
  request_line := line; request_body := content;
  execute _ _ r := Ok (default JNull (content r));
  response_status _ := 200; is_success status := status =? 200; response_json v := Ok v |}.

#[local] Instance client_laws : ReqwestLaws client.
Proof.
  split; simpl; [|intros name name' value r Hne; by apply lookup_insert_ne|done..].
  intros name value r. apply lookup_insert_eq.
Qed.

Definition provider (headers : gmap string string) : ProviderConfig :=
  mkProviderConfig "https://models.example" "responses" (Some "secret") None headers 10 None None None ∅.
Definition resolved (headers : gmap string string) : ResolvedProvider :=
  mkResolved "p" "https://models.example/v1/responses" "https://models.example/v1/models" Responses headers 10.

(** A configured [Authorization] and an API key are two headers of the provider and
    one of the request: which is sent depends on the order of the [HashMap]. *)
Lemma authorization_depends_on_order :
  let p := provider {["Authorization" := "Basic abc"]} in
  let r := resolved {["Authorization" := "Basic abc"; "authorization" := "Bearer secret"]} in
  validate_provider (fun _ => Some "https") header_syntax "p" p = Ok ()
  /\ resolve_provider_config (fun _ => None) "p" p = Ok r
  /\ exists l l', l ≡ₚ map_to_list (rv_headers r) /\ l' ≡ₚ map_to_list (rv_headers r)
    /\ request_header "authorization" <$> ok (build_request_with_headers (rv_endpoint r) JNull l) = Some (Some "Basic abc")
    /\ request_header "authorization" <$> ok (build_request_with_headers (rv_endpoint r) JNull l') = Some (Some "Bearer secret").
Proof.
  split; [vm_compute; reflexivity|]. split; [vm_compute; reflexivity|].
  exists [("authorization", "Bearer secret"); ("Authorization", "Basic abc")], [("Authorization", "Basic abc"); ("authorization", "Bearer secret")].
  assert (E : [("authorization", "Bearer secret"); ("Authorization", "Basic abc")]
    ≡ₚ map_to_list (rv_headers (resolved {["Authorization" := "Basic abc"; "authorization" := "Bearer secret"]}))).
  { replace (map_to_list _) with [("authorization", "Bearer secret"); ("Authorization", "Basic abc")]; [done|vm_compute; reflexivity]. }
  split; [exact E|]. split; [rewrite <- E; apply Permutation_swap|]. split; vm_compute; reflexivity.
Qed.

End Plain.

#[local] Existing Instance Plain.client.
#[local] Existing Instance Plain.client_laws.

