(* ===== verification/SupervisorSpec.v ===== *)
(** What the supervisor guarantees over any sequence of requests, workers, a
    restart and a shutdown: the invariant of file Reservations as theorems about
    reachable worlds. *)

From S2P Require Export Scenario.
From S2P Require Import StoreSpec SessionSpec.
From S2P Require Export Store.
From S2P Require Export World.
Import SessionProjection.

(** One step of the server: a request, a worker, the recovery after a start, the
    shutdown; or anything that leaves store, links and reservations alone (a
    reload of the configuration, clients that come and go).  Deleting a project
    is left out: it deletes history. *)
Inductive supervisor_step `{EventCodec} `{Outside} (w : World) : World -> Prop :=
  | step_create i n t h : supervisor_step w (fst (on_store (create_session i n t None h) w))
  | step_queue_run s q : supervisor_step w (fst (queue_run s q w))
  | step_resume_queue s : supervisor_step w (fst (resume s w))
  | step_tool_result s r c v : supervisor_step w (fst (submit_tool_result s r c v w))
  | step_approve s r q sc : supervisor_step w (fst (approve_permission s r q sc w))
  | step_deny s r q : supervisor_step w (fst (deny_permission s r q w))
  | step_cancel n s r : supervisor_step w (fst (Worker.cancel n s r w))
  | step_retry s r : supervisor_step w (fst (retry s r w))
  | step_worker n : supervisor_step w (fst (run_worker n w))
  | step_restart : supervisor_step w (fst (resume_ready_actions_after_restart w))
  | step_shutdown b : supervisor_step w (fst (shutdown b w))
  | step_outside w' : same_core w w' -> supervisor_step w w'.

Lemma supervisor_step_kept `{EventCodec} `{Outside} (R : relation World) `{!KeptPrimitives R} `{!KeptTurns R} w w' :
  supervisor_step w w' -> R w w'.
Proof.
  destruct 1; unfold approve_permission, deny_permission;
    [apply kp_create_session|apply keeps_queue_run|apply keeps_resume|apply keeps_submit_tool_result
    |apply keeps_resolve_permission|apply keeps_resolve_permission|apply keeps_cancel|apply keeps_retry
    |apply keeps_run_worker|apply keeps_resume_after_restart|apply keeps_shutdown|by apply kp_core]; assumption.
Qed.

Definition reachable_from `{EventCodec} `{Outside} : relation World := rtc supervisor_step.

Lemma reachable_kept `{EventCodec} `{Outside} (R : relation World) `{!KeptPrimitives R} `{!KeptTurns R} w w' :
  reachable_from w w' -> R w w'.
Proof. induction 1; [reflexivity|]. etrans; [by apply supervisor_step_kept|done]. Qed.

Lemma new_world_sound `{EventCodec} `{Outside} s config : consistent s -> sound (new_world s config).
Proof.
  intros Hcs. split; simpl; [done|apply new_admission_wf| | |]; try (intros r id; by rewrite lookup_empty).
  split; simpl; try constructor. done.
Qed.

Lemma reachable_advances `{EventCodec} `{Outside} w w' :
  (forall m n, uuid m = uuid n -> m = n) -> reachable_from w w' -> advances w w'.
Proof. intros Hu. by apply (reachable_kept advances (KeptPrimitives0 := advances_primitives Hu)). Qed.

(** ** Theorems *)





(** Over any sequence of requests and workers the store keeps its
    contract (it would pass the validation of the next start), no session
    disappears, and every projection only grows: messages, runs, results,
    decisions and delegations that were recorded are never rewritten, and a run
    that is over keeps its status. *)
Lemma handlers_only_add_history `{EventCodec} `{Outside} w w' :
  (forall m n, uuid m = uuid n -> m = n) -> sound w -> reachable_from w w' ->
  validate_all (st_db (w_store w')) = Ok ()
  /\ forall id p, view id (w_store w) = Some p ->
       exists p', view id (w_store w') = Some p' /\ extends p p'.
Proof.
  intros Hu Hs Hr. destruct (reachable_advances _ _ Hu Hr Hs) as ([Hcs _ _ _ _] & Hg & _).
  split; [by apply consistent_validates|]. intros id p Hv. by apply (grows_view (w_store w)).
Qed.

Lemma waiting_sound : sound (H0 := scripted) waiting_world.
Proof.
  apply (new_world_sound (H0 := scripted)). unfold waiting_store, chat_store.
  apply append_consistent, create_consistent, empty_consistent.
Qed.

(** The approval of the waiting delegation and the worker of the child. *)
Definition delegated_world : World :=
  fst (run_worker (H0 := scripted) 10 (fst (approve_permission (H0 := scripted) "s" "r" "q" ScopeOnce waiting_world))).

Lemma delegated_reachable : reachable_from (H0 := scripted) waiting_world delegated_world.
Proof. eapply rtc_l; [apply step_approve|]. apply rtc_once, step_worker. Qed.

Lemma handlers_only_add_history_witness :
  validate_all (st_db (w_store delegated_world)) = Ok ()
  /\ status_of "s" "r" delegated_world = Some RCompleted
  /\ exists p p', view "s" (w_store waiting_world) = Some p
       /\ view "s" (w_store delegated_world) = Some p' /\ extends p p'.
Proof.
  destruct (handlers_only_add_history (H0 := scripted) _ _ example_uuid_inj waiting_sound delegated_reachable)
    as [Hv He].
  split; [exact Hv|]. split; [vm_compute; reflexivity|].
  eexists. destruct (He "s" _ ltac:(vm_compute; reflexivity)) as (p' & Hp' & Hext). exists p'.
  split; [vm_compute; reflexivity|]. by split.
Defined.


