(* ===== verification/HandlersSpec.v ===== *)
(** What single requests do: the answers of [SessionSupervisor]'s handlers and what
    they record, on every branch. *)

From S2P Require Export Scenario.
From S2P Require Import StoreSpec SessionSpec.
From S2P Require Export Store.
From S2P Require Export World.
Import SessionProjection.

(** A supervisor that serves session [s], whose projection is [p]. *)
Record serving `{EventCodec} `{Outside} (s : string) (p : SessionProjection) (w : World) : Prop := {
  sv_store : consistent (w_store w);
  sv_running : w_shutdown w = false;
  sv_view : view s (w_store w) = Some p;
  sv_mutable : forall row pid, db_sessions (st_db (w_store w)) !! s = Some row ->
    sr_project_id row = Some pid -> pid ∉ w_deleting w;
  sv_room : log_length s (w_store w) + 16 <= i64_max }.

(** Nothing was recorded: the database, the reservations and the workers are the
    same. *)
Definition unchanged `{EventCodec} (w w' : World) : Prop :=
  st_db (w_store w') = st_db (w_store w) /\ w_admission w' = w_admission w
  /\ w_workers w' = w_workers w /\ w_hub w' = w_hub w /\ w_links w' = w_links w.

Section handlers.
  Context `{EventCodec} `{Outside}.

(** The same world with another cache. *)
Definition cached (c : gmap string SessionProjection) (w : World) : World :=
  set_store (mkStore (st_db (w_store w)) c) w.

Lemma cached_serving c s p w : serving s p w -> consistent (w_store (cached c w)) -> serving s p (cached c w).
Proof.
  intros [] Hcs. split; simpl; done.
Qed.

Lemma cached_unchanged c w : unchanged w (cached c w).
Proof. done. Qed.

Lemma read_serving s p w : serving s p w ->
  exists c, read_projection s w = (cached c w, Ok p) /\ serving s p (cached c w).
Proof.
  intros Hs. pose proof (view_projection (w_store w) s (sv_store _ _ _ Hs)) as Hp.
  rewrite (sv_view _ _ _ Hs) in Hp. destruct Hp as (c & E & Hcs). exists c.
  split; [by unfold read_projection, on_store; rewrite E|by apply cached_serving].
Qed.

(** The guards at the start of a handler, and its first read. *)
Lemma mutable_serving s p w : serving s p w -> ensure_session_mutable s w = (w, Ok ()).
Proof.
  intros [Hcs _ Hv Hm _]. destruct (view_session _ _ _ Hcs Hv) as (row & Hrow & _).
  unfold ensure_session_mutable, mbind, M_bind, query, get_session. rewrite Hrow. simpl.
  destruct (sr_project_id row) as [pid|] eqn:Hpid; [|done].
  unfold project_is_deleting, gets. by rewrite bool_decide_eq_false_2 by by eapply Hm.
Qed.

Lemma guards_serving s p w {A} (k : SessionProjection -> M A) : serving s p w ->
  exists c, (_ ← ensure_running; _ ← ensure_session_mutable s; p ← read_projection s; k p) w = k p (cached c w)
    /\ serving s p (cached c w).
Proof.
  intros Hs. destruct (read_serving _ _ _ Hs) as (c & E & Hs'). exists c. split; [|done].
  unfold mbind at 1, M_bind. unfold ensure_running, gets, mbind at 1, M_bind. rewrite (sv_running _ _ _ Hs).
  cbn. rewrite (bind_Ok _ _ _ _ _ (mutable_serving _ _ _ Hs)). by rewrite (bind_Ok _ _ _ _ _ E).
Qed.

(** Appending the events of a handler: they apply, and there is room for them. *)
Lemma append_many_serving s p w events p' : serving s p w -> events <> [] ->
  try_fold log_step (log_length s (w_store w), p) events = Ok (log_length s (w_store w) + Z.of_nat (length events), p') ->
  exists st, append_many s events w = (appended_world s st events w,
      Ok (record_at s (clock (w_ticks w)) (log_length s (w_store w)) events))
    /\ log s st = log s (w_store w) ++ record_at s (clock (w_ticks w)) (log_length s (w_store w)) events
    /\ view s st = Some p' /\ consistent st /\ frame s (st_db (w_store w)) (st_db st).
Proof.
  intros Hs Hne Hf. pose proof (append_many_view s events w p (sv_store _ _ _ Hs) (sv_view _ _ _ Hs) Hne) as Ha.
  by rewrite Hf in Ha.
Qed.

Lemma log_step_ok n p e p' : n + 1 <= i64_max -> try_apply (n + 1) e p = Ok p' -> log_step (n, p) e = Ok (n + 1, p').
Proof. intros Hn Ha. unfold log_step. rewrite (proj2 (Z.ltb_ge _ _)) by lia. by rewrite Ha. Qed.

Lemma log_steps_ok n p e l p' q : n + 1 <= i64_max -> try_apply (n + 1) e p = Ok p' ->
  try_fold log_step (n + 1, p') l = Ok (n + 1 + Z.of_nat (length l), q) ->
  try_fold log_step (n, p) (e :: l) = Ok (n + Z.of_nat (length (e :: l)), q).
Proof.
  intros Hn Ha Hl. cbn [try_fold]. rewrite (log_step_ok _ _ _ _ Hn Ha). cbn [mbind result_mbind]. rewrite Hl.
  simpl length. by replace (n + Z.of_nat (S (length l))) with (n + 1 + Z.of_nat (length l)) by lia.
Qed.

(** ** Tool results *)

(** The call is the client's to answer: its run waits, the provider does not own
    the transcript, the call is not the server's own and was approved. *)
Record answerable (p : SessionProjection) (run_id call_id : string) (run : RunProjection)
    (call : ToolCallProjection) : Prop := {
  an_run : sp_runs p !! run_id = Some run;
  an_waiting : rp_status run = RRequiresAction;
  an_request : exists q, request_from_value (rp_request run) = Some q
    /\ get "messages" (rq_body q) = None /\ get "input" (rq_body q) = None;
  an_call : rp_tool_calls run !! call_id = Some call;
  an_external : tc_native call = false;
  an_approved : exists q, call_permission p run_id call_id = Some q /\ pp_decision q = Some Allow }.

Lemma answerable_check p run_id call_id run call v : answerable p run_id call_id run call ->
  check_tool_result p run run_id call_id v =
    match tc_result call with
    | None => Ok (Some call)
    | Some v' => if decide (v' = v) then Ok None else Err (ToolResultConflict call_id)
    end.
Proof.
  intros [_ Hw (q & Hq & Hm & Hi) Hc Hn (a & Ha & Hd)]. unfold check_tool_result.
  rewrite bool_decide_eq_true_2 by done. simpl. rewrite Hq. simpl. rewrite Hm, Hi. simpl.
  rewrite Hc, Hn, Ha. simpl. by rewrite Hd.
Qed.

Lemma check_answerable p run_id call_id run v r : sp_runs p !! run_id = Some run ->
  check_tool_result p run run_id call_id v = Ok r -> exists call, answerable p run_id call_id run call.
Proof.
  intros Hr. unfold check_tool_result. destruct (bool_decide_reflect (rp_status run = RRequiresAction)); [|done].
  cbn [negb]. destruct (request_from_value _) as [q|] eqn:Hq; [|done]. cbn [ok_or mbind result_mbind].
  destruct (get "messages" _) eqn:Hm; [done|]. destruct (get "input" _) eqn:Hi; [done|]. cbn [bool_decide orb].
  destruct (rp_tool_calls run !! call_id) as [c|] eqn:Hc; [|by destruct (existsb _ _)].
  destruct (tc_native c) eqn:Hn; [by destruct (starts_with _ _)|].
  destruct (call_permission p run_id call_id) as [a|] eqn:Ha; [|done]. simpl.
  destruct (pp_decision a) as [[]|] eqn:Hd; [|done..]. intros _. exists c. split; eauto 10.
Qed.

(** What is recorded for a new result, and the projection after it. *)
Definition result_events (run_id call_id : string) (call : ToolCallProjection) (v : json) (done : bool) :
    list SemanticEvent :=
  ToolResult run_id call_id (tc_agent_id call) (tc_tool_name call) v :: if done then [QueueResumed] else [].

Definition answered (call_id : string) (call : ToolCallProjection) (v : json) (run : RunProjection) : RunProjection :=
  set_tool_calls (<[call_id := set_result (Some v) call]> (rp_tool_calls run)) run.

Lemma result_events_apply n p run_id call_id run call v done : n + 2 <= i64_max ->
  sp_runs p !! run_id = Some run -> rp_tool_calls run !! call_id = Some call -> tc_result call = None ->
  exists p', try_fold log_step (n, p) (result_events run_id call_id call v done)
      = Ok (n + Z.of_nat (length (result_events run_id call_id call v done)), p')
    /\ sp_runs p' = <[run_id := answered call_id call v run]> (sp_runs p)
    /\ sp_queue_paused p' = (if done then false else sp_queue_paused p).
Proof.
  intros Hn Hr Hc Hv. unfold result_events.
  assert (Ht : try_apply (n + 1) (ToolResult run_id call_id (tc_agent_id call) (tc_tool_name call) v) p
    = Ok (set_runs (<[run_id := answered call_id call v run]> (sp_runs p))
        (set_state (mkState (ss_session_id (sp_state p)) (ss_phase (sp_state p)) (ss_revision (sp_state p)) (Some (n + 1))) p))).
  { unfold try_apply, apply. simpl. unfold tool_result, update_call, update_run, update_entry. simpl.
    rewrite Hr. simpl. rewrite Hc. simpl. by rewrite Hv. }
  destruct done; eexists; (split; [eapply log_steps_ok; [lia|exact Ht|]|]).
  - eapply log_steps_ok; [lia|reflexivity|]. simpl. f_equal. f_equal. lia.
  - done.
  - simpl. f_equal. f_equal. lia.
  - done.
Qed.

Lemma spawn_worker_running s w : w_shutdown w = false -> spawn_worker s w = (set_workers (w_workers w ++ [s]) w, Ok ()).
Proof. intros Hw. unfold spawn_worker, modify. by rewrite Hw. Qed.

(** ** Queueing *)

(** The supervisor has room for another run of session [s]. *)
Definition has_capacity (s : string) (w : World) : Prop :=
  as_pending (w_admission w) < max_pending_runs (w_limits w)
  /\ default 0 (as_sessions (w_admission w) !! s) < max_pending_runs_per_session (w_limits w).

Lemma reserve_eq s r w :
  (has_capacity s w /\ exists a, reserve s r w = (set_admission a w, Ok ())
     /\ as_run_sessions a = <[r := s]> (as_run_sessions (w_admission w)))
  \/ (~ has_capacity s w /\ reserve s r w = (w, Err (Fail RunCapacityExceeded))).
Proof.
  unfold reserve, has_capacity. destruct (AdmissionController.reserve _ _ _ _) as [a|e] eqn:Ha.
  - left. split; [|exists a; split; [done|by eapply reserve_run_sessions]].
    unfold AdmissionController.reserve in Ha. destruct (_ || _) eqn:Hb; [done|]. lia.
  - right. unfold AdmissionController.reserve in Ha. destruct (_ || _) eqn:Hb; [|done]. injection Ha as <-.
    split; [lia|done].
Qed.

Lemma queued_apply n p r o pr md q : n + 1 <= i64_max -> sp_runs p !! r = None ->
  exists p', try_apply (n + 1) (RunQueued r o pr md q) p = Ok p'
    /\ sp_runs p' = <[r := mkRun r o pr md q RQueued None 0 None None (if o then -1 else 0) ∅]> (sp_runs p)
    /\ sp_queue_paused p' = sp_queue_paused p.
Proof.
  intros Hn Hr. eexists. unfold try_apply, apply. simpl. unfold run_queued. simpl.
  rewrite bool_decide_eq_false_2 by (rewrite Hr; intros []; done). simpl. by split.
Qed.

Lemma append_serving s e w p p' : serving s p w ->
  try_apply (log_length s (w_store w) + 1) e p = Ok p' ->
  exists st a, append s e w = (appended_world s st [e] w, Ok a)
    /\ re_event <$> log s st = (re_event <$> log s (w_store w)) ++ [e] /\ view s st = Some p'.
Proof.
  intros Hs Ha. pose proof (append_view s e w p (sv_store _ _ _ Hs) (sv_view _ _ _ Hs)) as Hv. cbv zeta in Hv.
  rewrite (log_step_ok _ _ _ p') in Hv by (try done; destruct Hs; lia).
  destruct Hv as (st & E & Hl & Hv & _). exists st. eexists. split; [exact E|]. split; [|done].
  by rewrite Hl, fmap_app.
Qed.

Lemma admitted_Ok {A} r (m : M A) w w' a : m w = (w', Ok a) -> admitted r m w = (w', Ok ()).
Proof. intros E. unfold admitted. by rewrite (bind_Ok _ _ _ _ _ (try_Ok _ _ _ _ E)). Qed.

Lemma serving_admission s p w a : serving s p w -> serving s p (set_admission a (ticked w)).
Proof. by intros []. Qed.

Lemma queued_admission s st r o pr md q w :
  w_admission (appended_world s st [RunQueued r o pr md q] w) = w_admission w.
Proof. done. Qed.

Lemma resolve_bind {B} name (k : result ConfigError ResolvedProvider -> M B) w :
  (r ← Supervisor.resolve name; k r) w = k (resolve_provider env_var (w_config w) name) w.
Proof. done. Qed.

(** Why a run is not queued. *)
Definition queue_refusal (s : string) (p : SessionProjection) (q : RunRequest) (w : World) : option StoreError :=
  if sp_queue_paused p then Some QueueIsPaused
  else if bool_decide (rq_provider q = "" \/ rq_model q = "")
  then Some (Store.InvalidRequest "provider and model are required")
  else match resolve_provider env_var (w_config w) (rq_provider q) with
  | Err e => Some (provider_error e)
  | Ok _ =>
      if bool_decide (has_capacity s w) then None else Some RunCapacityExceeded
  end.

Lemma is_empty_eq x : is_empty x = bool_decide (x = "").
Proof. destruct x; simpl; by rewrite ?bool_decide_eq_true_2, ?bool_decide_eq_false_2. Qed.

(** ** Retries *)

(** A retry is preceded only by retries. *)
Lemma retry_before p new : projection_wf p -> sp_runs p !! rp_run_id new = Some new ->
  rp_status new = RQueued -> is_Some (rp_retry_of new) ->
  exists before after, queued_runs p = before ++ new :: after /\ Forall (fun x => is_Some (rp_retry_of x)) before.
Proof.
  intros Hwf Hnew Hq Hretry.
  assert (Hin : forall r, r ∈ queued_runs p <-> sp_runs p !! rp_run_id r = Some r /\ rp_status r = RQueued).
  { intros r. unfold queued_runs. by rewrite elem_of_sort_by, elem_of_runs_with, bool_decide_eq_true. }
  pose proof (proj2 (Hin new) (conj Hnew Hq)) as (before & after & E)%list_elem_of_split.
  exists before, after. split; [done|]. apply Forall_forall. intros x Hx.
  pose proof (sort_by_sorted queue_leb (List.filter (fun r => bool_decide (rp_status r = RQueued)) (btree_values (sp_runs p)))
    queue_leb_total queue_leb_trans) as Hs. fold (queued_runs p) in Hs. rewrite E in Hs.
  apply (StronglySorted_app_1_elem_of _ before (new :: after) x new) in Hs; [|done|left].
  assert (Hxq : x ∈ queued_runs p) by (rewrite E; set_solver).
  apply Hin in Hxq as [(_ & Hpx & _)%(wf_runs _ Hwf) _]. apply (wf_runs _ Hwf) in Hnew as (_ & Hpn & _).
  apply queue_leb_spec in Hs. destruct Hretry as [o Ho]. rewrite Ho in Hpn.
  destruct (rp_retry_of x); [by eexists|]. lia.
Qed.

Definition retry_events (p : SessionProjection) (id run_id : string) (q : RunRequest) : list SemanticEvent :=
  RunQueued id (Some run_id) (rq_provider q) (rq_model q) (request_to_value q)
  :: if sp_queue_paused p then [QueueResumed] else [].

Lemma retry_events_apply n p id run_id q : n + 2 <= i64_max -> sp_runs p !! id = None ->
  exists p', try_fold log_step (n, p) (retry_events p id run_id q)
      = Ok (n + Z.of_nat (length (retry_events p id run_id q)), p')
    /\ sp_runs p' = <[id := mkRun id (Some run_id) (rq_provider q) (rq_model q) (request_to_value q)
                              RQueued None 0 None None (-1) ∅]> (sp_runs p)
    /\ sp_queue_paused p' = false.
Proof.
  intros Hn Hr. unfold retry_events.
  destruct (queued_apply n p id (Some run_id) (rq_provider q) (rq_model q) (request_to_value q)) as (p1 & Ha & Hr1 & Hq1);
    [lia|done|].
  destruct (sp_queue_paused p) eqn:Hp; eexists; (split; [eapply log_steps_ok; [lia|exact Ha|]|]).
  - eapply log_steps_ok; [lia|reflexivity|]. simpl. f_equal. f_equal. lia.
  - by split.
  - simpl. f_equal. f_equal. lia.
  - split; [done|congruence].
Qed.

End handlers.

(** Queueing a run, on every branch. *)
Lemma queue_run_outcome `{EventCodec} `{Outside} s q w p w' r :
  serving s p w -> sp_runs p !! uuid (w_ticks w) = None -> queue_run s q w = (w', r) ->
  match queue_refusal s p q w with
  | Some e => r = Err (Fail e) /\ unchanged w w'
  | None =>
      let id := uuid (w_ticks w) in
      let event := RunQueued id None (rq_provider q) (rq_model q) (request_to_value q) in
      r = Ok id
      /\ re_event <$> log s (w_store w') = (re_event <$> log s (w_store w)) ++ [event]
      /\ (exists p', view s (w_store w') = Some p'
            /\ sp_runs p' = <[id := mkRun id None (rq_provider q) (rq_model q) (request_to_value q)
                                       RQueued None 0 None None 0 ∅]> (sp_runs p))
      /\ as_run_sessions (w_admission w') = <[id := s]> (as_run_sessions (w_admission w))
      /\ w_workers w' = w_workers w ++ [s]
  end.
Proof.
  intros Hs Hfresh Hw. unfold queue_run in Hw.
  match type of Hw with context [read_projection s ≫= ?k] => destruct (guards_serving s p w k Hs) as (c & E & Hs') end.
  rewrite E in Hw. clear E. unfold queue_refusal. destruct (sp_queue_paused p) eqn:Hp.
  { injection Hw as <- <-. by split. }
  rewrite !is_empty_eq in Hw. rewrite <- bool_decide_or in Hw.
  destruct (bool_decide_reflect (rq_provider q = "" \/ rq_model q = "")) as [He|He].
  { injection Hw as <- <-. by split. }
  rewrite resolve_bind in Hw. cbn [w_config cached set_store] in Hw.
  destruct (resolve_provider _ _ _) as [rp|e]; cbn [map_err] in Hw; [|rewrite lift_Err in Hw; injection Hw as <- <-; by split].
  rewrite lift_Ok, fresh_id_bind in Hw.
  destruct (reserve_eq s (uuid (w_ticks (cached c w))) (ticked (cached c w))) as [(Hcap & a & Er & Ea)|(Hcap & Er)].
  - rewrite bool_decide_eq_true_2 by exact Hcap. rewrite (bind_Ok _ _ _ _ _ Er) in Hw.
    pose proof (serving_admission s p _ a Hs') as Hs1.
    destruct (queued_apply (log_length s (w_store (set_admission a (ticked (cached c w))))) p
      (uuid (w_ticks (cached c w))) None (rq_provider q) (rq_model q) (request_to_value q)) as (p' & Ha & Hr & _);
      [destruct Hs1; lia|done|].
    destruct (append_serving s _ _ p p' Hs1 Ha) as (st & rec & Eap & Hlog & Hv).
    rewrite (bind_Ok _ _ _ _ _ (admitted_Ok _ _ _ _ _ Eap)) in Hw.
    erewrite bind_Ok in Hw by (apply spawn_worker_running; apply Hs).
    injection Hw as <- <-. split_and!; try done. by exists p'.
  - rewrite bool_decide_eq_false_2 by exact Hcap. rewrite (bind_Err _ _ _ _ _ Er) in Hw.
    injection Hw as <- <-. by split.
Qed.


(** The worlds of file Scenario are served. *)
Lemma scenario_serving `{Outside} events :
  is_Some (view "s" (scenario_store events)) -> log_length "s" (scenario_store events) + 16 <= i64_max ->
  serving "s" (scenario events) (scenario_world events).
Proof.
  intros [p Hv] Hl. split; simpl; [apply scenario_consistent|done| | |done].
  - unfold scenario. by rewrite Hv.
  - intros row pid _ _. apply not_elem_of_empty.
Qed.
(** [serve_tac] proves it for a concrete list of events. *)
Ltac serve_tac := apply scenario_serving; [by vm_compute; eexists|by vm_compute].



(** C16. Retries.  A run that failed, was interrupted or was cancelled is queued again
    with the same request under a fresh id, the queue goes on even when it was
    paused, and only other retries are started before it.  Any other run is
    refused, and so is a retry without capacity; refusing records and reserves
    nothing. *)
Theorem retry_goes_first `{EventCodec} `{Outside} s run_id w p run q w' r :
  serving s p w -> sp_runs p !! run_id = Some run -> request_from_value (rp_request run) = Some q ->
  sp_runs p !! uuid (w_ticks w) = None -> retry s run_id w = (w', r) ->
  if retryable (rp_status run) && bool_decide (has_capacity s w) then
    let id := uuid (w_ticks w) in
    let new := mkRun id (Some run_id) (rq_provider q) (rq_model q) (request_to_value q) RQueued None 0 None None (-1) ∅ in
    r = Ok id
    /\ as_run_sessions (w_admission w') = <[id := s]> (as_run_sessions (w_admission w))
    /\ w_workers w' = w_workers w ++ [s]
    /\ exists p', view s (w_store w') = Some p' /\ sp_runs p' = <[id := new]> (sp_runs p)
         /\ sp_queue_paused p' = false
         /\ exists before after, queued_runs p' = before ++ new :: after
              /\ Forall (fun x => is_Some (rp_retry_of x)) before
  else (exists e, r = Err (Fail e)) /\ unchanged w w'.
Proof.
  intros Hs Hr Hq Hfresh Hw. unfold retry in Hw.
  match type of Hw with context [read_projection s ≫= ?k] => destruct (guards_serving s p w k Hs) as (c & E & Hs') end.
  rewrite E in Hw. clear E. unfold run_of in Hw. rewrite Hr in Hw. cbn [ok_or] in Hw. rewrite lift_Ok in Hw.
  destruct (retryable (rp_status run)); cbn [negb andb] in *; [|injection Hw as <- <-; by split; [eexists|]].
  unfold parse_request in Hw. rewrite Hq in Hw. cbn [ok_or] in Hw. rewrite lift_Ok, fresh_id_bind in Hw.
  destruct (reserve_eq s (uuid (w_ticks (cached c w))) (ticked (cached c w))) as [(Hcap & a & Er & Ea)|(Hcap & Er)].
  - rewrite bool_decide_eq_true_2 by exact Hcap. rewrite (bind_Ok _ _ _ _ _ Er) in Hw.
    destruct (read_serving s p _ (serving_admission s p _ a Hs')) as (c1 & Ep & Hs1).
    rewrite (bind_Ok _ _ _ _ _ Ep) in Hw.
    destruct (retry_events_apply (log_length s (w_store (cached c1 (set_admission a (ticked (cached c w)))))) p
      (uuid (w_ticks (cached c w))) run_id q) as (p' & Hf & Hruns & Hpaused); [destruct Hs1; lia|done|].
    destruct (append_many_serving s p _ (retry_events p (uuid (w_ticks (cached c w))) run_id q) p' Hs1 ltac:(done) Hf) as (st & Eap & _ & Hv & _).
    fold (retry_events p (uuid (w_ticks (cached c w))) run_id q) in Hw.
    rewrite (bind_Ok _ _ _ _ _ (admitted_Ok _ _ _ _ _ Eap)) in Hw.
    erewrite bind_Ok in Hw by (apply spawn_worker_running; apply Hs).
    injection Hw as <- <-. split_and!; [done| |done|].
    + simpl. rewrite record_at_events. rewrite (queues_released (uuid (w_ticks w))); [done|].
      do 5 eexists. split; [done|]. destruct (sp_queue_paused p); by repeat constructor.
    + exists p'. split_and!; [done|done|done|]. apply retry_before; [by eapply view_wf| |done|by eexists].
      rewrite Hruns. apply lookup_insert_eq.
  - rewrite bool_decide_eq_false_2 by exact Hcap. rewrite (bind_Err _ _ _ _ _ Er) in Hw.
    injection Hw as <- <-. by split; [eexists|].
Qed.

Definition failed_events : list SemanticEvent :=
  [RunQueued "r" None "p" "m" (request_to_value hello);
   SessionPhaseChanged Created Running None; RunStarted "r" "a" 1; RunFailed "r" "broken";
   SessionPhaseChanged Running Failed None; RunQueued "r2" None "p" "m" (request_to_value hello)].
Definition failed_run : RunProjection :=
  mkRun "r" None "p" "m" (request_to_value hello) RFailed (Some "a") 1 (Some "broken") None 0 ∅.

(** The retry of [r] is started before [r2], which was queued earlier. *)
Lemma retry_goes_first_witness : exists w' p' before after,
  retry (H0 := scripted) "s" "r" (scenario_world failed_events) = (w', Ok "u")
  /\ view "s" (w_store w') = Some p' /\ rp_run_id <$> queued_runs p' = before ++ "u" :: after
  /\ before = [] /\ after = ["r2"].
Proof.
  pose proof (retry_goes_first (H0 := scripted) "s" "r" (scenario_world failed_events) (scenario failed_events)
    failed_run hello _ _ ltac:(serve_tac) ltac:(vm_compute; reflexivity) ltac:(vm_compute; reflexivity)
    ltac:(vm_compute; reflexivity) ltac:(apply surjective_pairing)) as Hq.
  assert (Hc : retryable (rp_status failed_run)
    && bool_decide (has_capacity "s" (scenario_world failed_events)) = true) by (vm_compute; reflexivity).
  rewrite Hc in Hq. destruct Hq as (Hr & _ & _ & p' & Hv & Hruns & _).
  eexists _, p', [], ["r2"]. split; [etrans; [apply surjective_pairing|f_equal; exact Hr]|].
  split; [exact Hv|]. split; [|by split]. unfold queued_runs. rewrite Hruns. vm_compute. reflexivity.
Defined.
