(* ===== verification/ShutdownSpec.v ===== *)
(** The shutdown of the supervisor: [shutdown] and [interrupt_remaining_runs] of
    [piqo-server/src/supervisor.rs] end every run of every session. *)

From S2P Require Export SupervisorSpec HandlersSpec.
From S2P Require Import StoreSpec SessionSpec.
From S2P Require Export Store.
From S2P Require Export World.
Import SessionProjection.

(** Nothing goes on in a session. *)
Definition stopped (p : SessionProjection) : Prop :=
  ss_phase (sp_state p) <> Running
  /\ forall k run, sp_runs p !! k = Some run -> terminal (rp_status run) = true.

Lemma interrupt_apply i id reason p run : sp_runs p !! id = Some run -> terminal (rp_status run) = false ->
  exists p', try_apply i (RunInterrupted id reason) p = Ok p'
    /\ sp_runs p' = <[id := set_error (Some reason) (set_status RInterrupted run)]> (sp_runs p)
    /\ ss_phase (sp_state p') = ss_phase (sp_state p).
Proof.
  intros Hr Hl. unfold try_apply, apply. simpl. unfold run_interrupted, set_run_terminal, update_run, update_entry. simpl.
  rewrite Hr. simpl.
  assert (rp_status run ∈ [RQueued; RRunning; RRequiresAction]) as Hin by (destruct (rp_status run); set_solver).
  rewrite bool_decide_eq_true_2 by done. simpl. eexists. by split.
Qed.

(** The interruptions of a list of runs. *)
Lemma interrupt_runs_apply reason l : forall n p, n + Z.of_nat (length l) <= i64_max ->
  NoDup (rp_run_id <$> l) ->
  (forall r, r ∈ l -> sp_runs p !! rp_run_id r = Some r /\ terminal (rp_status r) = false) ->
  exists p', try_fold log_step (n, p) ((fun r => RunInterrupted (rp_run_id r) reason) <$> l)
      = Ok (n + Z.of_nat (length l), p')
    /\ ss_phase (sp_state p') = ss_phase (sp_state p)
    /\ forall k run, sp_runs p' !! k = Some run ->
         terminal (rp_status run) = true \/ (k ∉ rp_run_id <$> l /\ sp_runs p !! k = Some run).
Proof.
  induction l as [|r l IH]; intros n p Hn Hnd Hl.
  - exists p. simpl. rewrite Z.add_0_r. split_and!; [done|done|]. intros k run Hk. right. split; [apply not_elem_of_nil|done].
  - rewrite fmap_cons in Hnd. apply NoDup_cons in Hnd as [Hr Hnd]. destruct (Hl r ltac:(by left)) as [Hp Ht].
    simpl length in Hn.
    destruct (interrupt_apply (n + 1) _ reason p r Hp Ht) as (p1 & Ha & Hruns & Hph).
    destruct (IH (n + 1) p1) as (p' & Hf & Hph' & Hk); [lia|done| |].
    { intros x Hx. rewrite Hruns, lookup_insert_ne; [apply Hl; by right|].
      intros E. apply Hr. rewrite E. by apply list_elem_of_fmap_2. }
    exists p'. split_and!; [|congruence|].
    + rewrite fmap_cons. rewrite (log_steps_ok n p _ _ p1 p'); [|lia|exact Ha|rewrite length_fmap; exact Hf].
      cbn [length]. by rewrite length_fmap.
    + intros k run Hrun. destruct (Hk k run Hrun) as [|[Hkl Hk1]]; [by left|]. rewrite Hruns in Hk1.
      destruct (decide (k = rp_run_id r)) as [->|Hne].
      * rewrite lookup_insert_eq in Hk1. left. by injection Hk1 as <-.
      * rewrite lookup_insert_ne in Hk1 by done. right. split; [|done]. rewrite fmap_cons. by apply not_elem_of_cons.
Qed.

Lemma try_fold_snoc {E A S} (f : S -> A -> result E S) s s' l x :
  try_fold f s l = Ok s' -> try_fold f s (l ++ [x]) = f s' x.
Proof. intros Hl. rewrite try_fold_app, Hl. simpl. by destruct (f s' x). Qed.

(** [shutdown_events] stop a session. *)
Lemma shutdown_events_apply reason n p : projection_wf p -> n + Z.of_nat (size (sp_runs p)) + 1 <= i64_max ->
  exists m p', try_fold log_step (n, p) (shutdown_events reason p) = Ok (m, p') /\ stopped p'.
Proof.
  intros Hwf Hn. set (l := List.filter (fun r => unfinished (rp_status r)) (btree_values (sp_runs p))).
  assert (Hlen : (length l <= size (sp_runs p))%nat).
  { unfold l. rewrite <- length_btree_values. apply List.filter_length_le. }
  assert (Hin : forall r, r ∈ l <-> sp_runs p !! rp_run_id r = Some r /\ terminal (rp_status r) = false).
  { intros r. unfold l. rewrite elem_of_runs_with by done. unfold unfinished. by rewrite negb_true_iff. }
  destruct (interrupt_runs_apply reason l n p) as (p1 & Hf & Hph & Hk); [lia| |apply Hin|].
  { unfold l. eapply NoDup_fmap_2_strong; [|by apply NoDup_runs_with].
    intros x y Hx%Hin Hy%Hin E. destruct Hx as [Hx _], Hy as [Hy _]. rewrite E in Hx. congruence. }
  assert (Hterm : forall k run, sp_runs p1 !! k = Some run -> terminal (rp_status run) = true).
  { intros k run Hrun. destruct (Hk k run Hrun) as [|[Hkl Hk0]]; [done|].
    destruct (terminal (rp_status run)) eqn:Ht; [done|]. exfalso. apply Hkl.
    rewrite <- (run_id_key _ _ _ Hwf Hk0). apply list_elem_of_fmap_2, Hin.
    by rewrite (run_id_key _ _ _ Hwf Hk0). }
  unfold shutdown_events. fold l. destruct (bool_decide_reflect (ss_phase (sp_state p) = Running)) as [Hr|Hr].
  - rewrite (try_fold_snoc _ _ _ _ _ Hf).
    destruct (phase_apply (n + Z.of_nat (length l) + 1) p1 Running Interrupted (Some reason))
      as (p2 & Ha & Hph2 & Hr2 & _); [congruence|by left|].
    eexists _, p2. split; [apply log_step_ok; [lia|exact Ha]|]. split; [congruence|]. by rewrite Hr2.
  - rewrite app_nil_r. eexists _, p1. split; [exact Hf|]. split; [congruence|done].
Qed.

Section shutdown.
  Context `{EventCodec} `{Outside}.

(** There is room in every log for the events of a shutdown. *)
Definition roomy (s : SqliteStore) : Prop :=
  forall id p, view id s = Some p -> log_length id s + Z.of_nat (size (sp_runs p)) + 1 <= i64_max.

(** The state of one session changes; the others are as before. *)
Record only_session (id : string) (w w' : World) : Prop := {
  os_store : consistent (w_store w');
  os_others : forall j, j <> id -> view j (w_store w') = view j (w_store w) /\ log j (w_store w') = log j (w_store w);
  os_shutdown : w_shutdown w' = w_shutdown w;
  os_workers : w_workers w' = w_workers w }.

Lemma interrupt_session_stops reason id w p : consistent (w_store w) -> view id (w_store w) = Some p ->
  log_length id (w_store w) + Z.of_nat (size (sp_runs p)) + 1 <= i64_max ->
  exists w' p', interrupt_session_runs reason id w = (w', Ok ()) /\ only_session id w w'
    /\ view id (w_store w') = Some p' /\ stopped p'.
Proof.
  intros Hcs Hv Hroom. pose proof (view_projection (w_store w) id Hcs) as Hp. rewrite Hv in Hp.
  destruct Hp as (c & Ep & Hcs').
  assert (Er : read_projection id w = (cached c w, Ok p)) by (unfold read_projection, on_store; by rewrite Ep).
  unfold interrupt_session_runs. rewrite (bind_Ok _ _ _ _ _ Er).
  destruct (shutdown_events_apply reason (log_length id (w_store w)) p) as (m & p' & Hf & Hst);
    [by eapply view_wf|done|].
  destruct (shutdown_events reason p) as [|e l] eqn:He.
  - exists (cached c w), p. simpl in Hf. injection Hf as _ <-. split_and!; [done| |done|done]. by split.
  - pose proof (append_many_view id (e :: l) (cached c w) p Hcs' Hv ltac:(done)) as Ha.
    change (log_length id (w_store (cached c w))) with (log_length id (w_store w)) in Ha. rewrite Hf in Ha.
    destruct Ha as (st & Ea & _ & Hv' & Hst' & Hfr). rewrite (bind_Ok _ _ _ _ _ Ea).
    exists (appended_world id st (e :: l) (cached c w)), p'. split_and!; [done| |done|done].
    split; simpl; [done| |done|done]. intros j Hj. by apply (view_frame (w_store (cached c w)) st id j).
Qed.

Lemma interrupt_sessions_stop reason ids : forall w, consistent (w_store w) -> NoDup ids ->
  (forall id, id ∈ ids -> exists p, view id (w_store w) = Some p
     /\ log_length id (w_store w) + Z.of_nat (size (sp_runs p)) + 1 <= i64_max) ->
  exists w', each (interrupt_session_runs reason) ids w = (w', Ok ())
    /\ consistent (w_store w') /\ w_shutdown w' = w_shutdown w /\ w_workers w' = w_workers w
    /\ (forall id, id ∈ ids -> exists p, view id (w_store w') = Some p /\ stopped p)
    /\ (forall id, id ∉ ids -> view id (w_store w') = view id (w_store w)).
Proof.
  induction ids as [|id ids IH]; intros w Hcs Hnd Hids.
  - exists w. split_and!; try done. by intros id Hid%elem_of_nil.
  - apply NoDup_cons in Hnd as [Hid Hnd]. destruct (Hids id ltac:(by left)) as (p & Hv & Hroom).
    destruct (interrupt_session_stops reason id w p Hcs Hv Hroom) as (w1 & p1 & E & [Hcs1 Ho Hs1 Hw1] & Hv1 & Hst1).
    destruct (IH w1 Hcs1 Hnd) as (w' & E' & Hcs' & Hs' & Hw' & Hin & Hout).
    { intros j Hj. assert (j <> id) as Hne by congruence. destruct (Hids j ltac:(by right)) as (q & Hq & Hr).
      destruct (Ho j Hne) as [Hvj Hlj]. exists q. unfold log_length. by rewrite Hvj, Hlj. }
    exists w'. cbn [each]. rewrite (bind_Ok _ _ _ _ _ E). split_and!; [done|done|congruence|congruence| |].
    + intros j [->|Hj]%elem_of_cons; [|by apply Hin]. exists p1. by rewrite Hout.
    + intros j [Hne Hj]%not_elem_of_cons. rewrite Hout by done. by apply Ho.
Qed.

Lemma viewed_id id s p : consistent s -> view id s = Some p -> id ∈ btree_keys (db_sessions (st_db s)).
Proof. intros Hcs Hv. destruct (view_session _ _ _ Hcs Hv) as (row & E & _). rewrite elem_of_btree_keys. by eexists. Qed.

Lemma id_viewed id s : consistent s -> id ∈ btree_keys (db_sessions (st_db s)) -> exists p, view id s = Some p.
Proof.
  intros Hcs [row Hrow]%elem_of_btree_keys. destruct (view id s) as [p|] eqn:E; [by eexists|].
  apply view_none in E; [congruence|done].
Qed.

Lemma interrupt_remaining_stops reason w : consistent (w_store w) -> roomy (w_store w) ->
  exists w', interrupt_remaining_runs reason w = (w', Ok ()) /\ consistent (w_store w')
    /\ w_shutdown w' = w_shutdown w /\ w_workers w' = w_workers w
    /\ forall id p, view id (w_store w') = Some p -> stopped p.
Proof.
  intros Hcs Hroom. destruct (interrupt_sessions_stop reason (btree_keys (db_sessions (st_db (w_store w)))) w Hcs
    (btree_keys_NoDup _)) as (w' & E & Hcs' & Hs & Hw & Hin & Hout).
  { intros id Hid. destruct (id_viewed _ _ Hcs Hid) as [p Hv]. exists p. split; [done|by apply Hroom]. }
  exists w'. split_and!; [exact E|done|done|done|]. intros id p Hv.
  destruct (decide (id ∈ btree_keys (db_sessions (st_db (w_store w))))) as [Hid|Hid].
  - destruct (Hin id Hid) as (q & Hq & Hst). rewrite Hv in Hq. by injection Hq as ->.
  - rewrite (Hout id Hid) in Hv. by apply viewed_id in Hv.
Qed.

End shutdown.

(** Shutdown.  Whatever the workers were doing, after a shutdown no run of any
    session is queued, running or waiting, no session is running, all capacity
    has been given back, no worker is left and new work is refused; the answer
    tells whether the workers ended in time. *)
Lemma shutdown_leaves_nothing_running `{EventCodec} `{Outside} w in_time :
  (forall m n, uuid m = uuid n -> m = n) -> sound w -> roomy (w_store w) ->
  exists w', shutdown in_time w = (w', if in_time then Ok () else Err (Fail ShutdownTimeout))
    /\ (forall id p, view id (w_store w') = Some p ->
          ss_phase (sp_state p) <> Running
          /\ forall k run, sp_runs p !! k = Some run -> rp_status run ∉ [RQueued; RRunning; RRequiresAction])
    /\ as_run_sessions (w_admission w') = ∅ /\ as_pending (w_admission w') = 0
    /\ w_workers w' = [] /\ w_shutdown w' = true
    /\ (forall s q, snd (queue_run s q w') = Err (Fail ShuttingDown)).
Proof.
  intros Hu Hs Hroom. unfold shutdown. rewrite !modify_bind.
  destruct (interrupt_remaining_stops "server_shutdown" (set_workers [] (set_shutdown true w)) (so_store _ Hs) Hroom)
    as (w' & E & Hcs & Hsd & Hw & Hst).
  exists w'. rewrite (bind_Ok _ _ _ _ _ E).
  assert (Hs' : sound w').
  { pose proof (keeps_shutdown advances (KeptPrimitives0 := advances_primitives Hu) in_time w Hs) as (Hs' & _).
    unfold shutdown in Hs'. rewrite !modify_bind, (bind_Ok _ _ _ _ _ E) in Hs'. by destruct in_time. }
  assert (Hempty : as_run_sessions (w_admission w') = ∅).
  { apply map_empty. intros r. destruct (_ !! r) as [s|] eqn:Hr; [|done].
    destruct (so_live _ Hs' r s Hr) as (p & Hv & run & Hrun & Hl). destruct (Hst s p Hv) as [_ Ht].
    rewrite (Ht _ _ Hrun) in Hl. done. }
  split_and!; [by destruct in_time| |done| |done|done|].
  - intros id p Hv. destruct (Hst id p Hv) as [Hph Ht]. split; [done|]. intros k run Hrun.
    pose proof (Ht k run Hrun). by destruct (rp_status run); rewrite !elem_of_cons, elem_of_nil; naive_solver.
  - rewrite (aw_pending _ _ (so_admission _ Hs')), Hempty. by rewrite map_size_empty.
  - intros s q. unfold queue_run, ensure_running, gets, mbind, M_bind. by rewrite Hsd.
Qed.

Lemma shutdown_leaves_nothing_running_witness : exists w',
  shutdown (H0 := scripted) true (scenario_world external_events) = (w', Ok ())
  /\ status_of "s" "r" (scenario_world external_events) = Some RRequiresAction
  /\ forall p, view "s" (w_store w') = Some p -> ss_phase (sp_state p) <> Running
       /\ forall k run, sp_runs p !! k = Some run -> rp_status run ∉ [RQueued; RRunning; RRequiresAction].
Proof.
  destruct (shutdown_leaves_nothing_running (H0 := scripted) (scenario_world external_events) true example_uuid_inj)
    as (w' & E & Hst & _).
  - apply (new_world_sound (H0 := scripted)), scenario_consistent.
  - intros id p Hv. pose proof (viewed_id _ _ _ (scenario_consistent external_events) Hv) as Hid.
    assert (btree_keys (db_sessions (st_db (scenario_store external_events))) = ["s"]) as Hk by (vm_compute; reflexivity).
    rewrite Hk in Hid. apply list_elem_of_singleton in Hid as ->.
    assert (view "s" (w_store (scenario_world external_events)) = Some (scenario external_events)) as Es
      by (vm_compute; reflexivity).
    pose proof (eq_trans (eq_sym Es) Hv) as Ep. apply (inj Some) in Ep. rewrite <- Ep.
    apply Z.leb_le. vm_compute. reflexivity.
  - exists w'. split; [exact E|]. split; [vm_compute; reflexivity|]. apply Hst.
Defined.
