(* ===== verification/TurnSpec.v ===== *)
(** One turn of a run (files Execution, Worker): what [execute_run] can return, what
    [finish_run] records, when the user's message is recorded.  Also the predicates
    the theorems about sequences of events share: [hosts] and [does]. *)

From S2P Require Export HandlersSpec.
From S2P Require Import StoreSpec SessionSpec.
From S2P Require Export Store.
From S2P Require Export World.
Import SessionProjection.

Section outcomes.
  Context `{EventCodec} `{Outside}.

(** ** What a handler can return *)

Definition yields {A} (P : A -> Prop) (m : M A) : Prop :=
  forall w, match snd (m w) with Ok a => P a | Err _ => True end.

Lemma yields_bind {A B} (P : B -> Prop) (m : M A) (k : A -> M B) : (forall a, yields P (k a)) -> yields P (a ← m; k a).
Proof. intros Hk w. unfold mbind, M_bind. destruct (m w) as [w' [a|e]]; [apply Hk|done]. Qed.

Lemma yields_after {A B} (Q : A -> Prop) (P : B -> Prop) (m : M A) (k : A -> M B) :
  yields Q m -> (forall a, Q a -> yields P (k a)) -> yields P (a ← m; k a).
Proof.
  intros Hm Hk w. specialize (Hm w). unfold mbind, M_bind. destruct (m w) as [w' [a|e]]; [by apply Hk|done].
Qed.

Lemma yields_ret {A} (P : A -> Prop) a : P a -> yields P (mret a).
Proof. by intros Ha w. Qed.

Lemma yields_or_failed {A} (P : ExecutionResult -> Prop) (m : M A) k :
  (forall e, P (Provider.Failed e false)) -> (forall a, yields P (k a)) -> yields P (or_failed m k).
Proof. intros Hf Hk. apply yields_bind. intros [a|e]; [apply Hk|by apply yields_ret]. Qed.

Ltac yields_tac :=
  repeat match goal with
  | |- yields _ (mret _) => apply yields_ret
  | |- yields _ (or_failed _ _) => apply yields_or_failed
  | |- yields _ (mbind _ (send_loop _ _ _ _ _)) => fail 1
  | |- yields _ (mbind _ (read_response _ _ _ _ _ _ _)) => fail 1
  | |- yields _ (mbind _ _) => apply yields_bind
  | |- yields _ (match _ with _ => _ end) => case_match
  | |- forall _, _ => intro
  | |- _ <> _ => done
  | |- yields _ _ => solve [auto]
  end.

(** ** [execute_run] never returns [Completed] *)

Lemma send_loop_yields limit n s run : forall id, yields (fun o => o <> inl Completed) (send_loop limit n s run id).
Proof. induction n as [|n IH]; intros id; cbn [send_loop]; yields_tac; by intros [=]. Qed.

Lemma read_response_yields s r m ex lt seen rs :
  yields (fun o => o <> inl Completed) (read_response s r m ex lt seen rs).
Proof.
  intros w. unfold read_response. destruct seen as [k|]; [done|].
  set (st := if body_stream_mode (ex_body ex) then _ else _). destruct (returned st) eqn:Hr.
  - simpl. intros [= E]. unfold returned in Hr. by rewrite E in Hr.
  - destruct (flush_rest _ st) as [st' [e|]]; simpl; by intros [=].
Qed.

Lemma with_usage_completed u o : with_usage u o <> Completed.
Proof. by destruct o. Qed.

Lemma execute_run_yields limit n s run : forall ex a, yields (fun o => o <> Completed) (execute_run limit n s run ex a).
Proof.
  induction n as [|n IH]; intros ex a; cbn [execute_run]; yields_tac;
    (eapply yields_after; [apply send_loop_yields|intros [o|[response id]] Ho; [apply yields_ret; congruence|]]);
    yields_tac; (eapply yields_after; [apply read_response_yields|intros [o|[o u]] Ho'; [apply yields_ret; congruence|]]);
    destruct o as [| | | | |e []]; yields_tac.
Qed.

Lemma within_yields {A} (P : A -> Prop) (m : M A) : yields P m -> yields (fun o => forall a, o = Some a -> P a) (within m).
Proof.
  intros Hm w. specialize (Hm w). unfold within. destruct (m w) as [w' [a|[]]]; simpl in *; try done.
  by intros a' [= <-].
Qed.

Lemma turn_yields s run : yields (fun o => o <> Completed) (execute_run_with_child_timeout s run).
Proof.
  unfold execute_run_with_child_timeout. apply yields_or_failed; [done|]. intros [b|]; [|apply execute_run_yields].
  eapply yields_after; [apply within_yields, execute_run_yields|]. intros [r|] Hr; [by apply yields_ret, Hr|].
  apply yields_bind. intros _. by apply yields_ret.
Qed.

(** The pausing branch of [finish_run] is never taken: whatever the session, the
    run and the provider's answer, a turn is exactly the execution, the removal of
    the run's token, the recording of the result and the delivery to the parent.
    [execute_run] wraps every finished response into [CompletedWithUsage], while
    only [Completed] would pause the run for its open tool calls and have them
    judged by the permission rules. *)
Lemma tool_calls_never_pause process session_id run w :
  run_turn process session_id run w
  = (result ← execute_run_with_child_timeout session_id run;
     _ ← remove_token (rp_run_id run);
     _ ← record_result session_id (rp_run_id run) result;
     deliver_child_result process session_id (rp_run_id run)) w.
Proof.
  unfold run_turn, mbind, M_bind. pose proof (turn_yields session_id run w) as Hr.
  destruct (execute_run_with_child_timeout session_id run w) as [w' [r|e]]; [|done]. simpl in Hr.
  destruct (remove_token _ w') as [w'' [[]|e]]; [|done].
  unfold finish_run, mbind, M_bind. by destruct r.
Qed.

End outcomes.

(** What is read is the view. *)
Lemma view_read `{EventCodec} s w p : consistent (w_store w) -> view s (w_store w) = Some p ->
  exists c, read_projection s w = (cached c w, Ok p) /\ consistent (w_store (cached c w)).
Proof.
  intros Hcs Hv. pose proof (view_projection (w_store w) s Hcs) as Hp. rewrite Hv in Hp. destruct Hp as (c & Ep & Hcs').
  exists c. split; [by unfold read_projection, on_store; rewrite Ep|done].
Qed.

(** ** Handlers that succeeded *)

Section inversion.
  Context `{EventCodec} `{Outside}.

Lemma bind_inv {A B} (m : M A) (k : A -> M B) w w' b :
  (a ← m; k a) w = (w', Ok b) -> exists w1 a, m w = (w1, Ok a) /\ k a w1 = (w', Ok b).
Proof. unfold mbind, M_bind. destruct (m w) as [w1 [a|e]]; [by exists w1, a|done]. Qed.

Lemma append_inv s e w w' a : consistent (w_store w) -> append s e w = (w', Ok a) ->
  exists p p', view s (w_store w) = Some p
    /\ try_apply (log_length s (w_store w) + 1) e p = Ok p' /\ view s (w_store w') = Some p'
    /\ consistent (w_store w') /\ re_event <$> log s (w_store w') = (re_event <$> log s (w_store w)) ++ [e]
    /\ w_config w' = w_config w /\ w_metadata w' = w_metadata w.
Proof.
  intros Hcs E. destruct (append_appends s e w Hcs) as [[x Ea]|(p & n & p' & st & b & Hv & Hf & Ea & Hl & Hv' & Hcs' & _)];
    rewrite Ea in E; [done|injection E as <- _]. exists p, p'. cbn [try_fold] in Hf. unfold log_step in Hf.
  destruct (_ <? _); [done|]. destruct (try_apply _ e p) as [q|] eqn:Ha; [|done]. injection Hf as _ ->.
  split_and!; try done. simpl. by rewrite Hl, fmap_app.
Qed.

End inversion.

(** ** Handlers as sequences of events *)

Section sequences.
  Context `{EventCodec} `{Outside}.

(** Session [s] has projection [p], and room for [k] more events. *)
Record hosts (s : string) (k : nat) (p : SessionProjection) (w : World) : Prop := {
  ho_store : consistent (w_store w);
  ho_view : view s (w_store w) = Some p;
  ho_room : log_length s (w_store w) + Z.of_nat k <= i64_max }.

(** From a projection with [P], [m] succeeds, records exactly [events] and gives
    back what they release, and leaves a projection with [Q]. *)
Definition does {A} (s : string) (events : list SemanticEvent) (P Q : SessionProjection -> Prop) (m : M A) : Prop :=
  forall k p w, hosts s (length events + k) p w -> projection_wf p -> P p ->
  exists w' a p', m w = (w', Ok a) /\ hosts s k p' w' /\ Q p'
    /\ re_event <$> log s (w_store w') = (re_event <$> log s (w_store w)) ++ events
    /\ w_admission w' = released events (w_admission w).

Lemma does_weaken {A} s events P (Q R : SessionProjection -> Prop) (m : M A) :
  does s events P Q m -> (forall p, Q p -> R p) -> does s events P R m.
Proof.
  intros Hm HQ k p w Hh Hwf HP. destruct (Hm k p w Hh Hwf HP) as (w' & a & p' & E & Hh' & Hq & Hr).
  exists w', a, p'. split_and!; [done|done|by apply HQ|apply Hr..].
Qed.

Lemma does_ret {A} s (P : SessionProjection -> Prop) (a : A) : does s [] P P (mret a).
Proof. intros k p w Hh Hwf HP. exists w, a, p. rewrite app_nil_r. by destruct Hh. Qed.

Lemma released_app l1 l2 a : released (l1 ++ l2) a = released l2 (released l1 a).
Proof. unfold released. by rewrite omap_app, foldl_app. Qed.

Lemma does_bind {A B} s e1 e2 P R Q (m : M A) (k : A -> M B) :
  does s e1 P R m -> (forall a, does s e2 R Q (k a)) -> does s (e1 ++ e2) P Q (a ← m; k a).
Proof.
  intros Hm Hk n p w Hh Hwf HP. rewrite length_app, <- Nat.add_assoc in Hh.
  destruct (Hm _ _ _ Hh Hwf HP) as (w1 & a & p1 & E & Hh1 & HR & Hl & Ha).
  destruct (Hk a n p1 w1 Hh1 ltac:(eapply view_wf, Hh1) HR) as (w' & b & p' & E' & Hh' & HQ & Hl' & Ha').
  exists w', b, p'. rewrite (bind_Ok _ _ _ _ _ E). split_and!; try done.
  - by rewrite Hl', Hl, app_assoc.
  - by rewrite released_app, Ha', Ha.
Qed.

(** A handler that reads the projection first. *)
Lemma does_read {B} s events P Q (k : SessionProjection -> M B) :
  (forall p0, projection_wf p0 -> P p0 -> does s events (fun p => p = p0) Q (k p0)) ->
  does s events P Q (p ← read_projection s; k p).
Proof.
  intros Hk n p w [Hcs Hv Hroom] Hwf HP. pose proof (view_projection (w_store w) s Hcs) as Hp. rewrite Hv in Hp.
  destruct Hp as (c & Ep & Hcs').
  assert (Er : read_projection s w = (cached c w, Ok p)) by (unfold read_projection, on_store; by rewrite Ep).
  rewrite (bind_Ok _ _ _ _ _ Er).
  apply (Hk p Hwf HP n p (cached c w)); [by split|done|done].
Qed.

Lemma does_append s e P Q :
  (forall i p, projection_wf p -> P p -> exists p', try_apply i e p = Ok p' /\ Q p') -> does s [e] P Q (append s e).
Proof.
  intros He k p w [Hcs Hv Hroom] Hwf HP. cbn [length] in Hroom.
  destruct (He (log_length s (w_store w) + 1) p Hwf HP) as (p' & Ha & HQ).
  pose proof (append_view s e w p Hcs Hv) as Hr. cbv zeta in Hr.
  rewrite (log_step_ok _ _ _ p') in Hr by (try done; lia).
  destruct Hr as (st & E & Hl & Hv' & Hst & _).
  exists (appended_world s st [e] w). eexists. exists p'. split; [exact E|]. split_and!; try done.
  - split; simpl; [done|done|]. unfold log_length in *. rewrite Hl, length_app. simpl. lia.
  - simpl. by rewrite Hl, fmap_app, record_at_events.
Qed.


(** ** The end of a turn *)

(** Closing a message leaves the runs, the phase and the queue alone. *)
Record same_runs (p p' : SessionProjection) : Prop := {
  sm_runs : sp_runs p' = sp_runs p;
  sm_phase : ss_phase (sp_state p') = ss_phase (sp_state p);
  sm_paused : sp_queue_paused p' = sp_queue_paused p }.

Lemma last_message_found f p m : projection_wf p -> last_message f p = Some m ->
  f m = true /\ List.find (fun x => String.eqb (mp_message_id x) (mp_message_id m)) (sp_messages p) = Some m.
Proof.
  intros Hwf [Hin Hf]%find_some. split; [done|]. apply in_rev in Hin. apply list_elem_of_In in Hin.
  pose proof (wf_message_ids _ Hwf) as Hnd. revert Hin Hnd. generalize (sp_messages p) as l.
  induction l as [|x l IH]; intros Hin Hnd; [by apply elem_of_nil in Hin|]. cbn [List.find].
  rewrite fmap_cons in Hnd. apply NoDup_cons in Hnd as [Hx Hnd]. destruct (String.eqb_spec (mp_message_id x) (mp_message_id m)) as [E|E].
  - apply elem_of_cons in Hin as [<-|Hin]; [done|]. rewrite E in Hx. by destruct Hx; apply list_elem_of_fmap_2.
  - apply elem_of_cons in Hin as [<-|Hin]; [done|]. by apply IH.
Qed.

Lemma open_assistant_open m : open_assistant m = true -> mp_completed m || mp_interrupted m = false.
Proof. intros [[_ Hc]%andb_true_iff Hi]%andb_true_iff. apply negb_true_iff in Hc, Hi. by rewrite Hc, Hi. Qed.

Lemma update_first_found {E A} (pr : A -> bool) (none : E) f l x y :
  List.find pr l = Some x -> f x = Ok y -> exists l', update_first pr none f l = Ok l'.
Proof.
  induction l as [|z l IH]; simpl; [done|]. intros Hl Hf. destruct (pr z).
  - injection Hl as ->. rewrite Hf. by eexists.
  - destruct (IH Hl Hf) as [l' ->]. by eexists.
Qed.

Definition closing (complete : bool) (message_id : string) : SemanticEvent :=
  if complete then MessageCompleted message_id else MessageInterrupted message_id.

Lemma closing_apply complete i p m f : projection_wf p -> last_message f p = Some m ->
  mp_completed m || mp_interrupted m = false ->
  exists p', try_apply i (closing complete (mp_message_id m)) p = Ok p' /\ same_runs p p'.
Proof.
  intros Hwf (_ & Hm)%last_message_found Ho; [|done].
  assert (Hc : forall mark, exists l', update_first (fun x => String.eqb (mp_message_id x) (mp_message_id m))
    (UnknownMessage (mp_message_id m)) (fun x => _ ← open_message (mp_message_id m) x; Ok (touch i (mark x))) (sp_messages p)
    = Ok l').
  { intros mark. eapply update_first_found; [exact Hm|]. unfold open_message. by rewrite Ho. }
  destruct (Hc mark_completed) as [l1 E1], (Hc mark_interrupted) as [l2 E2].
  unfold try_apply, apply, closing. destruct complete; simpl; unfold message_completed, message_interrupted, update_message;
    simpl; rewrite ?E1, ?E2; eexists; by split.
Qed.

(** The events that close the last message with [f]. *)
Definition closing_events (complete : bool) (f : MessageProjection -> bool) (p : SessionProjection) : list SemanticEvent :=
  match last_message f p with Some m => [closing complete (mp_message_id m)] | None => [] end.

Lemma does_closing s complete f p : projection_wf p ->
  (forall m, last_message f p = Some m -> mp_completed m || mp_interrupted m = false) ->
  does s (closing_events complete f p) (fun q => q = p) (same_runs p)
    (match last_message f p with Some m => _ ← append s (closing complete (mp_message_id m)); mret () | None => mret () end).
Proof.
  intros Hwf Ho. unfold closing_events. destruct (last_message f p) as [m|] eqn:Hm.
  - apply (does_bind s [closing complete (mp_message_id m)] [] _ (same_runs p)); [|intros; apply does_ret]. apply does_append. intros i q _ ->.
    by eapply closing_apply; [|exact Hm|apply Ho].
  - eapply does_weaken; [apply does_ret|]. by intros q ->.
Qed.

Lemma does_complete_message s f p : projection_wf p ->
  (forall m, last_message f p = Some m -> mp_completed m || mp_interrupted m = false) ->
  does s (closing_events true f p) (fun q => q = p) (same_runs p) (complete_message s f).
Proof. intros Hwf Ho. apply does_read. intros q _ ->. by apply (does_closing s true). Qed.

Lemma does_interrupt_message s p : projection_wf p ->
  does s (closing_events false open_assistant p) (fun q => q = p) (same_runs p) (interrupt_message s).
Proof.
  intros Hwf. apply does_read. intros q _ ->. apply (does_closing s false); [done|].
  intros m (Ho & _)%last_message_found; [|done]. by apply open_assistant_open.
Qed.

(** The run after the turn. *)
Definition ended (result : ExecutionResult) (run : RunProjection) : RunProjection :=
  match result with
  | CompletedWithUsage usage => set_usage usage (set_error None (set_status RCompleted run))
  | ExecCancelled => set_error None (set_status RCancelled run)
  | ExecInterrupted => set_error (Some "server_shutdown") (set_status RInterrupted run)
  | Provider.Failed error _ => set_error (Some (failure_text error)) (set_status RFailed run)
  | Completed | RequiresAction => run
  end.

(** The event that ends the run, and the phase the session moves to with its reason. *)
Definition end_event (run_id : string) (result : ExecutionResult) : option SemanticEvent :=
  match result with
  | CompletedWithUsage usage => Some (RunCompleted run_id usage)
  | ExecCancelled => Some (RunCancelled run_id (Some "cancelled_by_user"))
  | ExecInterrupted => Some (RunInterrupted run_id "server_shutdown")
  | Provider.Failed error _ => Some (RunFailed run_id (failure_text error))
  | Completed | RequiresAction => None
  end.
Definition end_phase (result : ExecutionResult) : option (SessionPhase * string) :=
  match result with
  | ExecCancelled => Some (Interrupted, "run_cancelled")
  | ExecInterrupted => Some (Interrupted, "server_shutdown")
  | RequiresAction => Some (Interrupted, "requires_action")
  | Provider.Failed _ _ => Some (Failed, "run_failed")
  | Completed | CompletedWithUsage _ => None
  end.

(** What is recorded: the last assistant message is closed, the run ends, the
    phase changes. *)
Definition end_message (p : SessionProjection) (result : ExecutionResult) : list SemanticEvent :=
  match result with
  | Completed => []
  | CompletedWithUsage _ => closing_events true uncompleted_assistant p
  | RequiresAction => closing_events true open_assistant p
  | _ => closing_events false open_assistant p
  end.
Definition phase_event (next : option (SessionPhase * string)) : list SemanticEvent :=
  match next with Some (to, reason) => [SessionPhaseChanged Running to (Some reason)] | None => [] end.

Lemma end_apply result run_id p q i run e : same_runs p q -> sp_runs p !! run_id = Some run ->
  terminal (rp_status run) = false -> end_event run_id result = Some e ->
  exists p', try_apply i e q = Ok p' /\ sp_runs p' = <[run_id := ended result run]> (sp_runs p)
    /\ ss_phase (sp_state p') = ss_phase (sp_state p).
Proof.
  intros [Hr Hp _] Hrun Ht. assert (rp_status run ∈ [RQueued; RRunning; RRequiresAction]) as Hin
    by (destruct (rp_status run); set_solver).
  destruct result; intros [= <-]; unfold try_apply, apply; simpl;
    unfold run_completed, run_cancelled, run_interrupted, run_failed, set_run_terminal, update_run, update_entry; simpl;
    rewrite Hr, Hrun; simpl; rewrite bool_decide_eq_true_2 by done; simpl; rewrite ?lookup_insert_eq; simpl;
    eexists; (split_and!; [done|by rewrite ?insert_insert_eq|done]).
Qed.

(** The run ended, the phase moved. *)
Record turn_over (run_id : string) (result : ExecutionResult) (run : RunProjection) (p p' : SessionProjection) : Prop := {
  to_runs : sp_runs p' = <[run_id := ended result run]> (sp_runs p);
  to_phase : ss_phase (sp_state p') = default (ss_phase (sp_state p)) (fst <$> end_phase result) }.

Lemma does_end s run_id result p run e : sp_runs p !! run_id = Some run -> terminal (rp_status run) = false ->
  end_event run_id result = Some e ->
  does s [e] (same_runs p) (fun q => sp_runs q = <[run_id := ended result run]> (sp_runs p)
                                     /\ ss_phase (sp_state q) = ss_phase (sp_state p)) (append s e).
Proof. intros Hr Ht He. apply does_append. intros i q _ Hq. by eapply end_apply. Qed.

Lemma does_leave s (P Q : SessionProjection -> Prop) to reason :
  (forall p, P p -> ss_phase (sp_state p) = Running) -> Running ∈ SessionState.allowed_sources to ->
  (forall p p', P p -> sp_runs p' = sp_runs p -> ss_phase (sp_state p') = to -> Q p') ->
  does s [SessionPhaseChanged Running to (Some reason)] P Q (leave_running s to reason).
Proof.
  intros HP Hto HQ. unfold leave_running. apply (does_bind s [SessionPhaseChanged Running to (Some reason)] [] _ Q);
    [|intros; apply does_ret].
  apply does_append. intros i p _ Hp. destruct (phase_apply i p Running to (Some reason) (HP p Hp) Hto) as (p' & Ha & Hph & Hr & _).
  exists p'. split; [done|]. by eapply HQ.
Qed.

Definition end_events (run_id : string) (result : ExecutionResult) (p : SessionProjection) : list SemanticEvent :=
  end_message p result ++ option_list (end_event run_id result) ++ phase_event (end_phase result).

Lemma does_record_result s run_id result p run : projection_wf p ->
  sp_runs p !! run_id = Some run -> terminal (rp_status run) = false -> ss_phase (sp_state p) = Running ->
  (forall m, last_message uncompleted_assistant p = Some m -> mp_interrupted m = false) ->
  does s (end_events run_id result p) (fun q => q = p) (turn_over run_id result run p) (record_result s run_id result).
Proof.
  intros Hwf Hr Ht Hph Ho. unfold end_events.
  assert (Hover : forall to reason, Running ∈ SessionState.allowed_sources to -> end_phase result = Some (to, reason) ->
    does s [SessionPhaseChanged Running to (Some reason)] (fun q => sp_runs q = <[run_id := ended result run]> (sp_runs p)
      /\ ss_phase (sp_state q) = ss_phase (sp_state p)) (turn_over run_id result run p) (leave_running s to reason)).
  { intros to reason Hto He. apply does_leave; [by intros q [_ ->]|done|]. intros q q' [Hq _] Hr' Hp'.
    split; [congruence|by rewrite He]. }
  assert (Hu : forall m, last_message uncompleted_assistant p = Some m -> mp_completed m || mp_interrupted m = false).
  { intros m Hm. pose proof (Ho m Hm) as ->. apply last_message_found in Hm as [Hm _]; [|done].
    apply andb_true_iff in Hm as [_ Hm%negb_true_iff]. by rewrite Hm. }
  assert (Ha : forall m, last_message open_assistant p = Some m -> mp_completed m || mp_interrupted m = false).
  { intros m (Hm & _)%last_message_found; [|done]. by apply open_assistant_open. }
  destruct result as [|usage| | | |error retryable]; simpl end_message; simpl end_event; simpl end_phase; simpl phase_event;
    cbn [record_result option_list app].
  - eapply does_weaken; [apply does_ret|]. intros q ->. split; [by rewrite insert_id|done].
  - apply (does_bind s _ _ _ (same_runs p)); [by apply does_complete_message|intros _].
    apply (does_bind s [RunCompleted run_id usage] [] _ (turn_over run_id (CompletedWithUsage usage) run p));
      [|intros; apply does_ret].
    eapply does_weaken; [by apply (does_end s run_id (CompletedWithUsage usage) p run)|]. intros q [Hq Hp]. by split.
  - apply (does_bind s _ _ _ (same_runs p)); [by apply does_complete_message|intros _].
    apply does_leave; [intros q [_ -> _]; done|set_solver|]. intros q q' [Hq _ _] Hr' Hp'.
    split; [by rewrite Hr', Hq, insert_id|by rewrite Hp'].
  - apply (does_bind s _ _ _ (same_runs p)); [by apply does_interrupt_message|intros _].
    eapply (does_bind s [_] [_]); [by apply (does_end s run_id ExecCancelled p run)|intros _]. apply Hover; [set_solver|done].
  - apply (does_bind s _ _ _ (same_runs p)); [by apply does_interrupt_message|intros _].
    eapply (does_bind s [_] [_]); [by apply (does_end s run_id ExecInterrupted p run)|intros _]. apply Hover; [set_solver|done].
  - apply (does_bind s _ _ _ (same_runs p)); [by apply does_interrupt_message|intros _].
    eapply (does_bind s [_] [_]); [by apply (does_end s run_id (Provider.Failed error retryable) p run)|intros _].
    apply Hover; [set_solver|done].
Qed.

End sequences.

(** C8. The end of a turn.  While a run of a running session has not ended, recording
    the result of its turn succeeds and records exactly this: the last open
    assistant message is completed or interrupted, the run completes with its
    usage, fails with the error, or is cancelled or interrupted, and the session
    leaves its phase for the one that goes with the result, in one sequence of
    events; every other run is as before, and the capacity of a run that ended is
    given back.  A turn that needs action keeps its run and its capacity. *)
Theorem turn_result_is_recorded `{EventCodec} `{Outside} s run_id result p run w w' r :
  hosts s 3 p w -> sp_runs p !! run_id = Some run -> terminal (rp_status run) = false ->
  ss_phase (sp_state p) = Running ->
  (forall m, last_message uncompleted_assistant p = Some m -> mp_interrupted m = false) ->
  record_result s run_id result w = (w', r) ->
  r = Ok ()
  /\ re_event <$> log s (w_store w') = (re_event <$> log s (w_store w)) ++ end_events run_id result p
  /\ (exists p', view s (w_store w') = Some p' /\ sp_runs p' = <[run_id := ended result run]> (sp_runs p)
        /\ ss_phase (sp_state p') = default Running (fst <$> end_phase result))
  /\ as_run_sessions (w_admission w') = match end_event run_id result with
                                        | Some _ => delete run_id (as_run_sessions (w_admission w))
                                        | None => as_run_sessions (w_admission w)
                                        end.
Proof.
  intros Hh Hr Ht Hph Ho Hw. assert (projection_wf p) as Hwf by (eapply view_wf, Hh).
  pose proof (does_record_result s run_id result p run Hwf Hr Ht Hph Ho) as Hd.
  assert (Hn : (length (end_events run_id result p) <= 3)%nat).
  { unfold end_events, end_message, closing_events. destruct result; simpl; repeat case_match; simpl; lia. }
  replace 3%nat with (length (end_events run_id result p) + (3 - length (end_events run_id result p)))%nat in Hh by lia.
  destruct (Hd _ p w Hh Hwf eq_refl) as (w1 & [] & p' & E & [Hcs Hv _] & [Hr' Hp'] & Hl & Ha).
  rewrite Hw in E. injection E as -> ->. split_and!; [done|done| |].
  - exists p'. split_and!; [done|done|]. by rewrite Hp', Hph.
  - rewrite Ha, released_run_sessions. unfold end_events, end_message, closing_events.
    destruct result; simpl; repeat case_match; simpl; done.
Qed.

(** ** The user's message *)

Section input.
  Context `{EventCodec} `{Outside}.

Definition has_message (id : string) (l : list MessageProjection) : bool := existsb (fun m => String.eqb (mp_message_id m) id) l.

Lemma update_last {E} (none : E) f l m m' : has_message (mp_message_id m) l = false -> f m = Ok m' ->
  update_first (fun x => String.eqb (mp_message_id x) (mp_message_id m)) none f (l ++ [m]) = Ok (l ++ [m']).
Proof.
  induction l as [|x l IH]; simpl; intros Hl Hf; [by rewrite String.eqb_refl, Hf|].
  apply orb_false_iff in Hl as [Hx Hl]. rewrite Hx, IH; done.
Qed.

(** A message of the user with [blocks] was added to those of [p]. *)
Definition user_added (p : SessionProjection) (id : string) (blocks : list ContentBlock) (completed : bool) (q : SessionProjection) : Prop :=
  sp_runs q = sp_runs p
  /\ exists i j, sp_messages q = sp_messages p ++ [mkMessage id User None AuthorUser blocks completed false i j].

Lemma update_user_added i e id mark blocks completed blocks' completed' p q :
  has_message id (sp_messages p) = false -> user_added p id blocks completed q -> completed = false ->
  (forall a b, mark (mkMessage id User None AuthorUser blocks false false a b) = mkMessage id User None AuthorUser blocks' completed' false a b) ->
  (e = MessageCompleted id /\ mark = mark_completed \/ exists b, e = MessageContentAppended id b /\ mark = push_block b) ->
  exists q', try_apply i e q = Ok q' /\ user_added p id blocks' completed' q'.
Proof.
  intros Hf [Hr (a & b & Hm)] -> Hmark He.
  assert (Hu : update_first (fun x => String.eqb (mp_message_id x) id) (UnknownMessage id)
    (fun m => _ ← open_message id m; Ok (touch i (mark m))) (sp_messages q)
    = Ok (sp_messages p ++ [mkMessage id User None AuthorUser blocks' completed' false a i])).
  { rewrite Hm. apply (update_last _ _ (sp_messages p) (mkMessage id User None AuthorUser blocks false false a b)); [done|].
    simpl. by rewrite Hmark. }
  destruct He as [[-> ->]|(bl & -> & ->)]; unfold try_apply, apply; simpl;
    unfold message_completed, message_content_appended, update_message; simpl; rewrite Hu; simpl;
    eexists; (split; [done|]); (split; [done|]); by eexists _, _.
Qed.

Definition input_events (id : string) (q : RunRequest) : list SemanticEvent :=
  [MessageStarted id "" User AuthorUser; MessageContentAppended id (input_block q); MessageCompleted id].

Lemma does_input s id q p : has_message id (sp_messages p) = false ->
  does s (input_events id q) (fun p0 => p0 = p) (user_added p id [input_block q] true)
    (_ ← append s (MessageStarted id "" User AuthorUser);
     _ ← append s (MessageContentAppended id (input_block q));
     _ ← append s (MessageCompleted id); mret ()).
Proof.
  intros Hf. apply (does_bind s [_] [_; _] _ (user_added p id [] false)); [|intros _].
  { apply does_append. intros i ? _ ->. unfold try_apply, apply. simpl. unfold message_started. simpl.
    unfold has_message in Hf. rewrite Hf. simpl. eexists. split; [done|]. split; [done|]. by eexists _, _. }
  apply (does_bind s [_] [_] _ (user_added p id [input_block q] false)); [|intros _].
  { apply does_append. intros i p1 _ Hp. eapply (update_user_added i _ id (push_block (input_block q))); eauto. }
  apply (does_bind s [_] [] _ (user_added p id [input_block q] true)); [|intros; apply does_ret].
  apply does_append. intros i p1 _ Hp. eapply (update_user_added i _ id mark_completed); eauto.
Qed.

End input.

(** The user's message.  A turn that starts an assistant message of its own
    records the input of its request as a message of the user, unless the run is
    a retry.  This does not depend on what was recorded before: the turn that
    resumes a run after its tool results records the same message once more, and
    a retry records none, also when the run it repeats was cancelled before it
    started and its input was never recorded. *)
Theorem input_is_recorded_every_turn `{EventCodec} `{Outside} s run q assistant p w w' r :
  hosts s 3 p w -> has_message (uuid (w_ticks w)) (sp_messages p) = false ->
  record_input s run q assistant w = (w', r) ->
  r = Ok ()
  /\ match rp_retry_of run, assistant with
     | None, None =>
       re_event <$> log s (w_store w') = (re_event <$> log s (w_store w)) ++ input_events (uuid (w_ticks w)) q
       /\ exists p', view s (w_store w') = Some p' /\ user_added p (uuid (w_ticks w)) [input_block q] true p'
     | _, _ => w' = w
     end.
Proof.
  intros Hh Hf Hw. unfold record_input in Hw. destruct (rp_retry_of run); [by injection Hw as <- <-|].
  destruct assistant; [by injection Hw as <- <-|]. cbn [bool_decide andb] in Hw. rewrite !bool_decide_eq_true_2 in Hw by done.
  cbn [andb] in Hw.
  rewrite fresh_id_bind in Hw.
  destruct (does_input s (uuid (w_ticks w)) q p Hf 0%nat p (ticked w)) as (w1 & [] & p' & E & [_ Hv _] & Hu & Hl & _);
    [by destruct Hh|eapply view_wf, Hh|done|].
  rewrite Hw in E. injection E as -> ->. eauto.
Qed.

(** The worlds of file Scenario. *)
Lemma scenario_hosts events k :
  is_Some (view "s" (scenario_store events)) -> log_length "s" (scenario_store events) + Z.of_nat k <= i64_max ->
  hosts "s" k (scenario events) (scenario_world events).
Proof. intros [p Hv] Hl. split; simpl; [apply scenario_consistent| |done]. unfold scenario. by rewrite Hv. Qed.
Ltac host_tac := apply scenario_hosts; [by vm_compute; eexists|by vm_compute].

(** A run in its second turn, after the result of its call. *)
Definition resumed_events : list SemanticEvent :=
  [RunQueued "r" None "p" "m" (request_to_value hello);
   SessionPhaseChanged Created Running None; RunStarted "r" "a" 1;
   MessageStarted "m0" "" User AuthorUser; MessageContentAppended "m0" (Text "hello"); MessageCompleted "m0";
   MessageStarted "m1" "assistant" Assistant (AuthorAgent "assistant");
   ToolCallEmitted "r" "m1" "call-1" "assistant" "lookup" JNull "" false;
   MessageCompleted "m1"; RunRequiresAction "r" ["call-1"];
   ToolResult "r" "call-1" "assistant" "lookup" JNull; QueueResumed; RunStarted "r" "a2" 2;
   MessageStarted "m2" "assistant" Assistant (AuthorAgent "assistant")].
Definition resumed_run : RunProjection :=
  mkRun "r" None "p" "m" (request_to_value hello) RRunning (Some "a2") 2 None None 0
    {["call-1" := mkToolCall "call-1" "m1" "assistant" "lookup" JNull "" false None (Some JNull)]}.

Definition user_texts (p : SessionProjection) : list (list ContentBlock) :=
  mp_blocks <$> List.filter (fun m => bool_decide (mp_role m = User)) (sp_messages p).

(** After the second turn has begun, the message is there twice. *)
Lemma input_is_recorded_every_turn_witness : exists w' p',
  record_input (H0 := scripted) "s" resumed_run hello None (scenario_world resumed_events) = (w', Ok ())
  /\ user_texts (scenario resumed_events) = [[Text "hello"]]
  /\ view "s" (w_store w') = Some p' /\ user_texts p' = [[Text "hello"]; [Text "hello"]].
Proof.
  pose proof (input_is_recorded_every_turn (H0 := scripted) "s" resumed_run hello None (scenario resumed_events)
    (scenario_world resumed_events) _ _ ltac:(host_tac) ltac:(vm_compute; reflexivity) ltac:(apply surjective_pairing)) as (Hr & Hq).
  destruct Hq as (_ & p' & Hv & _ & i & j & Hm).
  eexists _, p'. split; [etrans; [apply surjective_pairing|f_equal; exact Hr]|].
  split; [vm_compute; reflexivity|]. split; [exact Hv|]. unfold user_texts. rewrite Hm. vm_compute. reflexivity.
Defined.

Lemma turn_result_is_recorded_witness : exists w' p',
  record_result (H0 := scripted) "s" "r" (Provider.Failed (Message "broken") true) (scenario_world resumed_events) = (w', Ok ())
  /\ end_events (H0 := scripted) "r" (Provider.Failed (Message "broken") true) (scenario resumed_events)
     = [MessageInterrupted "m2"; RunFailed "r" "broken"; SessionPhaseChanged Running Failed (Some "run_failed")]
  /\ view "s" (w_store w') = Some p' /\ ss_phase (sp_state p') = Failed
  /\ sp_runs p' !! "r" = Some (set_error (Some "broken") (set_status RFailed resumed_run)).
Proof.
  destruct (turn_result_is_recorded (H0 := scripted) "s" "r" (Provider.Failed (Message "broken") true) (scenario resumed_events)
    resumed_run (scenario_world resumed_events) _ _ ltac:(host_tac) ltac:(vm_compute; reflexivity) ltac:(reflexivity)
    ltac:(vm_compute; reflexivity) ltac:(vm_compute; intros m Hm; injection Hm as <-; reflexivity)
    ltac:(apply surjective_pairing)) as (Hr & _ & (p' & Hv & Hruns & Hph) & _).
  eexists _, p'. split; [etrans; [apply surjective_pairing|f_equal; exact Hr]|].
  split; [vm_compute; reflexivity|]. split; [exact Hv|]. split; [exact Hph|]. rewrite Hruns. apply lookup_insert_eq.
Defined.
