(* ===== verification/WorkerSpec.v ===== *)
(** Workers end (file Worker): [process_session] is left after at most as many
    nested rounds as its sessions have work (file Workload), so its fuel is no
    restriction. *)

From S2P Require Export Workload TurnFacts.
From S2P Require Import StoreSpec SessionSpec TurnSpec Scenario.
From S2P Require Export Store.
From S2P Require Export World.
Import SessionProjection.

Section relations.
  Context `{EventCodec} `{Outside} (limit : Z).

Definition work_of (s : string) (w : World) : nat :=
  match view s (w_store w) with Some p => work limit p | None => 0 end.

Definition same_setting (w w' : World) : Prop := w_config w' = w_config w /\ w_links w' = w_links w.

(** ** What appending does to the views *)

Lemma appends_views {A} s events (m : M A) w : appends s events m -> consistent (w_store w) ->
  let w' := fst (m w) in
  consistent (w_store w') /\ same_setting w w'
  /\ (forall j, j <> s -> view j (w_store w') = view j (w_store w))
  /\ (view s (w_store w') = view s (w_store w)
      \/ exists p n p', view s (w_store w) = Some p
           /\ try_fold log_step (log_length s (w_store w), p) events = Ok (n, p') /\ view s (w_store w') = Some p').
Proof.
  intros Hm Hcs. destruct (Hm w Hcs) as [[e ->]|(p & n & p' & st & a & Hv & Hf & -> & _ & Hv' & Hcs' & Hfr)]; simpl.
  - split_and!; auto. by split.
  - split_and!; [done|by split|intros j Hj; by apply (view_frame _ _ s j Hcs Hfr)|]. right. by exists p, n, p'.
Qed.

Lemma append_ends s e w : snd (append s e w) <> Err OutOfFuel.
Proof. rewrite append_unfold. by destruct (append_events _ _ _ _) as [st [[|]|]]. Qed.
Lemma append_many_ends s l w : snd (append_many s l w) <> Err OutOfFuel.
Proof.
  unfold append_many, mbind, M_bind, now, tick, on_store. simpl.
  destruct (append_events _ _ _ _) as [st [r|]]; simpl; [|done]. by rewrite each_announce.
Qed.

(** ** No session gets more work *)

Definition lightens (w w' : World) : Prop :=
  consistent (w_store w) ->
  consistent (w_store w') /\ same_setting w w' /\ forall s, (work_of s w' <= work_of s w)%nat.

#[export] Instance lightens_preorder : PreOrder lightens.
Proof.
  split.
  - intros w Hcs. split_and!; [done|by split|intros; lia].
  - intros w1 w2 w3 H12 H23 Hcs. destruct (H12 Hcs) as (Hcs2 & [Hc Hl] & Hw). destruct (H23 Hcs2) as (Hcs3 & [Hc' Hl'] & Hw').
    split_and!; [done|split; congruence|]. intros s. specialize (Hw s). specialize (Hw' s). lia.
Qed.

Lemma projection_same s w : consistent (w_store w) ->
  let w' := fst (read_projection s w) in
  consistent (w_store w') /\ same_setting w w' /\ forall j, view j (w_store w') = view j (w_store w).
Proof.
  intros Hcs. pose proof (projection_consistent (w_store w) s Hcs) as Hc. pose proof (projection_db (w_store w) s) as Hd.
  unfold read_projection, on_store. destruct (projection s (w_store w)) as [st r]. simpl in *.
  split_and!; [done|by split|]. intros j. by apply view_db.
Qed.

#[export] Instance lightens_reads : KeptReads lightens.
Proof.
  split; [apply _| |].
  - intros w w' [[Hc _] Hcf] Hcs. unfold core in Hc. injection Hc as Es El _ _. rewrite Es.
    split_and!; [done|by split|]. intros s. unfold work_of. by rewrite Es.
  - intros s w Hcs. destruct (projection_same s w Hcs) as (Hc & Hs & Hv). split_and!; [done|done|].
    intros j. unfold work_of. by rewrite Hv.
Qed.

Lemma appends_lighten {A} s events (m : M A) : appends s events m -> forallb calm events = true -> keeps lightens m.
Proof.
  intros Hm Hc w Hcs. destruct (appends_views s events m w Hm Hcs) as (Hcs' & Hs & Ho & Hv). split_and!; [done|done|].
  intros j. unfold work_of. destruct (decide (j = s)) as [->|Hj]; [|by rewrite Ho].
  destruct Hv as [->|(p & n & p' & -> & Hf & ->)]; [done|]. by eapply calm_steps.
Qed.

Lemma append_lightens s e : calm e = true -> keeps lightens (append s e).
Proof. intros He. apply (appends_lighten s [e]); [apply append_appends|]. simpl. by rewrite He. Qed.

Lemma append_many_lightens s l : forallb calm l = true -> keeps lightens (append_many s l).
Proof.
  intros Hl. destruct l as [|e l]; [|by apply (appends_lighten s (e :: l)); [apply append_many_appends|]].
  intros w. rewrite append_many_nil. apply kr_core. split; [split; simpl; [done|lia]|done].
Qed.

(** ** A turn keeps its run started *)

Definition in_turn (s r : string) (floor : Z) (w w' : World) : Prop :=
  consistent (w_store w) ->
  consistent (w_store w') /\ same_setting w w' /\ (forall j, j <> s -> (work_of j w' <= work_of j w)%nat)
  /\ forall p, view s (w_store w) = Some p -> started_from floor r p ->
     exists p', view s (w_store w') = Some p' /\ started_from floor r p'
       /\ (other_work limit r p' <= other_work limit r p)%nat.

#[export] Instance in_turn_preorder s r floor : PreOrder (in_turn s r floor).
Proof.
  split.
  - intros w Hcs. split_and!; [done|by split|intros; lia|]. eauto.
  - intros w1 w2 w3 H12 H23 Hcs. destruct (H12 Hcs) as (Hcs2 & [Hc Hl] & Hw & Hp).
    destruct (H23 Hcs2) as (Hcs3 & [Hc' Hl'] & Hw' & Hp'). split_and!; [done|split; congruence| |].
    + intros j Hj. specialize (Hw j Hj). specialize (Hw' j Hj). lia.
    + intros p Hv Hst. destruct (Hp p Hv Hst) as (p2 & Hv2 & Hst2 & Hle). destruct (Hp' p2 Hv2 Hst2) as (p3 & Hv3 & Hst3 & Hle').
      exists p3. split_and!; [done|done|lia].
Qed.

#[export] Instance in_turn_reads s r floor : KeptReads (in_turn s r floor).
Proof.
  split; [apply _| |].
  - intros w w' [[Hc _] Hcf] Hcs. unfold core in Hc. injection Hc as Es El _ _. unfold work_of. rewrite Es.
    split_and!; [done|by split|done|]. eauto.
  - intros j w Hcs. destruct (projection_same j w Hcs) as (Hc & Hs & Hv). unfold work_of.
    split_and!; [done|done|intros k _; by rewrite Hv|]. intros p. rewrite Hv. eauto.
Qed.

(** The numbers of the attempts of a turn are [floor] or more. *)
Definition numbered_from (floor : Z) (run : RunProjection) : Prop :=
  forall k, 1 <= k <= ATTEMPTS -> floor <= u32_add (rp_attempts run) k.

Lemma in_turn_events s run floor : numbered_from floor run ->
  TurnEvents (fun A => @keeps _ (in_turn s (rp_run_id run) floor) A) s run.
Proof.
  intros Hn e He w Hcs. destruct (appends_views s [e] _ w (append_appends s e) Hcs) as (Hcs' & Hs & Ho & Hv).
  split_and!; [done|done|intros j Hj; unfold work_of; by rewrite Ho|].
  intros p Hp Hst. destruct Hv as [Hv|(q & n & q' & Hq & Hf & Hv)]; [exists p; by rewrite Hv|].
  rewrite Hp in Hq. injection Hq as <-. exists q'. split; [done|]. cbn [try_fold] in Hf. unfold log_step in Hf.
  destruct (_ <? _); [done|]. destruct (try_apply _ e p) as [x|] eqn:Ha; [|done]. simplify_eq/=.
  apply and_comm. eapply turn_work; [done| | | |done].
  - by destruct e.
  - by intros id a m ->.
  - intros id a m ->. destruct He as (-> & k & Hk & ->). by split; [|apply Hn].
Qed.

End relations.

(** ** Handlers that end *)

Section ending.
  Context `{EventCodec} `{Outside}.

(** In worlds with [I], [m] keeps [R] and does not run out of fuel. *)
Definition secures (I : World -> Prop) (R : relation World) A (m : M A) : Prop :=
  forall w, I w -> R w (fst (m w)) /\ snd (m w) <> Err OutOfFuel.

(** Keeping a relation wherever [I] holds. *)
Definition under (I : World -> Prop) (R : relation World) (w w' : World) : Prop := I w -> I w' /\ R w w'.

Lemma under_preorder I R `{!PreOrder R} : PreOrder (under I R).
Proof.
  split; [intros w Hw; by split|]. intros w1 w2 w3 H12 H23 H1. destruct (H12 H1) as [H2 HR]. destruct (H23 H2) as [H3 HR'].
  split; [done|by etrans].
Qed.

Lemma read_response_ends s r m ex lt seen rs w : snd (read_response s r m ex lt seen rs w) <> Err OutOfFuel.
Proof.
  unfold read_response. destruct seen as [n|]; [done|]. set (st := if body_stream_mode (ex_body ex) then _ else _).
  destruct (returned st); [done|]. by destruct (flush_rest _ st).
Qed.

Lemma secures_property (I : World -> Prop) R `{!KeptReads R} :
  (forall w w', I w -> R w w' -> I w') -> HandlerProperty (secures I R).
Proof.
  intros HI. assert (Hpre : PreOrder (under I R)) by (apply under_preorder, _).
  assert (Hreads : KeptReads (under I R)).
  { split; [done| |]; [intros w w' Hc Hw|intros s w Hw].
    - pose proof (kr_core (R := R) _ _ Hc). eauto.
    - pose proof (kr_projection (R := R) s w). eauto. }
  split; try (intros; intros w Hw; split; [reflexivity|done]).
  - intros A f Hf w Hw. split; [reflexivity|]. simpl. congruence.
  - intros A r w Hw. split; [reflexivity|]. by destruct r.
  - intros A f w Hw. split; [reflexivity|]. unfold query. simpl. by destruct (f _).
  - intros A B m f Hm Hf w Hw. destruct (Hm w Hw) as [HR He]. unfold mbind, M_bind.
    destruct (m w) as [w1 [a|e]]; simpl in *; [|split; [done|congruence]].
    destruct (Hf a w1) as [HR' He']; [by eapply HI|]. split; [by etrans|done].
  - intros A m Hm w Hw. destruct (Hm w Hw) as [HR He]. unfold try. destruct (m w) as [w1 [a|[]]]; simpl in *; (split; [done|]); done.
  - intros A m Hm w Hw. destruct (Hm w Hw) as [HR He]. unfold within. destruct (m w) as [w1 [a|[]]]; simpl in *; (split; [done|]); done.
  - intros f Hf w Hw. split; [|done]. by apply kr_core.
  - intros w Hw. split; [|done]. apply kr_core. split; [split; simpl; [done|lia]|done].
  - intros s w Hw. split; [apply kr_projection|]. unfold read_projection, on_store.
    by destruct (projection s (w_store w)) as [st []].
  - intros s r m ex lt seen rs Hd w Hw. split; [|apply read_response_ends].
    refine (proj2 (response_kept (under I R) s r m ex lt seen rs _ w Hw)).
    intros d w1 Hw1. destruct (Hd d w1 Hw1) as [HR _]. eauto.
Qed.

Lemma secures_kept I R A (m : M A) : keeps R m -> (forall w, snd (m w) <> Err OutOfFuel) -> secures I R A m.
Proof. intros Hk He w _. by split. Qed.

End ending.

(** ** Workers *)

Section workers.
  Context `{EventCodec} `{Outside} (limit : Z) (ids : list string) (Hroom : limit + ATTEMPTS <= 2 ^ 32).

(** No session may take more than [limit] turns. *)
Definition turns_within (w : World) : Prop :=
  bl_max_model_turns (defaults (w_config w)) <= limit
  /\ forall l, l ∈ w_links w -> max_model_turns (lr_budget l) <= limit.

Definition total_work (w : World) : nat := sum_list ((fun s => work_of limit s w) <$> ids).

(** A worker that has fewer than [n] rounds of work before it. *)
Record ready (n : nat) (w : World) : Prop := {
  rd_store : consistent (w_store w);
  rd_turns : turns_within w;
  rd_ids : forall s, (0 < work_of limit s w)%nat -> s ∈ ids;
  rd_work : (total_work w < n)%nat }.

(** Less work in [s] and no more elsewhere. *)
Definition lowers (s : string) (w w' : World) : Prop :=
  lightens limit w w' /\ (work_of limit s w' < work_of limit s w)%nat.

Lemma lowers_lightens s w1 w2 w3 : consistent (w_store w1) -> lowers s w1 w2 -> lightens limit w2 w3 -> lowers s w1 w3.
Proof.
  intros Hcs [Hl Hw] Hl'. split; [by etrans|]. destruct (Hl Hcs) as (Hcs2 & _). destruct (Hl' Hcs2) as (_ & _ & Hw').
  specialize (Hw' s). lia.
Qed.

Lemma total_le l w w' : (forall s, (work_of limit s w' <= work_of limit s w)%nat) ->
  (sum_list ((fun s => work_of limit s w') <$> l) <= sum_list ((fun s => work_of limit s w) <$> l))%nat.
Proof. intros Hw. induction l as [|s l IH]; [done|]. rewrite !fmap_cons. simpl. specialize (Hw s). lia. Qed.

Lemma total_lt s w w' : s ∈ ids -> (forall s, (work_of limit s w' <= work_of limit s w)%nat) ->
  (work_of limit s w' < work_of limit s w)%nat -> (total_work w' < total_work w)%nat.
Proof.
  intros Hs Hw Hlt. unfold total_work. induction ids as [|x l IH]; [by apply elem_of_nil in Hs|].
  rewrite !fmap_cons. simpl. pose proof (total_le l _ _ Hw). apply elem_of_cons in Hs as [->|Hs]; [lia|].
  specialize (IH Hs). specialize (Hw x). lia.
Qed.

Lemma ready_lightens n w w' : ready n w -> lightens limit w w' -> ready n w'.
Proof.
  intros [Hcs [Hc Hl] Hi Hn] Hw. destruct (Hw Hcs) as (Hcs' & [Ec El] & Hle). split; [done| | |].
  - unfold turns_within. by rewrite Ec, El.
  - intros s Hs. apply Hi. specialize (Hle s). lia.
  - pose proof (total_le ids _ _ Hle). unfold total_work in *. lia.
Qed.

Lemma ready_lowers n s w w' : ready (S n) w -> lowers s w w' -> ready n w'.
Proof.
  intros Hr [Hl Hlt]. destruct (ready_lightens _ _ _ Hr Hl) as [Hcs' Ht Hi _]. split; [done..|].
  destruct (Hl (rd_store _ _ Hr)) as (_ & _ & Hle).
  assert (s ∈ ids) as Hs by (apply (rd_ids _ _ Hr); lia). pose proof (total_lt s _ _ Hs Hle Hlt). pose proof (rd_work _ _ Hr). lia.
Qed.

(** ** A turn *)

(** In the world [w] of a turn the run has less work before it than in [w0]. *)
Record underway (w0 : World) (s r : string) (floor : Z) (w : World) : Prop := {
  uw_store : consistent (w_store w);
  uw_setting : same_setting w0 w;
  uw_others : forall j, j <> s -> (work_of limit j w <= work_of limit j w0)%nat;
  uw_run : exists p, view s (w_store w) = Some p /\ started_from floor r p
             /\ (S (Z.to_nat (limit - floor)) + other_work limit r p < work_of limit s w0)%nat }.

Lemma underway_turn w0 s r floor w w' : underway w0 s r floor w -> in_turn limit s r floor w w' -> underway w0 s r floor w'.
Proof.
  intros [Hcs [Hc Hl] Ho (p & Hv & Hst & Hlt)] Ht. destruct (Ht Hcs) as (Hcs' & [Hc' Hl'] & Ho' & Hp).
  destruct (Hp p Hv Hst) as (p' & Hv' & Hst' & Hle). split; [done|split; congruence| |].
  - intros j Hj. specialize (Ho j Hj). specialize (Ho' j Hj). lia.
  - exists p'. split_and!; [done|done|lia].
Qed.

Lemma underway_lowers w0 s r floor w : underway w0 s r floor w -> lowers s w0 w.
Proof.
  intros [Hcs Hs Ho (p & Hv & Hst & Hlt)]. pose proof (started_work limit _ _ _ Hst) as Hw.
  assert (work_of limit s w < work_of limit s w0)%nat as Hlt' by (unfold work_of at 1; rewrite Hv; lia).
  split; [|done]. intros _. split_and!; [done|done|]. intros j. destruct (decide (j = s)) as [->|Hj]; [lia|by apply Ho].
Qed.

#[local] Instance ready_property n : HandlerProperty (secures (ready n) (lightens limit)).
Proof. apply secures_property; [apply _|apply ready_lightens]. Qed.

#[local] Instance ready_delivery n : DeliveryEvents (secures (ready n) (lightens limit)).
Proof.
  split; intros; apply secures_kept; try (intros; apply append_ends); try (intros; apply append_many_ends).
  - by apply append_lightens.
  - apply append_many_lightens. unfold delivery_events. by case_match.
Qed.

#[local] Instance ends_property s r floor : HandlerProperty (secures (fun _ => True) (in_turn limit s r floor)).
Proof. by apply secures_property; [apply _|]. Qed.

Lemma ends_events s run floor : numbered_from floor run ->
  TurnEvents (secures (fun _ => True) (in_turn limit s (rp_run_id run) floor)) s run.
Proof. intros Hn e He. apply secures_kept; [by apply in_turn_events|intros w; apply append_ends]. Qed.

Lemma turn_lowers process n w0 s run floor w : (forall s, secures (ready n) (lightens limit) _ (process s)) ->
  ready (S n) w0 -> underway w0 s (rp_run_id run) floor w -> numbered_from floor run ->
  lowers s w0 (fst (run_turn process s run w)) /\ snd (run_turn process s run w) <> Err OutOfFuel.
Proof.
  intros Hp Hr Hu Hn. rewrite tool_calls_never_pause. pose proof (ends_events s run floor Hn) as He.
  set (K := secures _ _) in He.
  assert (Hstop : forall w1 e, underway w0 s (rp_run_id run) floor w1 -> e <> OutOfFuel ->
    lowers s w0 w1 /\ @Err Fault () e <> Err OutOfFuel) by (intros w1 e H1 H2; split; [by eapply underway_lowers|congruence]).
  destruct (turn_execute K s run w I) as [Hx Hx']. apply (underway_turn _ _ _ _ _ _ Hu) in Hx.
  destruct (execute_run_with_child_timeout s run w) as [w1 [result|e]] eqn:E;
    [rewrite (bind_Ok _ _ _ _ _ E)|rewrite (bind_Err _ _ _ _ _ E); apply Hstop; [done|by intros ->]].
  destruct (turn_remove_token K (rp_run_id run) w1 I) as [Hy Hy']. apply (underway_turn _ _ _ _ _ _ Hx) in Hy.
  clear E. destruct (remove_token (rp_run_id run) w1) as [w2 [[]|e]] eqn:E;
    [rewrite (bind_Ok _ _ _ _ _ E)|rewrite (bind_Err _ _ _ _ _ E); apply Hstop; [done|by intros ->]].
  destruct (turn_record_result K s run result w2 I) as [Hz Hz']. apply (underway_turn _ _ _ _ _ _ Hy) in Hz.
  clear E. destruct (record_result s (rp_run_id run) result w2) as [w3 [[]|e]] eqn:E;
    [rewrite (bind_Ok _ _ _ _ _ E)|rewrite (bind_Err _ _ _ _ _ E); apply Hstop; [done|by intros ->]].
  apply underway_lowers in Hz. simpl in Hz.
  destruct (turn_deliver (secures (ready n) (lightens limit)) process Hp s (rp_run_id run) w3) as [Hd Hd'];
    [by eapply ready_lowers|]. split; [|done]. eapply lowers_lightens; [apply Hr|done|done].
Qed.

(** ** A round *)

Lemma read_at s w w' p : consistent (w_store w) -> read_projection s w = (w', Ok p) ->
  view s (w_store w) = Some p /\ view s (w_store w') = Some p.
Proof.
  intros Hcs E. pose proof (view_projection (w_store w) s Hcs) as Hp. unfold read_projection, on_store in E.
  destruct (view s (w_store w)) as [q|] eqn:Hv; [|by rewrite Hp in E]. destruct Hp as (c & Ep & _).
  rewrite Ep in E. simplify_eq/=. split; [done|]. by rewrite (proj1 (view_db (w_store w) (mkStore _ c) s eq_refl)).
Qed.

(** Success of an append, with what other sessions see. *)
Lemma append_at s e w w' a : consistent (w_store w) -> append s e w = (w', Ok a) ->
  exists i p p', view s (w_store w) = Some p /\ try_apply i e p = Ok p' /\ view s (w_store w') = Some p'
    /\ consistent (w_store w') /\ same_setting w w' /\ (forall j, j <> s -> view j (w_store w') = view j (w_store w)).
Proof.
  intros Hcs E. destruct (append_inv s e w w' a Hcs E) as (p & p' & Hv & Ha & Hv' & _).
  destruct (appends_views s [e] _ w (append_appends s e) Hcs) as (Hcs' & Hs & Ho & _). rewrite E in *. eauto 10.
Qed.

(** The start of a run that has more than its remaining turns before it. *)
Lemma begin_turn w0 s r id n floor w p run : consistent (w_store w0) -> lightens limit w0 w ->
  view s (w_store w) = Some p -> sp_runs p !! r = Some run -> floor <= n ->
  (S (Z.to_nat (limit - floor)) < run_work limit run)%nat ->
  (exists e, append s (RunStarted r id n) w = (ticked w, Err (Fail e)))
  \/ exists w' a, append s (RunStarted r id n) w = (w', Ok a) /\ underway w0 s r floor w'.
Proof.
  intros Hcs0 Hl Hv Hr Hn Hlt. destruct (Hl Hcs0) as (Hcs & [Ec El] & Hle).
  destruct (append_appends s (RunStarted r id n) w Hcs) as [|(_ & _ & _ & st & a & _ & _ & E & _)]; [by left|right].
  eexists _, a. split; [exact E|]. destruct (append_at _ _ _ _ _ Hcs E) as (i & q & p' & Hv' & Ha & Hp' & Hcs' & [Ec' El'] & Ho).
  rewrite Hv in Hv'. injection Hv' as <-. destruct (run_started_from _ _ _ _ _ _ Ha) as [Hst Hw]. split; [done|split; congruence| |].
  - intros j Hj. unfold work_of at 1. rewrite Ho by done. apply Hle.
  - exists p'. split_and!; [done| |].
    + destruct Hst as (x & Hx & Hq & Hf). exists x. split_and!; [done|done|]. destruct Hf; [by left|right; lia].
    + specialize (Hw limit). specialize (Hle s). unfold work_of at 1 in Hle. rewrite Hv, (work_split _ _ _ _ Hr) in Hle. lia.
Qed.

(** The bound that [max_turns] finds. *)
Lemma max_turns_at s w : turns_within w -> exists r, max_turns s w = (w, r) /\ r <> Err OutOfFuel
  /\ forall n, r = Ok n -> n <= limit.
Proof.
  intros [Hc Hl]. unfold max_turns, child_budget, agent_links, mbind, M_bind, query, gets.
  destruct (ensure_session _ _) as [[]|e]; simpl; [|by eexists]. unfold child_link.
  destruct (List.find _ (sort_by _ _)) as [l|] eqn:Hf; simpl; (eexists; split_and!; [done|done|intros n [= <-]; try done]).
  apply find_some in Hf as [Hf%list_elem_of_In _]. apply Hl. rewrite elem_of_sort_by in Hf.
  apply list_elem_of_In in Hf. apply filter_In in Hf as [Hf _]. by apply list_elem_of_In.
Qed.

Lemma work_of_view s w p : view s (w_store w) = Some p -> work_of limit s w = work limit p.
Proof. unfold work_of. by intros ->. Qed.

(** What a round comes to, from [w0]. *)
Definition rounded {A} (w0 : World) (again : A -> Prop) (x : World * result Fault A) : Prop :=
  lightens limit w0 (fst x) /\ snd x <> Err OutOfFuel
  /\ forall a, snd x = Ok a -> again a -> exists s, lowers s w0 (fst x).

Lemma rounded_bind {A B} w0 (m : M A) (k : A -> M B) (Q : B -> Prop) w :
  lightens limit w0 (fst (m w)) -> snd (m w) <> Err OutOfFuel ->
  (forall w' a, m w = (w', Ok a) -> rounded w0 Q (k a w')) -> rounded w0 Q ((a ← m; k a) w).
Proof.
  intros Hl He Hk. unfold mbind, M_bind. destruct (m w) as [w' [a|e]]; [by apply Hk|].
  split_and!; [done| |done]. simpl in *. congruence.
Qed.

Lemma rounded_end {A B} w0 (m : M A) (b : B) s w : lowers s w0 (fst (m w)) -> snd (m w) <> Err OutOfFuel ->
  rounded w0 (fun _ => True) ((_ ← m; mret b) w).
Proof.
  intros Hl He. apply rounded_bind; [apply Hl|done|]. intros w' a E. rewrite E in Hl. split_and!; [apply Hl|done|by exists s].
Qed.

(** Appending an event that gives no work. *)
Lemma rounded_append {B} w0 s e (k : RecordedEvent -> M B) (Q : B -> Prop) w : consistent (w_store w0) ->
  lightens limit w0 w -> calm e = true ->
  (forall w' a, append s e w = (w', Ok a) -> lightens limit w0 w' -> rounded w0 Q (k a w')) ->
  rounded w0 Q ((a ← append s e; k a) w).
Proof.
  intros Hcs Hl He Hk. assert (Hl' : lightens limit w0 (fst (append s e w))) by (etrans; [exact Hl|by apply append_lightens]).
  apply rounded_bind; [done|apply append_ends|]. intros w' a E. rewrite E in Hl'. by apply Hk.
Qed.

Lemma lightens_core w0 w w' : lightens limit w0 w -> same_session_core w w' -> lightens limit w0 w'.
Proof. intros Hl Hc. etrans; [exact Hl|by apply kr_core]. Qed.

Lemma same_ticked w : same_session_core w (ticked w).
Proof. split; [split; simpl; [done|lia]|done]. Qed.

(** The attempts of a run that goes on are numbered higher than before. *)
Lemma continue_numbers a : a < limit ->
  a + 1 <= u32_add a 1 /\ forall k, 1 <= k <= ATTEMPTS -> a + 1 <= u32_add a k.
Proof.
  intros Ha. assert (forall k, 1 <= k <= ATTEMPTS -> a + 1 <= u32_add a k) as Hk; [|split; [apply Hk; unfold ATTEMPTS; lia|done]].
  intros k Hk. unfold u32_add. destruct (Z_lt_le_dec a 0).
  - pose proof (Z.mod_pos_bound (a + k) (2 ^ 32)). lia.
  - rewrite Z.mod_small; lia.
Qed.

Section round.
  Context (process : string -> M ()) (n : nat) (w0 : World).
  Context (Hprocess : forall s, secures (ready n) (lightens limit) _ (process s)) (Hready : ready (S n) w0).

Lemma round_continue s w p run : lightens limit w0 w -> view s (w_store w) = Some p ->
  sp_runs p !! rp_run_id run = Some run -> rp_status run = RRequiresAction ->
  rounded w0 (fun _ => True) ((_ ← continue_run process s run; mret true) w).
Proof.
  intros Hl Hv Hr Hst. pose proof (rd_store _ _ Hready) as Hcs0. destruct (Hl Hcs0) as (Hcs & _ & Hle).
  pose proof (rd_turns _ _ (ready_lightens _ _ _ Hready Hl)) as Ht.
  destruct (max_turns_at s w Ht) as (r & Em & Hm & Hlim). unfold continue_run.
  assert (Hmax : forall B (k : Z -> M B), (a ← max_turns s; k a) w = match r with Ok a => k a w | Err e => (w, Err e) end)
    by (intros B k; unfold mbind, M_bind; rewrite Em; by destruct r).
  rewrite bind_assoc, Hmax. destruct r as [lim|e]; [|split_and!; [done|simpl; congruence|done]].
  specialize (Hlim _ eq_refl). destruct (Z.leb_spec lim (rp_attempts run)) as [Hlim'|Hlim'].
  - rewrite bind_assoc. apply rounded_append; [done|done|done|]. intros w' a E Hl'.
    destruct (append_at _ _ _ _ _ Hcs E) as (i & q & p' & Hv' & Ha & Hp' & _). rewrite Hv in Hv'. injection Hv' as <-.
    split_and!; [done|done|]. intros _ _ _. exists s. split; [done|]. specialize (Hle s). simpl.
    rewrite (work_of_view _ _ _ Hv) in Hle. rewrite (work_of_view _ _ _ Hp').
    pose proof (failed_work limit _ _ _ _ _ _ Ha Hr) as Hw. rewrite Hst in Hw. specialize (Hw eq_refl). lia.
  - rewrite bind_assoc. apply rounded_append; [done|done|done|]. intros w1 a1 E1 Hl1.
    destruct (append_at _ _ _ _ _ Hcs E1) as (i & q & p1 & Hv1 & Ha1 & Hp1 & Hcs1 & _). rewrite Hv in Hv1. injection Hv1 as <-.
    assert (sp_runs p1 !! rp_run_id run = Some run) as Hr1.
    { apply try_apply_inv in Ha1 as (st & _ & Ha1). simpl in Ha1. by injection Ha1 as <-. }
    rewrite bind_assoc. assert (Hl2 : lightens limit w0 (ticked w1)) by (by eapply lightens_core, same_ticked).
    apply rounded_bind; [done|done|]. intros w2 id [= <- <-].
    destruct (continue_numbers (rp_attempts run)) as [Hfl Hnum]; [lia|].
    assert (Hw : (S (Z.to_nat (limit - (rp_attempts run + 1))) < run_work limit run)%nat).
    { unfold run_work. rewrite Hst. lia. }
    rewrite bind_assoc.
    destruct (begin_turn w0 s (rp_run_id run) (uuid (w_ticks w1)) (u32_add (rp_attempts run) 1) (rp_attempts run + 1)
      (ticked w1) p1 run Hcs0 Hl2 Hp1 Hr1 Hfl Hw) as [[e Es]|(w3 & a3 & Es & Hu)].
    + rewrite (bind_Err _ _ _ _ _ Es). split_and!; [|done|done]. eapply lightens_core; [exact Hl2|apply same_ticked].
    + rewrite (bind_Ok _ _ _ _ _ Es), bind_assoc. unfold insert_token. rewrite modify_bind.
      set (w4 := World.set_cancellations _ w3). assert (Hu4 : underway w0 s (rp_run_id run) (rp_attempts run + 1) w4).
      { eapply underway_turn; [exact Hu|apply kr_core]. split; [split; simpl; [done|lia]|done]. }
      destruct (turn_lowers process n w0 s run _ w4 Hprocess Hready Hu4 Hnum) as [Hlo He]. by eapply rounded_end.
Qed.

Lemma round_start s w p run : lightens limit w0 w -> view s (w_store w) = Some p ->
  sp_runs p !! rp_run_id run = Some run -> rp_status run = RQueued ->
  rounded w0 (fun _ => True) ((_ ← start_run process s p run; mret true) w).
Proof.
  intros Hl Hv Hr Hst. pose proof (rd_store _ _ Hready) as Hcs0. unfold start_run. rewrite bind_assoc.
  set (open := if decide _ then _ else _).
  assert (Hopen : lightens limit w0 (fst (open w)) /\ snd (open w) <> Err OutOfFuel
    /\ forall w' a, open w = (w', Ok a) -> exists q, view s (w_store w') = Some q /\ sp_runs q = sp_runs p).
  { unfold open. destruct (decide _); [split_and!; [done|done|intros w' a [= <- _]; eauto]|].
    pose proof (append_lightens limit s (SessionPhaseChanged (ss_phase (sp_state p)) Running (Some "run_started")) eq_refl w) as Hk.
    pose proof (append_ends s (SessionPhaseChanged (ss_phase (sp_state p)) Running (Some "run_started")) w) as He.
    destruct (append s _ w) as [w1 [a1|e]] eqn:E; [rewrite (bind_Ok _ _ _ _ _ E)|rewrite (bind_Err _ _ _ _ _ E)]; simpl in *;
      (split_and!; [by etrans|congruence || done|]); [|done].
    intros w' a [= <- _]. destruct (Hl Hcs0) as (Hcs & _).
    destruct (append_at _ _ _ _ _ Hcs E) as (i & q & p1 & Hv1 & Ha1 & Hp1 & _). rewrite Hv in Hv1. injection Hv1 as <-.
    exists p1. split; [done|]. apply try_apply_inv in Ha1 as (st & _ & Ha1). simpl in Ha1. by injection Ha1 as <-. }
  destruct Hopen as (Hl1 & He1 & Hv1). apply rounded_bind; [done|done|]. intros w1 [] E1. rewrite E1 in Hl1. simpl in Hl1.
  destruct (Hv1 _ _ E1) as (q & Hq & Hrq). rewrite bind_assoc.
  apply rounded_bind; [by eapply lightens_core, same_ticked|done|]. intros w2 id [= <- <-].
  rewrite bind_assoc. unfold insert_token. rewrite modify_bind. set (w3 := World.set_cancellations _ _).
  assert (Hl3 : lightens limit w0 w3) by (eapply lightens_core; [exact Hl1|split; [split; simpl; [done|lia]|done]]).
  rewrite bind_assoc. set (k := u32_add (rp_attempts run) 1).
  assert (Hk : 0 <= k) by (unfold k, u32_add; pose proof (Z.mod_pos_bound (rp_attempts run + 1) (2 ^ 32)); lia).
  assert (Hw : (S (Z.to_nat (limit - 0)) < run_work limit run)%nat) by (unfold run_work; rewrite Hst; lia).
  rewrite <- Hrq in Hr.
  destruct (begin_turn w0 s (rp_run_id run) (uuid (w_ticks w1)) k 0 w3 q run Hcs0 Hl3 Hq Hr Hk Hw) as [[e Es]|(w4 & a4 & Es & Hu)].
  - rewrite (bind_Ok _ _ _ _ _ (try_Fail _ _ _ _ Es)). rewrite bind_assoc. split_and!; [|done|done].
    eapply lightens_core; [exact Hl3|]. split; [split; simpl; [done|lia]|done].
  - rewrite (bind_Ok _ _ _ _ _ (try_Ok _ _ _ _ Es)). set (run1 := set_attempt _ _ run).
    destruct (turn_lowers process n w0 s run1 0 w4 Hprocess Hready Hu) as [Hlo He]; [|by eapply rounded_end].
    intros j _. unfold u32_add. pose proof (Z.mod_pos_bound (rp_attempts run1 + j) (2 ^ 32)). lia.
Qed.

Lemma rounded_false w : lightens limit w0 w -> rounded w0 (fun again => again = true) (mret (M := M) false w).
Proof. intros Hl. split_and!; [done|done|]. by intros a [= <-]. Qed.

Lemma round_done w (m : M ()) : lightens limit w0 w -> keeps (lightens limit) m -> (forall w, snd (m w) <> Err OutOfFuel) ->
  rounded w0 (fun again => again = true) ((_ ← m; mret false) w).
Proof.
  intros Hl Hm He. apply rounded_bind; [etrans; [exact Hl|apply Hm]|apply He|]. intros w' a E.
  specialize (Hm w). rewrite E in Hm.
  apply rounded_false. by etrans.
Qed.

Lemma rounded_true w (m : M bool) : rounded w0 (fun _ => True) (m w) -> rounded w0 (fun again => again = true) (m w).
Proof. intros (Hl & He & Hlo). split_and!; [done|done|]. eauto. Qed.

Lemma round_lowers s : rounded w0 (fun again => again = true) (process_round process s w0).
Proof.
  pose proof (rd_store _ _ Hready) as Hcs0. unfold process_round. rewrite gets_bind.
  destruct (w_shutdown w0); [by apply rounded_false|].
  assert (Hr0 : lightens limit w0 (fst (read_projection s w0))) by apply kr_projection.
  apply rounded_bind; [done|unfold read_projection, on_store; by destruct (projection _ _) as [? []]|].
  intros w p E. rewrite E in Hr0. simpl in Hr0. destruct (read_at _ _ _ _ Hcs0 E) as [_ Hv].
  assert (Hwf : projection_wf p) by (by eapply view_wf). case_match; [by apply rounded_false|].
  destruct (ready_action_run p) as [run|] eqn:Ha.
  - apply find_some in Ha as [Hin [[Hst%bool_decide_eq_true _]%andb_true_iff _]%andb_true_iff].
    apply list_elem_of_In, elem_of_btree_values in Hin as [k Hk]. rewrite <- (run_id_key _ _ _ Hwf Hk) in Hk.
    apply rounded_true. by apply (round_continue s w p).
  - destruct (sp_queue_paused p); [by apply rounded_false|]. destruct (queued_runs p) as [|run l] eqn:Hq.
    + apply (round_done w); [done|case_decide|case_decide]; try done; intros w1.
      * apply (keeps_bind (lightens limit)); [by apply append_lightens|]. intros _. apply (keeps_ret (lightens limit)).
      * unfold leave_running, mbind, M_bind. pose proof (append_ends s (SessionPhaseChanged Running Finished (Some "queue_empty")) w1).
        destruct (append s _ w1) as [? []]; simpl in *; congruence.
    + assert (run ∈ queued_runs p) as Hin by (rewrite Hq; left). unfold queued_runs in Hin.
      rewrite elem_of_sort_by, elem_of_runs_with in Hin by done. destruct Hin as [Hk Hst%bool_decide_eq_true].
      apply rounded_true. by apply (round_start s w p).
Qed.
End round.

Lemma process_secures n s : secures (ready n) (lightens limit) _ (process_session n s).
Proof.
  revert s. induction n as [|n IH]; intros s w Hr; [pose proof (rd_work _ _ Hr); lia|]. cbn [process_session].
  destruct (round_lowers (process_session n) n w IH Hr s) as (Hl & He & Hlo). unfold mbind, M_bind.
  destruct (process_round (process_session n) s w) as [w1 [[]|e]]; simpl in *; [|done|split; [done|congruence]].
  destruct (Hlo true eq_refl eq_refl) as [j Hj]. destruct (IH s w1) as [Hl' He']; [by eapply ready_lowers|].
  split; [by etrans|done].
Qed.

(** ** Cancellation *)

Lemma agent_links_at s w : exists r, agent_links s w = (w, r) /\ r <> Err OutOfFuel
  /\ forall l links, r = Ok links -> l ∈ links -> l ∈ w_links w.
Proof.
  unfold agent_links, mbind, M_bind, query, gets. destruct (ensure_session _ _) as [[]|e]; simpl; [|by eexists].
  eexists. split_and!; [done|done|]. intros l links [= <-]. rewrite elem_of_sort_by, !list_elem_of_In, filter_In. by intros [].
Qed.

(** Links whose parent is [s] are among the last [d]. *)
Definition links_below (links : list AgentLinkRecord) (s : string) (d : nat) : Prop :=
  forall j l, links !! j = Some l -> lr_parent_session_id l = s -> (length links <= d + j)%nat.

Lemma links_below_child db links d j l : links_wf db links -> links !! j = Some l ->
  links_below links (lr_parent_session_id l) (S d) -> links_below links (lr_child_session_id l) d.
Proof.
  intros Hwf Hj Hd k x Hk Hx. pose proof (lw_order _ _ Hwf j k l x Hj Hk ltac:(congruence)). specialize (Hd j l Hj eq_refl). lia.
Qed.

(** In a world with these links, with fewer than [n] rounds of work. *)
Definition ready_links (links : list AgentLinkRecord) (n : nat) (w : World) : Prop := ready n w /\ w_links w = links.

#[local] Instance ready_links_property links n : HandlerProperty (secures (ready_links links n) (lightens limit)).
Proof.
  apply secures_property; [apply _|]. intros w w' [Hr El] Hl.
  split; [by eapply ready_lightens|]. by destruct (Hl (rd_store _ _ Hr)) as (_ & [_ ->] & _).
Qed.

#[local] Instance ready_links_delivery links n : DeliveryEvents (secures (ready_links links n) (lightens limit)).
Proof.
  split; [intros s id result w [Hr _]|intros s l result all w [Hr _]]; revert Hr; revert w; [apply (de_finished (K := secures (ready n) _))|].
  apply (de_delivery (K := secures (ready n) _)).
Qed.

Lemma cancel_secures db links process n d : links_wf db links -> (forall s, secures (ready n) (lightens limit) _ (process s)) ->
  forall s r, links_below links s d -> secures (ready_links links n) (lightens limit) _ (cancel_run process (S d) s r).
Proof.
  intros Hwf Hp. induction d as [|d IH]; intros s r Hd;
    apply (turn_cancel_run (secures (ready_links links n) (lightens limit)) process (fun l => l ∈ links));
    try (intros j w [Hr _]; by apply Hp);
    try (intros; apply secures_kept; [by apply append_lightens|intros w; apply append_ends]);
    try (intros B k Hk w [Hr El]; destruct (agent_links_at s w) as (res & Ea & Hne & Hin);
         unfold mbind, M_bind; rewrite Ea; destruct res as [l|e]; [|split; [reflexivity|simpl; congruence]];
         apply Hk; [|done]; apply Forall_forall; intros x Hx; rewrite <- El; by eapply Hin).
  - intros l [j Hj]%list_elem_of_lookup <-. pose proof (Hd j l Hj eq_refl). apply lookup_lt_Some in Hj. lia.
  - intros l [j Hj]%list_elem_of_lookup <-. apply IH. by eapply links_below_child.
Qed.

End workers.

(** ** More fuel changes nothing *)

Section fuel.
  Context `{EventCodec} `{Outside}.

(** [m'] does what [m] does, unless [m] runs out of fuel. *)
Definition extends_run {A} (m m' : M A) : Prop := forall w, snd (m w) <> Err OutOfFuel -> m' w = m w.

Lemma extends_refl {A} (m : M A) : extends_run m m.
Proof. done. Qed.

Lemma extends_bind {A B} (m m' : M A) (k k' : A -> M B) :
  extends_run m m' -> (forall a, extends_run (k a) (k' a)) -> extends_run (a ← m; k a) (a ← m'; k' a).
Proof.
  intros Hm Hk w He. unfold mbind, M_bind in *. rewrite Hm by (destruct (m w) as [w1 [a|[]]]; simpl in *; congruence).
  destruct (m w) as [w1 [a|e]]; [by apply Hk|done].
Qed.

Ltac extends_tac :=
  repeat match goal with
  | |- extends_run ?m ?m => apply extends_refl
  | |- extends_run (mbind _ _) (mbind _ _) => apply extends_bind
  | |- extends_run (match ?x with _ => _ end) _ => destruct x
  | |- forall _, _ => intro
  | |- extends_run _ _ => solve [auto]
  end.

Section nested.
  Context (process process' : string -> M ()) (Hp : forall s, extends_run (process s) (process' s)).

Lemma extends_deliver s r : extends_run (deliver_child_result process s r) (deliver_child_result process' s r).
Proof. unfold deliver_child_result. extends_tac. Qed.

Lemma extends_turn s run : extends_run (run_turn process s run) (run_turn process' s run).
Proof. unfold run_turn, finish_run. extends_tac. apply extends_deliver. Qed.

Lemma extends_round s : extends_run (process_round process s) (process_round process' s).
Proof. unfold process_round, continue_run, start_run. extends_tac; apply extends_turn. Qed.
End nested.

Lemma extends_session n : forall s, extends_run (process_session n s) (process_session (S n) s).
Proof.
  induction n as [|n IH]; intros s; [by intros w|]. cbn [process_session] in IH |- *.
  apply extends_bind; [by apply extends_round|]. intros []; [apply IH|done].
Qed.

Lemma extends_fuel n m s : (n <= m)%nat -> extends_run (process_session n s) (process_session m s).
Proof.
  induction 1 as [|m _ IH]; [done|]. intros w He. rewrite <- (IH w He). apply extends_session. by rewrite (IH w He).
Qed.

(** The work of all sessions. *)
Definition workload (limit : Z) (w : World) : nat :=
  total_work limit (btree_keys (db_sessions (st_db (w_store w)))) w.

End fuel.

Lemma ready_world `{EventCodec} limit w fuel : consistent (w_store w) -> turns_within limit w ->
  (workload limit w < fuel)%nat -> ready limit (btree_keys (db_sessions (st_db (w_store w)))) fuel w.
Proof.
  intros Hcs Ht Hw. split; [done|done| |done]. intros j Hj. apply elem_of_btree_keys. unfold work_of in Hj.
  destruct (view j (w_store w)) as [p|] eqn:Hv; [|lia]. destruct (view_session _ _ _ Hcs Hv) as (row & Hrow & _). by exists row.
Qed.


(** Cancellations end: they go down the links, which are no longer than the depth
    they are given, and then on with the workers of the parents. *)
Theorem cancellations_end `{EventCodec} `{Outside} limit s r w fuel :
  sound w -> turns_within limit w -> limit + ATTEMPTS <= 2 ^ 32 -> (workload limit w < fuel)%nat ->
  snd (Worker.cancel fuel s r w) <> Err OutOfFuel.
Proof.
  intros [Hcs _ _ _ Hwf] Ht Hroom Hw. unfold Worker.cancel. rewrite gets_bind.
  destruct (cancel_secures limit (btree_keys (db_sessions (st_db (w_store w)))) _ (w_links w) (process_session fuel) fuel
    (length (w_links w)) Hwf (process_secures limit _ Hroom fuel) s r ltac:(intros j l _ _; lia) w) as [_ He]; [|done].
  split; [|done]. by apply ready_world.
Qed.

#[local] Existing Instance plain_codec.

(** Two runs wait in the queue. *)
Definition queue_world : World := scenario_world
  [RunQueued "r1" None "p" "m" (request_to_value hello); RunQueued "r2" None "p" "m" (request_to_value hello)].

