(* ===== verification/DelegationSpec.v ===== *)
(** The execution of approved calls (file Delegation): the loop ends, and when it
    ends well, every approved call of the server's own tools has been started; a
    tool that is not available strands its call. *)

From S2P Require Export TurnSpec.
From S2P Require Import StoreSpec SessionSpec.
From S2P Require Export Store.
From S2P Require Export World.
Import SessionProjection.

(** ** Calls that were not started *)

Definition unstarted (p : SessionProjection) (run_id : string) : gset string :=
  match sp_runs p !! run_id with
  | Some run => dom (filter (fun kc => tc_execution_id kc.2 = None) (rp_tool_calls run))
  | None => ∅
  end.

Lemma elem_of_unstarted p r k : k ∈ unstarted p r <->
  exists run c, sp_runs p !! r = Some run /\ rp_tool_calls run !! k = Some c /\ tc_execution_id c = None.
Proof.
  unfold unstarted. destruct (sp_runs p !! r) as [run|]; [|set_solver].
  rewrite elem_of_dom. split.
  - intros [c [Hc He]%map_lookup_filter_Some]. by exists run, c.
  - intros (run' & c & [= <-] & Hc & He). exists c. by apply map_lookup_filter_Some.
Qed.

Lemma same_runs_unstarted p p' r : sp_runs p' = sp_runs p -> unstarted p' r ⊆ unstarted p r.
Proof. unfold unstarted. by intros ->. Qed.

(** Changes to a run that start no new call. *)
Definition settles (f : RunProjection -> result ProjectionError RunProjection) : Prop :=
  forall x x' k c', f x = Ok x' -> rp_tool_calls x' !! k = Some c' -> tc_execution_id c' = None ->
    exists c, rp_tool_calls x !! k = Some c /\ tc_execution_id c = None.

Lemma same_calls_settles f : (forall x x', f x = Ok x' -> rp_tool_calls x' = rp_tool_calls x) -> settles f.
Proof. intros Hf x x' k c' Hx Hk He. rewrite (Hf _ _ Hx) in Hk. eauto. Qed.

Lemma update_run_unstarted id f p p' r : settles f -> update_run id f p = Ok p' -> unstarted p' r ⊆ unstarted p r.
Proof.
  intros Hf (x & x' & Hx & Hfx & ->)%update_run_Ok k. rewrite !elem_of_unstarted. simpl.
  intros (run & c & Hr & Hc & He). destruct (decide (id = r)) as [->|Hne].
  - rewrite lookup_insert_eq in Hr. injection Hr as <-. destruct (Hf x x' k c Hfx Hc He) as (c0 & ? & ?). by exists x, c0.
  - rewrite lookup_insert_ne in Hr by done. by exists run, c.
Qed.

Lemma update_call_unstarted id call_id f p p' r :
  (forall c c', f c = Ok c' -> tc_execution_id c' = None -> tc_execution_id c = None) ->
  update_call id call_id f p = Ok p' -> unstarted p' r ⊆ unstarted p r.
Proof.
  intros Hf. apply update_run_unstarted. intros x x' k c' Hx Hk He. inv_ok.
  apply update_entry_Ok in Heqr0 as (v & v' & Hv & Hfv & ->). simpl in Hk.
  destruct (decide (call_id = k)) as [->|Hne].
  - rewrite lookup_insert_eq in Hk. injection Hk as <-. eauto.
  - rewrite lookup_insert_ne in Hk by done. eauto.
Qed.

Lemma run_queued_unstarted id o pr m q p p' r : run_queued id o pr m q p = Ok p' -> unstarted p' r ⊆ unstarted p r.
Proof.
  unfold run_queued. case_bool_decide; [done|]. intros [= <-] k. rewrite !elem_of_unstarted. simpl.
  intros (run & c & Hr & Hc & He). destruct (decide (id = r)) as [->|Hne].
  - rewrite lookup_insert_eq in Hr. by injection Hr as <-.
  - rewrite lookup_insert_ne in Hr by done. by exists run, c.
Qed.

Lemma set_run_terminal_unstarted id s e p p' r : set_run_terminal id s e p = Ok p' -> unstarted p' r ⊆ unstarted p r.
Proof. apply update_run_unstarted, same_calls_settles. intros x x'. by case_bool_decide; intros; simplify_eq/=. Qed.

Lemma end_run_unstarted id s e b p p' r :
  (p1 ← set_run_terminal id s e p; Ok (set_queue_paused b p1)) = Ok p' -> unstarted p' r ⊆ unstarted p r.
Proof. intros H. inv_ok. exact (set_run_terminal_unstarted _ _ _ _ _ r Heqr0). Qed.

Lemma run_usage_unstarted id u p p' r : run_completed id u p = Ok p' -> unstarted p' r ⊆ unstarted p r.
Proof.
  unfold run_completed. intros H. inv_ok. etrans; [|exact (set_run_terminal_unstarted _ _ _ _ _ r Heqr0)].
  revert H. apply update_run_unstarted, same_calls_settles. intros x x'. by intros; simplify_eq/=.
Qed.

Definition adds_call (e : SemanticEvent) : bool :=
  match e with ToolCallEmitted _ _ _ _ _ _ _ _ => true | _ => false end.

Lemma quiet_adds e : emits e = false -> adds_call e = false.
Proof. by destruct e. Qed.
Lemma quiet_add_all l : existsb emits l = false -> existsb adds_call l = false.
Proof. induction l as [|e l IH]; simpl; [done|]. intros [He Hl]%orb_false_iff. by rewrite (quiet_adds _ He), IH. Qed.

(** Only a response adds calls, and a call that was started stays started. *)
Lemma project_event_unstarted i ev p p' r : adds_call ev = false ->
  project_event i ev p = (p', None) -> unstarted p' r ⊆ unstarted p r.
Proof.
  intros He H. destruct ev; try discriminate He; simpl in H; rewrite ?leave_Ok in H;
    try (injection H as <-; reflexivity);
    try (apply same_runs_unstarted; eapply update_message_runs; exact H);
    try (apply same_runs_unstarted; eapply update_instance_runs; exact H);
    try (by eapply end_run_unstarted);
    try (by eapply run_queued_unstarted); try (by eapply run_usage_unstarted).
  - apply same_runs_unstarted. unfold message_started in H. by destruct (existsb _ _); simplify_eq.
  - unfold run_started in H. inv_ok. refine (update_run_unstarted _ _ _ _ r (same_calls_settles _ _) Heqr0).
    intros x x'. by case_bool_decide; intros; simplify_eq/=.
  - revert H. apply update_run_unstarted, same_calls_settles. intros x x'. by case_bool_decide; intros; simplify_eq/=.
  - revert H. apply update_run_unstarted, same_calls_settles. intros x x'. by intros; simplify_eq/=.
  - unfold run_requires_action in H. inv_ok. refine (update_run_unstarted _ _ _ _ r (same_calls_settles _ _) Heqr0).
    intros x x'. by case_bool_decide; intros; simplify_eq/=.
  - revert H. apply update_call_unstarted. intros c c' Hc Hn. destruct (negb _); [done|].
    destruct (tc_execution_id c) as [e0|] eqn:E0; [|done]. destruct (decide _); congruence.
  - revert H. apply update_call_unstarted. intros c c' Hc Hn. destruct (tc_result c); [destruct (decide _); congruence|].
    by injection Hc as <-.
  - apply same_runs_unstarted. unfold permission_requested in H. by case_bool_decide; simplify_eq.
  - apply same_runs_unstarted. unfold permission_resolved in H. by inv_ok.
  - apply same_runs_unstarted. unfold agent_spawned in H. apply leave_Ok in H. by case_bool_decide; simplify_eq.
  - apply same_runs_unstarted. unfold agent_finished in H. apply leave_Ok in H. by apply update_instance_runs in H.
  - injection H as <-. apply same_runs_unstarted. unfold context_fact_recorded. by case_match.
Qed.

Lemma log_steps_unstarted events r : forall n p m p', existsb adds_call events = false ->
  try_fold log_step (n, p) events = Ok (m, p') -> unstarted p' r ⊆ unstarted p r.
Proof.
  induction events as [|e l IH]; intros n p m p' He Hf.
  - simpl in Hf. by injection Hf as <- <-.
  - apply orb_false_iff in He as [He Hl]. cbn [try_fold] in Hf. unfold log_step at 2 in Hf.
    destruct (_ <? _); [done|]. destruct (try_apply (n + 1) e p) as [p1|] eqn:Ha; [|done]. simpl in Hf.
    etrans; [by eapply IH|]. apply try_apply_inv in Ha as (st & _ & Ha).
    exact (project_event_unstarted _ _ (set_state st p) p1 r He Ha).
Qed.

(** ** The relation between the worlds before and after *)

Section steady.
  Context `{EventCodec} `{Outside} (session_id run_id : string).

(** No call of the run was added to those that were not started. *)
Definition steady (w w' : World) : Prop := forall p,
  consistent (w_store w) -> view session_id (w_store w) = Some p ->
  consistent (w_store w') /\ exists p', view session_id (w_store w') = Some p'
    /\ unstarted p' run_id ⊆ unstarted p run_id.

#[local] Instance steady_preorder : PreOrder steady.
Proof.
  split; [intros w p Hcs Hv; eauto|]. intros w1 w2 w3 H12 H23 p Hcs Hv.
  destruct (H12 p Hcs Hv) as (Hcs2 & p2 & Hv2 & Hu). destruct (H23 p2 Hcs2 Hv2) as (Hcs3 & p3 & Hv3 & Hu3).
  split; [done|]. exists p3. split; [done|by etrans].
Qed.

Lemma steady_store w w' : w_store w' = w_store w -> steady w w'.
Proof. intros E p Hcs Hv. rewrite E. eauto. Qed.

Lemma appends_steady {A} s events (m : M A) : existsb adds_call events = false -> appends s events m -> keeps steady m.
Proof.
  intros He Hm w p Hcs Hv. destruct (Hm w Hcs) as [[e ->]|(q & n & q' & st & a & Hq & Hf & -> & _ & Hq' & Hcs' & Hfr)];
    simpl; [eauto|]. split; [done|]. destruct (decide (session_id = s)) as [<-|Hne].
  - exists q'. split; [done|]. rewrite Hv in Hq. injection Hq as <-. by eapply log_steps_unstarted.
  - exists p. split; [|done]. by rewrite (proj1 (view_frame _ _ _ _ Hcs Hfr Hne)).
Qed.

Lemma append_steady s e : adds_call e = false -> keeps steady (append s e).
Proof. intros He. apply (appends_steady s [e]); [simpl; by rewrite He|apply append_appends]. Qed.

Lemma append_many_steady s events : existsb adds_call events = false -> keeps steady (append_many s events).
Proof.
  destruct events as [|e l]; [|intros He; by eapply appends_steady, append_many_appends].
  intros _ w. rewrite append_many_nil. by apply steady_store.
Qed.

Lemma projection_steady s : keeps steady (read_projection s).
Proof.
  intros w p Hcs Hv. pose proof (projection_db (w_store w) s) as Hdb.
  pose proof (projection_consistent (w_store w) s Hcs) as Hcs'.
  unfold read_projection, on_store. destruct (projection s (w_store w)) as [st r]. simpl in *. split; [done|].
  exists p. split; [|done]. by rewrite (proj1 (view_db _ _ _ Hdb)).
Qed.

Lemma admitted_steady {A} r (m : M A) : keeps steady m -> keeps steady (admitted r m).
Proof. intros Hm. unfold admitted. keeps_tac. intros w. by apply steady_store. Qed.

Lemma fresh_id_steady : keeps steady fresh_id.
Proof. intros w. by apply steady_store. Qed.

Lemma reserve_steady {B} s r (k : () -> M B) : keeps steady (k tt) -> keeps steady (u ← reserve s r; k u).
Proof.
  intros Hk w. unfold mbind, M_bind, reserve. destruct (AdmissionController.reserve _ _ _ _) as [a|e]; [|by apply steady_store].
  simpl. etrans; [|apply Hk]. by apply steady_store.
Qed.

Lemma create_session_steady i n t pid h : keeps steady (on_store (create_session i n t pid h)).
Proof.
  intros w p Hcs Hv. pose proof (create_consistent _ i n t pid h Hcs) as Hcs'.
  pose proof (create_session_frame i n t pid h _ Hcs) as [Hf He].
  assert (w_store (fst (on_store (create_session i n t pid h) w)) = fst (create_session i n t pid h (w_store w))) as ->.
  { unfold on_store. by destruct (create_session _ _ _ _ _ _). }
  split; [done|]. exists p. split; [|done]. destruct (decide (session_id = i)) as [<-|Hne].
  - rewrite He; [done|]. destruct (view_session _ _ _ Hcs Hv) as (row & -> & _). by eexists.
  - by rewrite (proj1 (view_frame _ _ _ _ Hcs Hf Hne)).
Qed.

#[export] Instance steady_primitives : KeptPrimitives steady.
Proof.
  split.
  - apply _.
  - intros w w' [Hc _]. apply steady_store. by injection Hc as -> _ _ _.
  - apply projection_steady.
  - intros s e He. by apply append_steady, quiet_adds.
  - intros s l Hl. by apply append_many_steady, quiet_add_all.
  - intros s pr m q. unfold admit_new. apply (keeps_bind steady); [apply fresh_id_steady|intros r].
    apply reserve_steady, (keeps_bind steady); [|intros _; apply (keeps_ret steady)].
    apply admitted_steady, (appends_steady s [RunQueued r None pr m q]); [done|apply append_appends].
  - intros s o pr m q w p0 _. revert w. change (keeps steady (admit_retry s o pr m q)). unfold admit_retry.
    apply (keeps_bind steady); [apply fresh_id_steady|intros r]. apply reserve_steady, (keeps_bind steady);
      [apply projection_steady|intros p]. apply (keeps_bind steady); [|intros _; apply (keeps_ret steady)].
    apply admitted_steady, append_many_steady. simpl. by case_match.
  - intros s p run w _ _. revert w. change (keeps steady (start_next s p run)). unfold start_next. keeps_tac;
      first [by apply append_steady|by apply fresh_id_steady|intros w; by apply steady_store].
  - intros s p run w _ _. revert w. change (keeps steady (start_again s run)). unfold start_again. keeps_tac;
      first [by apply append_steady|by apply fresh_id_steady].
  - apply create_session_steady.
  - intros parent title record _. unfold link_child. apply (keeps_bind steady); [apply (keeps_query steady)|intros [? row]].
    do 2 (apply (keeps_bind steady); [intros w; by apply steady_store|intro]).
    apply (keeps_bind steady); [apply create_session_steady|intros [child ?]].
    do 3 (apply (keeps_bind steady); [intros w; by apply steady_store|intro]).
    apply (keeps_bind steady); [|intro; apply (keeps_ret steady)].
    intros w. unfold create_agent_link. case_match; by apply steady_store.
Qed.

End steady.

(** ** Operations that need no fuel *)

Section fuel.
  Context `{EventCodec} `{Outside}.

Definition fueled {A} (m : M A) : Prop := forall w, snd (m w) <> Err OutOfFuel.

Lemma fueled_bind {A B} (m : M A) (k : A -> M B) : fueled m -> (forall a, fueled (k a)) -> fueled (a ← m; k a).
Proof.
  intros Hm Hk w. specialize (Hm w). unfold mbind, M_bind. destruct (m w) as [w' [a|e]]; [apply Hk|].
  simpl in *. congruence.
Qed.
Lemma fueled_try {A} (m : M A) : fueled m -> fueled (try m).
Proof. intros Hm w. specialize (Hm w). unfold try. by destruct (m w) as [w' [a|[]]]. Qed.
Lemma fueled_lift {A} (r : result StoreError A) : fueled (lift r).
Proof. intros w. by destruct r. Qed.
Lemma fueled_query {A} (f : database -> result StoreError A) : fueled (query f).
Proof. intros w. unfold query. simpl. by destruct (f _). Qed.
Lemma fueled_on_store {A} (f : SqliteStore -> SqliteStore * result StoreError A) : fueled (on_store f).
Proof. intros w. unfold on_store. by destruct (f (w_store w)) as [s []]. Qed.
Lemma fueled_announce e : fueled (announce e).
Proof. intros w. by rewrite announce_eq. Qed.
Lemma fueled_announcements l : fueled (each announce l).
Proof. intros w. by rewrite each_announce. Qed.
Lemma fueled_create_agent_link l : fueled (create_agent_link l).
Proof. intros w. unfold create_agent_link. by case_match. Qed.

Create HintDb fueled.
#[local] Hint Resolve fueled_lift fueled_query fueled_on_store fueled_announce fueled_announcements fueled_create_agent_link : fueled.
#[local] Hint Extern 0 (fueled _) => by intros w : fueled.

Ltac fuel_tac :=
  repeat match goal with
  | |- fueled (mbind _ _) => apply fueled_bind
  | |- fueled (try _) => apply fueled_try
  | |- fueled (match _ with _ => _ end) => case_match
  | |- forall _, _ => intro
  | |- fueled _ => solve [eauto 2 with fueled]
  end.

Lemma fueled_append_many s l : fueled (append_many s l).
Proof. unfold append_many, now. fuel_tac. Qed.
Lemma fueled_append s e : fueled (append s e).
Proof. unfold append, now. fuel_tac. Qed.
#[local] Hint Resolve fueled_append fueled_append_many : fueled.
Lemma fueled_projection s : fueled (read_projection s).
Proof. apply fueled_on_store. Qed.
Lemma fueled_agent_links s : fueled (agent_links s).
Proof. unfold agent_links. fuel_tac. Qed.
Lemma fueled_resolve n : fueled (Supervisor.resolve n).
Proof. unfold Supervisor.resolve. fuel_tac. Qed.
#[local] Hint Resolve fueled_projection fueled_agent_links fueled_resolve : fueled.
Lemma fueled_plan s r v : fueled (plan_delegation s r v).
Proof. unfold plan_delegation, parse_request, run_of. fuel_tac. Qed.
#[local] Hint Resolve fueled_plan : fueled.
Lemma fueled_spawn s r c a v : fueled (spawn_delegated_child s r c a v).
Proof. unfold spawn_delegated_child, fresh_id, now. fuel_tac. Qed.
Lemma fueled_run_native p t v : fueled (run_native p t v).
Proof. unfold run_native, fresh_id. fuel_tac. Qed.
Lemma fueled_run_mcp t v : fueled (run_mcp t v).
Proof. unfold run_mcp. fuel_tac. Qed.
#[local] Hint Resolve fueled_spawn fueled_run_native fueled_run_mcp : fueled.
Lemma fueled_execute_call s r p c : fueled (execute_call s r p c).
Proof. unfold execute_call, fresh_id. fuel_tac. Qed.
Lemma fueled_resume_if_ready s r : fueled (resume_if_tool_results_ready s r).
Proof. unfold resume_if_tool_results_ready, run_of. fuel_tac. Qed.
Lemma fueled_session_project s : fueled (session_project s).
Proof. unfold session_project. fuel_tac. Qed.

End fuel.

(** ** The loop *)

Section loop.
  Context `{EventCodec} `{Outside}.

Lemma started_unstarted i p p' run_id call_id ex :
  try_apply i (ToolExecutionStarted run_id call_id ex) p = Ok p' -> call_id ∉ unstarted p' run_id.
Proof.
  intros (st & _ & Ha)%try_apply_inv. simpl in Ha. apply leave_Ok in Ha. unfold tool_execution_started in Ha.
  apply update_run_Ok in Ha as (x & x' & Hx & Hf & ->). rewrite elem_of_unstarted. simpl. rewrite lookup_insert_eq.
  intros (? & c & [= <-] & Hc & He). inv_ok. apply update_entry_Ok in Heqr as (v & v' & _ & Hfv & ->). simpl in Hc.
  rewrite lookup_insert_eq in Hc. injection Hc as <-. destruct (negb _); [done|].
  destruct (tc_execution_id v) eqn:Ev; [|by injection Hfv as <-]. destruct (decide _); [|done]. congruence.
Qed.

Lemma next_unstarted p run_id run c : projection_wf p -> sp_runs p !! run_id = Some run ->
  next_native_call p run_id run = Some c -> tc_call_id c ∈ unstarted p run_id.
Proof.
  intros Hwf Hr [Hin Hc]%find_some. apply list_elem_of_In, elem_of_btree_values in Hin as [k Hk].
  apply (wf_runs _ Hwf) in Hr as Hrw. destruct Hrw as (_ & _ & _ & _ & _ & Hcalls).
  rewrite elem_of_unstarted. exists run, c. rewrite <- (proj1 (Hcalls k c Hk)) in Hk. split_and!; [done|done|].
  apply andb_prop in Hc as [[_ Hc%negb_true_iff]%andb_prop _]. apply bool_decide_eq_false in Hc.
  destruct (tc_execution_id c); [|done]. by destruct Hc.
Qed.

(** One call: it is started, and no other becomes one that was not. *)
Lemma execute_call_progress s run_id project c w p w' : consistent (w_store w) -> view s (w_store w) = Some p ->
  tc_call_id c ∈ unstarted p run_id -> execute_call s run_id project c w = (w', Ok ()) ->
  consistent (w_store w') /\ exists p', view s (w_store w') = Some p' /\ unstarted p' run_id ⊂ unstarted p run_id.
Proof.
  intros Hcs Hv Hc E. unfold execute_call in E. rewrite fresh_id_bind in E.
  set (event := ToolExecutionStarted run_id (tc_call_id c) (uuid (w_ticks w))) in E.
  destruct (append_appends s event (ticked w) Hcs) as [[e Ea]|(q & n & q' & st & a & Hq & Hf & Ea & _ & Hq' & Hcs' & _)].
  { rewrite (bind_Err _ _ _ _ _ Ea) in E. discriminate. }
  rewrite (bind_Ok _ _ _ _ _ Ea) in E. change (view s (w_store w) = Some q) in Hq. rewrite Hv in Hq. injection Hq as <-.
  match type of E with ?rest _ = _ => assert (keeps (steady s run_id) rest) as Hk end.
  { destruct (String.eqb _ "delegate"); keeps_tac; first [by apply (kp_append (R := steady s run_id))
      | apply keeps_spawn_delegated_child, _ | apply keeps_run_native, _ | apply keeps_run_mcp, _]. }
  destruct (Hk (appended_world s st [event] (ticked w)) q' Hcs' Hq') as (Hcs2 & p' & Hv' & Hsub). rewrite E in Hcs2, Hv'. split; [done|]. exists p'. split; [done|].
  pose proof (log_steps_unstarted [event] run_id _ _ _ _ ltac:(done) Hf) as Hsub'.
  cbn [try_fold] in Hf. unfold log_step in Hf. destruct (_ <? _); [done|].
  destruct (try_apply _ event p) as [p1|] eqn:Hap; [|done]. injection Hf as _ ->.
  apply started_unstarted in Hap. set_solver.
Qed.

(** As much fuel as there are calls that were not started. *)
Lemma execute_approved_ends s run_id project n : forall w, consistent (w_store w) ->
  (forall p, view s (w_store w) = Some p -> (size (unstarted p run_id) <= n)%nat) ->
  snd (execute_approved n s run_id project w) <> Err OutOfFuel
  /\ forall w', execute_approved n s run_id project w = (w', Ok ()) ->
       consistent (w_store w') /\ exists p run, view s (w_store w') = Some p /\ sp_runs p !! run_id = Some run
         /\ next_native_call p run_id run = None.
Proof.
  induction n as [|n IH]; intros w Hcs Hn; pose proof (view_projection (w_store w) s Hcs) as Hp;
    (destruct (view s (w_store w)) as [p|] eqn:Hv;
     [destruct Hp as (c & Ep & Hcs'); assert (read_projection s w = (cached c w, Ok p)) as Er
        by (unfold read_projection, on_store; by rewrite Ep)
     |cbn [execute_approved]; erewrite bind_Err by (unfold read_projection, on_store; by rewrite Hp); done]);
    cbn [execute_approved]; rewrite (bind_Ok _ _ _ _ _ Er); unfold run_of;
    (destruct (sp_runs p !! run_id) as [run|] eqn:Hr; [cbn [ok_or]; rewrite lift_Ok|done]);
    destruct (next_native_call p run_id run) as [call|] eqn:Hc;
    try (split; [done|]; intros w' [= <-]; split; [done|]; by exists p, run);
    pose proof (next_unstarted p run_id run call ltac:(by eapply view_wf) Hr Hc) as Hin;
    specialize (Hn p eq_refl).
  - assert (size (unstarted p run_id) = 0%nat) as Hz%size_empty_inv by lia. set_solver.
  - pose proof (fueled_execute_call s run_id project call (cached c w)) as Hf.
    unfold mbind, M_bind. destruct (execute_call s run_id project call (cached c w)) as [w1 [[]|e]] eqn:E.
    + destruct (execute_call_progress s run_id project call (cached c w) p w1 Hcs' Hv Hin E) as (Hcs1 & p1 & Hv1 & Hsub).
      apply IH; [done|]. intros q Hq. rewrite Hv1 in Hq. injection Hq as <-. apply subset_size in Hsub. lia.
    + split; [simpl in *; congruence|]. by intros.
Qed.

Lemma unstarted_calls p run_id : (size (unstarted p run_id) <= calls_of_run p run_id)%nat.
Proof.
  unfold unstarted, calls_of_run. destruct (sp_runs p !! run_id) as [run|]; [|by rewrite size_empty].
  rewrite size_dom. apply map_subseteq_size, map_filter_subseteq.
Qed.

End loop.

(** A call of the server's own tools that was approved and neither started nor
    answered. *)
Definition waits_for_start (p : SessionProjection) (run_id : string) (call : ToolCallProjection) : Prop :=
  tc_native call = true /\ tc_result call = None /\ tc_execution_id call = None
  /\ exists k q, sp_pending_permissions p !! k = Some q /\ pp_run_id q = run_id
       /\ pp_call_id q = Some (tc_call_id call) /\ pp_decision q = Some Allow.

Lemma next_none p run_id run call : next_native_call p run_id run = None -> call ∈ btree_values (rp_tool_calls run) ->
  ~ waits_for_start p run_id call.
Proof.
  intros Hn Hin (Hnat & Hres & Hex & k & q & Hq & Hrun & Hcall & Hd). apply list_elem_of_In in Hin.
  pose proof (find_none _ _ Hn _ Hin) as Hf. cbv beta in Hf.
  rewrite Hnat, Hres, Hex in Hf. simpl in Hf. apply not_true_iff_false in Hf. apply Hf. unfold approved.
  apply existsb_exists. exists q. split; [apply list_elem_of_In, elem_of_btree_values; eauto|].
  rewrite Hrun, String.eqb_refl, Hcall, Hd. by rewrite !bool_decide_eq_true_2.
Qed.

Lemma session_project_world `{EventCodec} s w : fst (session_project s w) = w.
Proof. symmetry. revert w. change (keeps (=) (session_project s)). unfold session_project. keeps_tac. Qed.

(** The check at the end changes neither runs nor permissions. *)
Lemma resume_if_ready_same `{EventCodec} `{Outside} s run_id w p w' b : consistent (w_store w) ->
  view s (w_store w) = Some p -> resume_if_tool_results_ready s run_id w = (w', Ok b) ->
  exists p', view s (w_store w') = Some p' /\ sp_runs p' = sp_runs p
    /\ sp_pending_permissions p' = sp_pending_permissions p.
Proof.
  intros Hcs Hv E. destruct (view_read s w p Hcs Hv) as (c & Er & Hcs'). unfold resume_if_tool_results_ready in E.
  rewrite (bind_Ok _ _ _ _ _ Er) in E. unfold run_of in E. destruct (sp_runs p !! run_id) as [run|]; [|done].
  cbn [ok_or] in E. rewrite lift_Ok in E. destruct (_ && _); [|injection E as <- _; eauto].
  destruct (append_appends s QueueResumed _ Hcs') as [[e Ea]|(q & n & q' & st & a & Hq & Hf & Ea & _ & Hq' & _)].
  { rewrite (bind_Err _ _ _ _ _ Ea) in E. discriminate. }
  rewrite (bind_Ok _ _ _ _ _ Ea) in E. injection E as <- _. exists q'. split; [done|].
  change (view s (w_store w) = Some q) in Hq. rewrite Hv in Hq. injection Hq as <-.
  cbn [try_fold] in Hf. unfold log_step in Hf. destruct (_ <? _); [done|]. by injection Hf as _ <-.
Qed.

(** C14. Approved calls.  The loop over the approved calls of a run always ends: the
    number of the run's calls is enough fuel, whatever the tools, the servers
    and the child sessions do.  When it ends without an error, no approved call
    of the server's own tools is left that was not started. *)
Theorem approved_calls_are_all_started `{EventCodec} `{Outside} s run_id w :
  consistent (w_store w) ->
  match execute_approved_native_calls s run_id w with
  | (w', Ok _) => exists p run, view s (w_store w') = Some p /\ sp_runs p !! run_id = Some run
      /\ forall call, call ∈ btree_values (rp_tool_calls run) -> ~ waits_for_start p run_id call
  | (_, Err e) => e <> OutOfFuel
  end.
Proof.
  intros Hcs. unfold execute_approved_native_calls, mbind, M_bind.
  pose proof (session_project_world s w) as Ew. pose proof (fueled_session_project s w) as Hf.
  destruct (session_project s w) as [w0 [project|e]]; simpl in Ew, Hf; subst w0; [|congruence].
  destruct (view s (w_store w)) as [p|] eqn:Hv.
  2: { pose proof (view_projection (w_store w) s Hcs) as Hp. rewrite Hv in Hp.
       unfold read_projection, on_store. by rewrite Hp. }
  destruct (view_read s w p Hcs Hv) as (c & -> & Hcs').
  pose proof (execute_approved_ends s run_id project (calls_of_run p run_id) (cached c w) Hcs') as [Hnf Hok].
  { intros q Hq. change (view s (w_store w) = Some q) in Hq. rewrite Hv in Hq. injection Hq as <-. apply unstarted_calls. }
  destruct (execute_approved _ s run_id project (cached c w)) as [w1 [[]|e]]; [|simpl in *; congruence].
  destruct (Hok w1 eq_refl) as (Hcs1 & p1 & run & Hv1 & Hr1 & Hnone).
  pose proof (fueled_resume_if_ready s run_id w1) as Hfr.
  destruct (resume_if_tool_results_ready s run_id w1) as [w2 [b|e]] eqn:E; [|simpl in *; congruence].
  destruct (resume_if_ready_same s run_id w1 p1 w2 b Hcs1 Hv1 E) as (p2 & Hv2 & Hr2 & Hq2).
  exists p2, run. split_and!; [done|congruence|]. intros call Hin (? & ? & ? & k & q & Hk & Hw).
  rewrite Hq2 in Hk. eapply (next_none p1); [done|done|]. split_and!; [done..|]. by exists k, q.
Qed.

(** An approved delegation whose arguments are not understood. *)
Definition delegating_events : list SemanticEvent :=
  [RunQueued "r" None "p" "m" (request_to_value hello);
   SessionPhaseChanged Created Running None; RunStarted "r" "a" 1;
   MessageStarted "m1" "assistant" Assistant (AuthorAgent "assistant");
   ToolCallEmitted "r" "m1" "call-1" "assistant" "delegate" JNull "" true;
   MessageCompleted "m1"; RunRequiresAction "r" ["call-1"];
   PermissionRequested "q" "r" (Some "call-1") "assistant" "delegate" JNull;
   PermissionResolved "q" Allow None None None None;
   SessionPhaseChanged Running Interrupted None].
Definition delegating_call : ToolCallProjection :=
  mkToolCall "call-1" "m1" "assistant" "delegate" JNull "" true None None.

(** The call waits to be started, and afterwards none does. *)
Lemma approved_calls_are_all_started_witness : exists w' p run,
  execute_approved_native_calls (H0 := scripted) "s" "r" (scenario_world delegating_events) = (w', Ok true)
  /\ waits_for_start (scenario delegating_events) "r" delegating_call
  /\ view "s" (w_store w') = Some p /\ sp_runs p !! "r" = Some run
  /\ (forall call, call ∈ btree_values (rp_tool_calls run) -> ~ waits_for_start p "r" call).
Proof.
  pose proof (approved_calls_are_all_started (H0 := scripted) "s" "r" (scenario_world delegating_events)
    (scenario_consistent delegating_events)) as Ht.
  destruct (execute_approved_native_calls (H0 := scripted) "s" "r" (scenario_world delegating_events)) as [w' r] eqn:E.
  assert (Hr : snd (execute_approved_native_calls (H0 := scripted) "s" "r" (scenario_world delegating_events)) = Ok true)
    by (vm_compute; reflexivity).
  rewrite E in Hr. simpl in Hr. subst r. destruct Ht as (p & run & Hv & Hrun & Hnone).
  exists w', p, run. split; [reflexivity|]. split; [|by split_and!].
  split_and!; [done..|]. eexists "q", _. split; [vm_compute; reflexivity|by split_and!].
Defined.

(** ** Tools that cannot be run *)

Section stranded.
  Context `{EventCodec} `{Outside}.

(** The workspace or the shell of a native tool is missing. *)
Definition unavailable (w : World) (project : option Project) : Prop :=
  match project with
  | None => True
  | Some project =>
      (exists e, discover env_var current_dir (w_fs w) (nt_shell (native_tools (w_config w))) = Err e)
      \/ exists e, new_executor current_dir (w_fs w) (pj_path project) = Err e
  end.

Lemma run_native_unavailable w project tool arguments : unavailable w project ->
  exists e, run_native project tool arguments w = (w, Err (Fail e)).
Proof.
  unfold run_native. destruct project as [project|]; [|by eexists]. cbn [ok_or]. intros Hu. rewrite lift_Ok, !gets_bind.
  destruct Hu as [[e ->]|[e ->]]; [by eexists|]. destruct (discover _ _ _ _); [|by eexists].
  cbn [map_err]. rewrite lift_Ok. by eexists.
Qed.

(** The run after a call of it was started. *)
Definition started (call : ToolCallProjection) (execution_id : string) (run : RunProjection) : RunProjection :=
  set_tool_calls (<[tc_call_id call := set_execution_id (Some execution_id) call]> (rp_tool_calls run)) run.

Lemma start_apply i p run_id run call execution_id : sp_runs p !! run_id = Some run ->
  rp_tool_calls run !! tc_call_id call = Some call -> tc_native call = true -> tc_execution_id call = None ->
  exists p', try_apply i (ToolExecutionStarted run_id (tc_call_id call) execution_id) p = Ok p'
    /\ sp_runs p' = <[run_id := started call execution_id run]> (sp_runs p).
Proof.
  intros Hr Hc Hn He. unfold try_apply, apply. simpl. unfold tool_execution_started, update_call, update_run, update_entry.
  simpl. rewrite Hr. simpl. rewrite Hc. simpl. rewrite Hn, He. simpl. by eexists.
Qed.

End stranded.

(** Unavailable tools.  When the workspace or the shell of an approved call of a
    native tool is missing, the execution records that the call was started and
    fails: the call has an execution and no result, so the loop over the approved
    calls does not take it up again, and no result of a client is accepted for it.
    The run waits for that result until a restart interrupts it. *)
Theorem unavailable_tool_strands_the_call `{EventCodec} `{Outside} s run_id project tool p run call w w' r :
  hosts s 1 p w -> sp_runs p !! run_id = Some run -> rp_tool_calls run !! tc_call_id call = Some call ->
  tc_native call = true -> tc_result call = None -> tc_execution_id call = None ->
  NativeTool.parse (tc_tool_name call) = Some tool -> unavailable w project ->
  execute_call s run_id project call w = (w', r) ->
  (exists e, r = Err (Fail e))
  /\ re_event <$> log s (w_store w') = (re_event <$> log s (w_store w))
       ++ [ToolExecutionStarted run_id (tc_call_id call) (uuid (w_ticks w))]
  /\ exists p' run' call', view s (w_store w') = Some p' /\ sp_runs p' !! run_id = Some run'
       /\ rp_tool_calls run' !! tc_call_id call = Some call' /\ tc_result call' = None
       /\ (forall c, next_native_call p' run_id run' = Some c -> tc_call_id c <> tc_call_id call)
       /\ forall v, exists e, check_tool_result p' run' run_id (tc_call_id call) v = Err e.
Proof.
  intros Hh Hr Hc Hn Hres Hex Ht Hu Hw. unfold execute_call in Hw. rewrite fresh_id_bind in Hw.
  assert (does s [ToolExecutionStarted run_id (tc_call_id call) (uuid (w_ticks w))] (fun q => q = p)
    (fun q => sp_runs q = <[run_id := started call (uuid (w_ticks w)) run]> (sp_runs p))
    (append s (ToolExecutionStarted run_id (tc_call_id call) (uuid (w_ticks w))))) as Hd.
  { apply does_append. intros i q _ ->. by apply start_apply. }
  pose proof Hh as [Hcs Hv Hroom].
  destruct (append_appends s (ToolExecutionStarted run_id (tc_call_id call) (uuid (w_ticks w))) (ticked w) Hcs)
    as [[e Ea]|(q & n & q' & st & a & Hq & Hf & Ea & Hl & Hq' & Hcs' & _)].
  { destruct (Hd 0%nat p (ticked w)) as (w1 & a & p' & E & _); [by destruct Hh|by eapply view_wf|done|]. by rewrite Ea in E. }
  destruct (Hd 0%nat p (ticked w)) as (w1 & a' & p' & E & [Hcs1 Hv1 _] & Hruns & Hlog & _);
    [by destruct Hh|by eapply view_wf|done|].
  rewrite Ea in E. injection E as <- <-. rewrite (bind_Ok _ _ _ _ _ Ea) in Hw.
  assert (String.eqb (tc_tool_name call) "delegate" = false) as Hnd.
  { apply String.eqb_neq. intros E. by rewrite E in Ht. }
  rewrite Hnd, Ht in Hw.
  destruct (run_native_unavailable (appended_world s st [ToolExecutionStarted run_id (tc_call_id call) (uuid (w_ticks w))]
    (ticked w)) project tool (tc_arguments call) Hu) as [e En].
  rewrite (bind_Err _ _ _ _ _ En) in Hw. injection Hw as <- <-. split_and!; [by eexists|done|].
  exists p', (started call (uuid (w_ticks w)) run), (set_execution_id (Some (uuid (w_ticks w))) call).
  assert (Hrun : sp_runs p' !! run_id = Some (started call (uuid (w_ticks w)) run)) by (rewrite Hruns; apply lookup_insert_eq).
  split_and!; [done|done|simpl; apply lookup_insert_eq|done| |].
  - intros c Hnext Hid. apply (next_unstarted p') in Hnext; [|by eapply view_wf|done].
    rewrite Hid in Hnext. apply elem_of_unstarted in Hnext as (run' & c' & Hr' & Hc' & He').
    rewrite Hrun in Hr'. injection Hr' as <-. simpl in Hc'. rewrite lookup_insert_eq in Hc'. by injection Hc' as <-.
  - intros v. unfold check_tool_result. destruct (negb _); [by eexists|]. destruct (request_from_value _); [|by eexists].
    cbn [ok_or mbind result_mbind]. destruct (_ || _); [by eexists|]. simpl. rewrite lookup_insert_eq. simpl. rewrite Hn.
    destruct (starts_with _ _); by eexists.
Qed.

(** A call of [read] in a session without a project. *)
Definition reading_call : ToolCallProjection := mkToolCall "call-1" "m1" "assistant" "read" JNull "" true None None.
Definition reading_events : list SemanticEvent :=
  [RunQueued "r" None "p" "m" (request_to_value hello);
   SessionPhaseChanged Created Running None; RunStarted "r" "a" 1;
   MessageStarted "m1" "assistant" Assistant (AuthorAgent "assistant");
   ToolCallEmitted "r" "m1" "call-1" "assistant" "read" JNull "" true;
   MessageCompleted "m1"; RunRequiresAction "r" ["call-1"];
   PermissionRequested "q" "r" (Some "call-1") "assistant" "read" JNull;
   PermissionResolved "q" Allow None None None None;
   SessionPhaseChanged Running Interrupted None].
Definition reading_run : RunProjection :=
  mkRun "r" None "p" "m" (request_to_value hello) RRequiresAction (Some "a") 1 None None 0 {["call-1" := reading_call]}.

Lemma unavailable_tool_strands_the_call_witness : exists w' e p' run',
  execute_call (H0 := scripted) "s" "r" None reading_call (scenario_world reading_events) = (w', Err (Fail e))
  /\ view "s" (w_store w') = Some p' /\ sp_runs p' !! "r" = Some run'
  /\ forall c, next_native_call p' "r" run' = Some c -> tc_call_id c <> "call-1".
Proof.
  destruct (unavailable_tool_strands_the_call (H0 := scripted) "s" "r" None Read (scenario reading_events) reading_run
    reading_call (scenario_world reading_events) _ _ ltac:(host_tac) ltac:(vm_compute; reflexivity) ltac:(reflexivity)
    ltac:(reflexivity) ltac:(reflexivity) ltac:(reflexivity) ltac:(reflexivity) I ltac:(apply surjective_pairing))
    as ([e He] & _ & p' & run' & call' & Hv & Hr & _ & _ & Hn & _).
  eexists _, e, p', run'. split; [etrans; [apply surjective_pairing|f_equal; exact He]|]. by split_and!.
Defined.
