(* ===== verification/ChildSpec.v ===== *)
(** The results of child sessions (file Worker): what [deliver_child_result] hands to
    the parent, and that it does so once. *)

From S2P Require Export TurnSpec.
From S2P Require Import StoreSpec SessionFacts SessionSpec.
From S2P Require Export Store.
From S2P Require Export World.
Import SessionProjection.

Section child.
  Context `{EventCodec} `{Outside}.

(** Several events at once. *)
Lemma append_many_inv s e events w w' a : consistent (w_store w) -> append_many s (e :: events) w = (w', Ok a) ->
  exists p m p', view s (w_store w) = Some p
    /\ try_fold log_step (log_length s (w_store w), p) (e :: events) = Ok (m, p')
    /\ view s (w_store w') = Some p' /\ consistent (w_store w')
    /\ re_event <$> log s (w_store w') = (re_event <$> log s (w_store w)) ++ e :: events
    /\ (forall id, id <> s -> view id (w_store w') = view id (w_store w) /\ log id (w_store w') = log id (w_store w)).
Proof.
  intros Hcs E. destruct (append_many_appends s (e :: events) ltac:(done) w Hcs)
    as [[x Ea]|(p & n & p' & st & b & Hv & Hf & Ea & Hl & Hv' & Hcs' & Hfr)];
    rewrite Ea in E; [done|injection E as <- _]. exists p, n, p'. split_and!; try done.
  - simpl. by rewrite Hl, fmap_app, record_at_events.
  - intros id Hid. by apply (view_frame (w_store w) st s id).
Qed.

(** The links of a session, the way they are listed. *)
Definition links_of (s : string) (w : World) : list AgentLinkRecord :=
  sort_by link_leb (List.filter (fun l => String.eqb (lr_parent_session_id l) s || String.eqb (lr_child_session_id l) s) (w_links w)).

Lemma agent_links_inv s w w' l : agent_links s w = (w', Ok l) -> w' = w /\ l = links_of s w.
Proof. unfold agent_links, mbind, M_bind, query. destruct (ensure_session _ _); [|done]. by intros [= <- <-]. Qed.

Lemma read_inv s w w' p : consistent (w_store w) -> read_projection s w = (w', Ok p) ->
  view s (w_store w) = Some p /\ exists c, w' = cached c w /\ consistent (w_store (cached c w)).
Proof.
  intros Hcs E. pose proof (view_projection (w_store w) s Hcs) as Hp.
  unfold read_projection, on_store in E. destruct (view s (w_store w)) as [q|].
  - destruct Hp as (c & Hp & Hc). rewrite Hp in E. injection E as <- <-. split; [done|by exists c].
  - by rewrite Hp in E.
Qed.

Lemma run_of_inv p r w w' run : run_of p r w = (w', Ok run) -> w' = w /\ sp_runs p !! r = Some run.
Proof. unfold run_of, lift. destruct (sp_runs p !! r); simpl; [|done]. by intros [= <- <-]. Qed.

(** A result that was recorded stays. *)
Lemma instance_result_extends p p' id r : extends p p' -> instance_result p id = Some r -> instance_result p' id = Some r.
Proof.
  intros He. unfold instance_result. destruct (sp_agent_instances p !! id) as [a|] eqn:Ha; [|done]. simpl. intros Hr.
  destruct (ext_instances _ _ He id a Ha) as (a' & -> & Hx). simpl. apply Hx. exact Hr.
Qed.

Lemma finished_result i id r p p' : instance_result p id = None -> try_apply i (AgentFinished id (Some r)) p = Ok p' ->
  instance_result p' id = Some r.
Proof.
  intros Hn (st & _ & Ha)%try_apply_inv. simpl in Ha. unfold agent_finished, update_instance in Ha. apply leave_Ok in Ha.
  inv_ok. apply update_entry_Ok in Heqr0 as (a0 & a1 & Hl & Hf & ->). simpl in Hl. unfold instance_result in Hn |- *.
  simpl. rewrite lookup_insert_eq. simpl. rewrite Hl in Hn. simpl in Hn. rewrite Hn in Hf. by injection Hf as <-.
Qed.

Lemma log_steps_cons_inv e l n p m p' : try_fold log_step (n, p) (e :: l) = Ok (m, p') ->
  exists p1, try_apply (n + 1) e p = Ok p1 /\ try_fold log_step (n + 1, p1) l = Ok (m, p').
Proof.
  cbn [try_fold]. change (log_step (n, p) e) with (if i64_max <? n + 1 then Err Database
    else p' ← map_err InvalidSessionTransition (try_apply (n + 1) e p); Ok (n + 1, p')). destruct (_ <? _); [done|].
  destruct (try_apply (n + 1) e p) as [p1|]; [|done]. simpl. eauto.
Qed.

Lemma log_steps_extend events : forall n p m p', projection_wf p ->
  try_fold log_step (n, p) events = Ok (m, p') -> extends p p'.
Proof.
  induction events as [|e l IH]; intros n p m p' Hwf Hf.
  - simpl in Hf. by injection Hf as <- <-.
  - apply log_steps_cons_inv in Hf as (p1 & Ha & Hf).
    etrans; [by eapply try_apply_extends|eapply IH; [by eapply try_apply_wf|exact Hf]].
Qed.

Lemma delivery_result l r ready n p m p' : projection_wf p -> instance_result p (lr_instance_id l) = None ->
  try_fold log_step (n, p) (delivery_events l r ready) = Ok (m, p') -> instance_result p' (lr_instance_id l) = Some r.
Proof.
  intros Hwf Hn (p1 & Ha & Hf)%log_steps_cons_inv.
  eapply instance_result_extends; [eapply log_steps_extend; [by eapply try_apply_wf|exact Hf]|]. by eapply finished_result.
Qed.

(** The child's own record of its result. *)
Lemma child_finished_inv s l r child w w' : consistent (w_store w) ->
  (if bool_decide (instance_result child (lr_instance_id l) = None)
   then _ ← append s (AgentFinished (lr_instance_id l) (Some r)); mret () else mret ()) w = (w', Ok ()) ->
  consistent (w_store w') /\ forall id, id <> s -> view id (w_store w') = view id (w_store w) /\ log id (w_store w') = log id (w_store w).
Proof.
  intros Hcs. case_bool_decide; [|by intros [= <-]]. intros (w1 & a & E & [= <-])%bind_inv.
  destruct (append_appends s (AgentFinished (lr_instance_id l) (Some r)) w Hcs)
    as [[x Ea]|(p & n & p' & st & b & Hv & Hf & Ea & Hl & Hv' & Hcs' & Hfr)]; rewrite Ea in E; [done|injection E as <- _].
  split; [done|]. intros id Hid. by apply (view_frame (w_store w) st s id).
Qed.

End child.

(** C15. The result of a child session.  When the run of a child session has ended and
    its delivery succeeds: a parent that has the result already is left alone and
    not woken; otherwise the parent records, in one step, that the child's agent
    finished, its result and the result of the call that started it, and goes on
    exactly if every other call of its run has been answered. *)
Theorem child_result_is_delivered_once `{EventCodec} `{Outside} process s run_id w w' l child run status :
  consistent (w_store w) -> run_link s run_id (links_of s w) = Some l -> lr_parent_session_id l <> s ->
  view s (w_store w) = Some child -> sp_runs child !! run_id = Some run -> terminal_status (rp_status run) = Some status ->
  deliver_child_result process s run_id w = (w', Ok ()) ->
  exists parent w1, view (lr_parent_session_id l) (w_store w) = Some parent
    /\ match instance_result parent (lr_instance_id l) with
       | Some _ => w' = w1
           /\ re_event <$> log (lr_parent_session_id l) (w_store w1) = re_event <$> log (lr_parent_session_id l) (w_store w)
       | None => exists parent_run parent',
           sp_runs parent !! lr_parent_run_id l = Some parent_run
           /\ (let ready := other_calls_done parent_run (lr_parent_call_id l) in
               re_event <$> log (lr_parent_session_id l) (w_store w1)
               = (re_event <$> log (lr_parent_session_id l) (w_store w)) ++ delivery_events l (agent_result l status child) ready
               /\ if ready then process (lr_parent_session_id l) w1 = (w', Ok ()) else w' = w1)
           /\ view (lr_parent_session_id l) (w_store w1) = Some parent'
           /\ instance_result parent' (lr_instance_id l) = Some (agent_result l status child)
       end.
Proof.
  intros Hcs Hl Hne Hv Hr Ht E. unfold deliver_child_result in E.
  apply bind_inv in E as (w1 & links & [-> ->]%agent_links_inv & E). rewrite Hl in E.
  apply bind_inv in E as (w2 & child' & Hread & E). apply read_inv in Hread as (Hv' & c & -> & Hcs1); [|done].
  rewrite Hv in Hv'. injection Hv' as <-.
  apply bind_inv in E as (w3 & run' & [-> Hr']%run_of_inv & E). rewrite Hr in Hr'. injection Hr' as <-. rewrite Ht in E.
  apply bind_inv in E as (w4 & [] & Hfin & E). apply child_finished_inv in Hfin as [Hcs4 Hframe]; [|done].
  destruct (Hframe _ Hne) as [Hvp Hlp].
  change (view (lr_parent_session_id l) (w_store w4) = view (lr_parent_session_id l) (w_store w)) in Hvp.
  change (log (lr_parent_session_id l) (w_store w4) = log (lr_parent_session_id l) (w_store w)) in Hlp.
  apply bind_inv in E as (w5 & parent & Hread & E). apply read_inv in Hread as (Hvp' & c' & -> & Hcs5); [|done].
  destruct (instance_result parent (lr_instance_id l)) as [r|] eqn:Hres.
  - rewrite bool_decide_eq_true_2 in E by eauto. injection E as <-. exists parent, (cached c' w4).
    rewrite Hres. split_and!; [congruence|done|]. by rewrite <- Hlp.
  - rewrite bool_decide_eq_false_2 in E by (by intros []).
    apply bind_inv in E as (w6 & parent_run & [-> Hpr]%run_of_inv & E).
    apply bind_inv in E as (w7 & recorded & Happ & E). unfold delivery_events in Happ. cbn [app] in Happ.
    apply append_many_inv in Happ as (q & m & parent' & Hq & Hf & Hq' & Hcs7 & Hlog & _); [|done].
    change (view (lr_parent_session_id l) (w_store w4) = Some q) in Hq. rewrite Hvp' in Hq. injection Hq as <-.
    exists parent, w7. rewrite Hres. split; [congruence|]. exists parent_run, parent'.
    assert (Hdel : instance_result parent' (lr_instance_id l) = Some (agent_result l status child)).
    { exact (delivery_result l _ _ _ parent _ _ (view_wf _ _ _ Hvp') Hres Hf). }
    split; [done|]. split; [|done]. cbv zeta. split; [|destruct (other_calls_done _ _); [done|by injection E as <-]].
    rewrite Hlog. f_equal. change (re_event <$> log (lr_parent_session_id l) (w_store w4)
      = re_event <$> log (lr_parent_session_id l) (w_store w)). by rewrite Hlp.
Qed.

(** A child session whose run has completed, before the delivery. *)
Definition child_events : list SemanticEvent :=
  [AgentSpawned "i" (Some "assistant") None None;
   RunQueued "c" None "p" "m" (request_to_value hello); SessionPhaseChanged Created Running None; RunStarted "c" "ca" 1;
   MessageStarted "m1" "assistant" Assistant (AuthorAgent "assistant"); MessageContentAppended "m1" (Text "42");
   MessageCompleted "m1"; RunCompleted "c" None].
Definition parent_events : list SemanticEvent :=
  [RunQueued "r" None "p" "m" (request_to_value hello);
   SessionPhaseChanged Created Running None; RunStarted "r" "a" 1;
   MessageStarted "m1" "assistant" Assistant (AuthorAgent "assistant");
   ToolCallEmitted "r" "m1" "call-1" "assistant" "delegate" JNull "" true;
   MessageCompleted "m1"; RunRequiresAction "r" ["call-1"]; AgentSpawned "i" (Some "assistant") None None;
   SessionPhaseChanged Running Interrupted None].
#[local] Existing Instance plain_codec.
Definition family_store : SqliteStore :=
  fst (append_events "k" "t" child_events (fst (create_session "k" "t" None None Forever (scenario_store parent_events)))).
Definition family_link : AgentLinkRecord :=
  mkLinkRecord "i" "helper" "s" "r" "call-1" "k" "c" 1 (mkBudget 8 60 60 1000 1000 1) JNull "t".
Definition family_world : World := set_links [family_link] (new_world family_store chat_config).
Definition family_child : SessionProjection := default (SessionProjection.new "k") (view "k" family_store).
Definition family_run : RunProjection :=
  mkRun "c" None "p" "m" (request_to_value hello) RCompleted (Some "ca") 1 None None 0 ∅.
Definition family_result : AgentResult := mkAgentResult "i" "helper" "k" "c" ATCompleted (Some (JString "4")) true None None.

(** The answer, cut to its budget of one byte, reaches the parent. *)
Lemma child_result_is_delivered_once_witness : exists w' p',
  deliver_child_result (H0 := scripted) (fun _ => mret ()) "k" "c" family_world = (w', Ok ())
  /\ view "s" (w_store w') = Some p' /\ instance_result p' "i" = Some family_result
  /\ re_event <$> log "s" (w_store w') = (re_event <$> log "s" family_store) ++ delivery_events family_link family_result true.
Proof.
  destruct (deliver_child_result (H0 := scripted) (fun _ => mret ()) "k" "c" family_world) as [w' r] eqn:E.
  assert (Hr : snd (deliver_child_result (H0 := scripted) (fun _ => mret ()) "k" "c" family_world) = Ok ())
    by (vm_compute; reflexivity).
  rewrite E in Hr. simpl in Hr. subst r.
  destruct (child_result_is_delivered_once (H0 := scripted) (fun _ => mret ()) "k" "c" family_world w' family_link
    family_child family_run ATCompleted
    ltac:(apply append_consistent, create_consistent, scenario_consistent) ltac:(vm_compute; reflexivity)
    ltac:(discriminate) ltac:(vm_compute; reflexivity) ltac:(vm_compute; reflexivity) ltac:(reflexivity) E)
    as (parent & w1 & Hp & Hm).
  assert (Hparent : (p ← view "s" family_store; instance_result p "i") = None) by (vm_compute; reflexivity).
  assert (Hready : (p ← view "s" family_store; run ← sp_runs p !! "r"; Some (other_calls_done run "call-1")) = Some true)
    by (vm_compute; reflexivity).
  assert (Hresult : agent_result family_link ATCompleted family_child = family_result) by (vm_compute; reflexivity).
  change (view "s" family_store = Some parent) in Hp. rewrite Hp in Hparent, Hready. simpl in Hparent, Hready.
  change (lr_instance_id family_link) with "i" in Hm. rewrite Hparent, Hresult in Hm.
  destruct Hm as (prun & p' & Hrun & [Hl Hw] & Hv & Hres).
  change (sp_runs parent !! "r" = Some prun) in Hrun. rewrite Hrun in Hready. simpl in Hready. injection Hready as Hready.
  change (lr_parent_call_id family_link) with "call-1" in Hl, Hw. rewrite Hready in Hl, Hw. injection Hw as ->.
  exists w', p'. by split_and!.
Defined.
