(* ===== verification/CompactionSpec.v ===== *)
(** What compaction and the cut of a child's answer promise (file Compaction): the
    longest beginning that fits and ends between two characters, and a body that
    fits the input budget. *)

From S2P Require Import ProviderFacts.
From S2P Require Export TurnSpec.
From S2P Require Import StoreSpec SessionSpec.
From S2P Require Export Store.
From S2P Require Export World.
Import SessionProjection.

(** ** Characters *)

(** [c] is one encoded character. *)
Record character (c : string) : Prop := {
  ch_width : (1 <= String.length c <= 4)%nat;
  ch_start : forall a, String.get 0 c = Some a -> is_continuation a = false;
  ch_rest : forall i a, (0 < i)%nat -> String.get i c = Some a -> is_continuation a = true;
  ch_valid : forall n r, utf8_valid_fuel n r = true -> utf8_valid_fuel (S n) (c ++s r) = true }.

Lemma cont_is_continuation b : cont (byte b) = is_continuation b.
Proof. done. Qed.

Lemma character_1 a : byte a < 128 -> character (String a "").
Proof.
  intros Ha. split.
  - simpl. lia.
  - intros ? [= <-]. unfold is_continuation. lia.
  - intros [|i] ?; [lia|]. by destruct i.
  - intros n r Hr. unfold String.append; cbn [utf8_valid_fuel]; cbv zeta. by rewrite (proj2 (Z.ltb_lt _ _) Ha).
Qed.

Lemma utf8_head n s : utf8_valid_fuel (S n) s = true ->
  s = "" \/ exists c r, s = c ++s r /\ character c /\ utf8_valid_fuel n r = true.
Proof.
  destruct s as [|a s1]; [by left|]. intros Hv. right. cbn [utf8_valid_fuel] in Hv; cbv zeta in Hv.
  destruct (byte a <? 128) eqn:H1; [exists (String a ""), s1; split_and!; [done|apply character_1; lia|done]|].
  destruct ((194 <=? byte a) && (byte a <=? 223)) eqn:H2; [|destruct ((224 <=? byte a) && (byte a <=? 239)) eqn:H3;
    [|destruct ((240 <=? byte a) && (byte a <=? 244)) eqn:H4; [|done]]].
  - destruct s1 as [|b s2]; [done|]. apply andb_prop in Hv as [Hb Hv]. exists (String a (String b "")), s2. split_and!; [done| |done].
    split; [simpl; lia|intros ? [= <-]; unfold is_continuation; lia| |].
    + intros [|[|[|i]]] x Hi Hx; [lia|by injection Hx as <-|done..].
    + intros m r Hr. unfold String.append; cbn [utf8_valid_fuel]; cbv zeta. by rewrite H1, H2, Hb, Hr.
  - destruct s1 as [|b [|c s3]]; [done..|]. apply andb_prop in Hv as [Hp Hv]. pose proof Hp as [[[Hb Hc]%andb_prop _]%andb_prop _]%andb_prop.
    exists (String a (String b (String c ""))), s3. split_and!; [done| |done].
    split; [simpl; lia|intros ? [= <-]; unfold is_continuation; lia| |].
    + intros [|[|[|[|i]]]] x Hi Hx; [lia|by injection Hx as <-|by injection Hx as <-|done..].
    + intros m r Hr. unfold String.append; cbn [utf8_valid_fuel]; cbv zeta. by rewrite H1, H2, H3, Hp, Hr.
  - destruct s1 as [|b [|c [|d s4]]]; [done..|]. apply andb_prop in Hv as [Hp Hv].
    pose proof Hp as [[[[Hb Hc]%andb_prop Hd]%andb_prop _]%andb_prop _]%andb_prop.
    exists (String a (String b (String c (String d "")))), s4. split_and!; [done| |done].
    split; [simpl; lia|intros ? [= <-]; unfold is_continuation; lia| |].
    + intros [|[|[|[|[|i]]]]] x Hi Hx; [lia|by injection Hx as <-|by injection Hx as <-|by injection Hx as <-|done..].
    + intros m r Hr. unfold String.append; cbn [utf8_valid_fuel]; cbv zeta. by rewrite H1, H2, H3, H4, Hp, Hr.
Qed.

Lemma get_append i c r :
  String.get i (c ++s r) = if (i <? String.length c)%nat then String.get i c else String.get (i - String.length c) r.
Proof. revert i. induction c as [|a c IH]; intros [|i]; [done..|]. apply IH. Qed.

Lemma str_take_drop n s : str_take n s ++s str_drop n s = s.
Proof.
  revert s. induction n as [|n IH]; intros [|a s]; try done.
  - rewrite str_take_0. apply str_drop_0.
  - rewrite str_take_cons, str_drop_cons. change (String a (str_take n s) ++s str_drop n s) with (String a (str_take n s ++s str_drop n s)).
    by rewrite IH.
Qed.

Lemma boundary_append c r i : is_char_boundary (c ++s r) (String.length c + i) = is_char_boundary r i.
Proof.
  unfold is_char_boundary. rewrite get_append, (proj2 (Nat.ltb_ge _ _)) by lia.
  replace (String.length c + i - String.length c)%nat with i by lia. destruct (String.get i r); [done|].
  rewrite length_append. apply eq_true_iff_eq. rewrite !Nat.eqb_eq. lia.
Qed.

(** Between the bytes of a character is no boundary. *)
Lemma boundary_inside c r i : character c -> (0 < i < String.length c)%nat -> is_char_boundary (c ++s r) i = false.
Proof.
  intros Hc Hi. unfold is_char_boundary. rewrite get_append, (proj2 (Nat.ltb_lt _ _)) by lia.
  destruct (String.get i c) as [a|] eqn:E; [by rewrite (ch_rest c Hc i a ltac:(lia) E)|].
  rewrite length_append. apply Nat.eqb_neq. lia.
Qed.

Lemma boundary_start c r : character c -> is_char_boundary (c ++s r) 0 = true.
Proof.
  intros Hc. unfold is_char_boundary. pose proof (ch_width c Hc). rewrite get_append, (proj2 (Nat.ltb_lt _ _)) by lia.
  destruct (String.get 0 c) as [a|] eqn:E; [by rewrite (ch_start c Hc a E)|]. by destruct c; simpl in *; [lia|].
Qed.

Lemma utf8_more n s : utf8_valid_fuel n s = true -> forall m, (n <= m)%nat -> utf8_valid_fuel m s = true.
Proof.
  revert s. induction n as [|n IH]; intros s Hv m Hm; [destruct s; [by destruct m|done]|].
  destruct m as [|m]; [lia|]. apply utf8_head in Hv as [->|(c & r & -> & Hc & Hr)]; [done|].
  apply (ch_valid c Hc), IH; [done|lia].
Qed.

Lemma utf8_enough n s : utf8_valid_fuel n s = true -> utf8_valid s = true.
Proof.
  unfold utf8_valid. revert s. induction n as [|n IH]; intros s Hv; [by destruct s|].
  apply utf8_head in Hv as [->|(c & r & -> & Hc & Hr)]; [done|].
  apply (utf8_more (S (String.length r))); [by apply (ch_valid c Hc), IH|].
  rewrite length_append. pose proof (ch_width c Hc). lia.
Qed.

(** Cutting at a boundary keeps a text valid. *)
Lemma take_boundary_valid n : forall s i, utf8_valid_fuel n s = true -> (i <= String.length s)%nat ->
  is_char_boundary s i = true -> exists m, utf8_valid_fuel m (str_take i s) = true.
Proof.
  induction n as [|n IH]; intros s i Hv Hi Hb; [destruct s; [by exists 0%nat; destruct i|done]|].
  apply utf8_head in Hv as [->|(c & r & -> & Hc & Hr)]; [by exists 0%nat; destruct i|].
  destruct (decide (i < String.length c)%nat) as [Hlt|Hge].
  - destruct (decide (i = 0)%nat) as [->|Hne]; [exists 0%nat; by rewrite str_take_0|].
    rewrite boundary_inside in Hb by (done || lia). done.
  - replace i with (String.length c + (i - String.length c))%nat in * by lia.
    rewrite boundary_append in Hb. rewrite length_append in Hi.
    destruct (IH r (i - String.length c)%nat Hr ltac:(lia) Hb) as [m Hm]. exists (S m).
    rewrite str_take_app, str_take_ge by lia.
    replace (String.length c + (i - String.length c) - String.length c)%nat with (i - String.length c)%nat by lia.
    by apply (ch_valid c Hc).
Qed.

(** No more than three bytes lie between a position and the boundary before it. *)
Lemma near_boundary n : forall s i, utf8_valid_fuel n s = true -> (i <= String.length s)%nat ->
  exists j, (j <= i <= j + 3)%nat /\ is_char_boundary s j = true.
Proof.
  induction n as [|n IH]; intros s i Hv Hi.
  { destruct s; [|done]. simpl in Hi. exists 0%nat. split; [lia|done]. }
  apply utf8_head in Hv as [->|(c & r & -> & Hc & Hr)]; [simpl in Hi; exists 0%nat; split; [lia|done]|].
  pose proof (ch_width c Hc). destruct (decide (i < String.length c)%nat) as [Hlt|Hge].
  - exists 0%nat. split; [lia|by apply boundary_start].
  - rewrite length_append in Hi. destruct (IH r (i - String.length c)%nat Hr ltac:(lia)) as (j & Hj & Hb).
    exists (String.length c + j)%nat. split; [lia|by rewrite boundary_append].
Qed.

Lemma floor_boundary_spec s i : let k := floor_boundary s i in
  (k <= i)%nat /\ (k = 0%nat \/ is_char_boundary s k = true) /\ forall j, (k < j <= i)%nat -> is_char_boundary s j = false.
Proof.
  induction i as [|i IH]; cbn zeta in *; cbn [floor_boundary]; [split_and!; [lia|by left|lia]|].
  destruct (is_char_boundary s (S i)) eqn:Hb; [split_and!; [lia|by right|lia]|].
  destruct IH as (Hle & Hk & Hj). split_and!; [lia|done|]. intros j Hlt. destruct (decide (j = S i)) as [->|]; [done|apply Hj; lia].
Qed.

(** Cutting a child's answer.  A text within the limit is kept.  A longer one is cut:
    what is left is its longest beginning that fits and ends between two
    characters; of valid UTF-8 it is valid UTF-8 itself and at most three bytes
    short of the limit. *)
Theorem truncated_text_fits value max_bytes : 0 <= max_bytes ->
  let '(text, cut) := truncate_utf8 value max_bytes in
  blen text <= max_bytes
  /\ (exists rest, value = text ++s rest)
  /\ (cut = false <-> blen value <= max_bytes) /\ (cut = false -> text = value)
  /\ (cut = true -> forall j, blen text < Z.of_nat j <= max_bytes -> is_char_boundary value j = false)
  /\ (utf8_valid value = true -> utf8_valid text = true /\ (cut = true -> max_bytes - 3 <= blen text)).
Proof.
  intros Hmax. unfold truncate_utf8. destruct (Z.leb_spec (blen value) max_bytes) as [Hle|Hgt].
  - split_and!; try done. exists "". by rewrite append_nil_r.
  - set (k := floor_boundary value (Z.to_nat max_bytes)).
    destruct (floor_boundary_spec value (Z.to_nat max_bytes)) as (Hk & Hb & Hj). fold k in Hk, Hb, Hj.
    assert (Hlen : blen (str_take k value) = Z.of_nat k) by (unfold blen in *; rewrite length_str_take; lia).
    split_and!; [lia|exists (str_drop k value); by rewrite str_take_drop|split; [done|lia]|done| |].
    + intros _ j Hlt. rewrite Hlen in Hlt. apply Hj. lia.
    + intros Hv. unfold utf8_valid in Hv. split.
      * destruct Hb as [E|Hb]; [by rewrite E, str_take_0|].
        destruct (take_boundary_valid _ value k Hv ltac:(unfold blen in *; lia) Hb) as [m Hm]. by eapply utf8_enough.
      * intros _. destruct (near_boundary _ value (Z.to_nat max_bytes) Hv ltac:(unfold blen in *; lia)) as (j & Hjr & Hjb).
        rewrite Hlen. destruct (decide (k < j)%nat); [|lia]. by rewrite (Hj j) in Hjb by lia.
Qed.

(** A character of two bytes does not fit into the last one. *)
Definition accented : string := String "h" (String "195" (String "169" "llo")).
Lemma truncated_text_fits_witness :
  truncate_utf8 accented 2 = ("h", true) /\ blen "h" <= 2 /\ utf8_valid accented = true /\ utf8_valid "h" = true.
Proof.
  pose proof (truncated_text_fits accented 2 ltac:(lia)) as Ht.
  assert (truncate_utf8 accented 2 = ("h", true)) as E by (vm_compute; reflexivity). rewrite E in Ht.
  destruct Ht as (Hl & _ & _ & _ & _ & Hv). assert (utf8_valid accented = true) as Ha by (vm_compute; reflexivity).
  destruct (Hv Ha) as [Hu _]. by split_and!.
Defined.

(** ** The body of a run *)

Section compaction.
  Context `{EventCodec} `{Outside}.

(** What a summary does not touch. *)
Definition same_store (w w' : World) : Prop :=
  w_store w' = w_store w /\ w_config w' = w_config w /\ w_metadata w' = w_metadata w.
#[local] Instance same_store_preorder : PreOrder same_store.
Proof. split; [by intros w|]. intros w1 w2 w3 (A1 & B1 & C1) (A2 & B2 & C2). split_and!; congruence. Qed.

Lemma keeps_tick_same : keeps same_store tick.
Proof. by intros w. Qed.
#[local] Hint Resolve keeps_tick_same : keeps.
Lemma summarize_loop_same n pr : keeps same_store (summarize_loop n pr).
Proof. induction n as [|n IH]; simpl; keeps_tac. Qed.
#[local] Hint Resolve summarize_loop_same : keeps.
Lemma summarize_same pr q c l : keeps same_store (summarize_context pr q c l).
Proof. unfold summarize_context, Supervisor.resolve. keeps_tac. Qed.

(** What compaction records. *)
Definition compaction_events (run_id : string) (strategy : CompactionStrategy) (a : ContextArtifact) : list SemanticEvent :=
  [ContextCompactionStarted run_id (ca_artifact_id a) strategy (ca_source_start_event_id a) (ca_source_end_event_id a);
   ContextCompacted run_id a].

Lemma compaction_failed_inv s r i code e {A} w w' (a : A) : compaction_failed s r i code e w <> (w', Ok a).
Proof. unfold compaction_failed, mbind, M_bind. by destruct (append s _ w) as [w1 [x|x]]. Qed.

Lemma run_body_inv config pr q p native mcp w w' body : run_body config pr q p native mcp w = (w', Ok body) ->
  w' = w /\ build_body to_string config pr q p native mcp = Ok body.
Proof. unfold run_body. destruct (build_body _ _ _ _ _ _ _) as [b|[reason|]]; [|done..]. by intros [= <- <-]. Qed.

(** The text of the artifact, by either strategy. *)
Lemma summary_inv s r i strategy pr q config messages w w' text :
  match strategy with
  | Deterministic => mret (deterministic_summary messages)
  | Llm =>
      x ← try (summarize_context pr q config messages);
      match x with
      | Ok summary => mret summary
      | Err e => compaction_failed s r i "context_compaction_failed" e
      end
  end w = (w', Ok text) -> same_store w w'.
Proof.
  destruct strategy; [by intros [= <- _]|]. intros (w1 & x & E & Hx)%bind_inv.
  pose proof (keeps_try same_store _ (summarize_same pr q config messages) w) as Hs. rewrite E in Hs. simpl in Hs.
  destruct x as [summary|e]; [by injection Hx as <- _|by apply compaction_failed_inv in Hx].
Qed.

Lemma compact_fits s r q config provider native mcp p estimate window reserve budget first w w' body :
  consistent (w_store w) ->
  compact s r q config provider native mcp p estimate window reserve budget first w = (w', Ok body) ->
  exists a, re_event <$> log s (w_store w') = (re_event <$> log s (w_store w))
       ++ compaction_events r (cc_strategy (compaction (context config))) a
    /\ build_body to_string config (rv_protocol provider) q (set_artifact a p) native mcp = Ok body
    /\ body_token_estimate to_vec_len body <= budget
    /\ exists p', view s (w_store w') = Some p' /\ cp_active_artifact (sp_context p') = Some a.
Proof.
  intros Hcs E. unfold compact in E. rewrite fresh_id_bind in E.
  apply bind_inv in E as (w1 & rec1 & E1 & E). apply append_inv in E1 as (_ & _ & _ & _ & _ & Hcs1 & Hl1 & _); [|done].
  apply bind_inv in E as (w2 & text & [Hs2 _]%summary_inv & E).
  apply bind_inv in E as (w3 & b & [-> Hb]%run_body_inv & E).
  destruct (Z.ltb_spec budget (body_token_estimate to_vec_len b)) as [|Hle]; [by apply compaction_failed_inv in E|].
  apply bind_inv in E as (w4 & rec2 & E2 & E). injection E as <- <-.
  apply append_inv in E2 as (p1 & p2 & _ & Ha & Hv2 & _ & Hl2 & _); [|by rewrite Hs2].
  eexists. split_and!; [|exact Hb|done|].
  - rewrite Hl2, Hs2, Hl1, <- app_assoc. done.
  - exists p2. split; [done|]. apply try_apply_inv in Ha as (st & _ & Ha). simpl in Ha. by injection Ha as <-.
Qed.

End compaction.


(** Six messages, and room for five. *)
Definition told (id : string) : list SemanticEvent :=
  [MessageStarted id "" User AuthorUser; MessageContentAppended id (Text id); MessageCompleted id].
Definition long_events : list SemanticEvent :=
  [RunQueued "r" None "p" "m" (request_to_value hello); SessionPhaseChanged Created Running None; RunStarted "r" "a" 1]
  ++ concat (told <$> ["m1"; "m2"; "m3"; "m4"; "m5"; "m6"]).
Definition narrow_config : PiqoConfig :=
  mkConfig body_layer_default {["p" := chat_provider]} ∅ ∅ ∅ native_tools_default ∅
    (mkContextConfig 48 8 f64_0_8 f64_0_6
       (mkCompaction Deterministic None None JNull 1024 0))
    orchestration_default resource_limits_default (mkStorage None) ∅.
Definition narrow_world : World := new_world (scenario_store long_events) narrow_config.
Definition chat_resolved : ResolvedProvider := mkResolved "p" "" "" ChatCompletions ∅ 10.

