(* ===== verification/ApprovalSpec.v ===== *)
(** Durable approvals (files Permissions, Delegation): which later calls the rule that
    an approval stores decides. *)

From S2P Require Export TurnSpec PermissionFacts.
From S2P Require Export World.

(** The name under which the rules for a tool are looked up. *)
Definition rule_name (tool_name : string) : string :=
  default tool_name (NativeTool.permission_name <$> NativeTool.parse tool_name).

Lemma rule_name_spec tool_name :
  rule_name tool_name = (if bool_decide (tool_name = "edit") then "write" else tool_name).
Proof.
  unfold rule_name, NativeTool.parse. case_bool_decide as He; [by subst|].
  destruct (String.eqb_spec tool_name "read"); [by subst|]. destruct (String.eqb_spec tool_name "write"); [by subst|].
  destruct (String.eqb_spec tool_name "edit"); [done|]. by destruct (String.eqb_spec tool_name "bash"); subst.
Qed.

(** A rule of the session, the project or everywhere, for calls of [session_id]. *)
Definition in_scope (r : PermissionRuleRecord) (session_id : string) (project_id : option string) : Prop :=
  match rr_scope r with
  | ScopeSession => rr_session_id r = Some session_id
  | ScopeProject => is_Some (rr_project_id r) /\ rr_project_id r = project_id
  | ScopeConfiguration => True
  | ScopeOnce => False
  end.

Lemma in_scope_applies r session_id project_id : in_scope r session_id project_id ->
  rule_applies session_id project_id (rr_agent_id r) (rr_tool_name r) r = true.
Proof.
  unfold in_scope, rule_applies. intros Hs. rewrite !String.eqb_refl. simpl. destruct (rr_scope r); [done| | |done].
  - rewrite Hs. simpl. apply String.eqb_refl.
  - destruct Hs as [[p Hp] <-]. rewrite Hp. simpl. apply String.eqb_refl.
Qed.

(** Some rule is found as soon as one applies. *)
Lemma matching_some rows session_id project_id agent_id tool_name r : r ∈ rows ->
  rule_applies session_id project_id agent_id tool_name r = true ->
  is_Some (matching_permission_rule rows session_id project_id agent_id tool_name).
Proof.
  intros Hin Ha. unfold matching_permission_rule. rewrite head_is_Some. intros E.
  assert (r ∈ sort_by rule_leb (List.filter (rule_applies session_id project_id agent_id tool_name) rows)) as Hr.
  { rewrite elem_of_sort_by. by apply elem_of_filter_b. }
  rewrite E in Hr. by apply elem_of_nil in Hr.
Qed.

(** A rule under the name [edit] is never found. *)
Lemma edit_rule_unmatched rows r session_id project_id agent_id tool_name : rr_tool_name r = "edit" ->
  matching_permission_rule (rows ++ [r]) session_id project_id agent_id (rule_name tool_name)
  = matching_permission_rule rows session_id project_id agent_id (rule_name tool_name).
Proof.
  intros He. unfold matching_permission_rule. rewrite List.filter_app. simpl.
  assert (rule_applies session_id project_id agent_id (rule_name tool_name) r = false) as ->; [|by rewrite app_nil_r].
  unfold rule_applies. rewrite He, rule_name_spec. case_bool_decide as Ht; [by rewrite andb_false_r|].
  rewrite (proj2 (String.eqb_neq "edit" tool_name)) by congruence. by rewrite andb_false_r.
Qed.

Section approvals.
  Context `{EventCodec} `{Outside}.

Lemma create_rule_inv scope s pid agent tool w w' r : create_rule scope s pid agent tool w = (w', Ok r) ->
  w_rules w' = w_rules w ++ [r] /\ scope <> ScopeOnce
  /\ rr_scope r = scope /\ rr_session_id r = s /\ rr_project_id r = pid /\ rr_agent_id r = agent /\ rr_tool_name r = tool.
Proof.
  unfold create_rule. rewrite fresh_id_bind. unfold now, mbind, M_bind, gets, create_permission_rule. simpl.
  destruct scope; simpl; unfold modify; simpl; try (by intros [= <- <-]); done.
Qed.

Lemma approval_rule_inv scope s pid q w w' r : approval_rule scope s pid q w = (w', Ok (Some r)) ->
  w_rules w' = w_rules w ++ [r] /\ rr_agent_id r = pp_agent_id q /\ rr_tool_name r = pp_tool_name q /\ in_scope r s pid.
Proof.
  unfold approval_rule. destruct scope as [[]|]; [done| | | |done].
  - intros (w1 & x & (Hr & _ & Hs & Hsid & _ & Ha & Ht)%create_rule_inv & [= <- <-])%bind_inv.
    split_and!; [done..|]. unfold in_scope. by rewrite Hs.
  - destruct pid as [p|]; [|done].
    intros (w1 & x & (Hr & _ & Hs & _ & Hp & Ha & Ht)%create_rule_inv & [= <- <-])%bind_inv.
    split_and!; [done..|]. unfold in_scope. rewrite Hs, Hp. by split.
  - intros (w1 & x & (Hr & _ & Hs & _ & _ & Ha & Ht)%create_rule_inv & [= <- <-])%bind_inv.
    split_and!; [done..|]. unfold in_scope. by rewrite Hs.
Qed.

End approvals.


Definition approval_request (tool_name : string) : PermissionProjection :=
  mkPermission "q" "r" (Some "call-1") "assistant" tool_name JNull None.

