(* ===== verification/ApiSpec.v ===== *)
(** What the HTTP API promises, over the handlers (file Api), the router (file
    Router) and any sequence of requests and background work (file ApiFacts). *)

From S2P Require Export ApiFacts HandlersSpec.
From S2P Require Import StoreSpec SessionSpec SupervisorSpec ManagerSpec Scenario.
From S2P Require Export Store.
From S2P Require Export World.
From S2P Require Export Api.
Import SessionProjection.

(** ** A concrete server *)

#[local] Existing Instance plain_codec.

Definition example_http : Http := {|
  rejection_text := fun r _ => match r with LengthLimit => "length limit exceeded" | _ => "rejected" end;
  list_query := fun _ => Ok (mkListQuery None None None);
  events_query := fun _ => Ok (mkEventsQuery None None);
  decode_segment := fun s => Ok s;
  SERVER_VERSION := "0";
  openapi_document := JNull;
  vacuum := fun _ => Some "copy";
  display_transition := fun _ => "transition";
  display_protocol := fun _ => "protocol";
  display_mcp := fun _ => "mcp";
  display_io := fun _ => "io" |}.

(** A body with a run request. *)
Definition queued_run_body : json :=
  jobject [("provider", JString "p"); ("model", JString "m"); ("input", JString "hello")].
Definition api_texts (s : string) : option json := if String.eqb s "run" then Some queued_run_body else chat_texts s.
Definition api_outside : Outside := example_outside (fun _ => answer ["hi"]) api_texts.

Definition server_config (limits : ResourceLimits) : PiqoConfig :=
  mkConfig body_layer_default {["p" := chat_provider]} ∅ ∅ ∅ native_tools_default ∅ context_config_default
    orchestration_default limits (mkStorage None) ∅.
Definition server_manager (limits : ResourceLimits) : ConfigManager :=
  ConfigManager.new (Some config_path) (server_config limits) "t" config_fs.
Definition example_app (limits : ResourceLimits) (s : SqliteStore) : AppState (H := plain_codec) :=
  mkApp (H := plain_codec) (set_fs config_fs (new_world s (server_config limits))) (server_manager limits) (new_slots limits)
    (mkMetrics 0 0 0) None false "sqlite://piqo".

(** It is the server that starts with this configuration. *)
Lemma example_app_starts limits s :
  with_config_manager (H := plain_codec) s [] [] (server_manager limits) "sqlite://piqo" = Some (example_app limits s).
Proof. reflexivity. Qed.

Definition post_run (token : option string) : HttpRequest :=
  mkHttpRequest POST "/api/v1/sessions/s/runs" "" token None true "run".

(** ** Access *)

Section access.

Lemma lor_eq_0 a b : Z.lor a b = 0 <-> a = 0 /\ b = 0.
Proof. apply Z.lor_eq_0_iff. Qed.

Lemma fold_lor_zero (f : nat -> Z) l d :
  foldl (fun d i => Z.lor d (f i)) d l = 0 <-> d = 0 /\ Forall (fun i => f i = 0) l.
Proof.
  revert d. induction l as [|i l IH]; intros d; simpl; [naive_solver|].
  rewrite IH, lor_eq_0, Forall_cons. naive_solver.
Qed.

Lemma byte_inj c d : byte c = byte d -> c = d.
Proof.
  unfold byte. intros E%Nat2Z.inj. by rewrite <- (ascii_nat_embedding c), E, ascii_nat_embedding.
Qed.

(** The comparison in constant time is equality. *)
Lemma constant_time_equal_eq left right : constant_time_equal left right = true <-> left = right.
Proof.
  unfold constant_time_equal. rewrite Z.eqb_eq, fold_lor_zero, Z.lxor_eq_0_iff. split.
  - intros [El Hf]. unfold blen in El. apply Nat2Z.inj in El. rewrite El, Nat.max_id in Hf.
    revert right El Hf. induction left as [|c left IH]; intros [|d right] El Hf; try done.
    simpl in El. injection El as El. rewrite Forall_forall in Hf. f_equal.
    + apply byte_inj. specialize (Hf 0%nat). rewrite Z.lxor_eq_0_iff in Hf. apply Hf. apply elem_of_seq. simpl. lia.
    + apply IH; [done|]. apply Forall_forall. intros i Hi. specialize (Hf (S i)). apply Hf.
      apply elem_of_seq in Hi. apply elem_of_seq. simpl. lia.
  - intros ->. split; [done|]. apply Forall_forall. intros i _. apply Z.lxor_nilpotent.
Qed.

End access.

(** The requests that carry a token. *)
Definition carries (token : string) (request : HttpRequest) : Prop :=
  hr_authorization request = Some ("Bearer " ++s token) /\ header_text ("Bearer " ++s token) = true.

Lemma bearer_carries token request : bearer (hr_authorization request) = Some token <-> carries token request.
Proof.
  unfold bearer, carries. destruct (hr_authorization request) as [v|]; cbn [mbind option_bind]; [|naive_solver].
  split.
  - destruct (header_text v) eqn:Ht; [|done]. intros Hv%strip_prefix_Some. subst v. done.
  - intros [[= ->] Ht]. rewrite Ht. by apply strip_prefix_Some.
Qed.

(** C11. Access.  A server with a token serves a request, as a server without one
    would, exactly when its [Authorization] header is [Bearer], a space and the
    token.  Every other request is answered with 401 and changes nothing.  During a
    shutdown no handler runs: a request is counted, gets an id and is refused with
    503. *)
Theorem only_bearers_are_served `{EventCodec} `{Outside} `{Documents} `{Http} token fuel request s :
  (carries token request -> serve (Some token) fuel request s = serve None fuel request s)
  /\ (~ carries token request ->
        serve (Some token) fuel request s = (s, Some unauthorized) /\ http_status unauthorized = 401)
  /\ (app_shutting_down s = true ->
        let w := app_world s in
        serve None fuel request s =
          (set_app_world (set_ticks (w_ticks w + 1) w) (set_app_metrics (count_request (app_metrics s)) s),
           Some (add_header "x-request-id" (uuid (w_ticks w)) shutting_down_response))).
Proof.
  split_and!.
  - intros Hc. unfold serve. apply bearer_carries in Hc as ->. by rewrite (proj2 (constant_time_equal_eq token token)).
  - intros Hc. split; [|done]. unfold serve. destruct (bearer _) as [candidate|] eqn:Hb; [|done].
    destruct (constant_time_equal candidate token) eqn:He; [|done].
    apply constant_time_equal_eq in He as ->. by apply bearer_carries in Hb.
  - intros Hs w. unfold serve, number_request, refuse_in_shutdown. simpl. by rewrite Hs.
Qed.

Definition quiet_request (authorization : option string) : HttpRequest :=
  mkHttpRequest GET "/api/v1/health" "" authorization None false "".

Lemma only_bearers_are_served_witness :
  let app := example_app resource_limits_default chat_store in
  let ask token a s := snd (serve (H0 := api_outside) (H1 := example_documents) (H2 := example_http)
                              token 10 (quiet_request a) s) in
  ask (Some "secret") (Some "Bearer secret") app = ask None (Some "Bearer secret") app
  /\ ask (Some "secret") (Some "Bearer secrets") app = Some unauthorized
  /\ ask (Some "secret") (Some "Bearer secret") (begin_shutdown app)
     = Some (add_header "x-request-id" "u" shutting_down_response).
Proof.
  intros app ask.
  pose proof (fun a => only_bearers_are_served (H0 := api_outside) (H1 := example_documents) (H2 := example_http)
    "secret" 10 (quiet_request a)) as Ho.
  assert (Hc : carries "secret" (quiet_request (Some "Bearer secret"))) by (split; reflexivity).
  split_and!.
  - unfold ask. by rewrite (proj1 (Ho _ app) Hc).
  - unfold ask. destruct (proj1 (proj2 (Ho (Some "Bearer secrets") app))) as [-> _]; [by intros [[=] _]|done].
  - unfold ask. rewrite (proj1 (Ho _ _) Hc). rewrite (proj2 (proj2 (Ho _ (begin_shutdown app))) eq_refl). reflexivity.
Defined.

(** ** History *)


Lemma chat_store_consistent : consistent chat_store.
Proof. apply create_consistent, empty_consistent. Qed.

Lemma example_app_sound limits s : consistent s -> sound (H0 := api_outside) (app_world (example_app limits s)).
Proof. intros Hs. destruct (new_world_sound (H0 := api_outside) s (server_config limits) Hs). by split. Qed.

(** A client starts a run; the server is stopped while it waits for its turn. *)
Definition served_app : AppState :=
  fst (serve (H0 := api_outside) (H1 := example_documents) (H2 := example_http) None 10 (post_run None)
         (example_app resource_limits_default chat_store)).
Definition stopped_app : AppState := fst (on_world (shutdown (H0 := api_outside) true) (begin_shutdown served_app)).

Lemma served_sound : sound (H0 := api_outside) (app_world served_app).
Proof.
  apply (serve_advances (H0 := api_outside) (H1 := example_documents) (H2 := example_http) example_uuid_inj None 10 (post_run None)
           (example_app resource_limits_default chat_store) eq_refl), example_app_sound, chat_store_consistent.
Qed.

Lemma stopped_steps : api_steps (H0 := api_outside) (H1 := example_documents) (H2 := example_http) None
  served_app stopped_app.
Proof. eapply rtc_l; [apply step_begin_shutdown|]. apply rtc_once, step_stop. Qed.


(** ** Starting runs *)

Lemma run_field_Ok what given of_agent agent v : run_field what given of_agent agent = Ok v ->
  or_else given (of_agent agent) = Some v /\ v <> "".
Proof.
  unfold run_field. destruct (or_else _ _) as [v'|]; [|done]. destruct (is_empty v') eqn:E; [done|].
  intros [= <-]. split; [done|]. by intros ->.
Qed.

Lemma run_request_Ok config r q : run_request config r = Ok q ->
  rq_provider q <> "" /\ rq_model q <> "" /\ rq_input q = crr_input r /\ rq_agent q = crr_agent r.
Proof.
  unfold run_request. destruct (match crr_agent r with Some _ => _ | None => _ end) as [a|]; [|done].
  cbn [mbind result_mbind]. destruct (run_field "provider" _ _ _) as [provider|] eqn:Hp; [|done]. cbn [mbind result_mbind].
  destruct (run_field "model" _ _ _) as [model|] eqn:Hm; [|done]. intros [= <-].
  apply run_field_Ok in Hp as [_ Hp]. by apply run_field_Ok in Hm as [_ Hm].
Qed.

Lemma handler_bind `{EventCodec} {A B} (h : Handler A) (k : A -> Handler B) s s' r : h s = (s', r) ->
  (a ← h; k a) s = match r with Ok a => k a s' | Err e => (s', Err e) end.
Proof. intros E. unfold mbind, Handler_bind. rewrite E. by destruct r. Qed.

Lemma on_world_eq `{EventCodec} {A} (m : M A) s w r : m (enter_world s) = (w, r) ->
  on_world m s = (leave_world w s, map_err from_fault r).
Proof. intros E. unfold on_world. by rewrite E. Qed.


Definition chat_projection : SessionProjection := default (SessionProjection.new "s") (view "s" chat_store).

Lemma example_app_serves limits : serving (H0 := api_outside) "s" chat_projection (enter_world (example_app limits chat_store)).
Proof.
  split.
  - exact chat_store_consistent.
  - reflexivity.
  - vm_compute. reflexivity.
  - intros row pid _ _. apply not_elem_of_empty.
  - apply Z.leb_le. vm_compute. reflexivity.
Qed.

Definition limits_with_runs (n : Z) : ResourceLimits :=
  mkResourceLimits 8 n n 16 (4 * MIB) (4 * MIB) (32 * MIB) MIB 256 16 1024 (512 * MIB) 512.
Definition run_request_of (provider : string) (agent : option string) : CreateRunRequest :=
  mkCreateRun (Some provider) (Some "m") (JString "hello") agent None JNull.


(** ** Metrics *)

(** The counters of rejections never count: whatever a server has been asked
    since it started, and whatever it has refused for lack of capacity, its
    metrics report no rejected run and no rejected stream.  Nothing in the source
    writes the two counters. *)
Theorem capacity_rejections_are_never_counted `{EventCodec} `{Outside} `{Documents} `{Http}
    store rules links manager url token s s' :
  (forall m n, uuid m = uuid n -> m = n) ->
  with_config_manager store rules links manager url = Some s -> api_steps token s s' ->
  metrics s' = (s', Ok (ok_json (jobject [("requests_total", jnum (requests_total (app_metrics s')));
                                          ("run_capacity_rejections", jnum 0); ("sse_capacity_rejections", jnum 0)]))).
Proof.
  intros Hu Hstart Hsteps. destruct (steps_keep_rejections Hu token s s' Hsteps) as [Hr Hs].
  unfold metrics. rewrite Hr, Hs. unfold with_config_manager in Hstart.
  destruct (ok (new_manager _)); [|done]. by injection Hstart as <-.
Qed.

(** A server with room for one run refuses the second. *)
Definition ask (request : HttpRequest) (s : AppState) : AppState * option HttpResponse :=
  serve (H0 := api_outside) (H1 := example_documents) (H2 := example_http) None 10 request s.
Definition small_app : AppState := example_app (limits_with_runs 1) chat_store.
Definition full_app : AppState := fst (ask (post_run None) small_app).
Definition refused_app : AppState := fst (ask (post_run None) full_app).

Lemma capacity_rejections_are_never_counted_witness :
  http_status <$> snd (ask (post_run None) full_app) = Some 429
  /\ metrics refused_app = (refused_app, Ok (ok_json (jobject [("requests_total", jnum 2);
       ("run_capacity_rejections", jnum 0); ("sse_capacity_rejections", jnum 0)]))).
Proof.
  split; [vm_compute; reflexivity|].
  rewrite (capacity_rejections_are_never_counted (H0 := api_outside) (H1 := example_documents) (H2 := example_http)
    chat_store [] [] (server_manager (limits_with_runs 1)) "sqlite://piqo" None small_app refused_app).
  - assert (requests_total (app_metrics refused_app) = 2) as -> by (vm_compute; reflexivity). reflexivity.
  - exact example_uuid_inj.
  - apply example_app_starts.
  - eapply rtc_l; [by apply (step_request _ _ 10 (post_run None))|].
    apply rtc_once. by apply (step_request _ _ 10 (post_run None)).
Defined.

(** ** Errors *)

(** Unknown rules and scopes.  Deleting a stored approval removes exactly it.  When there is
    none with this id, and when an approval has no project or configuration to be
    stored for, the answer is the one for a broken database: 503 with the code
    [storage_unavailable]. *)
Theorem unknown_rule_is_unavailable `{EventCodec} `{Outside} `{Http} rule_id s :
  let rules := w_rules (app_world s) in
  let '(s', r) := delete_permission_rule rule_id s in
  if bool_decide (rule_id ∈ (rr_id <$> rules))
  then r = Ok no_content /\ w_rules (app_world s') = List.filter (fun x => negb (String.eqb (rr_id x) rule_id)) rules
  else exists e, r = Err (Refused (AStore e)) /\ w_rules (app_world s') = rules
         /\ http_status (into_response (AStore e)) = 503
         /\ into_response (AStore e) = into_response (AStore Database)
         /\ into_response (AStore e) = into_response (AStore StoreInvalidScope).
Proof.
  intros rules.
  assert (E : existsb (fun r => String.eqb (rr_id r) rule_id) rules = bool_decide (rule_id ∈ (rr_id <$> rules))).
  { apply eq_true_iff_eq. rewrite existsb_exists, bool_decide_eq_true, list_elem_of_fmap.
    setoid_rewrite <- list_elem_of_In. setoid_rewrite String.eqb_eq. naive_solver. }
  unfold delete_permission_rule, Permissions.delete_permission_rule, on_world, mbind, Handler_bind, M_bind, gets, lift.
  change (w_rules (enter_world s)) with rules. rewrite E. destruct (bool_decide _); simpl; [done|].
  eexists. by split_and!.
Qed.

(** ** Reloading the configuration *)

Lemma collect_total {E A} (f : A -> result E ()) l : (forall x, x ∈ l -> f x = Ok ()) -> is_Some (ok (collect f l)).
Proof.
  intros Hf. assert (exists r, collect f l = Ok r) as [r ->]; [|by eexists]. exists (const () <$> l).
  apply collect_Forall2, Forall2_fmap_r. apply Forall_Forall2_diag, Forall_forall. exact Hf.
Qed.

(** The servers of a valid configuration make a manager. *)
Lemma valid_servers `{Outside} `{Documents} config :
  validate_config url_scheme header_ok config = Ok () -> exists mcp, new_manager (mcp_servers config) = Ok mcp.
Proof.
  unfold validate_config. intros Hv. inv_ok.
  match goal with E : collect validate_server _ = Ok ?r |- _ => rename E into Hc end.
  unfold new_manager. destruct (collect_total McpServerConfig.validate (btree_values (mcp_servers config))) as [us E].
  - intros c (id & Hid%elem_of_btree_entries)%elem_of_btree_values.
    apply collect_Forall2 in Hc. apply list_elem_of_lookup in Hid as [i Hi].
    destruct (Forall2_lookup_l _ _ _ _ _ Hc Hi) as (b & _ & Hb). unfold validate_server in Hb. simpl in Hb.
    destruct (negb _); [done|]. by destruct (McpServerConfig.validate c) as [[]|].
  - destruct (collect McpServerConfig.validate _); [by eexists|done].
Qed.


(** A client reloads the configuration, and again after the file of an agent was
    broken. *)
Definition reload_app : AppState := example_app resource_limits_default chat_store.
Definition broken_app : AppState :=
  set_app_manager (ConfigManager.set_files (<[["home"; "agents"; "reviewer.md"] := File "?"]> config_fs)
                     (app_manager reload_app)) reload_app.
Definition reload_of (s : AppState) : AppState * result HandlerFault HttpResponse :=
  reload_config (H0 := api_outside) (H1 := example_documents) (H2 := example_http) s.

Lemma Ok_inj {E A} (a b : A) : Ok (E := E) a = Ok b -> a = b.
Proof. by intros [= ->]. Qed.

