(* ===== verification/SerialSpec.v ===== *)
(** One run at a time, over any sequence of requests, workers and restarts (files
    Serial, ApiFacts). *)

From S2P Require Export Serial ApiFacts.
From S2P Require Import StoreFacts StoreSpec SessionSpec ManagerSpec Scenario ApiSpec.
From S2P Require Export Store.
From S2P Require Export World.
From S2P Require Export Api.
Import SessionProjection.

Section stores.
  Context `{EventCodec} `{Outside}.

(** Operations that leave the events alone. *)
Lemma same_events_in_series {A} (f : SqliteStore -> SqliteStore * result StoreError A) :
  (forall s, consistent s -> consistent (fst (f s)) /\ db_events (st_db (fst (f s))) = db_events (st_db s)) ->
  keeps in_series (on_store f).
Proof.
  intros Hf w Hs. destruct (Hf _ (se_store _ Hs)) as [Hcs He]. apply (in_series_logs w); [| |done];
    unfold on_store; destruct (f (w_store w)) as [st r]; simpl in *; [done|].
  intros id. unfold log, read_events, session_rows. by rewrite He.
Qed.

(** The history of a branch is a beginning of its parent's, and what closes it. *)
Lemma fork_in_series i t parent n title : keeps in_series (on_store (Store.fork_session i t parent n title)).
Proof.
  intros w [Hcs Hs]. assert (fst (on_store (Store.fork_session i t parent n title) w)
    = set_store (fst (Store.fork_session i t parent n title (w_store w))) w) as ->.
  { unfold on_store. by destruct (Store.fork_session _ _ _ _ _ _). }
  destruct (fork_outcome (w_store w) i t parent n title Hcs) as [->|(_ & Hf & Hcs' & q & Hl)]; [by split|].
  split; simpl; [done|]. intros id. destruct (decide (id = i)) as [->|Hid].
  - rewrite Hl. unfold branch. apply serial_quiet.
    + apply (serial_rehome i parent), (serial_prefix parent _ (drop (Z.to_nat n) (log parent (w_store w)))).
      by rewrite take_drop.
    + rewrite begins_record_at. unfold fork_events. by destruct (active_run q).
  - rewrite (log_frame _ _ _ _ Hf Hid). apply Hs.
Qed.

#[export] Instance in_series_stores : KeptStores in_series.
Proof.
  split; intros.
  - apply same_events_in_series. intros s Hs. split; [by apply create_project_consistent|].
    unfold Store.create_project. by repeat case_match.
  - apply same_events_in_series. intros s Hs. split; [by apply update_project_consistent|].
    unfold Store.update_project. by repeat case_match.
  - apply same_events_in_series. intros s Hs. split; [by apply retention_consistent|].
    unfold Store.update_session_retention. by destruct (db_sessions _ !! _).
  - apply fork_in_series.
Qed.

End stores.


(** ** Witness *)

#[local] Existing Instance plain_codec.

(** A client starts two runs, the worker answers both. *)
Definition twice_served : AppState :=
  fst (serve (H0 := api_outside) (H1 := example_documents) (H2 := example_http) None 10 (post_run None) served_app).
Definition answered_app : AppState := fst (on_world (run_worker (H0 := api_outside) 10) twice_served).

Lemma answered_steps : api_steps (H0 := api_outside) (H1 := example_documents) (H2 := example_http) None
  (example_app resource_limits_default chat_store) answered_app.
Proof.
  eapply rtc_l; [by apply (step_request None (example_app resource_limits_default chat_store) 10 (post_run None))|].
  eapply rtc_l; [by apply (step_request None served_app 10 (post_run None))|]. apply rtc_once, step_run_worker.
Qed.

Lemma ok_is_Ok {E A} (r : result E A) a : ok r = Some a -> r = Ok a.
Proof. destruct r; [by intros [= ->]|done]. Qed.

Lemma chat_serially : serially (H := plain_codec) (app_world (example_app resource_limits_default chat_store)).
Proof.
  assert (serially (new_world empty_store chat_config)) as He.
  { split; [apply empty_consistent|]. intros id. apply serial_nil. }
  apply (create_in_series "s" "t" None None Forever) in He. revert He. by apply in_series_store.
Qed.

