(* ===== verification/StartupSpec.v ===== *)
(** What a start of the server guarantees (file Startup): the recovery of the
    sessions, the instance lock, and that a server can always be started again on
    what another one left behind. *)

From S2P Require Export Startup ApiSpec ShutdownSpec.
From S2P Require Import StoreSpec SessionSpec SupervisorSpec ManagerSpec.
From S2P Require Export Store.
From S2P Require Export World.
From S2P Require Export Api.
Import SessionProjection.

(** ** Recovery *)

Section recovery.
  Context `{EventCodec}.

Definition store_advances (s s' : SqliteStore) : Prop := consistent s -> consistent s' /\ grows s s'.

#[export] Instance store_advances_preorder : PreOrder store_advances.
Proof.
  split; [by intros s Hs|]. intros s1 s2 s3 H1 H2 Hs. destruct (H1 Hs) as [Hs2 G1]. destruct (H2 Hs2) as [Hs3 G2].
  split; [done|by etrans].
Qed.

Lemma append_event_advances s id now e : store_advances s (fst (append_event id now e s)).
Proof.
  intros Hs. destruct (append_grows s id now [e] Hs) as [Hcs Hg]. unfold append_event.
  destruct (append_events _ _ _ s) as [s' [[|]|]]; done.
Qed.

Lemma projection_advances s id : store_advances s (fst (projection id s)).
Proof.
  intros Hs. pose proof (view_projection s id Hs) as Hp. destruct (view id s).
  - destruct Hp as (c & -> & Hcs). split; [done|]. by apply grows_db.
  - by rewrite Hp.
Qed.

Lemma recover_one_advances now s id : store_advances s (fst (recover_one now s id)).
Proof.
  unfold recover_one. pose proof (append_event_advances s id now (SessionInterrupted "server_restart")) as Ha.
  destruct (append_event _ _ _ s) as [s1 [e|]]; simpl in *; [|done]. etrans; [exact Ha|].
  pose proof (projection_advances s1 id) as Hp. destruct (projection id s1) as [s2 [p|]]; simpl in *; [|done].
  etrans; [exact Hp|]. destruct (active_run p) as [r|]; [|done].
  pose proof (append_event_advances s2 id now (RunInterrupted (rp_run_id r) "server_restart")) as Hb.
  by destruct (append_event _ _ _ s2).
Qed.

Lemma recover_advances now s : store_advances s (fst (recover_running_sessions now s)).
Proof.
  unfold recover_running_sessions. generalize (running_ids (st_db s)). intros ids. revert s.
  induction ids as [|id ids IH]; intros s; [done|]. cbn [recover_all].
  pose proof (recover_one_advances now s id) as Ho. destruct (recover_one now s id) as [s1 [e|]]; simpl in *; [|done].
  etrans; [exact Ho|]. specialize (IH s1). by destruct (recover_all now ids s1) as [s2 []].
Qed.

(** A store that is opened again has no cache. *)
Lemma reopened_consistent s : consistent s -> consistent (mkStore (st_db s) ∅).
Proof.
  intros [Hs ? ? ? ?]. split; simpl; try done.
  intros id row Hrow. destruct (Hs id row Hrow) as (evs & p & Hok & _). exists evs, p. split; [done|].
  intros q. by rewrite lookup_empty.
Qed.

End recovery.

(** ** Sessions after a start *)

Section resume.
  Context `{EventCodec} `{Outside}.

(** No phase is running and no run waits for a native call that may have been
    executed. *)
Definition uncertain_run (run : RunProjection) : bool :=
  bool_decide (rp_status run = RRequiresAction) && existsb uncertain_native (btree_values (rp_tool_calls run)).
Definition settled_session (p : SessionProjection) : Prop :=
  ss_phase (sp_state p) <> Running /\ forall k run, sp_runs p !! k = Some run -> uncertain_run run = false.

(** What a start does to one session: it interrupts the runs whose calls are
    uncertain; without such runs a run that has all its results goes on. *)
Definition resumed (id : string) (p p' : SessionProjection) (w' : World) : Prop :=
  settled_session p' /\ (forall k run, sp_runs p !! k = Some run -> uncertain_run run = true ->
    exists run', sp_runs p' !! k = Some run' /\ terminal (rp_status run') = true)
  /\ (interrupted_native_runs p = [] -> p' = p
        /\ (is_Some (ready_action_run p) -> w_shutdown w' = false -> id ∈ w_workers w')).

Lemma uncertain_runs_apply n p : projection_wf p -> n + Z.of_nat (size (sp_runs p)) <= i64_max ->
  let events := (fun r => RunInterrupted (rp_run_id r) "native_execution_interrupted_by_restart") <$> interrupted_native_runs p in
  exists p', try_fold log_step (n, p) events = Ok (n + Z.of_nat (length events), p')
    /\ ss_phase (sp_state p') = ss_phase (sp_state p)
    /\ forall k run, sp_runs p' !! k = Some run ->
         terminal (rp_status run) = true \/ (sp_runs p !! k = Some run /\ uncertain_run run = false).
Proof.
  intros Hwf Hn events. set (l := interrupted_native_runs p) in *.
  assert (Hin : forall r, r ∈ l <-> sp_runs p !! rp_run_id r = Some r /\ uncertain_run r = true).
  { intros r. unfold l, interrupted_native_runs. by rewrite elem_of_runs_with. }
  assert (Hlen : (length l <= size (sp_runs p))%nat).
  { unfold l. rewrite <- length_btree_values. apply List.filter_length_le. }
  destruct (interrupt_runs_apply "native_execution_interrupted_by_restart" l n p) as (p' & Hf & Hph & Hk); [lia| | |].
  - unfold l. eapply NoDup_fmap_2_strong; [|by apply NoDup_runs_with].
    intros x y Hx%Hin Hy%Hin E. destruct Hx as [Hx _], Hy as [Hy _]. rewrite E in Hx. congruence.
  - intros r [Hr Hu]%Hin. split; [done|]. apply andb_prop in Hu as [Hu%bool_decide_eq_true _]. by rewrite Hu.
  - exists p'. unfold events. rewrite length_fmap. split_and!; [done|done|]. intros k run Hrun.
    destruct (Hk k run Hrun) as [|[Hkl Hk0]]; [by left|]. right. split; [done|].
    destruct (uncertain_run run) eqn:Hu; [|done]. exfalso. apply Hkl.
    rewrite <- (run_id_key _ _ _ Hwf Hk0). apply list_elem_of_fmap_2, Hin. by rewrite (run_id_key _ _ _ Hwf Hk0).
Qed.

Lemma no_uncertain_runs p k run : projection_wf p -> interrupted_native_runs p = [] ->
  sp_runs p !! k = Some run -> uncertain_run run = false.
Proof.
  intros Hwf Hn Hk. destruct (uncertain_run run) eqn:Hu; [|done]. exfalso.
  assert (Hin : run ∈ interrupted_native_runs p).
  { unfold interrupted_native_runs. apply elem_of_runs_with; [done|]. by rewrite (run_id_key _ _ _ Hwf Hk). }
  rewrite Hn in Hin. by apply not_elem_of_nil in Hin.
Qed.

(** One session of a start; the others and the workers of others stay. *)
Record session_step (id : string) (w w' : World) : Prop := {
  se_store : consistent (w_store w');
  se_others : forall j, j <> id -> view j (w_store w') = view j (w_store w) /\ log j (w_store w') = log j (w_store w);
  se_shutdown : w_shutdown w' = w_shutdown w;
  se_workers : w_workers w ⊆ w_workers w' }.

Lemma spawn_outcome id w : exists w', spawn_worker id w = (w', Ok ()) /\ w_store w' = w_store w
  /\ w_shutdown w' = w_shutdown w /\ w_workers w ⊆ w_workers w' /\ (w_shutdown w' = false -> id ∈ w_workers w').
Proof.
  unfold spawn_worker, modify. destruct (w_shutdown w) eqn:Hs; eexists; (split; [done|]).
  - split_and!; try done. congruence.
  - simpl. split_and!; try done; set_solver.
Qed.

Lemma resume_session_resumes id w p : consistent (w_store w) -> view id (w_store w) = Some p ->
  ss_phase (sp_state p) <> Running -> log_length id (w_store w) + Z.of_nat (size (sp_runs p)) <= i64_max ->
  exists w' p', resume_session_after_restart id w = (w', Ok ()) /\ session_step id w w'
    /\ view id (w_store w') = Some p' /\ resumed id p p' w'.
Proof.
  intros Hcs Hv Hph Hroom. pose proof (view_wf _ _ _ Hv) as Hwf.
  pose proof (view_projection (w_store w) id Hcs) as Hp. rewrite Hv in Hp. destruct Hp as (c & Ep & Hcs').
  assert (Er : read_projection id w = (cached c w, Ok p)) by (unfold read_projection, on_store; by rewrite Ep).
  unfold resume_session_after_restart. rewrite (bind_Ok _ _ _ _ _ Er).
  destruct (interrupted_native_runs p) as [|r l] eqn:Hl.
  - assert (Hset : settled_session p) by (split; [done|]; intros k run; by apply no_uncertain_runs).
    assert (Hno : forall k run, sp_runs p !! k = Some run -> uncertain_run run = true ->
      exists run', sp_runs p !! k = Some run' /\ terminal (rp_status run') = true).
    { intros k run Hk Hu. rewrite (no_uncertain_runs p k run Hwf Hl Hk) in Hu. done. }
    destruct (bool_decide_reflect (is_Some (ready_action_run p))) as [Hr|Hr].
    + destruct (spawn_outcome id (cached c w)) as (w' & -> & Es & Eh & Hw & Hi). exists w', p. split; [done|].
      split; [split; rewrite ?Es, ?Eh; done|]. split; [by rewrite Es|]. split; [done|]. split; [done|]. by split.
    + exists (cached c w), p. split; [done|]. split; [by split|]. split; [done|]. split; [done|]. by split.
  - destruct (uncertain_runs_apply (log_length id (w_store w)) p Hwf Hroom) as (p' & Hf & Hph' & Hk).
    rewrite Hl in Hf. set (events := _ <$> r :: l) in Hf.
    pose proof (append_many_view id events (cached c w) p Hcs' Hv ltac:(done)) as Ha.
    change (log_length id (w_store (cached c w))) with (log_length id (w_store w)) in Ha. rewrite Hf in Ha.
    destruct Ha as (st & Ea & Hlog & Hv' & Hst' & Hfr). unfold events in Ea. rewrite (bind_Ok _ _ _ _ _ Ea).
    exists (appended_world id st events (cached c w)), p'. split; [done|]. split; [split|split; [done|split; [|split]]]; try done.
    + intros j Hj. by apply (view_frame (w_store (cached c w)) st id j).
    + split; [by rewrite Hph'|]. intros k run Hrun. destruct (Hk k run Hrun) as [Ht|[_ Hu]]; [|done].
      unfold uncertain_run. case_bool_decide as Hs; [by rewrite Hs in Ht|done].
    + intros k run Hrun Hu.
      assert (He : extends p p').
      { destruct (grows_view (w_store (cached c w)) st id p Hst') as (q & Hq & He); [|done|congruence].
        apply (frame_grows id); [done|]. rewrite Hlog. by eexists. }
      destruct (ext_runs _ _ He k run Hrun) as (run' & Hrun' & _). exists run'. split; [done|].
      destruct (Hk k run' Hrun') as [|[Hk0 Hu']]; [done|]. simplify_eq. congruence.
    + by rewrite Hl.
Qed.

Lemma resume_sessions ids : forall w, consistent (w_store w) -> NoDup ids ->
  (forall id, id ∈ ids -> exists p, view id (w_store w) = Some p /\ ss_phase (sp_state p) <> Running
     /\ log_length id (w_store w) + Z.of_nat (size (sp_runs p)) <= i64_max) ->
  exists w', each resume_session_after_restart ids w = (w', Ok ())
    /\ consistent (w_store w') /\ w_shutdown w' = w_shutdown w /\ w_workers w ⊆ w_workers w'
    /\ (forall id p, id ∈ ids -> view id (w_store w) = Some p ->
          exists p', view id (w_store w') = Some p' /\ resumed id p p' w')
    /\ (forall id, id ∉ ids -> view id (w_store w') = view id (w_store w)).
Proof.
  induction ids as [|id ids IH]; intros w Hcs Hnd Hids.
  - exists w. split_and!; try done. by intros id p Hid%elem_of_nil.
  - apply NoDup_cons in Hnd as [Hid Hnd]. destruct (Hids id ltac:(by left)) as (p & Hv & Hph & Hroom).
    destruct (resume_session_resumes id w p Hcs Hv Hph Hroom) as (w1 & p1 & E & [Hcs1 Ho Hs1 Hw1] & Hv1 & Hr1).
    destruct (IH w1 Hcs1 Hnd) as (w' & E' & Hcs' & Hs' & Hw' & Hin & Hout).
    { intros j Hj. assert (j <> id) as Hne by congruence. destruct (Hids j ltac:(by right)) as (q & Hq & Hr).
      destruct (Ho j Hne) as [Hvj Hlj]. exists q. unfold log_length. by rewrite Hvj, Hlj. }
    exists w'. cbn [each]. rewrite (bind_Ok _ _ _ _ _ E). split_and!; [done|done|congruence|by etrans| |].
    + intros j q [->|Hj]%elem_of_cons Hq.
      * assert (q = p) as -> by congruence. exists p1. split; [by rewrite Hout|].
        destruct Hr1 as (H1 & H2 & H3). split; [done|]. split; [done|]. intros Hn. destruct (H3 Hn) as [-> H4].
        split; [done|]. intros Ha Hb. apply Hw', H4; [done|congruence].
      * assert (j <> id) as Hne by congruence. apply Hin; [done|]. by rewrite (proj1 (Ho j Hne)).
    + intros j [Hne Hj]%not_elem_of_cons. rewrite Hout by done. by apply Ho.
Qed.

End resume.

(** ** Starting *)

Section start.
  Context `{EventCodec} `{Outside} `{Documents} `{Process}.

(** The database of the options, as it is opened. *)
Definition database_of (o : ServerOptions) (m : Machine) : DatabaseFile :=
  default new_database (mc_databases m !! so_database o).
Definition opened (o : ServerOptions) (m : Machine) : SqliteStore := mkStore (df_content (database_of o m)) ∅.

(** A database that earlier servers wrote, with room for the events of a start. *)
Record database_sane (o : ServerOptions) (m : Machine) : Prop := {
  ds_readable : df_readable (database_of o m) = true;
  ds_integrity : df_integrity (database_of o m) = "ok";
  ds_foreign_keys : df_foreign_keys (database_of o m) = 0%nat;
  ds_migrates : df_migrates (database_of o m) = true;
  ds_consistent : consistent (opened o m);
  ds_links : links_wf (df_content (database_of o m)) (df_links (database_of o m)) }.
Record database_roomy (o : ServerOptions) (m : Machine) : Prop := {
  dr_recover : forall id row, db_sessions (df_content (database_of o m)) !! id = Some row ->
    sr_last_event_id row + 2 <= i64_max;
  dr_resume : roomy (fst (recover_running_sessions (clock (mc_ticks m)) (opened o m))) }.

(** What a start needs besides the database. *)
Record admits_start (o : ServerOptions) (m m1 : Machine) (lock : option path) (config : PiqoConfig)
    (address : SocketAddr) : Prop := {
  as_bind : is_loopback (sa_ip (so_bind o)) = true;
  as_url : database_options (so_database o) = true;
  as_listener : bind_listener (so_bind o) = Some address;
  as_lock : take_lock o m = (m1, Ok lock);
  as_config : load (mc_files m1) (so_config o) = Ok config }.

Lemma take_lock_keeps o m m1 r : take_lock o m = (m1, r) ->
  mc_databases m1 = mc_databases m /\ mc_ticks m1 = mc_ticks m
  /\ match r with
     | Ok (Some file) => file ∉ mc_locks m /\ mc_locks m1 = {[file]} ∪ mc_locks m
     | _ => mc_locks m1 = mc_locks m
     end.
Proof.
  unfold take_lock, acquire_lock. destruct (so_instance_lock o) as [lock|]; [|by intros [= <- <-]].
  destruct (open_or_create _ _) as [[fs file]|]; [|by intros [= <- <-]].
  destruct (decide (file ∈ mc_locks m)); by intros [= <- <-].
Qed.

Lemma prepare_locked_keeps o lock m m' r : prepare_locked o lock m = (m', r) ->
  mc_files m' = mc_files m /\ mc_locks m' = mc_locks m /\ (forall p, r = Ok p -> ps_lock p = lock).
Proof.
  unfold prepare_locked. destruct (load _ _) as [config|]; [|by intros [= <- <-]].
  destruct (connect _ _) as [[f store]|]; [|by intros [= <- <-]].
  destruct (recover_running_sessions _ _) as [store' [|]]; [|by intros [= <- <-]].
  destruct (bind_listener _); [|by intros [= <- <-]]. destruct (with_config_manager _ _ _ _ _); [|by intros [= <- <-]].
  destruct (resume_ready_actions_after_restart _) as [w r']. intros [= <- <-]. split_and!; [done|done|].
  intros p. destruct r'; simpl; [|done]. by intros [= <-].
Qed.

(** A name for the lock below directories without symbolic links. *)
Definition plain_lock (fs : file_system) (lock : path) : Prop :=
  exists d c, lock = d ++ [c] /\ real_dir fs d
    /\ (node_at fs lock = None \/ exists content, node_at fs lock = Some (File content)).

Lemma open_plain fs lock : plain_lock fs lock -> exists fs', open_or_create fs lock = Some (fs', lock)
  /\ forall content, open_or_create (<[lock := File content]> fs') lock = Some (<[lock := File content]> fs', lock).
Proof.
  intros (d & c & -> & Hd & Hn). unfold open_or_create.
  assert (Hopen : forall fs0 content, real_dir fs0 d -> node_at fs0 (d ++ [c]) = Some (File content) ->
    realpath fs0 (d ++ [c]) = Ok (d ++ [c])).
  { intros fs0 content Hd0 Hn0. apply real_realpath. unfold real. by rewrite (real_dir_child _ _ _ Hd0), Hn0. }
  assert (Hnext : forall fs0 content, real_dir fs0 d ->
    realpath (<[d ++ [c] := File content]> fs0) (d ++ [c]) = Ok (d ++ [c])
    /\ node_at (<[d ++ [c] := File content]> fs0) (d ++ [c]) = Some (File content)).
  { intros fs0 content Hd0.
    assert (En : node_at (<[d ++ [c] := File content]> fs0) (d ++ [c]) = Some (File content))
      by by rewrite node_at_snoc, lookup_insert_eq.
    split; [|done]. apply (Hopen _ content); [by apply real_dir_insert|done]. }
  destruct Hn as [Hn|[content Hn]].
  - assert (E : realpath fs (d ++ [c]) = Err IoNotFound).
    { unfold realpath. cbn. by rewrite (real_dir_child _ _ _ Hd), Hn. }
    unfold parent. rewrite E, removelast_last, List.last_last, (real_realpath _ _ (proj1 Hd)), (proj2 Hd), Hn.
    eexists. split; [done|]. intros text.
    destruct (Hnext (<[d ++ [c] := File ""]> fs) text) as [-> ->]; [by apply real_dir_insert|done].
  - rewrite (Hopen _ _ Hd Hn), Hn. eexists. split; [done|]. intros text. by destruct (Hnext fs text Hd) as [-> ->].
Qed.

End start.

(** C21. One server per lock.  A start that fails leaves the locks as they are; one
    that succeeds holds one file more, which nobody held, when it was asked to.
    As long as it is held, another start with the same lock is refused with
    [instance_already_running] and changes neither files nor databases. *)
Theorem one_server_per_lock `{EventCodec} `{Outside} `{Documents} `{Process} o m m' r :
  prepare_server o m = (m', r) ->
  match r, so_instance_lock o with
  | Err _, _ => mc_locks m' = mc_locks m
  | Ok p, None => mc_locks m' = mc_locks m /\ ps_lock p = None
  | Ok p, Some lock => exists file, ps_lock p = Some file /\ file ∉ mc_locks m /\ mc_locks m' = {[file]} ∪ mc_locks m
      /\ (plain_lock (mc_files m) lock -> forall o', so_instance_lock o' = Some lock ->
           is_loopback (sa_ip (so_bind o')) = true ->
           prepare_server o' m' = (m', Err (StartFailed (InstanceLocked lock)))
           /\ startup_code (InstanceLocked lock) = "instance_already_running")
  end.
Proof.
  unfold prepare_server at 1. destruct (validate_bind_address _); [|by intros [= <- <-]].
  destruct (take_lock o m) as [m1 [lock|e]] eqn:Et.
  2: { intros [= <- <-]. by apply take_lock_keeps in Et as (_ & _ & ->). }
  pose proof (take_lock_keeps _ _ _ _ Et) as (_ & _ & Hl).
  destruct (prepare_locked o lock m1) as [m2 [p|e]] eqn:Ep; intros [= <- <-];
    apply prepare_locked_keeps in Ep as (Ef & El & Epl).
  - specialize (Epl p eq_refl). unfold take_lock in Et. destruct (so_instance_lock o) as [name|] eqn:Ho.
    2: { injection Et as -> <-. by split. }
    destruct (acquire_lock name m) as [m3 [file|]] eqn:Ea; [|done]. injection Et as -> <-.
    destruct Hl as [Hf Hl]. exists file. rewrite El. split_and!; [done|done|done|].
    intros (fs' & Eo & Hopen)%open_plain o' Ho' Hb. unfold acquire_lock in Ea. rewrite Eo in Ea.
    destruct (decide _); [done|]. injection Ea as <- <-. split; [|done].
    unfold prepare_server, validate_bind_address. rewrite Hb. unfold take_lock. rewrite Ho'. unfold acquire_lock.
    rewrite Ef. simpl. rewrite Hopen. rewrite decide_True by (rewrite El, Hl; set_solver).
    unfold set_mc_files. by destruct m2; simpl in *; subst.
  - destruct lock as [file|]; simpl; rewrite ?El, ?Hl; [|done]. destruct Hl as [Hf ->]. set_solver.
Qed.

(** ** A start that succeeds *)

Section started.
  Context `{EventCodec} `{Outside} `{Documents} `{Process}.
  Context (uuid_inj : forall m n, uuid m = uuid n -> m = n).

Definition recovered (o : ServerOptions) (m : Machine) : SqliteStore :=
  fst (recover_running_sessions (clock (mc_ticks m)) (opened o m)).

(** The server serves what the database holds: every session is there with its
    history; after the recovery nothing of it runs or is uncertain, and a run that
    has all its results goes on. *)
Record serves_database (o : ServerOptions) (m m' : Machine) (p : PreparedServer) : Prop := {
  sd_sound : sound (app_world (ps_state p));
  sd_valid : validate_config url_scheme header_ok (ConfigManager.snapshot (app_manager (ps_state p))) = Ok ();
  sd_running : w_shutdown (app_world (ps_state p)) = false /\ app_shutting_down (ps_state p) = false;
  sd_sessions : forall id q, view id (opened o m) = Some q ->
    exists q1 q', view id (recovered o m) = Some q1 /\ view id (w_store (app_world (ps_state p))) = Some q'
      /\ extends q q' /\ resumed id q1 q' (app_world (ps_state p));
  sd_written : opened o m' = mkStore (st_db (w_store (app_world (ps_state p)))) ∅ }.

Lemma connect_sane o m : database_sane o m -> database_options (so_database o) = true ->
  connect (so_database o) m = Ok (database_of o m, opened o m).
Proof.
  intros [Hr Hi Hf Hm Hc%consistent_validates _] Hu. unfold connect. rewrite Hu. simpl. fold (database_of o m).
  rewrite Hr, Hi, Hf, Hm. simpl in *. by rewrite Hc.
Qed.

(** The recovery of the store. *)
Lemma recovery_settles o m : database_sane o m -> database_roomy o m ->
  exists s es, recover_running_sessions (clock (mc_ticks m)) (opened o m) = (s, Ok es)
    /\ consistent s /\ grows (opened o m) s /\ roomy s
    /\ forall id q, view id s = Some q -> ss_phase (sp_state q) <> Running.
Proof.
  intros [_ _ _ _ Hcs _] [Hb Hroom].
  destruct (recover_all_ok (clock (mc_ticks m)) (running_ids (st_db (opened o m))) (opened o m) Hcs (running_ids_NoDup _))
    as (s & es & E & _ & Hcs' & Hout & Hin).
  { intros id (row & Hrow & Hrun)%elem_of_running. exists row. eauto. }
  exists s, es. unfold recover_running_sessions in *. rewrite E in Hroom.
  pose proof (recover_advances (clock (mc_ticks m)) (opened o m) Hcs) as [_ Hg]. unfold recover_running_sessions in Hg.
  rewrite E in Hg. split_and!; [done|done|done|done|]. intros id q Hq Hph.
  apply view_row in Hq as (row & evs & Hok); [|done].
  assert (Hrow : db_sessions (st_db s) !! id = Some row) by apply Hok.
  assert (Hrp : sr_phase row = Running) by by rewrite (ro_phase _ _ _ _ _ Hok).
  destruct (decide (id ∈ running_ids (st_db (opened o m)))) as [Hi|Hi].
  - apply Hin in Hi. rewrite Hrow in Hi. simpl in Hi. congruence.
  - apply Hi, elem_of_running. exists row. rewrite Hout in Hrow by done. done.
Qed.

Lemma prepare_locked_starts o lock m config address :
  database_sane o m -> database_roomy o m -> database_options (so_database o) = true ->
  bind_listener (so_bind o) = Some address -> load (mc_files m) (so_config o) = Ok config ->
  exists m' p, prepare_locked o lock m = (m', Ok p) /\ serves_database o m m' p.
Proof.
  intros Hsane Hroom Hu Hb Hl. destruct (recovery_settles o m Hsane Hroom) as (s & es & Er & Hcs & Hg & Hr & Hph).
  assert (Erec : recovered o m = s) by (unfold recovered; by rewrite Er).
  unfold prepare_locked. rewrite Hl, (connect_sane _ _ Hsane Hu), Er, Hb.
  pose proof (load_valid _ _ _ Hl) as Hv. destruct (valid_servers _ Hv) as [mcp Hm].
  unfold with_config_manager. cbv zeta.
  change (ConfigManager.snapshot (ConfigManager.new _ config _ _)) with config. rewrite Hm. cbn [ok mbind option_bind].
  set (app := mkApp _ _ _ _ _ _ _). set (w0 := set_ticks _ (enter_world app)).
  assert (Hs0 : sound w0).
  { split; simpl; [done|apply new_admission_wf| | |]; try (intros r id; by rewrite lookup_empty).
    eapply (links_grow (opened o m)); [apply Hsane|done|done|apply Hsane]. }
  destruct (resume_sessions (btree_keys (db_sessions (st_db s))) w0 Hcs (btree_keys_NoDup _))
    as (w' & E & Hcs' & Hsh & _ & Hin & Hout).
  { intros id Hid. destruct (id_viewed _ _ Hcs Hid) as [q Hq]. exists q. split; [done|]. split; [by eapply Hph|].
    specialize (Hr id q Hq). simpl. lia. }
  assert (E' : resume_ready_actions_after_restart w0 = (w', Ok ())) by exact E.
  rewrite E'. eexists _, _. split; [reflexivity|].
  destruct (keeps_resume_after_restart advances (KeptPrimitives0 := advances_primitives uuid_inj) w0 Hs0) as (Hs' & Hg' & _).
  rewrite E' in Hs', Hg'. split; simpl; [done|done|by rewrite Hsh| |].
  - intros id q Hq. destruct (grows_view _ _ _ _ Hcs Hg Hq) as (q1 & Hq1 & He).
    destruct (Hin id q1) as (q' & Hq' & Hres); [by apply viewed_id in Hq1|done|].
    destruct (grows_view _ _ _ _ Hcs' Hg' Hq1) as (q2 & Hq2 & He').
    exists q1, q'. rewrite Erec. split_and!; [done|done| |done]. simpl in *. etrans; [exact He|].
    by replace q' with q2 by congruence.
  - unfold opened, database_of. simpl. by rewrite lookup_insert_eq.
Qed.

Lemma same_database o m m1 : mc_databases m1 = mc_databases m -> mc_ticks m1 = mc_ticks m ->
  database_sane o m -> database_roomy o m ->
  opened o m1 = opened o m /\ recovered o m1 = recovered o m /\ database_sane o m1 /\ database_roomy o m1.
Proof.
  intros Hd Ht [] []. unfold recovered. assert (Eo : opened o m1 = opened o m) by (unfold opened, database_of; by rewrite Hd).
  assert (Ed : database_of o m1 = database_of o m) by (unfold database_of; by rewrite Hd).
  split_and!; [done|by rewrite Eo, Ht| |]; split; rewrite ?Ed, ?Eo, ?Ht; done.
Qed.

Lemma prepare_server_starts o m m1 lock config address :
  admits_start o m m1 lock config address -> database_sane o m -> database_roomy o m ->
  exists m' p, prepare_server o m = (m', Ok p) /\ serves_database o m m' p.
Proof.
  intros [Hb Hu Hl Ht Hc] Hs Hr. destruct (take_lock_keeps _ _ _ _ Ht) as (Hd & Hn & _).
  destruct (same_database o m m1 Hd Hn Hs Hr) as (Eo & Erec & Hs1 & Hr1).
  destruct (prepare_locked_starts o lock m1 config address Hs1 Hr1 Hu Hl Hc) as (m' & p & Ep & []).
  exists m', p. split.
  - unfold prepare_server, validate_bind_address. by rewrite Hb, Ht, Ep.
  - split; try done. by rewrite <- Eo, <- Erec.
Qed.

(** A start that succeeded had what it needs. *)
Lemma prepare_server_Ok o m m' p : prepare_server o m = (m', Ok p) ->
  exists m1 lock config address, admits_start o m m1 lock config address.
Proof.
  unfold prepare_server, validate_bind_address. destruct (is_loopback _) eqn:Hb; [|done].
  destruct (take_lock o m) as [m1 [lock|]] eqn:Ht; [|done].
  destruct (prepare_locked o lock m1) as [m2 [p'|]] eqn:Ep; [|done]. intros _. unfold prepare_locked in Ep.
  destruct (load _ _) as [config|] eqn:Hc; [|done]. destruct (connect _ _) as [[f s]|] eqn:Hu; [|done].
  destruct (recover_running_sessions _ _) as [s' [|]]; [|done]. destruct (bind_listener _) as [address|] eqn:Hl; [|done].
  exists m1, lock, config, address. split; try done. unfold connect in Hu. by destruct (database_options _).
Qed.

Lemma started_serves o m m' p : database_sane o m -> database_roomy o m -> prepare_server o m = (m', Ok p) ->
  serves_database o m m' p.
Proof.
  intros Hs Hr Hp. destruct (prepare_server_Ok _ _ _ _ Hp) as (m1 & lock & config & address & Ha).
  destruct (prepare_server_starts _ _ _ _ _ _ Ha Hs Hr) as (m2 & p2 & E & Hd). rewrite Hp in E. by injection E as -> ->.
Qed.

Lemma left_sane o lock s m : sound (app_world s) -> database_sane o (left_machine o lock s m)
  /\ opened o (left_machine o lock s m) = mkStore (st_db (w_store (app_world s))) ∅.
Proof.
  intros [Hcs _ _ _ Hl].
  assert (Ed : database_of o (left_machine o lock s m) = mkDatabaseFile true "ok" 0 true (st_db (w_store (app_world s)))
    (w_rules (app_world s)) (w_links (app_world s))).
  { unfold database_of, left_machine. destruct lock; simpl; by rewrite lookup_insert_eq. }
  unfold opened. split; [|by rewrite Ed]. split; unfold opened; rewrite Ed; try done. by apply reopened_consistent.
Qed.

End started.


(** ** The end *)

(** The answer of [run]. *)
Definition exit_of `{EventCodec} (served : result io_error ()) (finished : bool) (s : AppState) : result StartFault () :=
  if finished then
    match served, app_fatal_reload_error s with
    | Err _, _ => Err (StartFailed SIo)
    | Ok _, Some message => Err (StartFailed (SConfigReload message))
    | Ok _, None => Ok ()
    end
  else Err (StartFailed SShutdownTimeout).

(** C20. Stopping.  However the server ended and whatever the workers were doing,
    after [run] no run of any session is queued, running or waiting, no session is
    running, all capacity has been given back, no worker is left, every MCP server
    is stopped and new work is refused.  The process exits with 0 exactly when the
    workers ended in time, the listener did not fail and no reload was fatal;
    otherwise the first of these, in this order, is its error. *)
Theorem stopping_ends_everything `{EventCodec} `{Outside} served finished s :
  (forall m n, uuid m = uuid n -> m = n) -> sound (app_world s) -> roomy (w_store (app_world s)) ->
  let '(s', r) := Startup.run served finished s in
  let w := app_world s' in
  (forall id p, view id (w_store w) = Some p -> ss_phase (sp_state p) <> Running
     /\ forall k run, sp_runs p !! k = Some run -> rp_status run ∉ [RQueued; RRunning; RRequiresAction])
  /\ as_run_sessions (w_admission w) = ∅ /\ as_pending (w_admission w) = 0 /\ w_workers w = []
  /\ (forall id e, w_mcp w !! id = Some e -> me_state e = McpStopped)
  /\ (forall id q, snd (queue_run id q w) = Err (Fail ShuttingDown)) /\ app_shutting_down s' = true
  /\ r = exit_of served finished s
  /\ (finish_process r = 0 <-> finished = true /\ is_ok served = true /\ app_fatal_reload_error s = None).
Proof.
  intros Hu Hs Hroom.
  assert (Hs1 : sound (enter_world (begin_shutdown s))) by (destruct Hs; by split).
  destruct (shutdown_leaves_nothing_running (enter_world (begin_shutdown s)) finished Hu Hs1 Hroom)
    as (w & E & Hst & Ha & Hp & Hw & Hsd & _).
  assert (Hm : forall id e, shutdown_manager (w_mcp w) !! id = Some e -> me_state e = McpStopped).
  { intros id e. unfold shutdown_manager. rewrite lookup_fmap. destruct (w_mcp w !! id); [|done]. by intros [= <-]. }
  assert (Hq : forall id q w', w_shutdown w' = true -> snd (queue_run id q w') = Err (Fail ShuttingDown)).
  { intros id q w' Hw'. unfold queue_run, ensure_running, gets, mbind, M_bind. by rewrite Hw'. }
  unfold Startup.run. rewrite E. unfold exit_of.
  destruct finished, served as [[]|]; [destruct (app_fatal_reload_error s) as [message|] eqn:Hf|..]; simpl; rewrite ?Hf;
    (split_and!; [done|done|done|done|done|by intros; apply Hq|done|done|]);
    (split; [|intros (? & ? & ?)]; simpl; first [done|by intros|congruence]).
Qed.

(** ** A concrete server *)

#[local] Existing Instance plain_codec.

(** [roomy] and the room for a recovery, as tests. *)
Lemma roomy_test s : consistent s ->
  forallb (fun id => match view id s with
                     | Some p => log_length id s + Z.of_nat (size (sp_runs p)) + 1 <=? i64_max
                     | None => true
                     end) (btree_keys (db_sessions (st_db s))) = true -> roomy s.
Proof.
  intros Hcs Ht id p Hv. rewrite forallb_forall in Ht. specialize (Ht id). rewrite Hv in Ht.
  apply Z.leb_le, Ht, list_elem_of_In. by eapply viewed_id.
Qed.

Definition example_process : Process := {|
  database_options := fun _ => true;
  bind_listener := fun a => Some a;
  process_id := 7;
  home := Some "/home";
  random_token := Ok "token";
  show_address := fun _ => "127.0.0.1:1";
  display_server := fun _ => "error" |}.
#[local] Existing Instance example_process.
#[local] Existing Instance api_outside.
#[local] Existing Instance example_documents.
#[local] Existing Instance example_http.

Definition example_options : ServerOptions :=
  mkOptions (mkSocketAddr (V4 127 0 0 1) 0) "db" config_path None (Some ["home"; "piqo.lock"]).

(** A machine whose last server was killed in the middle of a run. *)
Definition crashed_events : list SemanticEvent := take 3 external_events.
Definition crashed_machine : Machine :=
  mkMachine (<[config_path := File "edited"]> config_fs) ∅
    {["db" := mkDatabaseFile true "ok" 0 true (st_db (scenario_store crashed_events)) [] []]} 5.

Definition started : Machine * result StartFault PreparedServer := prepare_server example_options crashed_machine.
Definition started_server : PreparedServer :=
  default (mkPrepared (so_bind example_options) small_app None None) (ok (snd started)).

Lemma started_eq : started = (fst started, Ok started_server).
Proof. vm_compute. reflexivity. Qed.

Lemma crashed_sane : database_sane example_options crashed_machine.
Proof.
  split; try reflexivity.
  - apply (reopened_consistent (scenario_store crashed_events)), scenario_consistent.
  - split; try constructor. done.
Qed.

Lemma crashed_roomy : database_roomy example_options crashed_machine.
Proof.
  split.
  - intros id row Hrow. revert id row Hrow.
    assert (Hb : map_Forall (fun _ row => sr_last_event_id row + 2 <= i64_max)
      (db_sessions (df_content (database_of example_options crashed_machine)))); [|exact Hb].
    apply (bool_decide_unpack _). vm_compute. reflexivity.
  - apply roomy_test; [|vm_compute; reflexivity].
    apply (recover_advances _ _ (ds_consistent _ _ crashed_sane)).
Qed.

(** The lock is held; a second start is refused; the database is untouched. *)
Lemma one_server_per_lock_witness :
  mc_locks (fst started) = {[ ["home"; "piqo.lock"] ]}
  /\ prepare_server example_options (fst started) = (fst started, Err (StartFailed (InstanceLocked ["home"; "piqo.lock"]))).
Proof.
  pose proof (one_server_per_lock _ _ _ _ started_eq) as (file & Hf & _ & Hl & Hsecond).
  split.
  - rewrite Hl. assert (file = ["home"; "piqo.lock"]) as ->.
    { assert (E : ps_lock started_server = Some ["home"; "piqo.lock"]) by (vm_compute; reflexivity). congruence. }
    vm_compute. reflexivity.
  - apply Hsecond; [|reflexivity|reflexivity]. exists ["home"], "piqo.lock".
    split; [reflexivity|]. split; [split; vm_compute; reflexivity|]. left. vm_compute. reflexivity.
Defined.

(** A client resumes the queue and starts a run on the new server, which is killed
    and started again. *)
Definition resume_request : HttpRequest :=
  mkHttpRequest POST "/api/v1/sessions/s/queue/resume" "" None None false "".
Definition resumed_state : AppState := fst (serve None 10 resume_request (ps_state started_server)).
Definition busy_state : AppState := fst (serve None 10 (post_run None) resumed_state).
Definition killed_machine : Machine :=
  left_machine example_options (ps_lock started_server) busy_state (fst started).
Definition locked_machine : Machine := fst (take_lock example_options killed_machine).

Definition killed_config : PiqoConfig := default config_default (ok (load (mc_files locked_machine) config_path)).

Lemma killed_admits : admits_start example_options killed_machine locked_machine (Some ["home"; "piqo.lock"])
  killed_config (so_bind example_options).
Proof. split; vm_compute; reflexivity. Qed.

Lemma killed_steps : api_steps (so_auth_token example_options) (ps_state started_server) busy_state.
Proof.
  eapply rtc_l; [by apply (step_request _ _ 10 resume_request)|].
  apply rtc_once. by apply (step_request _ _ 10 (post_run None)).
Qed.

Lemma killed_rows : map_Forall (fun _ row => sr_last_event_id row + 2 <= i64_max)
  (db_sessions (df_content (database_of example_options killed_machine))).
Proof. apply (bool_decide_unpack _). vm_compute. reflexivity. Qed.

Definition crashed_view : SessionProjection :=
  default (SessionProjection.new "s") (view "s" (opened example_options crashed_machine)).


(** The busy server is stopped: the run that was queued is interrupted. *)
Lemma stopping_ends_everything_witness :
  let ended := Startup.run (Ok ()) true busy_state in
  w_workers (app_world busy_state) = ["s"; "s"] /\ w_workers (app_world (fst ended)) = [] /\ finish_process (snd ended) = 0.
Proof.
  intros ended. split; [vm_compute; reflexivity|].
  pose proof (started_serves (H0 := api_outside) example_uuid_inj _ _ _ _ crashed_sane crashed_roomy started_eq) as Hd.
  pose proof (steps_advance (H0 := api_outside) example_uuid_inj _ _ _ killed_steps (sd_sound _ _ _ _ Hd)) as (Hs & _).
  assert (Hr : roomy (w_store (app_world busy_state))).
  { apply roomy_test; [apply Hs|vm_compute; reflexivity]. }
  pose proof (stopping_ends_everything (H0 := api_outside) (Ok ()) true busy_state example_uuid_inj Hs Hr) as Ht.
  unfold ended. destruct (Startup.run _ _ _) as [s' r]. destruct Ht as (_ & _ & _ & Hw & _ & _ & _ & _ & Hx).
  split; [exact Hw|]. apply Hx. split; [done|]. split; [done|]. vm_compute. reflexivity.
Defined.
