(* ===== verification/LocksSpec.v ===== *)
(** Sessions are worked on by one task at a time, active runs stay within their
    number, and when tasks can stand still (file Locks). *)

From S2P Require Export Locks.
From S2P Require Import StoreSpec.
From S2P Require Export World.

(** ** Calls of a state *)

(** Call [i] of a task, from the innermost. *)
Definition call_at (s : LockState) (t i : nat) (c : Call) : Prop :=
  exists calls, ls_tasks s !! t = Some calls /\ calls !! i = Some c.

Lemma call_at_fun s t i c c' : call_at s t i c -> call_at s t i c' -> c = c'.
Proof. intros (l & Hl & Hc) (l' & Hl' & Hc'). congruence. Qed.

Lemma locked_true lock s :
  locked lock s = true <-> exists t i c, call_at s t i c /\ guards c = true /\ ca_lock c = lock.
Proof.
  unfold locked. rewrite existsb_exists. split.
  - intros ([t calls] & Ht%list_elem_of_In%elem_of_map_to_list & (c & Hc & Hg)%existsb_exists).
    apply andb_true_iff in Hg as [Hg Hl%Nat.eqb_eq]. apply list_elem_of_In, list_elem_of_lookup in Hc as [i Hc].
    exists t, i, c. split_and!; [by exists calls|done..].
  - intros (t & i & c & (calls & Ht & Hc) & Hg & Hl). exists (t, calls). split.
    + by apply list_elem_of_In, elem_of_map_to_list.
    + apply existsb_exists. exists c. split; [by eapply list_elem_of_In, list_elem_of_lookup_2|].
      by rewrite Hg, (proj2 (Nat.eqb_eq _ _)).
Qed.

(** Two calls count twice. *)
Lemma filter_twice {A} (f : A -> bool) l i j x y : l !! i = Some x -> l !! j = Some y -> i <> j ->
  f x = true -> f y = true -> (2 <= length (List.filter f l))%nat.
Proof.
  assert (forall l i x, l !! i = Some x -> f x = true -> (1 <= length (List.filter f l))%nat) as Hone.
  { clear. induction l as [|z l IH]; intros [|i] x Hi Hf; simplify_eq/=; [rewrite Hf; simpl; lia|].
    specialize (IH _ _ Hi Hf). destruct (f z); simpl; lia. }
  revert i j. induction l as [|z l IH]; intros [|i] [|j] Hi Hj Hne Hfx Hfy; simplify_eq/=.
  - rewrite Hfx. specialize (Hone _ _ _ Hj Hfy). simpl. lia.
  - rewrite Hfy. specialize (Hone _ _ _ Hi Hfx). simpl. lia.
  - specialize (IH i j Hi Hj ltac:(congruence) Hfx Hfy). destruct (f z); simpl; lia.
Qed.

Lemma filter_once {A} (f : A -> bool) l i x : l !! i = Some x -> f x = true -> (1 <= length (List.filter f l))%nat.
Proof.
  revert i. induction l as [|z l IH]; intros [|i] Hi Hf; simplify_eq/=; [rewrite Hf; simpl; lia|].
  specialize (IH _ Hi Hf). destruct (f z); simpl; lia.
Qed.

Lemma weigh_twice (f : Call -> bool) (m : gmap nat (list Call)) t i c t' i' c' :
  let count := weigh (fun l => length (List.filter f l)) m in
  (exists l, m !! t = Some l /\ l !! i = Some c) -> (exists l, m !! t' = Some l /\ l !! i' = Some c') ->
  (t, i) <> (t', i') -> f c = true -> f c' = true -> (2 <= count)%nat.
Proof.
  intros count (l & Hl & Hc) (l' & Hl' & Hc') Hne Hf Hf'. unfold count. rewrite (weigh_delete _ t l) by done.
  destruct (decide (t = t')) as [<-|Ht].
  - assert (l' = l) as -> by congruence. pose proof (filter_twice f l i i' c c' Hc Hc' ltac:(congruence) Hf Hf'). lia.
  - rewrite (weigh_delete _ t' l') by (by rewrite lookup_delete_ne).
    pose proof (filter_once f l i c Hc Hf). pose proof (filter_once f l' i' c' Hc' Hf'). lia.
Qed.

Lemma weigh_one {V} `{Countable K} (f : V -> nat) (m : gmap K V) k v : m !! k = Some v -> (f v <= weigh f m)%nat.
Proof. intros Hk. rewrite (weigh_delete f k v) by done. lia. Qed.

(** ** The invariant *)

Section invariant.
  Context (max_active_runs : nat) (links : list AgentLinkRecord).

(** A call that has not released its lock has the lock of the table; a lock has one
    guard; outer calls are in their turns and belong to children of the next one;
    sessions have different locks. *)
Record locks_wf (s : LockState) : Prop := {
  lk_table : forall t i c, call_at s t i c -> ca_stage c <> Released -> ls_locks s !! ca_session c = Some (ca_lock c);
  lk_guard : forall t i c t' i' c', call_at s t i c -> call_at s t' i' c' -> guards c = true -> guards c' = true ->
    ca_lock c = ca_lock c' -> t = t' /\ i = i';
  lk_outer : forall t i c, call_at s t (S i) c -> ca_stage c = Turn;
  lk_nested : forall t i c c', call_at s t i c -> call_at s t (S i) c' -> delegates links (ca_session c) (ca_session c');
  lk_calls : forall t, ls_tasks s !! t <> Some [];
  lk_next : forall j l, ls_locks s !! j = Some l -> (l < ls_next s)%nat;
  lk_distinct : forall j j' l, ls_locks s !! j = Some l -> ls_locks s !! j' = Some l -> j = j';
  lk_active : (active s <= max_active_runs)%nat }.

Lemma no_locks_wf : locks_wf no_locks.
Proof.
  split; try (intros * (l & Hl & _)); try (intros * Hl; try intros _); try (simpl in Hl; by rewrite lookup_empty in Hl).
  unfold active, weigh. simpl. rewrite map_fold_empty. lia.
Qed.

(** The calls after a change of one task. *)
Lemma call_at_insert s m t calls u i c : m = <[t := calls]> (ls_tasks s) ->
  call_at (set_tasks m s) u i c <-> (u = t /\ calls !! i = Some c) \/ (u <> t /\ call_at s u i c).
Proof.
  intros ->. unfold call_at. simpl. split.
  - intros (l & Hl & Hc). apply lookup_insert_Some in Hl as [[<- <-]|[Hne Hl]]; [by left|]. right. split; [done|eauto].
  - intros [[-> Hc]|[Hne (l & Hl & Hc)]].
    + exists calls. by rewrite lookup_insert_eq.
    + exists l. by rewrite lookup_insert_ne.
Qed.

Lemma active_insert s m t calls : m = <[t := calls]> (ls_tasks s) ->
  active (set_tasks m s) = (length (List.filter turning calls)
    + weigh (fun l => length (List.filter turning l)) (delete t (ls_tasks s)))%nat.
Proof.
  intros ->. unfold active. simpl. rewrite (weigh_delete _ t calls) by apply lookup_insert_eq. by rewrite delete_insert_eq.
Qed.

Lemma active_split s t calls : ls_tasks s !! t = Some calls ->
  active s = (length (List.filter turning calls)
    + weigh (fun l => length (List.filter turning l)) (delete t (ls_tasks s)))%nat.
Proof. intros Ht. unfold active. by rewrite (weigh_delete _ t calls). Qed.

(** ** Steps keep it *)

Lemma advance_inv t from to s s' : advance t from to s = Some s' ->
  exists c outer, ls_tasks s !! t = Some (c :: outer) /\ ca_stage c = from
    /\ s' = set_tasks (<[t := set_stage to c :: outer]> (ls_tasks s)) s.
Proof.
  unfold advance. destruct (ls_tasks s !! t) as [[|c outer]|]; try done. case_decide; [|done]. intros [= <-]. eauto.
Qed.

(** The innermost call of a task moves; a guard is taken only of a free lock. *)
Lemma advance_wf t from to s s' : locks_wf s -> advance t from to s = Some s' -> from <> Released ->
  (bool_decide (to ∈ [Holding; Starting; Turn]) = true -> bool_decide (from ∈ [Holding; Starting; Turn]) = true
     \/ forall c, call_at s t 0 c -> locked (ca_lock c) s = false) ->
  (to = Turn -> (active s < max_active_runs)%nat) -> locks_wf s'.
Proof.
  intros Hw (c & outer & Ht & Hf & ->)%advance_inv Hfrom Hg Hmax.
  assert (Hc : call_at s t 0 c) by (by exists (c :: outer)).
  assert (Hold : forall u i x, call_at (set_tasks (<[t := set_stage to c :: outer]> (ls_tasks s)) s) u i x ->
    (u = t /\ i = 0%nat /\ x = set_stage to c) \/ (call_at s u i x /\ ((u, i) <> (t, 0%nat)))).
  { intros u i x [[-> Hx]|[Hne Hx]]%(call_at_insert _ _ _ _ u i x eq_refl); [|right; split; [done|congruence]].
    destruct i as [|i]; [by simplify_eq/=; left|]. right. split; [by exists (c :: outer)|congruence]. }
  assert (Hgc : guards (set_stage to c) = true -> forall u i x, call_at s u i x -> (u, i) <> (t, 0%nat) ->
    guards x = true -> ca_lock x = ca_lock c -> False).
  { intros Hgt u i x Hx Hne Hgx Hlx. destruct (Hg Hgt) as [Hgf|Hfree].
    - destruct (lk_guard _ Hw _ _ _ _ _ _ Hx Hc Hgx ltac:(unfold guards; by rewrite Hf) Hlx) as [-> ->]. done.
    - specialize (Hfree c Hc). assert (locked (ca_lock c) s = true) as E by (apply locked_true; eauto 6). congruence. }
  split.
  - intros u i x [(-> & -> & ->)|[Hx _]]%Hold Hs; simpl; [apply (lk_table _ Hw t 0 c Hc); congruence|by eapply lk_table].
  - intros u i x u' i' x' [(-> & -> & ->)|[Hx Hne]]%Hold [(-> & -> & ->)|[Hx' Hne']]%Hold Hgx Hgx' Hl; [done| | |by eapply lk_guard].
    + exfalso. by eapply (Hgc Hgx u' i' x').
    + exfalso. by eapply (Hgc Hgx' u i x).
  - intros u i x [(_ & ? & _)|[Hx _]]%Hold; [done|by eapply lk_outer].
  - intros u i x x' [(-> & -> & ->)|[Hx _]]%Hold [(_ & ? & _)|[Hx' _]]%Hold; try done; simpl;
      [by eapply (lk_nested _ Hw t 0 c)|by eapply lk_nested].
  - intros u. simpl. destruct (decide (u = t)) as [->|Hne]; [by rewrite lookup_insert_eq|].
    rewrite lookup_insert_ne by done. apply Hw.
  - apply (lk_next _ Hw).
  - apply (lk_distinct _ Hw).
  - rewrite (active_insert _ _ t _ eq_refl). pose proof (lk_active _ Hw) as Ha. rewrite (active_split _ _ _ Ht) in Ha, Hmax.
    set (rest := weigh _ _) in *. simpl in *. unfold turning at 1. simpl. destruct (decide (to = Turn)) as [Hto|Hto].
    + rewrite bool_decide_eq_true_2 by done. specialize (Hmax Hto). simpl. destruct (turning c); simpl in *; lia.
    + rewrite bool_decide_eq_false_2 by done. destruct (turning c); simpl in *; lia.
Qed.

(** Calls end, the others stay. *)
Lemma ended_wf s m (d : nat -> nat) : locks_wf s ->
  (forall u i c, call_at (set_tasks m s) u i c -> call_at s u (i + d u) c) -> (forall u, m !! u <> Some []) ->
  (active (set_tasks m s) <= active s)%nat -> locks_wf (set_tasks m s).
Proof.
  intros Hw Hold Hne Ha. split.
  - intros u i c Hc%Hold Hs. by apply (lk_table _ Hw _ _ _ Hc).
  - intros u i c u' i' c' Hc%Hold Hc'%Hold Hg Hg' Hl. destruct (lk_guard _ Hw _ _ _ _ _ _ Hc Hc' Hg Hg' Hl) as [-> Hi].
    split; [done|lia].
  - intros u i c Hc%Hold. by apply (lk_outer _ Hw) in Hc.
  - intros u i c c' Hc%Hold Hc'%Hold. by eapply (lk_nested _ Hw _ _ _ _ Hc).
  - done.
  - apply (lk_next _ Hw).
  - apply (lk_distinct _ Hw).
  - pose proof (lk_active _ Hw). lia.
Qed.

Lemma return_wf t s s' : locks_wf s -> return_call t s = Some s' -> locks_wf s'.
Proof.
  intros Hw. unfold return_call. destruct (ls_tasks s !! t) as [[|c outer]|] eqn:Ht; try done. case_decide; [|done].
  intros [= <-]. destruct outer as [|o outer].
  - apply (ended_wf s _ (fun _ => 0%nat) Hw).
    + intros u i x (l & Hl & Hx). rewrite Nat.add_0_r. simpl in Hl. apply lookup_delete_Some in Hl as [_ Hl]. by exists l.
    + intros u. rewrite lookup_delete_Some. intros [_ Hu]. by apply (lk_calls _ Hw u).
    + rewrite (active_split s _ _ Ht). unfold active. simpl. lia.
  - apply (ended_wf s _ (fun u => if decide (u = t) then 1 else 0)%nat Hw).
    + intros u i x [[-> Hx]|[Hne Hx]]%(call_at_insert _ _ _ _ u i x eq_refl).
      * rewrite decide_True by done. exists (c :: o :: outer). split; [done|]. by rewrite Nat.add_1_r.
      * rewrite decide_False by done. by rewrite Nat.add_0_r.
    + intros u. destruct (decide (u = t)) as [->|Hne]; [by rewrite lookup_insert_eq|]. rewrite lookup_insert_ne by done. apply Hw.
    + rewrite (active_insert _ _ t _ eq_refl), (active_split _ _ _ Ht). cbn [List.filter].
      destruct (turning c), (turning o); simpl; lia.
Qed.

Lemma abort_wf t s s' : locks_wf s -> abort_task t s = Some s' -> locks_wf s'.
Proof.
  intros Hw. unfold abort_task. destruct (ls_tasks s !! t) as [calls|] eqn:Ht; [|done]. intros [= <-].
  apply (ended_wf s _ (fun _ => 0%nat) Hw).
  - intros u i x (l & Hl & Hx). rewrite Nat.add_0_r. simpl in Hl. apply lookup_delete_Some in Hl as [_ Hl]. by exists l.
  - intros u. rewrite lookup_delete_Some. intros [_ Hu]. by apply (lk_calls _ Hw u).
  - rewrite (active_split s _ _ Ht). unfold active. simpl. lia.
Qed.

Lemma innermost_at t s c : innermost t s = Some c <-> call_at s t 0 c.
Proof.
  unfold innermost, call_at. destruct (ls_tasks s !! t) as [[|x l]|]; simpl; split; try done; try (by intros (? & [= <-] & ?));
    try (by intros (? & ? & _)).
  intros [= ->]. by exists (c :: l).
Qed.

(** The count of a lock that others have is above two. *)
Lemma strong_count_shared s t i c u j x sid : call_at s t i c -> call_at s u j x -> (t, i) <> (u, j) ->
  ca_lock x = ca_lock c -> ls_locks s !! sid = Some (ca_lock c) -> (2 < strong_count (ca_lock c) s)%nat.
Proof.
  intros Hc Hx Hne Hl Ht. unfold strong_count, clones.
  pose proof (weigh_twice (fun y => (ca_lock y =? ca_lock c)%nat) (ls_tasks s) t i c u j x Hc Hx Hne (Nat.eqb_refl _)
    (proj2 (Nat.eqb_eq _ _) Hl)) as H2.
  pose proof (weigh_one (fun l => if (l =? ca_lock c)%nat then 1 else 0)%nat (ls_locks s) _ _ Ht) as H1. cbv beta in H1, H2.
  rewrite Nat.eqb_refl in H1. lia.
Qed.

Lemma lock_release_wf t s s' : locks_wf s -> release_call t s = Some s' -> locks_wf s'.
Proof.
  intros Hw. unfold release_call. destruct (innermost t s) as [c|] eqn:Hi; [|done]. cbn [mbind option_bind].
  apply innermost_at in Hi. unfold release_session_lock.
  assert (Hadv : forall s', advance t Unguarded Released s = Some s' -> locks_wf s').
  { intros s2 H2. eapply advance_wf; [done|exact H2|done|by intros H; apply bool_decide_eq_true in H; in_list H|done]. }
  destruct (_ && _) eqn:E; [|by apply Hadv]. apply andb_true_iff in E as [Ec%Nat.eqb_eq Et%bool_decide_eq_true].
  unfold advance in *. simpl. destruct (ls_tasks s !! t) as [[|c' outer]|] eqn:Ht; try done. case_decide as Hs; [|done].
  assert (c' = c) as -> by (destruct Hi as (l & Hl & Hc); rewrite Ht in Hl; by simplify_eq/=).
  specialize (Hadv _ eq_refl). intros [= <-]. destruct Hadv as [H1 H2 H3 H4 H5 H6 H7 H8]. split; try done.
  2: { intros j l Hj. simpl in Hj. apply lookup_delete_Some in Hj as [_ Hj]. by apply (H6 j). }
  2: { intros j j' l Hj Hj'. simpl in Hj, Hj'. apply lookup_delete_Some in Hj as [_ Hj].
       apply lookup_delete_Some in Hj' as [_ Hj']. by eapply H7. }
  intros u j x Hx Hr. simpl. rewrite lookup_delete_ne; [by apply (H1 u j x)|]. intros Ex.
  apply (call_at_insert s _ t _ u j x eq_refl) in Hx.
  assert (call_at s u j x /\ (t, 0%nat) <> (u, j)) as [Hx' Hne].
  { destruct Hx as [[-> Hx]|[Hne Hx]]; [|split; [done|congruence]]. destruct j as [|j]; [by simplify_eq/=|].
    split; [by exists (c :: outer)|congruence]. }
  pose proof (lk_table _ Hw _ _ _ Hx' Hr) as Hl. rewrite <- Ex, Et in Hl. injection Hl as Hl.
  pose proof (strong_count_shared s t 0 c u j x _ Hi Hx' Hne ltac:(done) Et). lia.
Qed.

Lemma clone_lock_table sid s lock s1 : clone_lock sid s = (lock, s1) ->
  ls_locks s1 !! sid = Some lock /\ ls_tasks s1 = ls_tasks s
  /\ (forall j l, ls_locks s !! j = Some l -> ls_locks s1 !! j = Some l)
  /\ (forall j l, ls_locks s1 !! j = Some l -> ls_locks s !! j = Some l \/ j = sid /\ l = ls_next s /\ (l < ls_next s1)%nat)
  /\ (ls_next s <= ls_next s1)%nat.
Proof.
  unfold clone_lock. destruct (ls_locks s !! sid) as [l0|] eqn:E; intros [= <- <-]; [split_and!; auto; done|]. simpl.
  split_and!; [apply lookup_insert_eq|done| | |lia].
  - intros j l Hj. rewrite lookup_insert_ne; [done|congruence].
  - intros j l [[<- <-]|[_ Hj]]%lookup_insert_Some; [right; split_and!; [done..|lia]|auto].
Qed.

Lemma enter_inv t sid s s' : enter_session links t sid s = Some s' -> exists outer lock s1,
  default [] (ls_tasks s !! t) = outer /\ (forall c, head outer = Some c -> ca_stage c = Turn /\ delegates links sid (ca_session c))
  /\ clone_lock sid s = (lock, s1) /\ s' = set_tasks (<[t := mkCall sid lock Waiting :: outer]> (ls_tasks s)) s1.
Proof.
  unfold enter_session. destruct (clone_lock sid s) as [lock s1] eqn:E.
  destruct (clone_lock_table _ _ _ _ E) as (_ & Et & _ & _).
  destruct (ls_tasks s !! t) as [[|c outer]|]; [done| |].
  - destruct (_ && _) eqn:Hb; [|done]. apply andb_true_iff in Hb as [Ht%bool_decide_eq_true (l & Hl & Hp)%existsb_exists].
    apply andb_true_iff in Hp as [Hp%String.eqb_eq Hc%String.eqb_eq]. intros [= <-]. exists (c :: outer), lock, s1.
    split_and!; [done| |done|by rewrite Et]. intros x [= <-]. split; [done|]. exists l. by apply list_elem_of_In in Hl.
  - intros [= <-]. exists [], lock, s1. split_and!; [done| |done|by rewrite Et]. intros x. done.
Qed.

Lemma enter_wf t sid s s' : locks_wf s -> enter_session links t sid s = Some s' -> locks_wf s'.
Proof.
  intros Hw (outer & lock & s1 & Ho & Hh & (Hsid & Et & Htab & Hnew' & Hle)%clone_lock_table & ->)%enter_inv.
  rewrite <- Et. set (new := mkCall sid lock Waiting). set (s' := set_tasks _ s1).
  assert (Hold : forall u i c, call_at s' u i c ->
    (u = t /\ i = 0%nat /\ c = new) \/ (exists j, call_at s u j c /\ i = (j + if decide (u = t) then 1 else 0)%nat)).
  { intros u i c [[-> Hc]|[Hne Hc]]%(call_at_insert _ _ _ _ u i c eq_refl).
    - destruct i as [|i]; simplify_eq/=; [by left|]. right. exists i. rewrite decide_True by done. split; [|lia].
      destruct (ls_tasks s !! t) as [l|] eqn:Hl; simpl in Hc; [by exists l|done].
    - right. exists i. rewrite decide_False by done. split; [|lia]. unfold call_at in *. by rewrite Et in Hc. }
  assert (Hnew : guards new = false) by done. split.
  - intros u i c [(-> & -> & ->)|(j & Hc & _)]%Hold Hs; [done|]. by eapply Htab, (lk_table _ Hw).
  - intros u i c u' i' c' [(-> & -> & ->)|(j & Hc & ->)]%Hold [(-> & -> & ->)|(j' & Hc' & ->)]%Hold Hg Hg' Hl; try congruence.
    by destruct (lk_guard _ Hw _ _ _ _ _ _ Hc Hc' Hg Hg' Hl) as [-> ->].
  - intros u i c [(_ & ? & _)|(j & Hc & Hj)]%Hold; [done|]. case_decide as Hu; [|destruct j; [lia|by eapply lk_outer]].
    subst u. destruct j as [|j]; [|by eapply lk_outer]. destruct Hc as (l & Hl & Hc). rewrite Hl in Ho. simpl in Ho. subst l.
    destruct outer as [|x outer]; [done|]. simplify_eq/=. by apply Hh.
  - intros u i c c' [(-> & -> & ->)|(j & Hc & Hj)]%Hold [(_ & ? & _)|(j' & Hc' & Hj')]%Hold; try done.
    + rewrite decide_True in Hj' by done. assert (j' = 0%nat) as -> by lia. destruct Hc' as (l & Hl & Hc').
      rewrite Hl in Ho. simpl in Ho. subst l. destruct outer as [|x outer]; [done|]. simplify_eq/=. by apply Hh.
    + assert (j' = S j) as -> by lia. by eapply lk_nested.
  - intros u. simpl. destruct (decide (u = t)) as [->|Hne]; [by rewrite lookup_insert_eq|].
    rewrite lookup_insert_ne, Et by done. apply Hw.
  - intros j l [Hj|(_ & _ & Hl)]%Hnew'; [apply (lk_next _ Hw) in Hj; simpl; lia|done].
  - assert (Hnew2 : forall j, ls_locks s !! j = Some (ls_next s) -> False) by (intros j Hj%(lk_next _ Hw); lia).
    intros j j' l [Hj|(-> & -> & _)]%Hnew' [Hj'|(-> & ? & _)]%Hnew'; [by eapply (lk_distinct _ Hw)|subst; exfalso; by eapply Hnew2..|done].
  - pose proof (lk_active _ Hw) as Ha. unfold s'. rewrite (active_insert _ _ t _ eq_refl), Et. cbn [List.filter].
    change (turning new) with false. cbv iota. destruct (ls_tasks s !! t) as [l|] eqn:Hl; simpl in Ho; subst outer.
    + by rewrite <- (active_split _ _ _ Hl).
    + unfold active in Ha. by rewrite delete_id.
Qed.

Lemma act_wf a s s' : locks_wf s -> act max_active_runs links a s = Some s' -> locks_wf s'.
Proof.
  intros Hw. destruct a as [t sid|t|t|t|t|t|t|t|t]; simpl; intros Ha.
  - by eapply enter_wf.
  - unfold lock_session in Ha. destruct (innermost t s) as [c|] eqn:Hi; [|done]. cbn [mbind option_bind] in Ha.
    destruct (locked (ca_lock c) s) eqn:Hl; [done|]. eapply advance_wf; [done|exact Ha|done| |done]. intros _. right.
    intros c' Hc'. apply innermost_at in Hi. by rewrite (call_at_fun _ _ _ _ _ Hc' Hi).
  - eapply advance_wf; [done|exact Ha|done|by left|done].
  - unfold acquire_active in Ha. destruct (Nat.ltb_spec (active s) max_active_runs) as [Hlt|]; [|done].
    eapply advance_wf; [done|exact Ha|done|by left|done].
  - eapply advance_wf; [done|exact Ha|done|by left|done].
  - eapply advance_wf; [done|exact Ha|done|by intros H; apply bool_decide_eq_true in H; in_list H|done].
  - by eapply lock_release_wf.
  - by eapply return_wf.
  - by eapply abort_wf.
Qed.

Lemma steps_wf s s' : locks_wf s -> lock_steps max_active_runs links s s' -> locks_wf s'.
Proof. intros Hw Hs. induction Hs as [|s s1 s2 [a Ha] _ IH]; [done|]. apply IH. by eapply act_wf. Qed.

End invariant.

Lemma active_positive s : (0 < active s)%nat -> exists u i x, call_at s u i x /\ ca_stage x = Turn.
Proof.
  unfold active, call_at. generalize (ls_tasks s) as m. intros m. induction m as [|t l m Ht IH] using map_ind.
  - unfold weigh. rewrite map_fold_empty. lia.
  - rewrite weigh_fresh by done. intros Hp. destruct (List.filter turning l) as [|x r] eqn:Hf.
    + destruct (IH ltac:(simpl in Hp; lia)) as (u & i & y & (k & Hk & Hy) & Hs). exists u, i, y. split; [|done]. exists k.
      split; [|done]. rewrite lookup_insert_ne; [done|congruence].
    + assert (In x (List.filter turning l)) as Hx by (rewrite Hf; by left). apply filter_In in Hx as [Hx Hs].
      apply list_elem_of_In, list_elem_of_lookup in Hx as [i Hx]. exists t, i, x. split; [|by apply bool_decide_eq_true in Hs].
      exists l. by rewrite lookup_insert_eq.
Qed.

(** ** Ranks of sessions *)

(** The place of the link that made a session a child: lower for its parent. *)
Definition rank (links : list AgentLinkRecord) (session_id : string) : nat :=
  match list_find (fun l => lr_child_session_id l = session_id) links with Some (i, _) => S i | None => 0 end.

Lemma rank_child `{EventCodec} db links i l : links_wf db links -> links !! i = Some l ->
  rank links (lr_child_session_id l) = S i.
Proof.
  intros Hw Hl. unfold rank. destruct (list_find _ links) as [[j k]|] eqn:Hf.
  - apply list_find_Some in Hf as (Hk & E & _). f_equal.
    assert (k = l) as -> by (eapply (NoDup_key_inj lr_child_session_id); [apply Hw|by eapply list_elem_of_lookup_2..|done]).
    eapply (NoDup_lookup (lr_child_session_id <$> links)); [apply Hw|by rewrite list_lookup_fmap, Hk|by rewrite list_lookup_fmap, Hl].
  - apply list_find_None in Hf. rewrite Forall_forall in Hf. destruct (Hf l); [by eapply list_elem_of_lookup_2|done].
Qed.

Lemma rank_lower `{EventCodec} db links p c : links_wf db links -> delegates links p c -> (rank links p < rank links c)%nat.
Proof.
  intros Hw (l & Hl & <- & <-). apply list_elem_of_lookup in Hl as [i Hi]. rewrite (rank_child _ _ _ _ Hw Hi).
  unfold rank. destruct (list_find _ links) as [[j k]|] eqn:Hf; [|lia].
  apply list_find_Some in Hf as (Hk & E & _). pose proof (lw_order _ _ Hw j i k l Hk Hi E). lia.
Qed.

(** ** Standstill *)

(** Some step of the task, other than to be aborted, is possible. *)
Definition moves (max_active_runs : nat) (task : nat) (s : LockState) : Prop :=
  Exists (fun a => is_Some (act max_active_runs [] a s))
    [LockSession task; StartRun task; AcquireActive task; EndTurn task; DropGuard task; ReleaseLock task; ReturnCall task].

Section standstill.
  Context (max_active_runs : nat) (links : list AgentLinkRecord) (s : LockState) (Hw : locks_wf max_active_runs links s).

Lemma advances_from t c from to : call_at s t 0 c -> ca_stage c = from -> is_Some (advance t from to s).
Proof.
  intros (calls & Ht & Hc) Hf. unfold advance. rewrite Ht. destruct calls as [|x l]; [done|]. simplify_eq/=.
  rewrite decide_True by done. by eexists.
Qed.

Lemma locked_by t c : call_at s t 0 c -> ca_stage c = Waiting -> moves max_active_runs t s
  \/ exists u j x, call_at s u j x /\ guards x = true /\ ca_session x = ca_session c.
Proof.
  intros Hc Hs. destruct (locked (ca_lock c) s) eqn:Hl; [right|left].
  - apply locked_true in Hl as (u & j & x & Hx & Hg & El). exists u, j, x. split_and!; [done|done|].
    eapply (lk_distinct _ _ _ Hw); [|apply (lk_table _ _ _ Hw _ _ _ Hc); by rewrite Hs]. rewrite <- El.
    apply (lk_table _ _ _ Hw _ _ _ Hx). intros E. unfold guards in Hg. by rewrite E in Hg.
  - apply Exists_cons_hd. simpl. unfold lock_session. rewrite (proj2 (innermost_at t s c) Hc). cbn [mbind option_bind].
    rewrite Hl. by eapply advances_from.
Qed.

Lemma innermost_moves t c : call_at s t 0 c -> ca_stage c <> Waiting -> ca_stage c <> Starting -> moves max_active_runs t s.
Proof.
  intros Hc Hn Hn'. unfold moves. destruct (ca_stage c) eqn:Hs; try done.
  - do 4 apply Exists_cons_tl. apply Exists_cons_hd. by eapply advances_from.
  - do 3 apply Exists_cons_tl. apply Exists_cons_hd. by eapply advances_from.
  - do 5 apply Exists_cons_tl. apply Exists_cons_hd. simpl. unfold release_call. rewrite (proj2 (innermost_at t s c) Hc). cbn [mbind option_bind].
    destruct (advances_from t c Unguarded Released Hc Hs) as [x Hx].
    unfold release_session_lock. destruct (_ && _); [|by eexists]. unfold advance in *. simpl.
    destruct (ls_tasks s !! t) as [[|]|]; try done. case_decide; [by eexists|done].
  - do 6 apply Exists_cons_tl. apply Exists_cons_hd. simpl. unfold return_call. destruct Hc as (calls & -> & Hc).
    destruct calls as [|x l]; [done|]. simplify_eq/=. rewrite decide_True by done. by eexists.
Qed.

Lemma starting_moves t c : call_at s t 0 c -> ca_stage c = Starting -> moves max_active_runs t s \/ active s = max_active_runs.
Proof.
  intros Hc Hs. destruct (Nat.ltb_spec (active s) max_active_runs) as [Hlt|Hge]; [left|right; pose proof (lk_active _ _ _ Hw); lia].
  do 2 apply Exists_cons_tl. apply Exists_cons_hd. simpl. unfold acquire_active. rewrite (proj2 (Nat.ltb_lt _ _)) by done.
  by eapply advances_from.
Qed.

Lemma has_innermost t i c : call_at s t i c -> exists c0, call_at s t 0 c0.
Proof.
  intros (calls & Ht & _). destruct calls as [|c0 l] eqn:E; [by destruct (lk_calls _ _ _ Hw t)|]. exists c0. by exists (c0 :: l).
Qed.

Context `{EventCodec} (db : database) (Hlinks : links_wf db links).

Lemma nested_rank t i : forall c0 c, call_at s t 0 c0 -> call_at s t i c -> (rank links (ca_session c0) + i <= rank links (ca_session c))%nat.
Proof.
  induction i as [|i IH]; intros c0 c H0 Hc; [rewrite (call_at_fun _ _ _ _ _ H0 Hc); lia|].
  assert (exists c', call_at s t i c') as [c' Hc'].
  { destruct Hc as (l & Hl & Hc). destruct (l !! i) as [c'|] eqn:E; [by exists c', l|].
    apply lookup_ge_None in E. apply lookup_lt_Some in Hc. lia. }
  specialize (IH c0 c' H0 Hc'). pose proof (rank_lower _ _ _ _ Hlinks (lk_nested _ _ _ Hw _ _ _ _ Hc' Hc)). lia.
Qed.

(** The task that waits for the session highest up is not kept waiting by another
    that waits for a session. *)
Lemma some_task_moves n : forall t c, call_at s t 0 c -> (rank links (ca_session c) < n)%nat ->
  (exists u, moves max_active_runs u s)
  \/ active s = max_active_runs /\ exists u x, call_at s u 0 x /\ ca_stage x = Starting.
Proof.
  induction n as [|n IH]; intros t c Hc Hn; [lia|].
  destruct (decide (ca_stage c = Starting)) as [Hs|Hs].
  { destruct (starting_moves t c Hc Hs); [left; by eexists|right; eauto]. }
  destruct (decide (ca_stage c = Waiting)) as [Hwt|Hwt]; [|left; exists t; by eapply innermost_moves].
  destruct (locked_by t c Hc Hwt) as [|(u & j & x & Hx & Hg & Ex)]; [left; by eexists|].
  destruct (has_innermost u j x Hx) as [x0 Hx0]. destruct j as [|j].
  - clear x0 Hx0. destruct (decide (ca_stage x = Starting)) as [Hs'|Hs'].
    + destruct (starting_moves u x Hx Hs'); [left; by eexists|right; eauto].
    + left. exists u. eapply innermost_moves; [done| |done]. intros E. unfold guards in Hg. by rewrite E in Hg.
  - apply (IH u x0 Hx0). pose proof (nested_rank u (S j) x0 x Hx0 Hx). rewrite Ex in *. lia.
Qed.

End standstill.

(** ** Theorems *)

(** C3. A session is worked on by one task at a time.  However tasks interleave,
    are called again for parent sessions, and are aborted: two calls are never
    between [lock.lock()] and [drop(guard)] of the same session, although
    [release_session_lock] takes locks out of the table, and runs in a turn are
    never more than [max_active_runs]. *)
Theorem sessions_are_locked_once max_active_runs links s t i c t' i' c' :
  lock_steps max_active_runs links no_locks s ->
  call_at s t i c -> call_at s t' i' c' -> guards c = true -> guards c' = true -> ca_session c = ca_session c' ->
  (t, i) = (t', i') /\ (active s <= max_active_runs)%nat.
Proof.
  intros Hs Hc Hc' Hg Hg' He. pose proof (steps_wf _ _ _ _ (no_locks_wf max_active_runs links) Hs) as Hw.
  assert (Hr : forall c, guards c = true -> ca_stage c <> Released) by (intros x Hx E; unfold guards in Hx; by rewrite E in Hx).
  pose proof (lk_table _ _ _ Hw _ _ _ Hc (Hr _ Hg)) as Ht. pose proof (lk_table _ _ _ Hw _ _ _ Hc' (Hr _ Hg')) as Ht'.
  rewrite He in Ht. destruct (lk_guard _ _ _ Hw _ _ _ _ _ _ Hc Hc' Hg Hg' ltac:(congruence)) as [-> ->].
  split; [done|apply Hw].
Qed.

(** C4. When tasks stand still.  As long as there is a task, one of them can go on,
    unless all permits of active runs are taken and a task waits for one: locks alone
    never hold tasks up, because a task waits for a session while it has the lock of
    another only if that is its child, and links have no cycles.  Without delegation
    a task can always go on. *)
Theorem standstill_is_for_permits `{EventCodec} max_active_runs db links s t calls :
  links_wf db links -> lock_steps max_active_runs links no_locks s -> ls_tasks s !! t = Some calls ->
  ((exists u, moves max_active_runs u s)
   \/ active s = max_active_runs /\ exists u c, innermost u s = Some c /\ ca_stage c = Starting)
  /\ (links = [] -> (0 < max_active_runs)%nat -> exists u, moves max_active_runs u s).
Proof.
  intros Hl Hs Ht. pose proof (steps_wf _ _ _ _ (no_locks_wf max_active_runs links) Hs) as Hw.
  assert (exists c, call_at s t 0 c) as [c Hc].
  { destruct calls as [|c l]; [by destruct (lk_calls _ _ _ Hw t)|]. exists c. by exists (c :: l). }
  pose proof (some_task_moves max_active_runs links s Hw db Hl _ t c Hc (Nat.lt_succ_diag_r _)) as Hm. split.
  - destruct Hm as [Hm|(Ha & u & x & Hx & Hst)]; [by left|right]. split; [done|]. exists u, x. by rewrite innermost_at.
  - intros -> Hpos. destruct Hm as [Hm|(Ha & _)]; [done|].
    assert (exists u i x, call_at s u i x /\ ca_stage x = Turn) as (u & i & x & Hx & Hst).
    { apply active_positive. lia. }
    destruct i as [|i].
    + exists u. eapply innermost_moves; [done|by rewrite Hst|by rewrite Hst].
    + destruct Hx as (l & Hl' & Hx). destruct (l !! i) as [y|] eqn:E; [|apply lookup_ge_None in E; apply lookup_lt_Some in Hx; lia].
      destruct (lk_nested _ _ _ Hw u i y x) as (k & Hk & _); [by exists l|by exists l|]. by apply elem_of_nil in Hk.
Qed.

(** ** Permits that are never given back *)

Definition calls_of (t : nat) (s : LockState) : list Call := default [] (ls_tasks s !! t).

(** All permits belong to tasks that wait for one more, to go on with the parent. *)
Definition out_of_permits (max_active_runs : nat) (s : LockState) : Prop :=
  active s = max_active_runs
  /\ forall t i c, call_at s t i c -> ca_stage c = Turn -> exists c0, call_at s t 0 c0 /\ ca_stage c0 = Starting.

Definition aborts (a : Action) : bool := match a with AbortTask _ => true | _ => false end.

Lemma calls_at t s i c : call_at s t i c <-> calls_of t s !! i = Some c.
Proof.
  unfold call_at, calls_of. destruct (ls_tasks s !! t) as [l|]; simpl; split; try done; [intros (? & [= <-] & ?); done|by exists l|].
  by intros (? & ? & _).
Qed.

Lemma no_turn_filter l : (forall i c, l !! i = Some c -> ca_stage c <> Turn) -> List.filter turning l = [].
Proof.
  intros Hl. destruct (List.filter turning l) as [|c r] eqn:E; [done|].
  assert (In c (List.filter turning l)) as Hc by (rewrite E; by left). apply filter_In in Hc as [Hc Ht%bool_decide_eq_true].
  apply list_elem_of_In, list_elem_of_lookup in Hc as [i Hc]. by destruct (Hl i c Hc).
Qed.

(** What a task has may change as long as it has no turn. *)
Record idle_change (u : nat) (s s' : LockState) : Prop := {
  ic_others : forall t, t <> u -> ls_tasks s' !! t = ls_tasks s !! t;
  ic_before : forall i c, calls_of u s !! i = Some c -> ca_stage c <> Turn;
  ic_after : forall i c, calls_of u s' !! i = Some c -> ca_stage c <> Turn }.

Lemma active_of u s : active s = (length (List.filter turning (calls_of u s))
  + weigh (fun l => length (List.filter turning l)) (delete u (ls_tasks s)))%nat.
Proof.
  unfold calls_of. destruct (ls_tasks s !! u) as [l|] eqn:E; [by apply active_split|]. unfold active. by rewrite delete_id.
Qed.

Lemma idle_change_active u s s' : idle_change u s s' -> active s' = active s.
Proof.
  intros [Ho Hb Ha]. rewrite (active_of u s), (active_of u s'), !no_turn_filter by done. do 2 f_equal.
  apply map_eq. intros t. destruct (decide (t = u)) as [->|Hne]; [by rewrite !lookup_delete_eq|].
  rewrite !lookup_delete_ne by done. by apply Ho.
Qed.

Lemma out_of_permits_idle max_active_runs s t c : out_of_permits max_active_runs s -> call_at s t 0 c -> ca_stage c <> Starting ->
  forall i x, calls_of t s !! i = Some x -> ca_stage x <> Turn.
Proof.
  intros [_ He] Hc Hs i x Hx%calls_at Ht. destruct (He t i x Hx Ht) as (c0 & Hc0 & Hs0).
  by rewrite (call_at_fun _ _ _ _ _ Hc Hc0) in Hs.
Qed.

Lemma advance_idle max_active_runs u from to s s' : out_of_permits max_active_runs s -> advance u from to s = Some s' ->
  from <> Starting -> to <> Turn -> idle_change u s s'.
Proof.
  intros He (c & outer & Hu & Hf & ->)%advance_inv Hs Ht.
  assert (Hc : call_at s u 0 c) by (by exists (c :: outer)).
  pose proof (out_of_permits_idle _ _ _ _ He Hc ltac:(by rewrite Hf)) as Hb. split; [|done|].
  - intros t Hne. simpl. by rewrite lookup_insert_ne.
  - intros i x. unfold calls_of in *. simpl. rewrite lookup_insert_eq. rewrite Hu in Hb. simpl in *.
    destruct i as [|i]; [by intros [= <-]|]. apply (Hb (S i)).
Qed.

Lemma out_of_permits_act max_active_runs links a s s' : out_of_permits max_active_runs s ->
  act max_active_runs links a s = Some s' -> aborts a = false -> exists u, idle_change u s s'.
Proof.
  intros He. destruct a as [t sid|t|t|t|t|t|t|t|t]; simpl; intros Ha Hab; try done; exists t.
  - apply enter_inv in Ha as (outer & lock & s1 & Ho & Hh & (_ & Et & _)%clone_lock_table & ->).
    assert (Hb : forall i c, calls_of t s !! i = Some c -> ca_stage c <> Turn).
    { fold (calls_of t s) in Ho. rewrite Ho. destruct outer as [|c outer]; [done|]. destruct (Hh c eq_refl) as [Hc _].
      destruct (proj2 He t 0%nat c) as (c0 & Hc0 & Hs0); [by apply calls_at; rewrite Ho|done|].
      apply calls_at in Hc0. rewrite Ho in Hc0. simpl in Hc0. congruence. }
    split; [|done|].
    + intros u Hne. simpl. by rewrite lookup_insert_ne.
    + intros i c. unfold calls_of at 1. simpl. rewrite lookup_insert_eq. simpl. destruct i as [|i]; [by intros [= <-]|].
      simpl. rewrite <- Ho. apply (Hb i).
  - unfold lock_session in Ha. destruct (innermost t s); [|done]. cbn [mbind option_bind] in Ha. destruct (locked _ s); [done|].
    by eapply advance_idle.
  - by eapply advance_idle.
  - unfold acquire_active in Ha. destruct He as [E _]. by rewrite E, Nat.ltb_irrefl in Ha.
  - by eapply advance_idle.
  - by eapply advance_idle.
  - unfold release_call in Ha. destruct (innermost t s) as [c|]; [|done]. cbn [mbind option_bind] in Ha.
    unfold release_session_lock in Ha. destruct (_ && _); [|by eapply advance_idle].
    assert (exists s2, advance t Unguarded Released s = Some s2 /\ ls_tasks s2 = ls_tasks s') as (s2 & H2 & E).
    { unfold advance in *. simpl in Ha. destruct (ls_tasks s !! t) as [[|x l]|]; try done. case_decide; [|done].
      injection Ha as <-. eexists. split; [done|]. done. }
    destruct (advance_idle _ _ _ _ _ _ He H2 ltac:(done) ltac:(done)) as [Ho Hb Hf]. rewrite E in Ho.
    split; [done|done|]. unfold calls_of in *. by rewrite <- E.
  - unfold return_call in Ha. destruct (ls_tasks s !! t) as [[|c outer]|] eqn:Ht; try done. case_decide as Hs; [|done].
    injection Ha as <-. assert (Hc : call_at s t 0 c) by (by exists (c :: outer)).
    pose proof (out_of_permits_idle _ _ _ _ He Hc ltac:(by rewrite Hs)) as Hb. split; [|done|].
    + intros u Hne. simpl. destruct outer; [by rewrite lookup_delete_ne|by rewrite lookup_insert_ne].
    + intros i x. unfold calls_of in *. simpl. rewrite Ht in Hb. simpl in Hb. specialize (Hb (S i) x). simpl in Hb.
      destruct outer; [by rewrite lookup_delete_eq|by rewrite lookup_insert_eq].
Qed.

Lemma out_of_permits_stays max_active_runs links l : forall s s', out_of_permits max_active_runs s ->
  acts max_active_runs links l s = Some s' -> existsb aborts l = false ->
  out_of_permits max_active_runs s' /\ forall t i c, call_at s t i c -> ca_stage c = Turn -> ls_tasks s' !! t = ls_tasks s !! t.
Proof.
  induction l as [|a l IH]; intros s s' He Ha Hl; [by simplify_eq/=|]. simpl in Ha, Hl. apply orb_false_iff in Hl as [Hab Hl].
  destruct (act max_active_runs links a s) as [s1|] eqn:E; [|done]. simpl in Ha.
  destruct (out_of_permits_act _ _ _ _ _ He E Hab) as [u Hu]. pose proof Hu as [Ho Hb Hf].
  assert (Hsame : forall t i c, call_at s t i c -> ca_stage c = Turn -> ls_tasks s1 !! t = ls_tasks s !! t).
  { intros t i c Hc Ht. apply Ho. intros ->. by eapply Hb; [apply calls_at|]. }
  assert (He1 : out_of_permits max_active_runs s1).
  { split; [rewrite (idle_change_active _ _ _ Hu); apply He|]. intros t i c Hc Ht.
    destruct (decide (t = u)) as [->|Hne]; [by apply calls_at, Hf in Hc|]. unfold call_at in *. rewrite Ho in * by done.
    by apply (proj2 He t i c). }
  destruct (IH s1 s' He1 Ha Hl) as [He' Hsame']. split; [done|]. intros t i c Hc Ht. rewrite <- (Hsame t i c Hc Ht).
  apply (Hsame' t i c); [|done]. unfold call_at in *. by rewrite (Hsame t i c Hc Ht).
Qed.

(** C40. Permits can run out for good.  The result of a child is delivered while its
    task still has the permit of the child's turn, and the parent's turn needs another.
    Once all permits belong to tasks in this position, nothing but aborting a task ends
    it: every task with a permit stays where it is and no run is started again in any
    session. *)
Theorem permits_run_out max_active_runs links l s s' :
  active s = max_active_runs ->
  (forall t i c, call_at s t i c -> ca_stage c = Turn -> exists c0, innermost t s = Some c0 /\ ca_stage c0 = Starting) ->
  existsb aborts l = false -> acts max_active_runs links l s = Some s' ->
  active s' = max_active_runs /\ (forall t, acquire_active max_active_runs t s' = None)
  /\ forall t i c, call_at s t i c -> ca_stage c = Turn -> ls_tasks s' !! t = ls_tasks s !! t.
Proof.
  intros Ha Hi Hl Hs. assert (out_of_permits max_active_runs s) as He.
  { split; [done|]. intros t i c Hc Ht. destruct (Hi t i c Hc Ht) as (c0 & Hc0%innermost_at & Hs0). eauto. }
  destruct (out_of_permits_stays _ _ _ _ _ He Hs Hl) as [[Ha' _] Hsame]. split_and!; [done| |done].
  intros t. unfold acquire_active. by rewrite Ha', Nat.ltb_irrefl.
Qed.

(** ** Witnesses *)

Lemma acts_steps max_active_runs links l : forall s s', acts max_active_runs links l s = Some s' ->
  lock_steps max_active_runs links s s'.
Proof.
  induction l as [|a l IH]; intros s s' Hs; [by simplify_eq/=|]. simpl in Hs.
  destruct (act max_active_runs links a s) as [s1|] eqn:E; [|done]. eapply rtc_l; [by exists a|by apply IH].
Qed.

Definition helper_link : AgentLinkRecord :=
  mkLinkRecord "i" "helper" "s" "r" "call-1" "k" "c" 1 (mkBudget 8 60 600 100000 65536 16384) JNull "t".

(** The task of a child session delivers its result, while a client submits a result
    to the parent; one run may be active. *)
Definition delivery : list Action :=
  [EnterSession 1 "k"; LockSession 1; StartRun 1; AcquireActive 1; EnterSession 1 "s"; EnterSession 2 "s"; LockSession 1].
Definition at_delivery : LockState := default no_locks (acts 1 [helper_link] delivery no_locks).
Lemma at_delivery_reached : lock_steps 1 [helper_link] no_locks at_delivery.
Proof. apply (acts_steps _ _ delivery). vm_compute. reflexivity. Qed.

Definition stuck : LockState := default no_locks (acts 1 [helper_link] [StartRun 1] at_delivery).
Lemma stuck_reached : lock_steps 1 [helper_link] no_locks stuck.
Proof. etrans; [exact at_delivery_reached|]. apply (acts_steps _ _ [StartRun 1]). vm_compute. reflexivity. Qed.

(** The last one to leave takes the lock away, unless it leaves together with another:
    then the lock stays in the table for good. *)
Lemma locks_can_stay :
  ls_locks <$> acts 1 [] [EnterSession 1 "s"; LockSession 1; DropGuard 1; ReleaseLock 1; ReturnCall 1] no_locks = Some ∅
  /\ acts 1 [] [EnterSession 1 "s"; LockSession 1; EnterSession 2 "s"; DropGuard 1; LockSession 2; ReleaseLock 1; DropGuard 2;
                ReleaseLock 2; ReturnCall 1; ReturnCall 2] no_locks
     = Some (mkLocks {["s" := 0%nat]} 1 ∅).
Proof. split; vm_compute; reflexivity. Qed.

Lemma child_calls : call_at at_delivery 1 1 (mkCall "k" 0 Turn) /\ call_at at_delivery 1 0 (mkCall "s" 1 Holding).
Proof. split; eexists; vm_compute; split; reflexivity. Qed.

(** The parent's guard is the task's own second call: no other call has it. *)
Lemma sessions_are_locked_once_witness :
  (active at_delivery <= 1)%nat
  /\ forall t i c, call_at at_delivery t i c -> guards c = true -> ca_session c = "s" -> (t, i) = (1%nat, 0%nat).
Proof.
  assert (forall t i c, call_at at_delivery t i c -> guards c = true -> ca_session c = "s" ->
    (t, i) = (1%nat, 0%nat) /\ (active at_delivery <= 1)%nat) as H.
  { intros t i c Hc Hg Hs. apply (sessions_are_locked_once 1 [helper_link] at_delivery t i c 1 0 (mkCall "s" 1 Holding)).
    - exact at_delivery_reached.
    - exact Hc.
    - exact (proj2 child_calls).
    - exact Hg.
    - reflexivity.
    - exact Hs. }
  split.
  - apply (H 1%nat 0%nat (mkCall "s" 1 Holding)); [exact (proj2 child_calls)|reflexivity|reflexivity].
  - intros t i c Hc Hg Hs. apply (H t i c Hc Hg Hs).
Defined.

Definition family_row : SessionRow := mkSessionRow None None None None "t" "t" Created 0 0 Forever.
Definition family : database (H := plain_codec) :=
  mkDatabase (H := plain_codec) {["s" := family_row; "k" := family_row]} ∅ ∅.

Lemma family_links : links_wf (H := plain_codec) family [helper_link].
Proof.
  split.
  - apply NoDup_singleton.
  - apply NoDup_singleton.
  - apply Forall_singleton. vm_compute. split_and!; [by eexists..|done].
  - intros [|i] [|j] l k Hl Hk E; simplify_eq/=.
Qed.

(** One task, without delegation. *)
Definition alone : LockState := default no_locks (acts 1 [] [EnterSession 1 "s"; LockSession 1; StartRun 1] no_locks).

(** The permit is the child's, and its parent is to be started; a task that is
    alone can go on. *)
Lemma standstill_is_for_permits_witness :
  ((exists u, moves 1 u stuck) \/ active stuck = 1%nat /\ exists u c, innermost u stuck = Some c /\ ca_stage c = Starting)
  /\ exists u, moves 1 u alone.
Proof.
  split.
  - apply (standstill_is_for_permits (H := plain_codec) 1 family [helper_link] stuck 1 [mkCall "s" 1 Starting; mkCall "k" 0 Turn]).
    + exact family_links.
    + exact stuck_reached.
    + vm_compute. reflexivity.
  - apply (standstill_is_for_permits (H := plain_codec) 1 family [] alone 1 [mkCall "s" 0 Starting]).
    + split; [constructor|constructor|constructor|intros [] ? ? ? [=]].
    + apply (acts_steps 1 [] [EnterSession 1 "s"; LockSession 1; StartRun 1]). vm_compute. reflexivity.
    + vm_compute. reflexivity.
    + reflexivity.
    + lia.
Defined.

Lemma stuck_calls t i c : call_at stuck t i c -> ca_stage c = Turn ->
  exists c0, innermost t stuck = Some c0 /\ ca_stage c0 = Starting.
Proof.
  intros (l & Hl & Hc) Ht. destruct (decide (t = 1%nat)) as [->|H1]; [by exists (mkCall "s" 1 Starting)|].
  assert (E : ls_tasks stuck = {[1%nat := [mkCall "s" 1 Starting; mkCall "k" 0 Turn]; 2%nat := [mkCall "s" 1 Waiting]]})
    by (vm_compute; reflexivity).
  rewrite E, lookup_insert_ne in Hl by done. apply lookup_singleton_Some in Hl as [<- <-].
  destruct i as [|i]; simplify_eq/=.
Qed.

(** A session of its own is locked and its run started: it waits for ever. *)
Lemma permits_run_out_witness :
  exists s, acts 1 [helper_link] [EnterSession 3 "x"; LockSession 3; StartRun 3] stuck = Some s
  /\ active s = 1%nat /\ (forall t, acquire_active 1 t s = None)
  /\ ls_tasks s !! 1%nat = Some [mkCall "s" 1 Starting; mkCall "k" 0 Turn].
Proof.
  destruct (acts 1 [helper_link] [EnterSession 3 "x"; LockSession 3; StartRun 3] stuck) as [s|] eqn:E; [|vm_compute in E; done].
  exists s. split; [reflexivity|].
  destruct (permits_run_out 1 [helper_link] [EnterSession 3 "x"; LockSession 3; StartRun 3] stuck s) as (H1 & H2 & H3).
  - vm_compute. reflexivity.
  - exact stuck_calls.
  - reflexivity.
  - exact E.
  - split; [exact H1|]. split; [exact H2|].
    rewrite (H3 1%nat 1%nat (mkCall "k" 0 Turn)); [vm_compute; reflexivity| |reflexivity].
    eexists. vm_compute. split; reflexivity.
Defined.
