(* ===== verification/ClientSpec.v ===== *)
(** What the command line client does with the server: its requests are the ones
    the server's router and body readers expect, and its event loop prints every
    event once, wherever connections break. *)

From S2P Require Export Client.
From S2P Require Import ProviderFacts Scenario.
From S2P Require Export Store.
From S2P Require Export World.
From S2P Require Export Api.

(** ** Requests *)

(** The commands that send one request, and the two requests of [run]. *)
Inductive ApiCommand :=
  | CProject (c : ProjectCommand)
  | CAction (c : ActionCommand)
  | CPermission (c : PermissionCommand)
  | CBackup
  | CCreateSession (project : option string)
  | CCreateRun (session_id provider model prompt : string)
  | CFollow (session_id : string) (token : option string) (last_seen : Z).

Definition client_request `{Outside} (c : ApiCommand) : result CliError ClientRequest :=
  match c with
  | CProject c => project_request c
  | CAction c => action_request c
  | CPermission c => Ok (permission_request c)
  | CBackup => Ok backup_request
  | CCreateSession project => Ok (create_session_request project)
  | CCreateRun session_id provider model prompt => Ok (create_run_request session_id provider model prompt)
  | CFollow session_id token last_seen => Ok (stream_request session_id token last_seen)
  end.

(** The handler a command means, with its path parameters. *)
Definition meant (c : ApiCommand) : Endpoint * list string :=
  match c with
  | CProject (ProjectCreate _ _) => (ECreateProject, [])
  | CProject (ProjectList _ _) => (EListProjects, [])
  | CProject (ProjectGet p) => (EGetProject, [p])
  | CProject (ProjectUpdate p _ _) => (EUpdateProject, [p])
  | CProject (ProjectDelete p _) => (EDeleteProject, [p])
  | CAction (ActionInspect s r) => (EGetRun, [s; r])
  | CAction (ActionResult s r c _) => (ESubmitToolResult, [s; r; c])
  | CPermission (PermissionList s r) => (EListPermissionRequests, [s; r])
  | CPermission (PermissionApprove s r q _) => (EApprovePermission, [s; r; q])
  | CPermission (PermissionDeny s r q) => (EDenyPermission, [s; r; q])
  | CBackup => (ECreateBackup, [])
  | CCreateSession _ => (ECreateSession, [])
  | CCreateRun s _ _ _ => (ECreateRun, [s])
  | CFollow s _ _ => (EStreamEvents, [s])
  end.

(** What the server reads from the body. *)
Definition understood `{Outside} (c : ApiCommand) (body : option json) : Prop :=
  match c with
  | CProject (ProjectCreate name path) => (body ≫= read_create_project) = Some (name, path)
  | CProject (ProjectUpdate _ name path) => (body ≫= read_update_project) = Some (mkUpdateProject name path)
  | CAction (ActionResult _ _ _ text) => (body ≫= read_tool_result) = from_str text
  | CPermission (PermissionApprove _ _ _ scope) => (body ≫= read_approval) = Some scope
  | CCreateSession project => (body ≫= read_create_session) = Some (mkCreateSession None project None)
  | CCreateRun _ provider model prompt =>
      (body ≫= read_create_run) = Some (mkCreateRun (Some provider) (Some model) (JString prompt) None None (JObject []))
  | _ => body = None
  end.

(** A path parameter that is one segment of a path. *)
Definition segment (s : string) : Prop := s <> "" /\ contains_byte "/"%char s = false.

Lemma split_slash_app a b : contains_byte "/"%char a = false -> split_slash (a ++s String "/" b) = a :: split_slash b.
Proof.
  induction a as [|c a IH]; intros Ha; [done|]. cbn [contains_byte] in Ha. apply orb_false_iff in Ha as [Hc Ha].
  rewrite append_cons. cbn [split_slash]. rewrite (IH Ha). unfold slash.
  by rewrite Ascii.eqb_sym, Hc.
Qed.

Lemma split_slash_one a : contains_byte "/"%char a = false -> split_slash a = [a].
Proof.
  induction a as [|c a IH]; intros Ha; [done|]. cbn [contains_byte] in Ha. apply orb_false_iff in Ha as [Hc Ha].
  cbn [split_slash]. rewrite (IH Ha). unfold slash.
  by rewrite Ascii.eqb_sym, Hc.
Qed.

Lemma route_api m rest : route m (api_path rest) =
  match find_route (split_slash rest) routes with
  | None => NoRoute
  | Some (params, methods) =>
      match List.find (serves m) methods with Some (_, endpoint) => Found endpoint params | None => NoMethod end
  end.
Proof.
  unfold route, api_path.
  assert (E : strip_prefix "/api/v1/" ("/api/v1/" ++s rest) = Some rest) by by apply strip_prefix_Some.
  by rewrite E.
Qed.

Lemma split_slash_join l : l <> [] -> Forall (fun s => contains_byte "/"%char s = false) l -> split_slash (join "/" l) = l.
Proof.
  intros Hne Hl. induction Hl as [|s l Hs Hl IH]; [done|]. destruct l as [|t l]; [by apply split_slash_one|].
  change (join "/" (s :: t :: l)) with (s ++s String "/" (join "/" (t :: l))).
  rewrite (split_slash_app _ _ Hs). f_equal. by apply IH.
Qed.

Lemma route_join m l endpoint params : l <> [] -> Forall (fun s => contains_byte "/"%char s = false) l ->
  match find_route l routes with
  | Some (ps, methods) => match List.find (serves m) methods with
                          | Some (_, e) => e = endpoint /\ ps = params
                          | None => False
                          end
  | None => False
  end -> route m (api_path (join "/" l)) = Found endpoint params.
Proof.
  intros Hne Hl Hr. rewrite route_api, (split_slash_join _ Hne Hl).
  destruct (find_route l routes) as [[ps methods]|]; [|done].
  destruct (List.find _ _) as [[m' e]|]; [|done]. by destruct Hr as [-> ->].
Qed.

(** [route_tac l] shows that a path with the segments [l] is routed. *)
Ltac route_tac l :=
  match goal with |- route ?m ?p = Found ?e ?ps =>
    let E := fresh "E" in
    assert (E : p = api_path (join "/" l)) by (unfold run_of_session, session_path; simpl; rewrite ?append_nil_r; reflexivity);
    rewrite E; clear E
  end;
  repeat match goal with H : Forall segment (_ :: _) |- _ => apply Forall_cons in H as [[? ?] H] end;
  apply route_join; [done|repeat constructor; first [done|assumption]|];
  repeat match goal with H : ?s <> "" |- _ => destruct s; [done|]; clear H end;
  by split.



(** ** Frames *)

Definition frames (text : string) : list string * string := split_frames (String.length text) text.

Lemma split_frames_fuel f1 f2 b : (String.length b <= f1)%nat -> (String.length b <= f2)%nat ->
  split_frames f1 b = split_frames f2 b.
Proof.
  revert f2 b. induction f1 as [|f1 IH]; intros f2 b H1 H2.
  - destruct b; simpl in H1; [|lia]. by destruct f2.
  - destruct f2 as [|f2]; [destruct b; simpl in H2; [done|lia]|]. cbn [split_frames].
    destruct (find_bytes LFLF b) as [i|] eqn:Hf; [|done]. apply find_bytes_length in Hf. simpl in Hf.
    by rewrite (IH f2) by (rewrite length_str_drop; lia).
Qed.

Lemma split_frames_rest f b : (String.length b <= f)%nat -> find_bytes LFLF (snd (split_frames f b)) = None
  /\ (String.length (snd (split_frames f b)) <= String.length b)%nat.
Proof.
  revert b. induction f as [|f IH]; intros b Hl; cbn [split_frames]; [by destruct b; simpl in *; [split|lia]|].
  destruct (find_bytes LFLF b) as [i|] eqn:Hf; [|done]. pose proof (find_bytes_length _ _ _ Hf) as Hi. simpl in Hi.
  destruct (IH (str_drop (i + 2) b)) as [Hn Hle]; [rewrite length_str_drop; lia|].
  destruct (split_frames f _) as [l r]. simpl in *. split; [done|]. rewrite length_str_drop in Hle. lia.
Qed.

(** The frames of a longer text are those of the beginning and those of what was
    left of it with the rest. *)
Lemma split_frames_app f b c : (String.length (b ++s c) <= f)%nat ->
  let '(l, r) := split_frames f b in
  let '(l', r') := split_frames f (r ++s c) in
  split_frames f (b ++s c) = (l ++ l', r').
Proof.
  revert b. induction f as [|f IH]; intros b Hl.
  - rewrite length_append in Hl. destruct b, c; simpl in Hl; try lia. done.
  - cbn [split_frames]. destruct (find_bytes LFLF b) as [i|] eqn:Hf.
    + rewrite (find_bytes_app _ _ c _ Hf). pose proof (find_bytes_length _ _ _ Hf) as Hi. simpl in Hi.
      rewrite length_append in Hl.
      assert (Ht : str_take i (b ++s c) = str_take i b).
      { rewrite str_take_app. replace (i - String.length b)%nat with 0%nat by lia. by rewrite str_take_0, append_nil_r. }
      rewrite Ht, str_drop_app by lia. specialize (IH (str_drop (i + 2) b)).
      rewrite length_append, length_str_drop in IH. specialize (IH ltac:(lia)).
      pose proof (split_frames_rest f (str_drop (i + 2) b) ltac:(rewrite length_str_drop; lia)) as [_ Hle].
      destruct (split_frames f (str_drop (i + 2) b)) as [l r] eqn:El. simpl in Hle. rewrite length_str_drop in Hle.
      change (match find_bytes LFLF (r ++s c) with
              | Some index => let '(frames, rest) := split_frames f (str_drop (index + 2) (r ++s c)) in
                  (str_take index (r ++s c) :: frames, rest)
              | None => ([], r ++s c) end) with (split_frames (S f) (r ++s c)).
      rewrite (split_frames_fuel (S f) f (r ++s c)) by (rewrite length_append; lia).
      destruct (split_frames f (r ++s c)) as [l' r']. by rewrite IH.
    + by destruct (match find_bytes LFLF (b ++s c) with Some _ => _ | None => _ end).
Qed.

Lemma frames_app b c : frames (b ++s c) =
  let '(l, r) := frames b in let '(l', r') := frames (r ++s c) in (l ++ l', r').
Proof.
  unfold frames. set (F := String.length (b ++s c)).
  pose proof (split_frames_app F b c ltac:(done)) as Ha.
  assert (Eb : split_frames (String.length b) b = split_frames F b).
  { apply split_frames_fuel; [done|]. unfold F. rewrite length_append. lia. }
  pose proof (split_frames_rest F b ltac:(unfold F; rewrite length_append; lia)) as [_ Hle].
  rewrite Eb. destruct (split_frames F b) as [l r]. simpl in Hle.
  rewrite (split_frames_fuel (String.length (r ++s c)) F (r ++s c)); [|done|].
  - by destruct (split_frames F (r ++s c)) as [l' r'].
  - unfold F. rewrite !length_append. lia.
Qed.

(** ** The event loop *)

Section follow.
  Context `{Outside} (json_output : bool) (until_run : option string).

Notation see_events := (see_events json_output until_run).

Lemma see_events_app l1 l2 st : see_events (l1 ++ l2) st =
  let '(st', over) := see_events l1 st in if over then (st', true) else see_events l2 st'.
Proof.
  revert st. induction l1 as [|e l1 IH]; intros st; [done|]. cbn [app Client.see_events].
  destruct (see_event _ _ e st) as [st' [|]]; [done|apply IH].
Qed.

(** The events in a text. *)
Definition text_events (text : string) : list (option Z * json) := omap event_of_frame (fst (frames text)).

Lemma text_events_prefix t u : text_events t `prefix_of` text_events (t ++s u).
Proof.
  unfold text_events. rewrite frames_app. destruct (frames t) as [l r], (frames (r ++s u)) as [l' r']. simpl.
  rewrite omap_app. by eexists.
Qed.

(** Cutting a text into chunks makes no difference as long as every chunk is text
    of its own. *)
Lemma follow_chunks chunks buffer st : Forall (fun c => from_utf8_lossy c = c) chunks -> find_bytes LFLF buffer = None ->
  follow_connection json_output until_run buffer (Bytes <$> chunks) st =
    let '(st', over) := see_events (text_events (buffer ++s str_concat chunks)) st in
    (st', if over then Some (Ok ()) else None).
Proof.
  intros Hc. revert buffer st. induction Hc as [|c chunks Hc _ IH]; intros buffer st Hb.
  - change (str_concat []) with "". rewrite append_nil_r.
    assert (E : frames buffer = ([], buffer)).
    { unfold frames. destruct (String.length buffer); cbn [split_frames]; [done|by rewrite Hb]. }
    unfold text_events. by rewrite E.
  - cbn [fmap list_fmap follow_connection]. rewrite Hc.
    change (str_concat (c :: chunks)) with (c ++s str_concat chunks). rewrite <- append_assoc.
    fold (frames (buffer ++s c)).
    pose proof (split_frames_rest (String.length (buffer ++s c)) (buffer ++s c) ltac:(done)) as [Hr _].
    fold (frames (buffer ++s c)) in Hr. unfold text_events. rewrite (frames_app (buffer ++s c)).
    destruct (frames (buffer ++s c)) as [l r] eqn:El. simpl in Hr.
    specialize (IH r). unfold text_events in IH.
    destruct (frames (r ++s str_concat chunks)) as [l' r'] eqn:El'. simpl. rewrite omap_app, see_events_app.
    destruct (see_events (omap event_of_frame l) st) as [st' [|]]; [done|].
    by rewrite (IH _ Hr).
Qed.

(** ** Connections *)

Context (l : list (Z * json)) (after : Z).

Definition tagged (l : list (Z * json)) : list (option Z * json) := (fun e => (Some e.1, e.2)) <$> l.

(** A connection that sends the events after a checkpoint, in frames that may be
    among comments, cut into chunks; it may break anywhere. *)
Definition delivers (last : Z) (c : Connection) : Prop := exists chunks unsent,
  c = Connected (Bytes <$> chunks) /\ Forall (fun c => from_utf8_lossy c = c) chunks
  /\ text_events (str_concat chunks ++s unsent) = tagged (List.filter (fun e => last <? e.1) l).

(** The checkpoints the client sends: the first one and the ids of events. *)
Definition checkpoint (last : Z) : Prop := last ∈ after :: l.*1.

(** The events before position [m] have been seen, the others are still ahead. *)
Definition caught (m : nat) (st : FollowState) : Prop :=
  Forall (fun e => e.1 <= fl_last_seen st) (take m l) /\ Forall (fun e => fl_last_seen st < e.1) (drop m l)
  /\ checkpoint (fl_last_seen st).

Lemma caught_filter m st : caught m st -> List.filter (fun e => fl_last_seen st <? e.1) l = drop m l.
Proof.
  intros (Ht & Hd & _). rewrite <- (take_drop m l) at 1. rewrite List.filter_app.
  assert (E1 : List.filter (fun e => fl_last_seen st <? e.1) (take m l) = []).
  { clear Hd. induction Ht as [|e t He _ IH]; [done|]. simpl. by rewrite (proj2 (Z.ltb_ge _ _)). }
  rewrite E1. clear Ht E1. simpl. induction Hd as [|e d He _ IH]; [done|]. simpl. rewrite (proj2 (Z.ltb_lt _ _)) by done.
  by rewrite IH.
Qed.

Lemma seen_last e st st' over : see_event json_output until_run (Some e.1, e.2) st = (st', over) ->
  fl_last_seen st' = Z.max (fl_last_seen st) e.1.
Proof. unfold see_event. by intros [= <- _]. Qed.

Lemma caught_see j : forall m st st', StronglySorted (fun a b => a.1 < b.1) l -> caught m st ->
  see_events (tagged (take j (drop m l))) st = (st', false) -> caught (m + length (take j (drop m l))) st'.
Proof.
  induction j as [|j IH]; intros m st st' Hs Hc Hsee.
  - simpl in *. injection Hsee as <-. by rewrite Nat.add_0_r.
  - destruct (drop m l) as [|e d] eqn:Hd; [simpl in *; injection Hsee as <-; by rewrite Nat.add_0_r|].
    cbn [take tagged fmap list_fmap Client.see_events] in Hsee.
    destruct (see_event _ _ (Some e.1, e.2) st) as [st1 [|]] eqn:E; [done|].
    assert (Hlast := seen_last _ _ _ _ E).
    assert (Hm : l !! m = Some e) by (rewrite <- (Nat.add_0_r m), <- lookup_drop, Hd; done).
    assert (Hd' : drop (S m) l = d) by (replace (S m) with (m + 1)%nat by lia; by rewrite <- drop_drop, Hd).
    assert (He : fl_last_seen st < e.1).
    { destruct Hc as (_ & Hf & _). rewrite Hd in Hf. by apply Forall_cons in Hf as [? _]. }
    assert (Hc1 : caught (S m) st1).
    { split_and!.
      - rewrite (take_S_r _ _ _ Hm). apply Forall_app. split.
        + eapply Forall_impl; [exact (proj1 Hc)|]. simpl. intros x Hx. lia.
        + apply Forall_singleton. lia.
      - rewrite Hd'. clear IH. assert (Hsd : StronglySorted (fun a b => a.1 < b.1) (e :: d)).
        { rewrite <- Hd. rewrite <- (take_drop m l) in Hs. by apply StronglySorted_app_1_r in Hs. }
        apply StronglySorted_inv in Hsd as [_ Hsd]. eapply Forall_impl; [exact Hsd|]. simpl. intros x Hx. lia.
      - unfold checkpoint. rewrite Hlast, Z.max_r by lia. right. apply list_elem_of_fmap_2. by eapply list_elem_of_lookup_2. }
    specialize (IH (S m) st1 st' Hs Hc1). rewrite Hd' in IH. cbn [length take].
    replace (m + S (length (take j d)))%nat with (S m + length (take j d))%nat by lia. by apply IH.
Qed.

Definition delivers_all (last : Z) (c : Connection) : Prop := exists chunks,
  c = Connected (Bytes <$> chunks) /\ Forall (fun c => from_utf8_lossy c = c) chunks
  /\ text_events (str_concat chunks) = tagged (List.filter (fun e => last <? e.1) l).

Lemma take_tagged (t : list (option Z * json)) d : t `prefix_of` tagged d -> t = tagged (take (length t) d).
Proof.
  intros [u E]. unfold tagged in *. rewrite fmap_take, E, take_app_le, take_ge by done. done.
Qed.

Context (session_id : string) (token : option string) (connect : N -> ClientRequest -> Connection).
Context (Hsorted : StronglySorted (fun a b => a.1 < b.1) l).
Context (Hconnect : forall n last, checkpoint last -> delivers last (connect n (stream_request session_id token last))).

Notation follow_events fuel := (follow_events fuel session_id token json_output until_run connect).

Lemma follow_from st0 fuel : forall n m st, caught m st -> see_events (tagged (take m l)) st0 = (st, false) ->
  let '(st', r) := follow_events fuel n st in
  exists m', see_events (tagged (take m' l)) st0 = (st', bool_decide (is_Some r)) /\ (r = None \/ r = Some (Ok ()))
    /\ (r = None -> (m <= m')%nat /\
          ((exists i, (i < fuel)%nat /\ forall last, checkpoint last ->
              delivers_all last (connect (n + N.of_nat i) (stream_request session_id token last))) -> (length l <= m')%nat)).
Proof.
  induction fuel as [|fuel IH]; intros n m st Hm Hst; cbn [Client.follow_events].
  - exists m. split_and!; [done|by left|]. intros _. split; [done|]. intros (i & Hi & _). lia.
  - destruct (Hconnect n (fl_last_seen st) (proj2 (proj2 Hm))) as (chunks & unsent & E & Hc & Ht). rewrite E.
    rewrite (follow_chunks chunks "" st Hc eq_refl). change ("" ++s str_concat chunks) with (str_concat chunks).
    rewrite (caught_filter _ _ Hm) in Ht. pose proof (text_events_prefix (str_concat chunks) unsent) as Hp.
    rewrite Ht in Hp. apply take_tagged in Hp. set (j := length _) in Hp. rewrite Hp.
    destruct (see_events (tagged (take j (drop m l))) st) as [st' over] eqn:Hsee.
    assert (Hall : see_events (tagged (take m l ++ take j (drop m l))) st0 = (st', over)).
    { unfold tagged. rewrite fmap_app, see_events_app. fold (tagged (take m l)). rewrite Hst. exact Hsee. }
    assert (Htake : take m l ++ take j (drop m l) = take (m + length (take j (drop m l))) l).
    { rewrite <- take_take_drop. f_equal. rewrite length_take.
      destruct (decide (j <= length (drop m l))%nat); [by rewrite Nat.min_l|].
      rewrite Nat.min_r, !take_ge by lia. done. }
    rewrite Htake in Hall. destruct over.
    + eexists. split_and!; [exact Hall|by right|done].
    + pose proof (caught_see j m st st' Hsorted Hm Hsee) as Hm'. specialize (IH (n + 1)%N _ st' Hm' Hall).
      destruct (follow_events fuel (n + 1)%N st') as [st2 r]. destruct IH as (m2 & Hsee2 & Hr & Hn).
      exists m2. split_and!; [done|done|]. intros Hnone. destruct (Hn Hnone) as [Hle Hex]. split; [lia|].
      intros (i & Hi & Hfull). destruct i as [|i].
      * destruct (Hfull (fl_last_seen st) (proj2 (proj2 Hm))) as (chunks' & E' & _ & Ht'). rewrite N.add_0_r, E in E'.
        injection E' as E'. apply list_fmap_eq_inj in E' as <-; [|by intros ?? [=]].
        rewrite (caught_filter _ _ Hm), Hp in Ht'. apply (f_equal length) in Ht'.
        unfold tagged in Ht'. rewrite !length_fmap in Ht'. rewrite Ht', length_drop in Hle. lia.
      * apply Hex. exists i. split; [lia|]. intros last Hlast.
        replace (n + 1 + N.of_nat i)%N with (n + N.of_nat (S i))%N by lia. by apply Hfull.
Qed.

End follow.


(** A run in four events; the first connection breaks inside the third frame. *)
Definition client_event (event_type : string) (data : list (string * json)) : json :=
  jobject [("type", JString event_type); ("data", jobject data)].
Definition watched : list (Z * json) :=
  [(1, client_event "run_started" [("run_id", JString "r")]);
   (2, client_event "message_started" [("message_id", JString "m"); ("author", jobject [("kind", JString "agent")])]);
   (3, client_event "message_content_appended" [("message_id", JString "m");
         ("block", jobject [("kind", JString "text"); ("value", JString "hello")])]);
   (4, client_event "run_completed" [("run_id", JString "r")])].
Definition watched_text (s : string) : option json := id ← parse_u64 s; snd <$> List.find (fun e => e.1 =? id) watched.
Definition watching : Outside := example_outside (fun _ => answer ["hi"]) watched_text.
Definition watched_frame (e : Z * json) : string :=
  "id: " ++s show_u64 e.1 ++s NL ++s "data: " ++s show_u64 e.1 ++s LFLF.
Definition watched_stream (last : Z) : string :=
  str_concat (watched_frame <$> List.filter (fun e => last <? e.1) watched).
Definition watched_connect (n : N) (r : ClientRequest) : Connection :=
  let text := watched_stream (default 0 (s ← hq_last_event_id r; parse_u64 s)) in
  Connected (Bytes <$> if (n =? 0)%N then [str_take 5 text; str_take 30 (str_drop 5 text)] else [text]).

Lemma watched_delivers n last : checkpoint watched 0 last ->
  delivers (H := watching) watched last (watched_connect n (stream_request "s" None last)).
Proof.
  intros Hl. unfold delivers, watched_connect.
  destruct (n =? 0)%N; repeat (apply elem_of_cons in Hl as [-> | Hl]); try by apply not_elem_of_nil in Hl.
  all: eexists _, _; split; [reflexivity|]; split;
    [repeat constructor; vm_compute; reflexivity|].
  all: cycle 5.
  1-5: instantiate (1 := ""); vm_compute; reflexivity.
  - instantiate (1 := str_drop 35 (watched_stream 0)). vm_compute. reflexivity.
  - instantiate (1 := str_drop 35 (watched_stream 1)). vm_compute. reflexivity.
  - instantiate (1 := str_drop 35 (watched_stream 2)). vm_compute. reflexivity.
  - instantiate (1 := ""). vm_compute. reflexivity.
  - instantiate (1 := ""). vm_compute. reflexivity.
Qed.

Lemma watched_complete last : checkpoint watched 0 last ->
  delivers_all (H := watching) watched last (watched_connect 1 (stream_request "s" None last)).
Proof.
  intros Hl. repeat (apply elem_of_cons in Hl as [-> | Hl]); try by apply not_elem_of_nil in Hl.
  all: eexists; split; [reflexivity|]; split; [repeat constructor; vm_compute; reflexivity|vm_compute; reflexivity].
Qed.


(** A chunk that ends inside a character is not text of its own: both halves are
    replaced. *)
Lemma cut_characters_are_replaced :
  let e := String (ascii_of_nat 195) (String (ascii_of_nat 169) "") in
  from_utf8_lossy e = e
  /\ from_utf8_lossy (str_take 1 e) ++s from_utf8_lossy (str_drop 1 e) = REPLACEMENT ++s REPLACEMENT.
Proof. vm_compute. by split. Qed.
