(* ===== verification/Frames.v ===== *)
(** The text of an event stream, from [event_for_sse] of [piqo-server/src/lib.rs]
    to the frames that the client of [piqo-cli/src/main.rs] reads.

    Writing an event as text is axum's: the class [SseText] has the form that its
    documentation and the format of server-sent events give it. *)

From S2P Require Export Client ClientSpec.
From S2P Require Import ProviderFacts McpFacts Scenario CodecSpec.
From S2P Require Export Codec Stream.

(** What [Event] of axum is given: [id], [event], [data]. *)
Record SseEvent := mkSseEvent { se_id : option string; se_event : string; se_data : string }.

(** [None] of [serde_json::to_string] cannot be: a [Value] is always printed. *)
Definition event_for_sse `{Outside} (display : StoreError -> string) (event : RecordedEvent) : SseEvent :=
  match api_event event with
  | Ok v => mkSseEvent (Some (show_u64 (re_id event))) (default "" (t ← get "type" v; as_str t)) (to_string v)
  | Err error => mkSseEvent None "error" (display error)
  end.

(** A text that one line holds. *)
Definition visible (c : ascii) : bool := 32 <=? byte c.
Definition one_line (s : string) : Prop := str_forallb visible s = true.

Class SseText := {
  sse_text : SseEvent -> string;
  keep_alive : string;
  sse_gap : string;
  sse_gap_space : sse_gap = "" \/ sse_gap = " ";
  sse_text_lines id event data : one_line id -> one_line event -> one_line data ->
    sse_text (mkSseEvent (Some id) event data)
    = join NL ["id:" ++s sse_gap ++s id; "event:" ++s sse_gap ++s event; "data:" ++s sse_gap ++s data] ++s LFLF;
  (** the comment [keep-alive] *)
  keep_alive_text : keep_alive = ":" ++s sse_gap ++s "keep-alive" ++s LFLF }.

(** ** Lines *)

Lemma visible_nl c : visible c = true -> (c =? nl)%char = false.
Proof. intros Hc. apply Ascii.eqb_neq. by intros ->. Qed.

Lemma one_line_app a b : one_line (a ++s b) <-> one_line a /\ one_line b.
Proof. unfold one_line. by rewrite str_forallb_app, andb_true_iff. Qed.

Lemma one_line_cons c s : one_line (String c s) <-> visible c = true /\ one_line s.
Proof. unfold one_line. simpl. by rewrite andb_true_iff. Qed.

Lemma str_rev_app_spec s acc : str_rev_app s acc = str_rev s ++s acc.
Proof.
  unfold str_rev. revert acc. induction s as [|c s IH]; intros acc; [done|]. simpl. rewrite IH, (IH (String c "")).
  by rewrite append_assoc.
Qed.

Lemma str_rev_cons c s : str_rev (String c s) = str_rev s ++s String c "".
Proof. unfold str_rev at 1. simpl. apply str_rev_app_spec. Qed.

Lemma str_rev_append a b : str_rev (a ++s b) = str_rev b ++s str_rev a.
Proof.
  induction a as [|c a IH]; [by rewrite append_nil_r|]. by rewrite append_cons, !str_rev_cons, IH, append_assoc.
Qed.

Lemma str_rev_involutive s : str_rev (str_rev s) = s.
Proof. induction s as [|c s IH]; [done|]. by rewrite str_rev_cons, str_rev_append, IH. Qed.

Lemma one_line_rev s : one_line s -> one_line (str_rev s).
Proof.
  induction s as [|c s IH]; [done|]. intros [Hc Hs]%one_line_cons. rewrite str_rev_cons. apply one_line_app.
  split; [by apply IH|]. unfold one_line. simpl. by rewrite Hc.
Qed.

Lemma strip_suffix_app p a : strip_suffix p (a ++s p) = Some a.
Proof.
  unfold strip_suffix. rewrite str_rev_append, (proj2 (strip_prefix_Some _ _ (str_rev a)) eq_refl). simpl.
  by rewrite str_rev_involutive.
Qed.

Lemma strip_suffix_hidden c a : visible c = false -> one_line a -> strip_suffix (String c "") a = None.
Proof.
  intros Hc Ha%one_line_rev. unfold strip_suffix. destruct (str_rev a) as [|x r]; [done|].
  apply one_line_cons in Ha as [Hx _]. change (str_rev (String c "")) with (String c ""). simpl.
  destruct (Ascii.eqb_spec c x) as [->|]; [congruence|done].
Qed.

Lemma strip_line a : one_line a -> strip_line_ending a = a /\ strip_line_ending (a ++s NL) = a.
Proof.
  intros Ha. unfold strip_line_ending. rewrite strip_suffix_app. unfold NL, CR.
  by rewrite (strip_suffix_hidden nl), (strip_suffix_hidden cr).
Qed.

Lemma split_inclusive_line a b : one_line a -> split_inclusive (a ++s NL ++s b) = (a ++s NL) :: split_inclusive b.
Proof.
  induction a as [|c a IH]; [done|]. intros [Hc Ha]%one_line_cons. rewrite append_cons. cbn [split_inclusive].
  by rewrite (visible_nl _ Hc), (IH Ha).
Qed.

Lemma split_inclusive_last a : one_line a -> a <> "" -> split_inclusive a = [a].
Proof.
  induction a as [|c a IH]; [done|]. intros [Hc Ha]%one_line_cons _. cbn [split_inclusive]. rewrite (visible_nl _ Hc).
  destruct a as [|d a]; [done|]. by rewrite (IH Ha).
Qed.

Definition text_line (s : string) : Prop := one_line s /\ s <> "".

Lemma lines_join l : Forall text_line l -> lines (join NL l) = l.
Proof.
  unfold lines. induction 1 as [|a l [Ha Hne] Hl IH]; [done|]. destruct l as [|b l].
  - cbn [join]. rewrite (split_inclusive_last a Ha Hne). simpl. by rewrite (proj1 (strip_line a Ha)).
  - change (join NL (a :: b :: l)) with (a ++s NL ++s join NL (b :: l)).
    rewrite (split_inclusive_line _ _ Ha), fmap_cons, IH. by rewrite (proj2 (strip_line a Ha)).
Qed.

(** ** Frames *)

Lemma find_skip c s : visible c = true -> find_bytes LFLF (String c s) = S <$> find_bytes LFLF s.
Proof.
  intros Hc. change (find_bytes LFLF (String c s)) with
    (if starts_with (String nl (String nl "")) (String c s) then Some O else S <$> find_bytes LFLF s).
  by rewrite starts_with_cons, (Ascii.eqb_sym nl c), (visible_nl _ Hc).
Qed.

Lemma find_end a b : one_line a -> find_bytes LFLF (a ++s LFLF ++s b) = Some (String.length a).
Proof.
  induction a as [|c a IH]; [done|]. intros [Hc Ha]%one_line_cons. by rewrite append_cons, (find_skip _ _ Hc), (IH Ha).
Qed.

Lemma find_later a c b : one_line a -> visible c = true ->
  find_bytes LFLF (a ++s NL ++s String c b) = (fun i => S (String.length a + i))%nat <$> find_bytes LFLF (String c b).
Proof.
  intros Ha Hc. induction a as [|d a IH].
  - change (find_bytes LFLF ("" ++s NL ++s String c b)) with
      (if starts_with (String nl (String nl "")) (String nl (String c b)) then Some O else S <$> find_bytes LFLF (String c b)).
    by rewrite !starts_with_cons, Ascii.eqb_refl, (Ascii.eqb_sym nl c), (visible_nl _ Hc).
  - apply one_line_cons in Ha as [Hd Ha]. rewrite append_cons, (find_skip _ _ Hd), (IH Ha).
    by destruct (find_bytes LFLF (String c b)).
Qed.

Lemma find_frame l b : Forall text_line l -> l <> [] ->
  find_bytes LFLF (join NL l ++s LFLF ++s b) = Some (String.length (join NL l)).
Proof.
  induction 1 as [|a l [Ha Hne] Hl IH]; [done|]. intros _. destruct l as [|x l]; [by apply find_end|].
  change (join NL (a :: x :: l)) with (a ++s NL ++s join NL (x :: l)). rewrite !append_assoc.
  specialize (IH ltac:(done)). inversion Hl as [|? ? [Hx Hxne] _]; subst.
  destruct x as [|c x]; [done|]. apply one_line_cons in Hx as [Hc _].
  assert (exists r, join NL (String c x :: l) = String c r) as [r E] by (destruct l; [by eexists|by eexists]).
  rewrite E in *. rewrite append_cons in *. rewrite (find_later _ _ _ Ha Hc), IH. simpl. f_equal.
  rewrite !length_append. simpl. lia.
Qed.

Lemma str_drop_all s : str_drop (String.length s) s = "".
Proof. induction s as [|c s IH]; [done|]. simpl. by rewrite str_drop_cons. Qed.

Lemma frames_frame l b : Forall text_line l -> l <> [] ->
  frames (join NL l ++s LFLF ++s b) = (join NL l :: fst (frames b), snd (frames b)).
Proof.
  intros Hl Hne. unfold frames. set (t := join NL l ++s LFLF ++s b).
  assert (exists n, String.length t = S n /\ (String.length b <= n)%nat) as (n & En & Hn).
  { unfold t. rewrite !length_append. exists (String.length (join NL l) + 1 + String.length b)%nat. simpl. lia. }
  rewrite En. cbn [split_frames]. unfold t. rewrite (find_frame _ _ Hl Hne).
  assert (Ed : str_drop (String.length (join NL l) + 2) (join NL l ++s LFLF ++s b) = b).
  { rewrite <- append_assoc, str_drop_app by (rewrite length_append; simpl; lia).
    replace (String.length (join NL l) + 2)%nat with (String.length (join NL l ++s LFLF)) by (rewrite length_append; simpl; lia).
    by rewrite str_drop_all. }
  rewrite Ed, (split_frames_fuel n (String.length b)) by done. destruct (split_frames (String.length b) b) as [fs r].
  rewrite str_take_app, str_take_ge, Nat.sub_diag, str_take_0, append_nil_r by done. done.
Qed.

(** ** Numbers *)

Definition digit (c : ascii) : bool := (48 <=? byte c) && (byte c <=? 57).

Lemma byte_digit m : 0 <= m < 10 -> byte (ascii_of_nat (48 + Z.to_nat m)) = 48 + m.
Proof. intros Hm. unfold byte. rewrite nat_ascii_embedding; lia. Qed.

Lemma show_fuel_digits fuel : forall n acc, 0 <= n -> str_forallb digit (show_fuel fuel n acc) = str_forallb digit acc.
Proof.
  induction fuel as [|fuel IH]; intros n acc Hn; [done|]. cbn [show_fuel]. pose proof (Z.mod_pos_bound n 10 ltac:(lia)).
  assert (Hd : digit (ascii_of_nat (48 + Z.to_nat (n mod 10))) = true).
  { unfold digit. rewrite byte_digit by lia. apply andb_true_intro. split; apply Z.leb_le; lia. }
  destruct (n <? 10); [|rewrite IH by (apply Z.div_pos; lia)]; cbn [str_forallb]; by rewrite Hd.
Qed.

Lemma show_fuel_nonempty fuel : forall n acc, (fuel <> 0)%nat \/ acc <> "" -> show_fuel fuel n acc <> "".
Proof.
  induction fuel as [|fuel IH]; intros n acc Ha; [by destruct Ha|]. cbn [show_fuel]. destruct (n <? 10); [done|].
  apply IH. by right.
Qed.

Lemma parse_show fuel : forall n acc, 0 <= n < 10 ^ Z.of_nat fuel -> n <= u64_max ->
  parse_digits (show_fuel fuel n acc) 0 = parse_digits acc n.
Proof.
  induction fuel as [|fuel IH]; intros n acc Hn Hm; [simpl in Hn; by replace n with 0 by lia|]. cbn [show_fuel].
  pose proof (Z.mod_pos_bound n 10 ltac:(lia)) as Hr. pose proof (Z.div_mod n 10 ltac:(lia)) as Hdm.
  assert (Hstep : forall k, k * 10 + n mod 10 = n ->
    parse_digits (String (ascii_of_nat (48 + Z.to_nat (n mod 10))) acc) k = parse_digits acc n).
  { intros k Hk. cbn [parse_digits]. rewrite (byte_digit _ Hr). rewrite (proj2 (Z.leb_le 48 _)), (proj2 (Z.leb_le _ 57)) by lia.
    cbn [andb]. replace (k * 10 + (48 + n mod 10 - 48)) with n by lia. by rewrite (proj2 (Z.ltb_ge u64_max n)). }
  destruct (Z.ltb_spec n 10) as [Hlt|Hge].
  - apply Hstep. rewrite Z.mod_small by lia. lia.
  - rewrite Nat2Z.inj_succ, Z.pow_succ_r in Hn by lia. rewrite IH; [apply Hstep; lia| |].
    + split; [apply Z.div_pos; lia|apply Z.div_lt_upper_bound; lia].
    + pose proof (Z.div_le_upper_bound n 10 n ltac:(lia) ltac:(lia)). lia.
Qed.

Lemma show_u64_text n : 0 <= n -> str_forallb digit (show_u64 n) = true /\ show_u64 n <> "".
Proof.
  intros Hn. split; [by apply show_fuel_digits|]. apply show_fuel_nonempty. by left.
Qed.

Lemma digits_no_sign s : str_forallb digit s = true -> match s with String "+" r => r | _ => s end = s.
Proof.
  destruct s as [|c s]; [done|]. cbn [str_forallb]. intros [Hc _]%andb_prop.
  destruct (Ascii.eqb_spec c "+"%char) as [->|Hne]; [by vm_compute in Hc|].
  destruct c as [[] [] [] [] [] [] [] []]; first [reflexivity|by destruct Hne|by vm_compute in Hc].
Qed.

Lemma parse_show_u64 n : 0 <= n <= u64_max -> parse_u64 (show_u64 n) = Some n.
Proof.
  intros [Hn Hm]. destruct (show_u64_text n Hn) as [Hd Hne]. unfold parse_u64. rewrite (digits_no_sign _ Hd).
  destruct (show_u64 n) as [|c s] eqn:E; [done|]. rewrite <- E. unfold show_u64. rewrite parse_show; [done| |done].
  split; [done|]. eapply Z.le_lt_trans; [exact Hm|]. by vm_compute.
Qed.

Lemma trim_start_digits three two fuel s : (forall a b, digit a = true -> two (byte a) b = false) ->
  (forall a b c, digit a = true -> three (byte a) b c = false) -> str_forallb digit s = true -> trim_start_fuel three two fuel s = s.
Proof.
  intros H2 H3 Hs. destruct fuel as [|fuel]; [done|]. destruct s as [|a s]; [done|]. cbn [str_forallb] in Hs.
  apply andb_prop in Hs as [Ha _]. cbn [trim_start_fuel].
  assert (bytes1 (byte a) = false) as ->.
  { unfold digit in Ha. apply andb_prop in Ha as [H1%Z.leb_le _]. unfold bytes1.
    rewrite (proj2 (Z.leb_gt (byte a) 13)), (proj2 (Z.eqb_neq (byte a) 32)) by lia. by rewrite andb_false_r. }
  destruct s as [|b s]; [done|]. rewrite (H2 _ _ Ha). destruct s as [|c s]; [done|]. by rewrite (H3 _ _ _ Ha).
Qed.

Lemma digit_bounds c : digit c = true -> 48 <= byte c <= 57.
Proof. unfold digit. intros [H1%Z.leb_le H2%Z.leb_le]%andb_prop. lia. Qed.

Lemma digits_rev s : str_forallb digit s = true -> str_forallb digit (str_rev s) = true.
Proof.
  induction s as [|c s IH]; [done|]. cbn [str_forallb]. intros [Hc Hs]%andb_prop. rewrite str_rev_cons, str_forallb_app, (IH Hs).
  simpl. by rewrite Hc.
Qed.

Lemma trim_digits s : str_forallb digit s = true -> trim s = s.
Proof.
  intros Hs. unfold trim, trim_start. rewrite trim_start_digits; [|..|done].
  - unfold trim_end. rewrite trim_start_digits; [by rewrite str_rev_involutive|..|by apply digits_rev].
    + intros a b Ha%digit_bounds. unfold bytes2. destruct (b =? 194); [|done]. simpl.
      rewrite (proj2 (Z.eqb_neq (byte a) 133)), (proj2 (Z.eqb_neq (byte a) 160)) by lia. done.
    + intros a b c Ha%digit_bounds. unfold bytes3.
      rewrite (proj2 (Z.eqb_neq (byte a) 128)), (proj2 (Z.leb_gt 128 (byte a))), (proj2 (Z.eqb_neq (byte a) 168)),
        (proj2 (Z.eqb_neq (byte a) 169)), (proj2 (Z.eqb_neq (byte a) 175)), (proj2 (Z.eqb_neq (byte a) 159)) by lia.
      by rewrite !andb_false_r.
  - intros a b Ha%digit_bounds. unfold bytes2. by rewrite (proj2 (Z.eqb_neq (byte a) 194)) by lia.
  - intros a b c Ha%digit_bounds. unfold bytes3.
    by rewrite (proj2 (Z.eqb_neq (byte a) 225)), (proj2 (Z.eqb_neq (byte a) 226)), (proj2 (Z.eqb_neq (byte a) 227)) by lia.
Qed.

Lemma trim_gap s : trim (" " ++s s) = trim s /\ trim_start (" " ++s s) = trim_start s.
Proof. by split. Qed.

Lemma header_of_digits s : str_forallb digit s = true -> header_text s = true.
Proof.
  unfold header_text. induction s as [|c s IH]; [done|]. cbn [str_forallb]. intros [Hc%digit_bounds Hs]%andb_prop. rewrite (IH Hs).
  by rewrite (proj2 (Z.leb_le 32 _)), (proj2 (Z.ltb_lt _ 127)) by lia.
Qed.

Lemma one_line_digits s : str_forallb digit s = true -> one_line s.
Proof.
  unfold one_line. induction s as [|c s IH]; [done|]. cbn [str_forallb]. intros [Hc%digit_bounds Hs]%andb_prop. rewrite (IH Hs).
  unfold visible. by rewrite (proj2 (Z.leb_le 32 _)) by lia.
Qed.

Lemma show_u64_line n : 0 <= n <= u64_max -> one_line (show_u64 n).
Proof. intros Hn. apply one_line_digits. by destruct (show_u64_text n ltac:(lia)). Qed.

(** ** Events *)

Section frames.
  Context `{Outside} `{SseText} (display : StoreError -> string).

(** What serde_json's printer does with an object: one line without control
    characters, which its parser reads back. *)
Record printed (v : json) : Prop := {
  pr_brace : starts_with "{" (to_string v) = true;
  pr_line : one_line (to_string v);
  pr_back : from_str (to_string v) = Some v }.

(** The event as a client sees it, whether it comes from the store or was published. *)
Definition api_value (e : RecordedEvent) : json :=
  jobject [("id", jnum (re_id e)); ("session_id", JString (re_session_id e));
           ("schema_version", jnum (re_schema_version e)); ("occurred_at", JString (re_occurred_at e));
           ("type", JString (event_type (re_event e))); ("data", event_data (re_event e))].
Definition raw_data_of (e : RecordedEvent) : Prop :=
  re_raw_data e = None \/ re_raw_data e = Some (event_data (re_event e)).

Lemma event_for_sse_value e : raw_data_of e ->
  event_for_sse display e = mkSseEvent (Some (show_u64 (re_id e))) (event_type (re_event e)) (to_string (api_value e)).
Proof.
  intros Hraw. unfold event_for_sse, api_event. rewrite event_typed. cbn [ok_or mbind result_mbind].
  assert (E : default (default JNull (get "data" (event_to_value (re_event e)))) (re_raw_data e) = event_data (re_event e))
    by (destruct Hraw as [-> | ->]; done).
  rewrite E. fold (api_value e).
  assert (Et : (t ← get "type" (api_value e); as_str t) = Some (event_type (re_event e))) by reflexivity.
  by rewrite Et.
Qed.

Lemma event_type_line e : one_line (event_type e).
Proof. by destruct e. Qed.

Lemma text_line_prefix p s : one_line p -> p <> "" -> one_line s -> text_line (p ++s sse_gap ++s s).
Proof.
  intros Hp Hne Hs. split; [|by destruct p]. rewrite !one_line_app. split_and!; [done| |done].
  by destruct sse_gap_space as [-> | ->].
Qed.

Lemma parse_sse_lines n name data : 0 <= n <= u64_max -> one_line name -> one_line data -> starts_with "{" data = true ->
  parse_frame (join NL ["id:" ++s sse_gap ++s show_u64 n; "event:" ++s sse_gap ++s name; "data:" ++s sse_gap ++s data])
  = (Some n, data).
Proof.
  intros Hn Hname Hdata Hb. destruct (show_u64_text n ltac:(lia)) as [Hd _]. unfold parse_frame. rewrite lines_join.
  2: { repeat constructor; try (apply text_line_prefix; try done; by apply one_line_digits). all: by destruct sse_gap_space as [-> | ->]. }
  assert (Hid : parse_frame_line (None, "") ("id:" ++s sse_gap ++s show_u64 n) = (Some n, "")).
  { unfold parse_frame_line. rewrite (proj2 (strip_prefix_Some _ _ _) eq_refl).
    assert (trim (sse_gap ++s show_u64 n) = show_u64 n) as ->.
    { destruct sse_gap_space as [-> | ->]; [|rewrite (proj1 (trim_gap _))]; by apply trim_digits. }
    by rewrite parse_show_u64. }
  cbn [foldl]. rewrite Hid. change (parse_frame_line (Some n, "") ("event:" ++s sse_gap ++s name)) with (Some n, "").
  unfold parse_frame_line. change (strip_prefix "id:" ("data:" ++s sse_gap ++s data)) with (@None string). cbv iota.
  rewrite (proj2 (strip_prefix_Some "data:" _ _) eq_refl). cbn [is_empty].
  assert (trim_start (sse_gap ++s data) = data) as ->; [|done].
  apply starts_with_spec in Hb as [r ->].
  destruct sse_gap_space as [-> | ->]; [|rewrite (proj2 (trim_gap _))]; by destruct r as [|? [|? ?]].
Qed.

(** What the stream sends: an event, or a comment that keeps the connection alive. *)
Definition item_text (i : option RecordedEvent) : string :=
  match i with Some e => sse_text (event_for_sse display e) | None => keep_alive end.
Definition stream_text (items : list (option RecordedEvent)) : string := str_concat (item_text <$> items).

Definition sendable (e : RecordedEvent) : Prop :=
  0 <= re_id e <= u64_max /\ raw_data_of e /\ printed (api_value e).

Lemma stream_text_events items : Forall sendable (omap id items) ->
  text_events (stream_text items) = (fun e => (Some (re_id e), api_value e)) <$> omap id items.
Proof.
  unfold text_events, stream_text. induction items as [|[e|] items IH]; [done| |]; cbn [omap list_omap fmap list_fmap id].
  - intros [(Hn & Hraw & [Hb Hl Hp]) Hi]%Forall_cons. cbn [str_concat foldr item_text].
    rewrite (event_for_sse_value e Hraw), sse_text_lines; [|by apply show_u64_line|apply event_type_line|done].
    rewrite append_assoc. fold (str_concat (item_text <$> items)).
    rewrite frames_frame; [| |done].
    2: { repeat constructor; try (apply text_line_prefix; try done; first [exact Hl|by apply show_u64_line|apply event_type_line]).
         all: by destruct sse_gap_space as [-> | ->]. }
    cbn [fst omap list_omap]. unfold event_of_frame at 1. rewrite (parse_sse_lines _ _ _ Hn (event_type_line _) Hl Hb).
    apply starts_with_spec in Hb as [r Hb]. rewrite Hp. simpl. by rewrite Hb, (IH Hi).
  - intros Hi. cbn [str_concat foldr item_text]. fold (str_concat (item_text <$> items)).
    rewrite keep_alive_text. destruct sse_gap_space as [-> | ->].
    + change (":" ++s "" ++s "keep-alive" ++s LFLF) with (join NL [":keep-alive"] ++s LFLF). rewrite append_assoc.
      rewrite frames_frame by (repeat constructor; done). cbn [fst omap list_omap]. by apply IH.
    + change (":" ++s " " ++s "keep-alive" ++s LFLF) with (join NL [": keep-alive"] ++s LFLF). rewrite append_assoc.
      rewrite frames_frame by (repeat constructor; done). cbn [fst omap list_omap]. by apply IH.
Qed.

(** What the client follows: the events of a session as it sees them. *)
Definition seen_log (log : list RecordedEvent) : list (Z * json) := (fun e => (re_id e, api_value e)) <$> log.

Lemma filter_fmap {A B} (f : A -> B) P l : List.filter P (f <$> l) = f <$> List.filter (fun a => P (f a)) l.
Proof. induction l as [|a l IH]; [done|]. cbn [fmap list_fmap List.filter]. rewrite IH. by destruct (P (f a)). Qed.

End frames.

(** C13. What the server streams is what the client sees.  The stream that answers
    the request of a client resumes where the client says.  Its text has, between
    the comments that keep it alive, one frame for every event; the client's parser
    finds in it exactly these events, each with its id and its data as the server
    has them, wherever it is cut between characters. *)
Theorem streamed_text_is_understood `{Outside} `{SseText} display session_id token last log items chunks unsent :
  0 <= last <= u64_max -> Forall sendable log ->
  omap id items = List.filter (fun e => last <? re_id e) log ->
  Forall (fun c => from_utf8_lossy c = c) chunks -> str_concat chunks ++s unsent = stream_text display items ->
  parse_last_event_id (hq_last_event_id (stream_request session_id token last)) = Ok last
  /\ delivers (seen_log log) last (Connected (Bytes <$> chunks))
  /\ (unsent = "" -> delivers_all (seen_log log) last (Connected (Bytes <$> chunks))).
Proof.
  intros Hlast Hlog Hitems Hchunks Htext.
  assert (Ht : text_events (str_concat chunks ++s unsent) = tagged (List.filter (fun e => last <? e.1) (seen_log log))).
  { rewrite Htext, stream_text_events.
    - rewrite Hitems. unfold seen_log, tagged. by rewrite filter_fmap, <- list_fmap_compose.
    - rewrite Hitems. apply Forall_forall. intros e [_ He]%list_elem_of_In%filter_In%(and_comm _ _).
      rewrite Forall_forall in Hlog. by apply Hlog, list_elem_of_In. }
  split_and!.
  - cbn [hq_last_event_id stream_request parse_last_event_id]. destruct (show_u64_text last ltac:(lia)) as [Hd _].
    by rewrite (header_of_digits _ Hd), parse_show_u64.
  - by exists chunks, unsent.
  - intros ->. exists chunks. by rewrite append_nil_r in Ht.
Qed.

(** ** Witness *)

(** Two events, printed as their ids in braces. *)
Definition streamed : list RecordedEvent :=
  [mkRecorded 4 "s" 1 "t" QueuePaused None; mkRecorded 12 "s" 1 "u" QueueResumed (Some JNull)].
Definition print_id (v : json) : string :=
  match get "id" v with Some (JNumber (PosInt n)) => "{" ++s show_u64 n ++s "}" | _ => "" end.
Definition parse_id (s : string) : option json :=
  api_value <$> List.find (fun e => String.eqb (print_id (api_value e)) s) streamed.
#[local] Instance id_outside : Outside := outside_with (fun _ => answer ["hi"]) parse_id print_id.

Definition sse_lines (e : SseEvent) : string :=
  match se_id e with
  | Some id => join NL ["id: " ++s id; "event: " ++s se_event e; "data: " ++s se_data e] ++s LFLF
  | None => join NL ["event: " ++s se_event e; "data: " ++s se_data e] ++s LFLF
  end.
#[local] Instance id_text : SseText := {|
  sse_text := sse_lines; keep_alive := ": keep-alive" ++s LFLF; sse_gap := " ";
  sse_gap_space := or_intror eq_refl; sse_text_lines := fun _ _ _ _ _ _ => eq_refl; keep_alive_text := eq_refl |}.

Definition streamed_items : list (option RecordedEvent) := [None; Some (mkRecorded 12 "s" 1 "u" QueueResumed None); None].

(** A client with checkpoint 4 gets the event 12 in two pieces. *)
Lemma streamed_text_is_understood_witness :
  parse_last_event_id (Some "4") = Ok 4
  /\ delivers_all (seen_log streamed) 4 (Connected (Bytes <$>
       [str_take 20 (stream_text (fun _ => "") streamed_items); str_drop 20 (stream_text (fun _ => "") streamed_items)])).
Proof.
  destruct (streamed_text_is_understood (fun _ => "") "s" None 4
    [mkRecorded 4 "s" 1 "t" QueuePaused None; mkRecorded 12 "s" 1 "u" QueueResumed None] streamed_items
    [str_take 20 (stream_text (fun _ => "") streamed_items); str_drop 20 (stream_text (fun _ => "") streamed_items)] "")
    as (Hid & _ & Hall).
  - vm_compute. split; discriminate.
  - repeat constructor; try (vm_compute; reflexivity); vm_compute; first [discriminate|by left].
  - reflexivity.
  - repeat constructor; vm_compute; reflexivity.
  - vm_compute. reflexivity.
  - split; [exact Hid|exact (Hall eq_refl)].
Defined.
